(* ===== verification/_CoqProject ===== *)
-Q . S2P
Prelude.v
Effects.v
Primitives.v
ModelAlloy.v
Errors.v
Ports.v
Lifecycle.v
Nonce.v
NoncePool.v
GasOracle.v
Policy.v
Signer.v
Signing.v
TransactionManager.v
Executor.v
ExecutorSpec.v
Submission.v
Store.v
ModelSerde.v
StoreSpec.v
Progress.v
Gelato.v
Preview.v
Facade.v
Session.v
Ownership.v
Races.v
Atomicity.v
Durable.v
Telemetry.v
TelemetrySpec.v
MoonPay.v
Accounts.v
Transport.v
TransportBuild.v
Connect.v
Read.v
Keys.v
Ens.v
Pricing.v
Wire.v
Mocks.v
ExecutorTests.v
Conformance.v
PipelineTests.v
AdapterTests.v
