(* ===== verification/Prelude.v ===== *)
(** * walletkit: a verification of its send, tracking and account logic

    walletkit ([src/src/]) is a client-side EVM wallet: hexagonal, with the domain in
    [core/], one object-safe trait per outside dependency in [core/deps/], the adapters
    in [adapters/] and a composition root in [facade.rs].  This library models the
    program's own logic in Gallina, component by component, and proves what makes each
    correct.

    ** How the program is modelled

    A method that touches the outside is a program over ports ([Effects]): a tree of
    requests, one constructor of [Ports.port] per trait method, whose continuation takes
    whatever response comes back.  [triple Env G m tr Q] says that from history [tr],
    against any environment whose responses satisfy [Env], the program makes a call only
    where [G] allows it and ends in a history and value satisfying [Q].  With
    [Env = any_response] a theorem holds for every node, store, signer, policy and relay,
    and for every interleaving with other tasks on the same ports.  Contracts between
    components are such [Env]s ([gas_env], [policy_env], [signer_env], [native_env]); the
    implementing component discharges them, and [interp_guarded] carries a client's
    theorem over to the composed program.  Errors are values of [result]; Rust's [?] is
    [let?].  Machine integers are [Z] with the wrap, saturation and casts of the source
    written out (release builds: plain [+] wraps).  Pure functions are Gallina functions.

    Code outside the repository is a parameter: alloy's hashing, encodings and signature
    normalization are the class [Alloy] with the laws the code relies on in [AlloyLaws]
    (instantiated in [ModelAlloy], with a small polynomial hash in place of keccak256); serde's encodings of store rows are [Serde]: bytes with
    their round trip, and JSON values, which hold no integer above [u64::MAX] ([ModelSerde]); the wasmtime engine is [Wasmtime]; BIP-39, BIP-32
    and alloy's key loading are [Bip39], [Bip32] and [KeyLoading], their laws separate
    classes with an instance in [Keys]; an alloy provider is a signature of its own below
    the ports ([Transport.provider], [Read.view]); HTTP, JSON parsing, ABI coding and text
    forms are section variables.

    Concurrency is explicit where it matters: [Effects.tasks_step] interleaves any number
    of programs over a shared environment one call at a time, starts and drops them, and
    [tasks_invariant] proves an invariant of the environment from one triple per task;
    [logged_step] keeps the history of each task besides, for invariants that tie the
    environment to what every task has done ([logged_invariant]).

    ** Files and what they model

    - [Prelude]: integers, [result], bytes, strings, tactics.  [Effects]: programs over
      ports, histories, [triple] and its rules, runs, composition, concurrent tasks, and the
      equivalence of programs that make the same calls.
    - [Primitives]: [core/wallet/primitives/], routes and gasless requests.  [Errors]:
      every error enum, the broadcast classifiers of [deps/submission.rs] and [error.rs].
      [Ports]: the traits of [core/deps/].
    - [Lifecycle]: [executor/lifecycle.rs], the pure status machine.  A handle settles only
      on evidence in a final block, settled statuses are stable, sufficient evidence always
      settles it.
    - [Nonce], [NoncePool]: [adapters/nonce.rs].  The [{next, free}] state implements the
      set of nonces in use; release undoes allocate; the retry loops end; any interleaving
      of operations over a compare-and-swap store is linearizable and never hands out a
      nonce twice, also when the store commits a write and reports it failed.
    - [GasOracle]: [adapters/gas_oracle.rs], replacement prices.  [Policy]:
      [adapters/policy/native.rs], the deny-over-allow engine.  [MoonPay]:
      [adapters/policy/moonpay.rs] and its sandbox [wasm.rs].  [Signer], [Signing]: [adapters/signers.rs] and
      [core/wallet/signing.rs], the approval gate and transaction assembly.
    - [TransactionManager]: [core/wallet/transaction_manager.rs].  The order of the send
      pipeline, its nonce ledger, every error, cancel by replacement, and gasless requests;
      what the pipeline makes of a failed release and of a cancel that times out.
    - [Executor], [ExecutorSpec]: [core/wallet/executor/mod.rs].  Confirmation writes only
      what it has evidence for and refines [Lifecycle]; recovery and escalation broadcast
      only what they should, within the approved envelope, and private transactions stay
      private through a tick.  [Progress]: the confirm phase run on the in-memory store
      against nodes that answer, with the nonce manager's reset on that store, is the machine
      of [Lifecycle] run on every stored handle, so handles settle once the evidence is final.
    - [Submission]: [adapters/submission/] and [adapters/http.rs], routing and the triage
      of relay answers.
    - [Store], [StoreSpec]: [adapters/store/].  The redb and Postgres stores, with backend
      faults as inputs, are observably the in-memory store, Postgres refusing handles with
      fee caps above [u64::MAX]; the in-memory store implements the cell [NoncePool] assumes.
    - [Gelato]: [adapters/relay/gelato.rs] and the options of [deps/relay.rs].
      [Preview]: [core/wallet/preview.rs].
    - [Facade]: [facade.rs].  What [build] wires, gasless sends, the background loop, and
      that everything a wallet wired from the native adapters lets out is authorized.
      [Session]: any number of wallets' operations and loops, interleaved over one store,
      with lossy writes, pending handles listed in any order and dropped tasks: every stored
      handle stays well formed and every broadcast is backed by the rules, caps and key of
      its own account, or is a self-send backed by those of whoever cancels.
    - [Ownership]: the same operations over one nonce pool.  A send owns the nonce it was
      handed until it gives it back, no two possibly live broadcasts of sends share one.
      [Races]: two runs outside its reach, in which a nonce is given back under a live
      transaction: a store that loses an acknowledgement, a cancel that overtakes its send.
      [Atomicity]: the pool of [Ownership] is implemented by the manager's loops over the
      store, by a simulation of every interleaving.  [Durable]: the class of stores that
      simulate the in-memory one, redb and Postgres its instances; sessions over any of them
      are sessions over the in-memory store.
    - [Telemetry], [TelemetrySpec]: [obs.rs] and every span and event of the pipeline, the
      executor, the wallet, its adapters and the durable stores.  What the logs say is borne
      out by the calls made, in allow-listed fields.  Without their records the instrumented
      functions are the plain ones (the [erase_] lemmas, up to the program equivalence of
      [Effects]), which carries the theorems of the plain functions over to them.
    - [Transport], [TransportBuild]: [adapters/transport/].  The [Rpc] port over provider
      calls, what its errors mean, and how endpoints are configured and refreshed.
      [Connect]: the connect shortcuts and [adapters/clock.rs], and the authorization
      theorem of [Facade] carried down to the provider.
    - [Accounts]: [core/accounts/primitives.rs] and [adapters/accounts.rs].  Windowed
      discovery equals a one-by-one gap scan, over the port and ([Transport]) over batched
      provider calls.  [Keys]: the loaders of [adapters/signers.rs], mnemonics, signers and
      extended public keys; a generated phrase has the words asked for and restores the same
      manager, a watch-only service sees the seed's addresses.
    - [Read], [Ens], [Pricing]: [adapters/read.rs], [multicall.rs], [ens.rs] and
      [pricing/].  Chunking is invisible, scans are aligned with what was asked, reverse
      names are forward-verified, prices are fresh.
    - [Wire]: the Flashbots request and header of [submission/private_mev.rs], whose signed
      message determines the request, and the redacting [Debug] renderings.
    - [Mocks]: [testutils.rs], the repository's fixtures, mock ports and harness, as
      environments a program runs against.  [ExecutorTests], [PipelineTests],
      [AdapterTests]: the repository's own tests of the executor and lifecycle, of the
      pipeline, its redaction, gas oracle, facade and redb store, and of the adapters, each a boolean
      program whose assertions are the test's; the model passes them.
    - [Conformance]: the two suites of [testutils.rs] that hold every backend to its
      contract.  They are evaluated on the in-memory store and transferred to redb and
      Postgres through the simulation of [StoreSpec]; the concurrent allocations of the
      nonce suite are proved consecutive for every number of tasks and every schedule, up to
      the writes a store commits without acknowledging.

    ** Fuel and bounds

    Loops of the source that are not structural take fuel.  [Nonce.absorb] gets the size
    of the free set, which each round shrinks.  [Nonce.retry] is unbounded in the source;
    its theorem counts rounds by compare-and-swaps lost.  [cancel_loop] gets two rounds:
    the source reprices once, and [cancel_loop_two_rounds] shows the default unreachable.
    [Accounts.scan_scheme] gets one round more than the indices in range and is proved
    never to run out.  [Prelude.chunks] and [Read.utf8_lossy] get the length of the list,
    of which each round consumes at least one element ([chunks_spec], [utf8_lossy] on valid
    text is the identity).  [Atomicity.expand] gives every nonce loop the same number of
    rounds, any number: a loop that needs more is one still contending when its task was
    dropped.  [Facade.run_loop] ticks once per wake-up of the list it is
    given, of any length, as the host's timer and stop signal do.  Hypotheses on widths
    (fees in [u128], heights and versions in [u64]) are stated where a theorem needs them.

    ** Not modelled

    The tracing crate (a record is handed to it and that is all), the embedded endpoint catalogue (data) and the test
    that reads it, crate re-exports, and the tests that compare against vectors of real
    keccak256, secp256k1 or BIP-32, which are parameters here.  In [build] the
    debug-only assertion against configuring two gasless backends is left out, as in a
    release build. *)
From stdpp Require Export base tactics list gmap strings option.
From Stdlib Require Export ZArith Lia.
From Stdlib Require Import Ascii Strings.Byte.

#[export] Set Default Goal Selector "!".
Global Open Scope Z_scope.

(** ** The development's scope, hint database and tactics *)

Declare Scope wallet_scope.
Delimit Scope wallet_scope with wallet.
Global Open Scope wallet_scope.

Create HintDb walletkit discriminated.

(** Split every boolean guard in the context into its propositional content. *)
Ltac bool_simpl :=
  repeat match goal with
  | H : _ && _ = true |- _ => apply andb_true_iff in H as [? ?]
  | H : _ || _ = false |- _ => apply orb_false_iff in H as [? ?]
  | H : negb _ = true |- _ => apply negb_true_iff in H
  | H : negb _ = false |- _ => apply negb_false_iff in H
  | H : (_ <=? _) = true |- _ => apply Z.leb_le in H
  | H : (_ <=? _) = false |- _ => apply Z.leb_gt in H
  | H : (_ <? _) = true |- _ => apply Z.ltb_lt in H
  | H : (_ <? _) = false |- _ => apply Z.ltb_ge in H
  | H : (_ =? _) = true |- _ => apply Z.eqb_eq in H
  | H : (_ =? _) = false |- _ => apply Z.eqb_neq in H
  | H : bool_decide _ = true |- _ => apply bool_decide_eq_true in H
  | H : bool_decide _ = false |- _ => apply bool_decide_eq_false in H
  end.

(** Destruct the scrutinee of the innermost [match] of the goal or of a hypothesis. *)
Ltac dmatch :=
  match goal with
  | |- context [match ?x with _ => _ end] =>
      lazymatch x with context [match _ with _ => _ end] => fail | _ => destruct x eqn:? end
  | H : context [match ?x with _ => _ end] |- _ =>
      lazymatch x with context [match _ with _ => _ end] => fail | _ => destruct x eqn:? end
  end.

(** ** Machine integers

    A [w]-bit unsigned integer is a [Z] in range.  Plain [+] on machine integers
    is written with the wrap-around of a release build; the saturating and
    ceiling operations are those of the Rust standard library. *)

Definition u8_max : Z := 2 ^ 8 - 1.
Definition u32_max : Z := 2 ^ 32 - 1.
Definition u48_max : Z := 2 ^ 48 - 1.
Definition u64_max : Z := 2 ^ 64 - 1.
Definition u128_max : Z := 2 ^ 128 - 1.
Definition u256_max : Z := 2 ^ 256 - 1.

Definition is_uint (max n : Z) : Prop := 0 <= n <= max.
Abbreviation is_u8 := (is_uint u8_max).
Abbreviation is_u32 := (is_uint u32_max).
Abbreviation is_u64 := (is_uint u64_max).
Abbreviation is_u128 := (is_uint u128_max).
Abbreviation is_u256 := (is_uint u256_max).

Definition wrapping_add (max a b : Z) : Z := (a + b) mod (max + 1).
Definition saturating_add (max a b : Z) : Z := Z.min max (a + b).
Definition saturating_sub (a b : Z) : Z := Z.max 0 (a - b).
Definition saturating_mul (max a b : Z) : Z := Z.min max (a * b).
Definition saturating_to (max a : Z) : Z := Z.min max a.
Definition div_ceil (a b : Z) : Z := (a + b - 1) / b.

Lemma wrapping_add_small max a b :
  0 <= a + b <= max -> wrapping_add max a b = a + b.
Proof. intros H. unfold wrapping_add. apply Z.mod_small. lia. Qed.

Lemma div_ceil_ge a b : 0 < b -> a <= b * div_ceil a b.
Proof.
  intros Hb. unfold div_ceil.
  pose proof (Z.div_mod (a + b - 1) b ltac:(lia)).
  pose proof (Z.mod_pos_bound (a + b - 1) b Hb). lia.
Qed.

Lemma div_ceil_lt a b : 0 < b -> b * div_ceil a b < a + b.
Proof.
  intros Hb. unfold div_ceil.
  pose proof (Z.div_mod (a + b - 1) b ltac:(lia)).
  pose proof (Z.mod_pos_bound (a + b - 1) b Hb). lia.
Qed.

(** ** Results *)

Inductive result (A E : Type) : Type :=
| Ok (a : A)
| Err (e : E).
Arguments Ok {A E} _.
Arguments Err {A E} _.

Definition is_ok {A E} (r : result A E) : bool :=
  match r with Ok _ => true | Err _ => false end.
Definition is_err {A E} (r : result A E) : bool :=
  match r with Ok _ => false | Err _ => true end.
Definition result_ok {A E} (r : result A E) : option A :=
  match r with Ok a => Some a | Err _ => None end.
Definition ok_or {A E} (o : option A) (e : E) : result A E :=
  match o with Some a => Ok a | None => Err e end.
Definition map_res_err {A E F} (f : E -> F) (r : result A E) : result A F :=
  match r with Ok a => Ok a | Err e => Err (f e) end.

#[export] Instance result_eq_dec {A E} `{EqDecision A, EqDecision E} :
  EqDecision (result A E).
Proof. solve_decision. Defined.

(** ** Bytes and big-endian words *)

Abbreviation byte := Byte.byte.
Abbreviation bytes := (list Byte.byte).

#[export] Instance byte_eq_dec : EqDecision byte := Byte.byte_eq_dec.

Definition byte_to_Z (b : byte) : Z := Z.of_N (Byte.to_N b).
Definition byte_of_Z (z : Z) : byte :=
  match Byte.of_N (Z.to_N (z mod 256)) with Some b => b | None => Byte.x00 end.

(** [U256::from_be_slice] and [to_be_bytes]: most significant byte first. *)
Definition be_to_Z (bs : bytes) : Z :=
  fold_left (fun acc b => acc * 256 + byte_to_Z b) bs 0.
Fixpoint Z_to_be (n : nat) (z : Z) : bytes :=
  match n with
  | O => []
  | S n' => Z_to_be n' (z / 256) ++ [byte_of_Z z]
  end.

Lemma byte_to_Z_bound b : 0 <= byte_to_Z b < 256.
Proof.
  unfold byte_to_Z. pose proof (Byte.to_N_bounded b). lia.
Qed.

Lemma byte_to_of_Z z : byte_to_Z (byte_of_Z z) = z mod 256.
Proof.
  unfold byte_to_Z, byte_of_Z.
  pose proof (Z.mod_pos_bound z 256 ltac:(lia)) as Hb.
  destruct (Byte.of_N (Z.to_N (z mod 256))) as [b|] eqn:Hof.
  - apply Byte.to_of_N in Hof. lia.
  - apply Byte.of_N_None_iff in Hof. lia.
Qed.

#[export] Instance byte_countable : Countable byte.
Proof.
  refine (inj_countable' byte_to_Z byte_of_Z _). intros b.
  unfold byte_of_Z, byte_to_Z. pose proof (Byte.to_N_bounded b).
  rewrite Z.mod_small, N2Z.id by lia. by rewrite Byte.of_to_N.
Defined.

Lemma be_to_Z_snoc bs b : be_to_Z (bs ++ [b]) = be_to_Z bs * 256 + byte_to_Z b.
Proof. unfold be_to_Z. by rewrite fold_left_app. Qed.

Lemma length_Z_to_be n z : length (Z_to_be n z) = n.
Proof.
  revert z. induction n as [|n IH]; intros z; [done|].
  cbn [Z_to_be]. rewrite length_app, IH. simpl. lia.
Qed.

(** Encoding then decoding a word is the identity modulo its width. *)
Lemma be_to_Z_to_be n z : be_to_Z (Z_to_be n z) = z mod 256 ^ Z.of_nat n.
Proof.
  revert z. induction n as [|n IH]; intros z.
  - simpl. unfold be_to_Z. simpl. by rewrite Z.mod_1_r.
  - cbn [Z_to_be]. rewrite be_to_Z_snoc, IH, byte_to_of_Z.
    replace (Z.of_nat (S n)) with (Z.succ (Z.of_nat n)) by lia.
    rewrite Z.pow_succ_r by lia.
    rewrite (Z.rem_mul_r z 256) by lia. lia.
Qed.

Lemma Z_to_be_inj n x y :
  0 <= x < 256 ^ Z.of_nat n -> 0 <= y < 256 ^ Z.of_nat n ->
  Z_to_be n x = Z_to_be n y -> x = y.
Proof.
  intros Hx Hy H. apply (f_equal be_to_Z) in H.
  rewrite !be_to_Z_to_be, !Z.mod_small in H; lia.
Qed.

(** ** Strings: the ASCII operations the error classifiers use *)

(** Lower-case hex, two digits per byte. *)
Definition hex_digit (n : Z) : ascii :=
  ascii_of_nat (Z.to_nat (if n <? 10 then 48 + n else 87 + n)).
Fixpoint hex_of_bytes (b : bytes) : string :=
  match b with
  | [] => EmptyString
  | x :: b' =>
      String (hex_digit (byte_to_Z x / 16)) (String (hex_digit (byte_to_Z x mod 16)) (hex_of_bytes b'))
  end.

Lemma hex_digit_inj a b : 0 <= a < 16 -> 0 <= b < 16 -> hex_digit a = hex_digit b -> a = b.
Proof.
  unfold hex_digit. intros Ha Hb H.
  apply (f_equal Ascii.nat_of_ascii) in H.
  destruct (a <? 10) eqn:E1, (b <? 10) eqn:E2; bool_simpl;
    rewrite !Ascii.nat_ascii_embedding in H by lia; lia.
Qed.

Lemma byte_to_Z_inj a b : byte_to_Z a = byte_to_Z b -> a = b.
Proof.
  unfold byte_to_Z. intros H. assert (E : Byte.to_N a = Byte.to_N b) by lia.
  apply (f_equal Byte.of_N) in E. rewrite !Byte.of_to_N in E. congruence.
Qed.

Lemma hex_of_bytes_inj a b : hex_of_bytes a = hex_of_bytes b -> a = b.
Proof.
  revert b. induction a as [|x a IH]; intros [|y b]; simpl; try done.
  intros [= H1 H2 H3]. f_equal; [|auto].
  pose proof (byte_to_Z_bound x). pose proof (byte_to_Z_bound y).
  pose proof (Z.div_mod (byte_to_Z x) 16 ltac:(lia)). pose proof (Z.div_mod (byte_to_Z y) 16 ltac:(lia)).
  pose proof (Z.mod_pos_bound (byte_to_Z x) 16 ltac:(lia)).
  pose proof (Z.mod_pos_bound (byte_to_Z y) 16 ltac:(lia)).
  apply hex_digit_inj in H1; [|lia..]. apply hex_digit_inj in H2; [|lia..].
  apply byte_to_Z_inj. lia.
Qed.

Definition ascii_lower (c : ascii) : ascii :=
  let n := Ascii.nat_of_ascii c in
  if (65 <=? Z.of_nat n) && (Z.of_nat n <=? 90) then Ascii.ascii_of_nat (n + 32)%nat else c.

Fixpoint to_ascii_lowercase (s : string) : string :=
  match s with
  | EmptyString => EmptyString
  | String c s' => String (ascii_lower c) (to_ascii_lowercase s')
  end.

(** [str::contains]: [pat] occurs at some position of [s]. *)
Fixpoint str_contains (pat s : string) : bool :=
  String.prefix pat s ||
  match s with
  | EmptyString => false
  | String _ s' => str_contains pat s'
  end.

(** ** Lists and options shared by the components *)

(** The last element of a list satisfying a partial function, scanning left to right:
    [Iterator::find_map]. *)
Fixpoint find_map {A B} (f : A -> option B) (l : list A) : option B :=
  match l with
  | [] => None
  | x :: l' => match f x with Some y => Some y | None => find_map f l' end
  end.

Lemma find_map_Some {A B} (f : A -> option B) l y :
  find_map f l = Some y -> exists x, x ∈ l /\ f x = Some y.
Proof.
  induction l as [|x l IH]; simpl; [done|].
  destruct (f x) eqn:Hf; intros H.
  - simplify_eq. exists x. split; [constructor|done].
  - destruct (IH H) as (x' & ? & ?). exists x'. split; [by constructor|done].
Qed.

Lemma find_map_None {A B} (f : A -> option B) l :
  find_map f l = None <-> forall x, x ∈ l -> f x = None.
Proof.
  induction l as [|x l IH]; simpl.
  - split; [intros _ ? H; by apply not_elem_of_nil in H|done].
  - destruct (f x) eqn:Hf.
    + split; [done|]. intros H. rewrite (H x) in Hf; [done|constructor].
    + rewrite IH. split.
      * intros H x' [->|?]%elem_of_cons; auto.
      * intros H x' ?. apply H. by constructor.
Qed.

(** [collect] of key-value pairs into a map: a later pair replaces an earlier one. *)
Definition collect_map {K V} `{Countable K} (kvs : list (K * V)) : gmap K V :=
  fold_left (fun m kv => <[fst kv := snd kv]> m) kvs ∅.

Lemma collect_map_lookup {K V} `{Countable K} (kvs : list (K * V)) (k : K) :
  collect_map kvs !! k = find_map (fun kv => if decide (fst kv = k) then Some (snd kv) else None) (rev kvs).
Proof.
  induction kvs as [|kv kvs IH] using rev_ind; [apply lookup_empty|].
  unfold collect_map in *. rewrite fold_left_app, rev_app_distr. simpl. case_decide as E.
  - subst. by rewrite lookup_insert_eq.
  - by rewrite lookup_insert_ne.
Qed.

Lemma collect_map_elem {K V} `{Countable K} (kvs : list (K * V)) (k : K) (v : V) :
  collect_map kvs !! k = Some v -> (k, v) ∈ kvs.
Proof.
  rewrite collect_map_lookup. intros ([k' v'] & Hin & Hf)%find_map_Some. simpl in Hf.
  case_decide; simplify_eq. by apply list_elem_of_In, in_rev, list_elem_of_In.
Qed.

Lemma collect_map_None {K V} `{Countable K} (kvs : list (K * V)) (k : K) :
  collect_map kvs !! k = None <-> forall v, ~ (k, v) ∈ kvs.
Proof.
  rewrite collect_map_lookup, find_map_None. split.
  - intros Hn v Hin. specialize (Hn (k, v)). simpl in Hn. rewrite decide_True in Hn by done.
    by discriminate Hn; apply list_elem_of_In, in_rev; rewrite rev_involutive; apply list_elem_of_In.
  - intros Hn [k' v] Hin. simpl. case_decide; [subst|done]. exfalso. apply (Hn v).
    by apply list_elem_of_In, in_rev, list_elem_of_In.
Qed.

(** A key that occurs with one value only has that value. *)
Lemma collect_map_unique {K V} `{Countable K} (kvs : list (K * V)) (k : K) (v : V) :
  (k, v) ∈ kvs -> (forall v', (k, v') ∈ kvs -> v' = v) -> collect_map kvs !! k = Some v.
Proof.
  intros Hin Hu. destruct (collect_map kvs !! k) as [v'|] eqn:E.
  - apply collect_map_elem in E. by rewrite (Hu v' E).
  - exfalso. rewrite collect_map_None in E. by apply (E v).
Qed.

(** Appending the same text is injective. *)
Lemma string_app_assoc (s1 s2 s3 : string) : (s1 +:+ s2) +:+ s3 = s1 +:+ s2 +:+ s3.
Proof.
  induction s1 as [|c s1 IH]; [done|].
  change (String c ((s1 +:+ s2) +:+ s3) = String c (s1 +:+ s2 +:+ s3)). by rewrite IH.
Qed.

Lemma string_app_inv_tail (s1 s2 t : string) : s1 +:+ t = s2 +:+ t -> s1 = s2.
Proof.
  assert (Hlen : forall a b, String.length (a +:+ b) = (String.length a + String.length b)%nat).
  { intros a b. induction a as [|c a IH]; [done|]. simpl. by rewrite IH. }
  revert s2. induction s1 as [|c s1 IH]; intros [|c2 s2] E; try done.
  - apply (f_equal String.length) in E. rewrite !Hlen in E. simpl in E. lia.
  - apply (f_equal String.length) in E. rewrite !Hlen in E. simpl in E. lia.
  - injection E as -> E. f_equal. by apply IH.
Qed.

(** [slice::chunks]: runs of [n] elements, the last possibly shorter. *)
Fixpoint chunks_fuel {A} (fuel n : nat) (l : list A) : list (list A) :=
  match fuel, l with
  | S fuel', _ :: _ => take n l :: chunks_fuel fuel' n (drop n l)
  | _, _ => []
  end.
Definition chunks {A} (n : nat) (l : list A) : list (list A) := chunks_fuel (length l) n l.

Lemma chunks_fuel_spec {A} (fuel n : nat) (l : list A) :
  (0 < n)%nat -> (length l <= fuel)%nat ->
  concat (chunks_fuel fuel n l) = l /\
  Forall (fun c => c <> [] /\ (length c <= n)%nat) (chunks_fuel fuel n l) /\
  Z.of_nat (length (chunks_fuel fuel n l)) = div_ceil (Z.of_nat (length l)) (Z.of_nat n).
Proof.
  intros Hn. revert l. induction fuel as [|fuel IH]; intros l Hl.
  - destruct l; simpl in Hl; [|lia]. simpl. split_and!; [done|constructor|]. unfold div_ceil.
    rewrite Z.div_small; lia.
  - destruct l as [|x l']; [simpl; split_and!; [done|constructor|unfold div_ceil; rewrite Z.div_small; lia]|].
    set (l := x :: l') in *.
    change (chunks_fuel (S fuel) n l) with (take n l :: chunks_fuel fuel n (drop n l)).
    assert (Hd : (length (drop n l) <= fuel)%nat) by (rewrite length_drop; unfold l in *; simpl in *; lia).
    destruct (IH (drop n l) Hd) as (Hc & Hb & Hk). split_and!.
    + rewrite concat_cons, Hc. apply take_drop.
    + constructor; [|done]. rewrite length_take. split; [|lia]. unfold l. by destruct n; [lia|].
    + cbn [length]. rewrite Nat2Z.inj_succ, Hk, length_drop. unfold div_ceil.
      assert (0 < Z.of_nat (length l)) by (unfold l; simpl; lia).
      destruct (decide (Z.of_nat (length l) <= Z.of_nat n)).
      * replace (length l - n)%nat with 0%nat by lia. rewrite Z.div_small by lia.
        apply Z.div_unique with (r := Z.of_nat (length l) - 1); lia.
      * rewrite Nat2Z.inj_sub by lia.
        replace (Z.of_nat (length l) + Z.of_nat n - 1)
          with (Z.of_nat (length l) - Z.of_nat n + Z.of_nat n - 1 + 1 * Z.of_nat n) by lia.
        rewrite Z.div_add by lia. lia.
Qed.

(** Chunks cover the slice in order, none is empty or longer than [n], and there are as
    many as needed. *)
Lemma chunks_spec {A} (n : nat) (l : list A) :
  (0 < n)%nat ->
  concat (chunks n l) = l /\ Forall (fun c => c <> [] /\ (length c <= n)%nat) (chunks n l) /\
  Z.of_nat (length (chunks n l)) = div_ceil (Z.of_nat (length l)) (Z.of_nat n).
Proof. intros Hn. by apply chunks_fuel_spec. Qed.
