(* ===== verification/Effects.v ===== *)
(** * Effects: programs over ports, their runs and a program logic

    Every component of walletkit talks to the outside through object-safe ports
    ([Arc<dyn Trait>]).  A program over ports is a tree of port calls: [Call p k]
    asks port request [p] and continues with whatever response the environment
    gives.  A property proved of a program with [triple] therefore holds for
    every node, store, relay and signer behaviour, and for every interleaving
    with other tasks that share those ports. *)
From S2P Require Import Prelude.

Section Effects.
Context {P : Type} {R : P -> Type}.

Inductive prog (A : Type) : Type :=
| Ret (a : A)
| Call (p : P) (k : R p -> prog A).
Arguments Ret {A} _.
Arguments Call {A} _ _.

Fixpoint bind {A B} (m : prog A) (f : A -> prog B) : prog B :=
  match m with
  | Ret a => f a
  | Call p k => Call p (fun r => bind (k r) f)
  end.

Definition call (p : P) : prog (R p) := Call p Ret.

(** Rust's [?]: stop at the first error. *)
Definition try_bind {A B E} (m : prog (result A E)) (f : A -> prog (result B E))
  : prog (result B E) :=
  bind m (fun r => match r with Ok a => f a | Err e => Ret (Err e) end).

(** [?] through a [From] conversion of the error. *)
Definition map_err {A E F} (f : E -> F) (m : prog (result A E)) : prog (result A F) :=
  bind m (fun r => Ret (map_res_err f r)).

(** [for x in xs { body(x) }] with the loop state threaded through. *)
Fixpoint for_each {A S} (xs : list A) (s : S) (body : A -> S -> prog S) : prog S :=
  match xs with
  | [] => Ret s
  | x :: xs' => bind (body x s) (fun s' => for_each xs' s' body)
  end.

(** ** Histories

    A history lists the calls made so far with their responses, newest first. *)
Definition event : Type := { p : P & R p }.
Definition trace : Type := list event.

(** [triple Env G m tr Q]: run from history [tr] against any environment whose
    responses satisfy [Env], the program makes a call [p] only in a history
    where [G] allows it, and ends in a history and value satisfying [Q]. *)
Fixpoint triple {A} (Env : forall p, R p -> Prop) (G : trace -> P -> Prop)
    (m : prog A) (tr : trace) (Q : trace -> A -> Prop) : Prop :=
  match m with
  | Ret a => Q tr a
  | Call p k =>
      G tr p /\ forall r, Env p r -> triple Env G (k r) (existT p r :: tr) Q
  end.

Definition any_env : forall p, R p -> Prop := fun _ _ => True.
Definition any_call : trace -> P -> Prop := fun _ _ => True.

Lemma triple_call {A} Env G p (k : R p -> prog A) tr Q :
  G tr p -> (forall r, Env p r -> triple Env G (k r) (existT p r :: tr) Q) ->
  triple Env G (Call p k) tr Q.
Proof. simpl. auto. Qed.

Lemma triple_bind {A B} Env G (m : prog A) (f : A -> prog B) tr Q :
  triple Env G m tr (fun tr' a => triple Env G (f a) tr' Q) ->
  triple Env G (bind m f) tr Q.
Proof.
  revert tr. induction m as [a|p k IH]; intros tr; simpl; [done|].
  intros [? Hk]. split; [done|]. intros r Hr. apply IH. auto.
Qed.

Lemma triple_mono {A} Env G (m : prog A) tr (Q Q' : trace -> A -> Prop) :
  (forall tr' a, Q tr' a -> Q' tr' a) ->
  triple Env G m tr Q -> triple Env G m tr Q'.
Proof.
  intros HQ. revert tr. induction m as [a|p k IH]; intros tr; simpl; [auto|].
  intros [? Hk]. split; [done|]. intros r Hr. apply IH. auto.
Qed.

Lemma triple_guard_mono {A} Env (G G' : trace -> P -> Prop) (m : prog A) tr Q :
  (forall tr' p, G tr' p -> G' tr' p) ->
  triple Env G m tr Q -> triple Env G' m tr Q.
Proof.
  intros HG. revert tr. induction m as [a|p k IH]; intros tr; simpl; [auto|].
  intros [? Hk]. split; [auto|]. intros r Hr. apply IH. auto.
Qed.

Lemma triple_env_mono {A} (Env Env' : forall p, R p -> Prop) G (m : prog A) tr Q :
  (forall p r, Env' p r -> Env p r) ->
  triple Env G m tr Q -> triple Env' G m tr Q.
Proof.
  intros HE. revert tr. induction m as [a|p k IH]; intros tr; simpl; [auto|].
  intros [? Hk]. split; [done|]. intros r Hr. apply IH. auto.
Qed.

Lemma triple_conj {A} Env G (m : prog A) tr (Q Q' : trace -> A -> Prop) :
  triple Env G m tr Q -> triple Env G m tr Q' ->
  triple Env G m tr (fun tr' a => Q tr' a /\ Q' tr' a).
Proof.
  revert tr. induction m as [a|p k IH]; intros tr; simpl; [auto|].
  intros [? Hk] [_ Hk']. split; [done|]. intros r Hr. apply IH; auto.
Qed.

(** Histories only grow. *)
Lemma triple_extends {A} Env G (m : prog A) tr Q :
  triple Env G m tr Q ->
  triple Env G m tr (fun tr' a => Q tr' a /\ exists new, tr' = new ++ tr).
Proof.
  intros H. apply triple_conj; [done|].
  assert (HG : forall tr0, triple Env G m tr0 Q ->
    triple Env G m tr0 (fun tr' _ => exists new, tr' = new ++ tr0)).
  { clear H tr. induction m as [a|p k IH]; intros tr0; simpl; [by exists []|].
    intros [? Hk]. split; [done|]. intros r Hr.
    eapply triple_mono; [|apply IH; auto].
    intros tr' _ [new ->]. exists (new ++ [existT p r]).
    by rewrite <- app_assoc. }
  auto.
Qed.

(** Any program runs to some end. *)
Lemma triple_any {A} (m : prog A) tr : triple any_env any_call m tr (fun _ _ => True).
Proof. revert tr. induction m as [a|p k IH]; intros tr; simpl; [done|]. split; [done|]. intros r _. apply IH. Qed.

(** Loop rule: an invariant of the history and loop state. *)
Lemma triple_for_each {A S} Env G (xs : list A) (s : S) body tr
    (I : trace -> S -> Prop) :
  I tr s ->
  (forall x tr' s', x ∈ xs -> I tr' s' -> triple Env G (body x s') tr' I) ->
  triple Env G (for_each xs s body) tr I.
Proof.
  revert tr s. induction xs as [|x xs IH]; intros tr s HI Hbody; simpl; [done|].
  apply triple_bind. eapply triple_mono; [|apply Hbody; [constructor|done]].
  intros tr' s' HI'. apply IH; [done|]. intros x' ? ? ? ?. apply Hbody; [|done].
  by constructor.
Qed.

(** ** Running against a concrete environment *)

Fixpoint run {S A} (h : forall p, S -> R p * S) (m : prog A) (s : S) (tr : trace)
  : A * S * trace :=
  match m with
  | Ret a => (a, s, tr)
  | Call p k => let '(r, s') := h p s in run h (k r) s' (existT p r :: tr)
  end.

(** Every call of a history was allowed by [G] in the history before it. *)
Fixpoint guarded (G : trace -> P -> Prop) (tr : trace) : Prop :=
  match tr with
  | [] => True
  | e :: tr' => G tr' (projT1 e) /\ guarded G tr'
  end.

(** Adequacy: a triple proved once holds of the run against any environment. *)
Theorem triple_run {S A} (h : forall p, S -> R p * S) Env G (m : prog A) s tr Q :
  (forall p s0, Env p (fst (h p s0))) ->
  guarded G tr ->
  triple Env G m tr Q ->
  let '(a, _, tr') := run h m s tr in Q tr' a /\ guarded G tr'.
Proof.
  intros Henv. revert s tr. induction m as [a|p k IH]; intros s tr Hg; simpl; [done|].
  intros [HG Hk]. destruct (h p s) as [r s'] eqn:Hh.
  apply IH; [done|]. apply Hk. specialize (Henv p s). by rewrite Hh in Henv.
Qed.

End Effects.

Arguments prog {P} R A : assert.
Arguments Ret {P R A} _.
Arguments Call {P R A} _ _.
Arguments event {P} R : assert.
Arguments trace {P} R : assert.

(** ** Implementing ports by programs

    [interp impl m tr] replaces every call by its implementation, a program over another
    signature of calls, keeping the port-level history [tr] as a ghost. *)
Section Interp.
Context {P : Type} {R : P -> Type} {PL : Type} {RL : PL -> Type}.

Fixpoint interp {A} (impl : forall p, prog RL (R p)) (m : prog R A) (tr : trace R)
  : prog RL (A * trace R) :=
  match m with
  | Ret a => Ret (a, tr)
  | Call p k => bind (impl p) (fun r => interp impl (k r) (existT p r :: tr))
  end.

(** If every implementation meets the contract [Env] its clients assume and makes only
    the calls [GL] allows whenever the client's call is one [G] allows, a triple proved
    against the contract holds of the composed program. *)
Theorem interp_guarded {A} (impl : forall p, prog RL (R p)) Env EnvL G GL (m : prog R A) tr Q :
  (forall p tr trl, G tr p -> triple EnvL GL (impl p) trl (fun _ r => Env p r)) ->
  triple Env G m tr Q ->
  forall trl, triple EnvL GL (interp impl m tr) trl (fun _ x => Q (snd x) (fst x)).
Proof.
  intros Himpl. revert tr. induction m as [a|p k IH]; intros tr; simpl; [done|].
  intros [HG Hk] trl. apply triple_bind.
  eapply triple_mono; [|by eapply Himpl]. intros tr' r Hr. simpl. apply IH. auto.
Qed.

Corollary interp_sound {A} (impl : forall p, prog RL (R p)) Env EnvL G (m : prog R A) tr Q :
  (forall p trl, triple EnvL any_call (impl p) trl (fun _ r => Env p r)) ->
  triple Env G m tr Q ->
  forall trl, triple EnvL any_call (interp impl m tr) trl (fun _ x => Q (snd x) (fst x)).
Proof. intros Himpl. apply interp_guarded. auto. Qed.
End Interp.

(** ** Concurrent tasks over shared state

    Several programs run against one shared environment.  [step s p r s'] is how the
    environment answers a call in state [s].  A scheduler may start a task the host is
    allowed to start, let any task make its next call, or drop a task between two calls
    (a cancelled future, an aborted loop, a crashed process). *)
Section Tasks.
Context {P : Type} {R : P -> Type} {S : Type}.
Context (step : S -> forall p, R p -> S -> Prop) (startable : prog R unit -> Prop).

Inductive tasks_step : list (prog R unit) * S -> list (prog R unit) * S -> Prop :=
| TaskStart m ts s : startable m -> tasks_step (ts, s) (m :: ts, s)
| TaskCall ts1 p k ts2 s r s' :
    step s p r s' -> tasks_step (ts1 ++ Call p k :: ts2, s) (ts1 ++ k r :: ts2, s')
| TaskDrop ts1 m ts2 s : tasks_step (ts1 ++ m :: ts2, s) (ts1 ++ ts2, s).

Inductive tasks_reach (s0 : S) : list (prog R unit) * S -> Prop :=
| reach_start : tasks_reach s0 ([], s0)
| reach_step c c' : tasks_reach s0 c -> tasks_step c c' -> tasks_reach s0 c'.

(** A task run on its own, against an environment whose answers are steps, is one such
    schedule. *)
Lemma tasks_run (h : forall p, S -> R p * S) s0 m ts s tr :
  (forall p s, step s p (fst (h p s)) (snd (h p s))) ->
  tasks_reach s0 (m :: ts, s) ->
  tasks_reach s0 (Ret tt :: ts, snd (fst (run h m s tr))).
Proof using Type.
  intros Hh. revert s tr. induction m as [[]|p k IH]; intros s tr Hr; simpl; [done|].
  specialize (Hh p s) as Hs. destruct (h p s) as [r s'] eqn:E. apply IH. simpl in Hs.
  eapply reach_step; [exact Hr|]. by apply (TaskCall [] p k ts s r s').
Qed.

Lemma tasks_run_start (h : forall p, S -> R p * S) s0 m ts s :
  (forall p s, step s p (fst (h p s)) (snd (h p s))) -> startable m ->
  tasks_reach s0 (ts, s) -> tasks_reach s0 (Ret tt :: ts, snd (fst (run h m s []))).
Proof using Type.
  intros Hh Hm Hr. apply tasks_run; [done|]. eapply reach_step; [exact Hr|]. by constructor.
Qed.

(** Run the calls of the tasks in the order [sched] names them by position. *)
Fixpoint schedule (h : forall p, S -> R p * S) (sched : list nat) (c : list (prog R unit) * S)
  : list (prog R unit) * S :=
  match sched with
  | [] => c
  | i :: sched' =>
      match fst c !! i with
      | Some (Call p k) => let '(r, s') := h p (snd c) in schedule h sched' (<[i := k r]> (fst c), s')
      | _ => schedule h sched' c
      end
  end.

Lemma schedule_reach (h : forall p, S -> R p * S) s0 sched c :
  (forall p s, step s p (fst (h p s)) (snd (h p s))) ->
  tasks_reach s0 c -> tasks_reach s0 (schedule h sched c).
Proof using Type.
  intros Hh. revert c. induction sched as [|i sched IH]; intros [ts s] Hr; [done|]. cbn [schedule fst snd].
  destruct (ts !! i) as [[u|p k]|] eqn:Hi; [by apply IH| |by apply IH].
  specialize (Hh p s) as Hs. destruct (h p s) as [r s']. apply IH. eapply reach_step; [exact Hr|].
  simpl in Hs. pose proof (take_drop_middle ts i (Call p k) Hi) as E. rewrite <- E at 1.
  rewrite insert_take_drop by (by eapply lookup_lt_Some). by constructor.
Qed.

(** [valid s e]: what an exchange [e] tells of the state, which no later step undoes.
    [knows valid tr Q]: a task that made the exchanges [tr] may rely on [Q]. *)
Context (valid : S -> event R -> Prop).
Definition knows (tr : trace R) (Q : S -> Prop) : Prop := forall s, Forall (valid s) tr -> Q s.
Definition knows_safe (safe : S -> P -> Prop) (tr : trace R) (p : P) : Prop :=
  knows tr (fun s => safe s p).

Lemma knows_extend new tr Q : knows tr Q -> knows (new ++ tr) Q.
Proof using Type. intros H s Hv. apply H. by apply Forall_app in Hv as [_ ?]. Qed.

Lemma knows_event tr e (Q : S -> Prop) : e ∈ tr -> (forall s, valid s e -> Q s) -> knows tr Q.
Proof using Type. intros He HQ s Hv. apply HQ. rewrite list.Forall_forall in Hv. auto. Qed.

(** If every startable task calls only what its own exchanges make safe, and a safe call
    keeps the invariant, the invariant holds in every reachable state, whatever the
    interleaving, and the next call of every task is safe there. *)
Theorem tasks_invariant (Env : forall p, R p -> Prop) (safe : S -> P -> Prop) (Inv : S -> Prop) s0 :
  (forall m, startable m -> triple Env (knows_safe safe) m [] (fun _ _ => True)) ->
  (forall s p r s' e, step s p r s' -> valid s e -> valid s' e) ->
  (forall s p r s', Inv s -> safe s p -> step s p r s' ->
     Env p r /\ valid s' (existT p r) /\ Inv s') ->
  Inv s0 ->
  forall ts s, tasks_reach s0 (ts, s) ->
  Inv s /\ Forall (fun m => match m with Ret _ => True | Call p _ => safe s p end) ts.
Proof using Type.
  intros Hstart Hmono Hstep H0 ts s Hreach.
  set (task_ok s m := exists tr, Forall (valid s) tr /\
         triple Env (knows_safe safe) m tr (fun _ (_ : unit) => True)).
  enough (H : Inv s /\ Forall (task_ok s) ts).
  { destruct H as [? Hts]. split; [done|]. eapply list.Forall_impl; [exact Hts|].
    intros [u|p k] (tr & Hv & Ht); [done|]. destruct Ht as [HG _]. auto. }
  remember (ts, s) as c eqn:E. revert ts s E.
  induction Hreach as [|c c' Hc IH Hst]; intros ts s E.
  - injection E as <- <-. by split.
  - destruct Hst as [m ts1 s1 Hm|ts1 p k ts2 s1 r s2 Hr|ts1 m ts2 s1]; injection E as <- <-;
      destruct (IH _ _ eq_refl) as [HI Hts].
    + split; [done|]. constructor; [|done]. exists []. auto.
    + apply Forall_app in Hts as [Hts1 Hts2].
      inversion Hts2 as [|? ? Hm Hts2']; subst. destruct Hm as (tr & Hv & HG & Hk).
      destruct (Hstep s1 p r s2 HI (HG s1 Hv) Hr) as (He & Hev & HI').
      assert (Hv' : forall tr, Forall (valid s1) tr -> Forall (valid s2) tr).
      { intros tr' H. eapply list.Forall_impl; [exact H|]. intros e. by eapply Hmono. }
      assert (Hok : forall l, Forall (task_ok s1) l -> Forall (task_ok s2) l).
      { intros l H. eapply list.Forall_impl; [exact H|]. intros m (tr' & ? & ?). exists tr'. auto. }
      split; [done|]. apply Forall_app. split; [auto|]. constructor; [|auto].
      exists (existT p r :: tr). split; [constructor; auto|auto].
    + split; [done|]. apply Forall_app in Hts as [? Hts]. apply Forall_app. split; [done|].
      by inversion Hts.
Qed.
End Tasks.

(** If every answer of an environment is one a related state of another gives, whatever
    tasks do over the first they may do over the second. *)
Lemma tasks_reach_simulates {P : Type} {R : P -> Type} {S S' : Type}
    (step : S -> forall p, R p -> S -> Prop) (step' : S' -> forall p, R p -> S' -> Prop)
    (startable : prog R unit -> Prop) (Rel : S -> S' -> Prop) s0 s0' ts s :
  (forall s t p r s', Rel s t -> step s p r s' -> exists t', step' t p r t' /\ Rel s' t') ->
  Rel s0 s0' -> tasks_reach step startable s0 (ts, s) ->
  exists t, tasks_reach step' startable s0' (ts, t) /\ Rel s t.
Proof.
  intros Hsim H0 Hreach. remember (ts, s) as c eqn:E. revert ts s E.
  induction Hreach as [|c c' _ IH Hst]; intros ts s E.
  { injection E as <- <-. exists s0'. split; [constructor|done]. }
  destruct Hst as [m ts1 s1 Hm|ts1 p k ts2 s1 r s2 Hr|ts1 m ts2 s1]; injection E as <- <-;
    destruct (IH _ _ eq_refl) as (t & Ht & HR).
  - exists t. split; [|done]. eapply reach_step; [exact Ht|by constructor].
  - destruct (Hsim _ _ _ _ _ HR Hr) as (t' & Hr' & HR'). exists t'. split; [|done].
    eapply reach_step; [exact Ht|by constructor].
  - exists t. split; [|done]. eapply reach_step; [exact Ht|constructor].
Qed.

(** ** Tasks with their histories

    The same interleavings, keeping what each task has exchanged so far.  A dropped task
    is one that is never scheduled again, so its history stays. *)
Section Logged.
Context {P : Type} {R : P -> Type} {S : Type}.
Context (step : S -> forall p, R p -> S -> Prop) (startable : prog R unit -> Prop).
Abbreviation task := (prog R unit * trace R)%type.

Inductive logged_step : list task * S -> list task * S -> Prop :=
| LoggedStart m ts s : startable m -> logged_step (ts, s) ((m, []) :: ts, s)
| LoggedCall ts1 p k tr ts2 s r s' :
    step s p r s' ->
    logged_step (ts1 ++ (Call p k, tr) :: ts2, s) (ts1 ++ (k r, existT p r :: tr) :: ts2, s').

Inductive logged_reach (s0 : S) : list task * S -> Prop :=
| logged_start : logged_reach s0 ([], s0)
| logged_next c c' : logged_reach s0 c -> logged_step c c' -> logged_reach s0 c'.

(** Without the histories these are the schedules of [tasks_step]. *)
Lemma logged_erase s0 c :
  logged_reach s0 c -> tasks_reach step startable s0 (map fst (fst c), snd c).
Proof using Type.
  induction 1 as [|c c' _ IH Hst]; [constructor|]. eapply reach_step; [exact IH|].
  destruct Hst; cbn [fst snd]; rewrite ?map_app; by constructor.
Qed.

(** Every task keeps to its guard, and an invariant of the environment and of all
    histories together holds throughout, if it survives every call some guard allows. *)
Theorem logged_invariant (Env : forall p, R p -> Prop) G (Inv : S -> list (trace R) -> Prop) s0 :
  (forall m, startable m -> triple Env G m [] (fun _ _ => True)) ->
  Inv s0 [] ->
  (forall s hs, Inv s hs -> Inv s ([] :: hs)) ->
  (forall s hs1 tr hs2 p r s', Inv s (hs1 ++ tr :: hs2) -> G tr p -> step s p r s' ->
     Env p r /\ Inv s' (hs1 ++ (existT p r :: tr) :: hs2)) ->
  forall ts s, logged_reach s0 (ts, s) -> Inv s (map snd ts) /\ Forall (guarded G) (map snd ts).
Proof using Type.
  intros Hstart H0 Hnew Hstep ts s Hreach.
  set (ok (t : task) := triple Env G (fst t) (snd t) (fun _ _ => True) /\ guarded G (snd t)).
  enough (H : Inv s (map snd ts) /\ Forall ok ts).
  { destruct H as [? Hts]. split; [done|]. apply Forall_map. eapply list.Forall_impl; [exact Hts|].
    by intros t [_ ?]. }
  remember (ts, s) as c eqn:E. revert ts s E.
  induction Hreach as [|c c' _ IH Hst]; intros ts s E.
  - injection E as <- <-. by split.
  - destruct Hst as [m ts1 s1 Hm|ts1 p k tr ts2 s1 r s2 Hr]; injection E as <- <-;
      destruct (IH _ _ eq_refl) as [HI Hts].
    + split; [by apply Hnew|]. constructor; [|done]. split; [by apply Hstart|done].
    + apply Forall_app in Hts as [Hts1 [[[HG Hk] Hg] Hts2]%Forall_cons_1].
      rewrite map_app in *. cbn [map snd] in *.
      destruct (Hstep s1 _ tr _ p r s2 HI HG Hr) as [He HI'].
      split; [done|]. apply Forall_app. split; [done|]. constructor; [|done]. split; cbn; auto.
Qed.

(** Run the calls of the tasks in the order [sched] names them by position. *)
Fixpoint logged_schedule (h : forall p, S -> R p * S) (sched : list nat) (c : list task * S)
  : list task * S :=
  match sched with
  | [] => c
  | i :: sched' =>
      match fst c !! i with
      | Some (Call p k, tr) =>
          let '(r, s') := h p (snd c) in
          logged_schedule h sched' (<[i := (k r, existT p r :: tr)]> (fst c), s')
      | _ => logged_schedule h sched' c
      end
  end.

Lemma logged_schedule_reach (h : forall p, S -> R p * S) s0 sched c :
  (forall p s, step s p (fst (h p s)) (snd (h p s))) ->
  logged_reach s0 c -> logged_reach s0 (logged_schedule h sched c).
Proof using Type.
  intros Hh. revert c. induction sched as [|i sched IH]; intros [ts s] Hr; [done|].
  cbn [logged_schedule fst snd]. destruct (ts !! i) as [[[u|p k] tr]|] eqn:Hi; [by apply IH| |by apply IH].
  specialize (Hh p s) as Hs. destruct (h p s) as [r s']. apply IH. eapply logged_next; [exact Hr|].
  simpl in Hs. pose proof (take_drop_middle ts i (Call p k, tr) Hi) as E. rewrite <- E at 1.
  rewrite insert_take_drop by (by eapply lookup_lt_Some). by constructor.
Qed.
End Logged.

(** ** Programs that behave alike

    [m ≡ n]: the same calls in the same order and the same result, whatever the responses.
    Coarser than equality, which tells continuations apart that agree on every response. *)
Section ProgEq.
Context {P : Type} {R : P -> Type}.

Fixpoint prog_eq {A} (m n : prog R A) : Prop :=
  match m, n with
  | Ret a, Ret b => a = b
  | Call p k, Call q l => exists e : p = q, forall r, prog_eq (k r) (l (eq_rect p R r q e))
  | _, _ => False
  end.
#[export] Instance prog_equiv {A} : Equiv (prog R A) := prog_eq.

Lemma prog_eq_call {A} p (k l : R p -> prog R A) : (forall r, k r ≡ l r) -> Call p k ≡ Call p l.
Proof using Type. intros H. by exists eq_refl. Qed.

#[export] Instance prog_equivalence {A} : Equivalence (≡@{prog R A}).
Proof using Type.
  split.
  - intros m. induction m as [a|p k IH]; [reflexivity|]. by apply prog_eq_call.
  - intros m. induction m as [a|p k IH]; intros [b|q l]; try done. intros [<- H]. apply prog_eq_call.
    intros r. apply IH, H.
  - intros m. induction m as [a|p k IH]; intros [b|q l] [c|q' l']; try done.
    + intros -> H. exact H.
    + intros [<- H] [<- H']. apply prog_eq_call. intros r. eapply IH; [apply H|apply H'].
Qed.

#[export] Instance bind_proper {A B} :
  Proper ((≡) ==> pointwise_relation A (≡) ==> (≡)) (bind (P:=P) (R:=R) (A:=A) (B:=B)).
Proof using Type.
  intros m. induction m as [a|p k IH]; intros [b|q l] Hmn f g Hfg; try done.
  - rewrite Hmn. apply Hfg.
  - destruct Hmn as [<- H]. apply prog_eq_call. intros r. apply IH; [apply H|done].
Qed.

(** A property of one is a property of the other, and so is a run. *)
#[export] Instance triple_proper {A} Env G :
  Proper ((≡) ==> eq ==> eq ==> iff) (triple (P:=P) (R:=R) (A:=A) Env G).
Proof using Type.
  intros m n Hmn tr ? <- Q ? <-. revert n tr Hmn. induction m as [a|p k IH]; intros [b|q l] tr Hmn; try done.
  - by rewrite Hmn.
  - destruct Hmn as [<- H]. simpl.
    split; intros [? Hk]; (split; [done|]); intros r Hr; apply (IH r _ _ (H r)); auto.
Qed.

Lemma run_prog_eq {S A} (h : forall p, S -> R p * S) (m n : prog R A) s tr :
  m ≡ n -> run h m s tr = run h n s tr.
Proof using Type.
  revert n s tr. induction m as [a|p k IH]; intros [b|q l] s tr Hmn; try done.
  - by rewrite Hmn.
  - destruct Hmn as [<- H]. simpl. destruct (h p s) as [r s']. apply IH, H.
Qed.
End ProgEq.

Notation "'let*' x ':=' m 'in' k" := (bind m (fun x => k))
  (at level 10, x pattern, m at level 100, k at level 200,
   format "'[v' 'let*'  x  ':='  m  'in' '/' k ']'") : wallet_scope.
Notation "'let?' x ':=' m 'in' k" := (try_bind m (fun x => k))
  (at level 10, x pattern, m at level 100, k at level 200,
   format "'[v' 'let?'  x  ':='  m  'in' '/' k ']'") : wallet_scope.

(** ** Symbolic execution of [triple] goals *)

Ltac wp_simpl := cbn [bind try_bind map_err map_res_err call].

(** Introduce a response, splitting it when it is a [result]. *)
Ltac wp_resp :=
  let r := fresh "r" in
  let H := fresh "Henv" in
  intros r H;
  let T := type of r in
  let T' := eval hnf in T in
  lazymatch T' with
  | result unit _ => destruct r as [[]|]
  | result _ _ => destruct r
  | _ => idtac
  end.

(** Split the branch a program is stuck on, innermost scrutinee first. *)
Ltac wp_destruct x :=
  lazymatch x with
  | match ?y with _ => _ end => wp_destruct y
  | _ => destruct x eqn:?
  end.
Ltac wp_branch m :=
  lazymatch m with
  | bind ?m' _ => wp_branch m'
  | match ?x with _ => _ end => wp_destruct x
  end.

(** Run a program to its ends, splitting every response and branch; [tac] proves
    each call allowed. *)
Ltac wp_auto tac :=
  wp_simpl;
  lazymatch goal with
  | |- triple _ _ (Call _ _) _ _ => apply triple_call; [solve [tac]|wp_resp; wp_auto tac]
  | |- triple _ _ (Ret _) _ _ => cbn [triple]
  | |- triple _ _ ?m _ _ => tryif wp_branch m then wp_auto tac else idtac
  end.

(** [tr'] extends [tr]: give the calls made in between. *)
Ltac prefix_of full tr :=
  lazymatch full with
  | tr =>
      let T := type of tr in
      let T' := eval hnf in T in
      lazymatch T' with list ?E => constr:(@nil E) end
  | ?e :: ?rest => let l := prefix_of rest tr in constr:(e :: l)
  end.
Ltac give_new :=
  lazymatch goal with
  | |- exists new, ?full = new ++ ?tr /\ _ =>
      let l := prefix_of full tr in exists l; split; [reflexivity|]
  end.

(** Close a goal made of conjunctions, existentials and facts that compute. *)
Ltac fill_in :=
  repeat match goal with
  | |- _ /\ _ => split
  | |- exists _, _ => eexists
  | |- True => exact I
  | |- _ = _ => reflexivity
  end.
