(* ===== verification/Primitives.v ===== *)
(** * Primitives: the wallet's domain types

    The data of [src/src/core/wallet/primitives/] and of the routing and relay
    ports: intents, handles, statuses, approvals, signing requests, gasless
    requests, and the alloy records they are made of.  What alloy computes
    (hashes, encodings, signatures' canonical form) is the parameter class
    [Alloy]; its documented laws are the class [AlloyLaws]. *)
From S2P Require Import Prelude.

(** ** Alloy scalars: big-endian words as integers *)

Abbreviation Address := Z.
Abbreviation B256 := Z.
Abbreviation TxHash := Z.
Abbreviation U256 := Z.
Abbreviation Bytes := (list Byte.byte).
Abbreviation Url := string.

Definition Address_ZERO : Address := 0.

(** [alloy_primitives::TxKind]. *)
Inductive TxKind : Type :=
| TxKind_Create
| TxKind_Call (a : Address).

#[export] Instance TxKind_eq_dec : EqDecision TxKind.
Proof. solve_decision. Defined.

(** [alloy_eips::eip1559::Eip1559Estimation]. *)
Record Eip1559Estimation : Type := mkEstimation {
  max_fee_per_gas : Z;
  max_priority_fee_per_gas : Z;
}.

#[export] Instance Eip1559Estimation_eq_dec : EqDecision Eip1559Estimation.
Proof. solve_decision. Defined.

(** [alloy_primitives::Signature]. *)
Record Signature : Type := mkSignature {
  sig_r : U256;
  sig_s : U256;
  sig_y_parity : bool;
}.

#[export] Instance Signature_eq_dec : EqDecision Signature.
Proof. solve_decision. Defined.

(** [alloy_consensus::TxEip1559], with the (always empty) access list left out. *)
Record TxEip1559 : Type := mkTx {
  tx_chain_id : Z;
  tx_nonce : Z;
  tx_gas_limit : Z;
  tx_max_fee_per_gas : Z;
  tx_max_priority_fee_per_gas : Z;
  tx_to : TxKind;
  tx_value : U256;
  tx_input : Bytes;
}.

#[export] Instance TxEip1559_eq_dec : EqDecision TxEip1559.
Proof. solve_decision. Defined.

(** [alloy_consensus::TxLegacy]. *)
Record TxLegacy : Type := mkLegacy {
  leg_chain_id : option Z;
  leg_nonce : Z;
  leg_gas_price : Z;
  leg_gas_limit : Z;
  leg_to : TxKind;
  leg_value : U256;
  leg_input : Bytes;
}.

#[export] Instance TxLegacy_eq_dec : EqDecision TxLegacy.
Proof. solve_decision. Defined.

(** What [TxEnvelope::decode_2718] yields: an EIP-1559 body or another envelope. *)
Inductive TxEnvelope : Type :=
| Envelope_Eip1559 (tx : TxEip1559) (sig : Signature)
| Envelope_Other.

(** [alloy_rpc_types_eth::Log] and the receipt fields the crate reads. *)
Record LogData : Type := mkLogData {
  log_topics : list B256;
  log_data : Bytes;
}.
Record Log : Type := mkLog {
  log_address : Address;
  log_inner : LogData;
}.
Record TransactionReceipt : Type := mkReceipt {
  receipt_block_number : option Z;
  receipt_block_hash : option B256;
  receipt_status : bool;
  receipt_logs : list Log;
}.

(** The request fields the crate fills ([..Default::default()] elsewhere). *)
Record TransactionRequest : Type := mkRequest {
  req_from : option Address;
  req_to : option TxKind;
  req_value : option U256;
  req_input : Bytes;
}.

(** EIP-712 typed data as [TypedData::from_struct] builds it: the domain, the
    primary type's name and the message's fields in declaration order. *)
Inductive SolValue : Type :=
| SolAddress (a : Address)
| SolUint (n : Z)
| SolBytes (b : Bytes)
| SolBytes32 (h : B256).
Record Eip712Domain : Type := mkDomain {
  dom_name : option string;
  dom_version : option string;
  dom_chain_id : option U256;
  dom_verifying_contract : option Address;
}.
Record TypedData : Type := mkTypedData {
  td_domain : Eip712Domain;
  td_primary_type : string;
  td_message : list (string * SolValue);
}.

#[export] Instance SolValue_eq_dec : EqDecision SolValue.
Proof. solve_decision. Defined.
#[export] Instance Eip712Domain_eq_dec : EqDecision Eip712Domain.
Proof. solve_decision. Defined.
#[export] Instance TypedData_eq_dec : EqDecision TypedData.
Proof. solve_decision. Defined.

(** ** Intents ([primitives/intent.rs]) *)

Abbreviation IntentHash := Z.

Record TxIntent : Type := mkIntent {
  ti_chain_id : Z;
  ti_account : Address;
  ti_to : TxKind;
  ti_value : U256;
  ti_input : Bytes;
  ti_purpose : option string;
}.

#[export] Instance TxIntent_eq_dec : EqDecision TxIntent.
Proof. solve_decision. Defined.

Definition TxIntent_transfer (chain_id : Z) (account to : Address) (value : U256) : TxIntent :=
  mkIntent chain_id account (TxKind_Call to) value [] None.

Definition TxIntent_call (chain_id : Z) (account to : Address) (value : U256)
    (input : Bytes) : TxIntent :=
  mkIntent chain_id account (TxKind_Call to) value input None.

Definition selector (i : TxIntent) : option Bytes :=
  match ti_to i with
  | TxKind_Call _ => if (4 <=? length (ti_input i))%nat then Some (take 4 (ti_input i)) else None
  | TxKind_Create => None
  end.

Definition is_self_send (i : TxIntent) : bool :=
  bool_decide (ti_to i = TxKind_Call (ti_account i)) && (ti_value i =? 0)
  && match ti_input i with [] => true | _ => false end.

(** ** Nonces ([primitives/nonce.rs]) *)

Record NonceState : Type := mkNonceState {
  ns_next : Z;
  ns_free : gset Z;
}.
Definition NonceState_default : NonceState := mkNonceState 0 ∅.

Record NonceScope : Type := mkScope { scope_account : Address }.
Definition eoa (account : Address) : NonceScope := mkScope account.

#[export] Instance NonceScope_eq_dec : EqDecision NonceScope.
Proof. solve_decision. Defined.
#[export] Instance NonceScope_countable : Countable NonceScope.
Proof. by refine (inj_countable' scope_account mkScope _); intros []. Defined.

Record FenceToken : Type := mkFence { fence_u64 : Z }.
Definition SINGLE_WRITER : FenceToken := mkFence 0.
Definition as_u64 (f : FenceToken) : Z := fence_u64 f.

(** [state_store.rs]: a value with its compare-and-swap version; 0 means absent. *)
Record Versioned (T : Type) : Type := mkVersioned {
  v_value : T;
  v_version : Z;
}.
Arguments mkVersioned {T} _ _.
Arguments v_value {T} _.
Arguments v_version {T} _.

(** ** Policy verdicts ([primitives/policy.rs]) *)

Record GasEnvelope : Type := mkEnvelope {
  max_fee_cap : Z;
  max_priority_cap : Z;
}.

#[export] Instance GasEnvelope_eq_dec : EqDecision GasEnvelope.
Proof. solve_decision. Defined.

Definition GasEnvelope_DEFAULT : GasEnvelope := mkEnvelope 1000000000000 50000000000.

Definition admits (e : GasEnvelope) (max_fee max_priority : Z) : bool :=
  (max_fee <=? max_fee_cap e) && (max_priority <=? max_priority_cap e).

Record PolicyApproval : Type := mkApproval {
  pa_payload_hash : B256;
  pa_gas_envelope : GasEnvelope;
  pa_valid_until : Z;
}.

#[export] Instance PolicyApproval_eq_dec : EqDecision PolicyApproval.
Proof. solve_decision. Defined.

Definition mint (payload_hash : B256) (gas_envelope : GasEnvelope) (valid_until : Z)
  : PolicyApproval := mkApproval payload_hash gas_envelope valid_until.

Definition authorizes (a : PolicyApproval) (payload_hash : B256) : bool :=
  pa_payload_hash a =? payload_hash.

Record PolicyRejection : Type := mkRejection {
  pr_rule : string;
  pr_field : option string;
  pr_reason : string;
}.

#[export] Instance PolicyRejection_eq_dec : EqDecision PolicyRejection.
Proof. solve_decision. Defined.

Inductive Decision : Type :=
| Allow (a : PolicyApproval)
| Deny (r : PolicyRejection).

Inductive PolicyOutcome : Type :=
| WouldAllow
| WouldDeny (r : PolicyRejection).

(** ** Submission routes ([deps/submission.rs]) *)

Inductive Escalation : Type :=
| StayPrivate
| PublicAfter (cycles : Z).

Record Hints : Type := mkHints {
  hint_calldata : bool;
  hint_logs : bool;
  hint_function_selector : bool;
  hint_contract_address : bool;
}.
Definition Hints_default : Hints := mkHints false false false false.

Record Flashbots : Type := mkFlashbots {
  fb_escalation : Escalation;
  fb_block_window : option Z;
  fb_fast : bool;
  fb_hints : Hints;
}.
Definition Flashbots_new (e : Escalation) : Flashbots := mkFlashbots e None false Hints_default.
Definition within (blocks : Z) (f : Flashbots) : Flashbots :=
  mkFlashbots (fb_escalation f) (Some blocks) (fb_fast f) (fb_hints f).
Definition fast (f : Flashbots) : Flashbots :=
  mkFlashbots (fb_escalation f) (fb_block_window f) true (fb_hints f).
Definition reveal (h : Hints) (f : Flashbots) : Flashbots :=
  mkFlashbots (fb_escalation f) (fb_block_window f) (fb_fast f) h.

Inductive ProtectRelay : Type :=
| MevBlocker
| Bloxroute
| Custom (url : Url).

Record Protect : Type := mkProtect {
  protect_relay : ProtectRelay;
  protect_escalation : Escalation;
}.
Definition mev_blocker (e : Escalation) : Protect := mkProtect MevBlocker e.
Definition bloxroute (e : Escalation) : Protect := mkProtect Bloxroute e.
Definition custom (url : Url) (e : Escalation) : Protect := mkProtect (Custom url) e.

Inductive PrivateRoute : Type :=
| Route_Flashbots (f : Flashbots)
| Route_Protect (p : Protect).

Definition escalation (r : PrivateRoute) : Escalation :=
  match r with
  | Route_Flashbots f => fb_escalation f
  | Route_Protect p => protect_escalation p
  end.

Inductive SubmissionRoute : Type :=
| Public
| Private (r : PrivateRoute).

Record SubmissionOpts : Type := mkOpts { so_route : SubmissionRoute }.
Definition SubmissionOpts_default : SubmissionOpts := mkOpts Public.
Definition opts_of_flashbots (f : Flashbots) : SubmissionOpts := mkOpts (Private (Route_Flashbots f)).
Definition opts_of_protect (p : Protect) : SubmissionOpts := mkOpts (Private (Route_Protect p)).

#[export] Instance Escalation_eq_dec : EqDecision Escalation.
Proof. solve_decision. Defined.
#[export] Instance Hints_eq_dec : EqDecision Hints.
Proof. solve_decision. Defined.
#[export] Instance Flashbots_eq_dec : EqDecision Flashbots.
Proof. solve_decision. Defined.
#[export] Instance ProtectRelay_eq_dec : EqDecision ProtectRelay.
Proof. solve_decision. Defined.
#[export] Instance Protect_eq_dec : EqDecision Protect.
Proof. solve_decision. Defined.
#[export] Instance PrivateRoute_eq_dec : EqDecision PrivateRoute.
Proof. solve_decision. Defined.
#[export] Instance SubmissionRoute_eq_dec : EqDecision SubmissionRoute.
Proof. solve_decision. Defined.
#[export] Instance SubmissionOpts_eq_dec : EqDecision SubmissionOpts.
Proof. solve_decision. Defined.

(** ** Gasless requests ([primitives/gasless/], [deps/relay.rs]) *)

Record TaskId : Type := mkTaskId { task_str : string }.

Record MetaContext : Type := mkMeta {
  mc_forwarder : Address;
  mc_signer : Address;
  mc_nonce : U256;
  mc_task : option TaskId;
}.

#[export] Instance TaskId_eq_dec : EqDecision TaskId.
Proof. solve_decision. Defined.
#[export] Instance MetaContext_eq_dec : EqDecision MetaContext.
Proof. solve_decision. Defined.

Record ForwardRequest : Type := mkForwardRequest {
  fr_from : Address;
  fr_to : Address;
  fr_value : U256;
  fr_gas : U256;
  fr_nonce : U256;
  fr_deadline : Z;
  fr_data : Bytes;
}.

Record ForwardRequestData : Type := mkForwardRequestData {
  frd_from : Address;
  frd_to : Address;
  frd_value : U256;
  frd_gas : U256;
  frd_deadline : Z;
  frd_data : Bytes;
  frd_signature : Bytes;
}.

Definition to_data (r : ForwardRequest) (signature : Bytes) : ForwardRequestData :=
  mkForwardRequestData (fr_from r) (fr_to r) (fr_value r) (fr_gas r) (fr_deadline r)
    (fr_data r) signature.

Record ForwarderDomain : Type := mkForwarderDomain {
  fd_name : string;
  fd_version : string;
}.
Definition ForwarderDomain_default : ForwarderDomain :=
  mkForwarderDomain "ERC2771Forwarder" "1".

Definition ForwardRequest_typed_data (r : ForwardRequest) (forwarder : Address)
    (chain_id : Z) (domain : ForwarderDomain) : TypedData :=
  mkTypedData
    (mkDomain (Some (fd_name domain)) (Some (fd_version domain)) (Some chain_id)
       (Some forwarder))
    "ForwardRequest"
    [("from", SolAddress (fr_from r)); ("to", SolAddress (fr_to r));
     ("value", SolUint (fr_value r)); ("gas", SolUint (fr_gas r));
     ("nonce", SolUint (fr_nonce r)); ("deadline", SolUint (fr_deadline r));
     ("data", SolBytes (fr_data r))].

Definition decode_forwarder_nonce (ret : Bytes) : option U256 :=
  if (32 <=? length ret)%nat then Some (be_to_Z (take 32 ret)) else None.

(** ** Signing requests ([primitives/signing_request.rs]) *)

Inductive SigningRequest : Type :=
| Transaction (i : TxIntent)
| Message (b : Bytes)
| TypedDataReq (td : TypedData)
| Cancel (i : TxIntent).

Inductive SigningError : Type :=
| ZeroChainDomain
| Encode (detail : string).

Inductive SigningScheme : Type := Secp256k1Ecdsa.

Record SignatureEnvelope : Type := mkSigEnvelope {
  se_scheme : SigningScheme;
  se_signer : Address;
  se_signature : Signature;
}.
Definition SignatureEnvelope_secp256k1 (signer : Address) (signature : Signature)
  : SignatureEnvelope := mkSigEnvelope Secp256k1Ecdsa signer signature.

Record SignedRequest : Type := mkSignedRequest {
  sr_request : ForwardRequest;
  sr_signature : SignatureEnvelope;
  sr_forwarder : Address;
  sr_chain_id : Z;
}.

Definition for_request (signed : SignedRequest) : MetaContext :=
  mkMeta (sr_forwarder signed) (fr_from (sr_request signed)) (fr_nonce (sr_request signed)) None.

Definition for_gelato_task (forwarder user : Address) (nonce : U256) (task : TaskId)
  : MetaContext := mkMeta forwarder user nonce (Some task).

(** ** Alloy's computations, as parameters *)

Class Alloy : Type := {
  keccak256 : Bytes -> B256;
  (** [serde_json::to_vec] of a [TxIntent]. *)
  intent_json : TxIntent -> Bytes;
  eip191_hash_message : Bytes -> B256;
  eip712_signing_hash : TypedData -> result B256 string;
  (** [TxEip1559::signature_hash]. *)
  signature_hash : TxEip1559 -> B256;
  (** [tx.into_signed(sig)]: its 2718 encoding and its hash. *)
  encoded_2718 : TxEip1559 -> Signature -> Bytes;
  signed_hash : TxEip1559 -> Signature -> TxHash;
  (** The same for a legacy transaction. *)
  encoded_legacy : TxLegacy -> Signature -> Bytes;
  decode_2718 : Bytes -> option TxEnvelope;
  (** [Signature::normalize_s]: [None] when the signature is already low-s. *)
  normalize_s : Signature -> option Signature;
  (** The 65-byte [r || s || v] form. *)
  signature_bytes : Signature -> Bytes;
  (** [sol!] encoders and the [ExecutedForwardRequest] log decoder
      (signer, nonce, success). *)
  abi_execute : ForwardRequestData -> Bytes;
  abi_nonces : Address -> Bytes;
  decode_executed : LogData -> option (Address * U256 * bool);
}.

Class AlloyLaws (A : Alloy) : Prop := {
  (** A 2718 encoding decodes to the transaction and signature it was made of. *)
  decode_encoded : forall tx sig,
    decode_2718 (encoded_2718 tx sig) = Some (Envelope_Eip1559 tx sig);
  (** A legacy encoding decodes, but not to an EIP-1559 body. *)
  decode_legacy : forall tx sig, decode_2718 (encoded_legacy tx sig) = Some Envelope_Other;
  (** A normalized signature needs no further normalization. *)
  normalize_s_low : forall sig sig',
    normalize_s sig = Some sig' -> normalize_s sig' = None;
}.

Section WithAlloy.
Context {A : Alloy}.

Definition TxIntent_hash (i : TxIntent) : IntentHash := keccak256 (intent_json i).

(** [HandleId::new]: the hash of [intent_hash || nonce.to_be_bytes()]. *)
Definition HandleId_preimage (intent_hash : IntentHash) (nonce : Z) : Bytes :=
  Z_to_be 32 intent_hash ++ Z_to_be 8 nonce.
Definition HandleId_new (intent_hash : IntentHash) (nonce : Z) : B256 :=
  keccak256 (HandleId_preimage intent_hash nonce).

Definition typed_data_hash (td : TypedData) : result B256 SigningError :=
  match dom_chain_id (td_domain td) with
  | Some id =>
      if negb (id =? 0) then map_res_err Encode (eip712_signing_hash td)
      else Err ZeroChainDomain
  | None => Err ZeroChainDomain
  end.

Definition signing_hash (r : SigningRequest) : result B256 SigningError :=
  match r with
  | Transaction i | Cancel i => Ok (TxIntent_hash i)
  | Message b => Ok (eip191_hash_message b)
  | TypedDataReq td => typed_data_hash td
  end.

Definition enforce_low_s (sig : Signature) : Signature :=
  default sig (normalize_s sig).

Definition SignatureEnvelope_as_bytes (e : SignatureEnvelope) : Bytes :=
  signature_bytes (se_signature e).

Definition execute_calldata (r : ForwardRequest) (signature : Bytes) : Bytes :=
  abi_execute (to_data r signature).
Definition nonces_calldata (owner : Address) : Bytes := abi_nonces owner.

(** [MetaContext::inner_succeeded]: the verdict of the first log that decodes to
    this request's signer and nonce; [false] when there is none. *)
Definition inner_succeeded (m : MetaContext) (logs : list Log) : bool :=
  default false
    (find_map
       (fun log =>
          match decode_executed (log_inner log) with
          | Some (signer, nonce, success) =>
              if (signer =? mc_signer m) && (nonce =? mc_nonce m) then Some success else None
          | None => None
          end) logs).
End WithAlloy.

Abbreviation HandleId := Z.

(** ** Statuses and handles ([primitives/handle.rs]) *)

Inductive TxStatus : Type :=
| Pending
| Sent
| Mined (block : Z) (block_hash : B256)
| Replacing (since_block : Z)
| Confirmed (block : Z)
| Failed (reason : string)
| Replaced
| Dropped.

#[export] Instance TxStatus_eq_dec : EqDecision TxStatus.
Proof. solve_decision. Defined.

Definition is_terminal (s : TxStatus) : bool :=
  match s with
  | Confirmed _ | Failed _ | Replaced | Dropped => true
  | _ => false
  end.

Record TxHandle : Type := mkHandle {
  th_id : HandleId;
  th_account : Address;
  th_intent : TxIntent;
  th_intent_hash : IntentHash;
  th_nonce : Z;
  th_status : TxStatus;
  th_envelope : GasEnvelope;
  th_signed : Bytes;
  th_broadcasts : list TxHash;
  th_last_broadcast_at : Z;
  th_cancelled : bool;
  th_submission : SubmissionOpts;
  th_meta : option MetaContext;
}.

#[export] Instance TxHandle_eq_dec : EqDecision TxHandle.
Proof. solve_decision. Defined.

(** Field assignments [handle.field = v]. *)
Definition set_status (s : TxStatus) (h : TxHandle) : TxHandle :=
  mkHandle (th_id h) (th_account h) (th_intent h) (th_intent_hash h) (th_nonce h) s
    (th_envelope h) (th_signed h) (th_broadcasts h) (th_last_broadcast_at h)
    (th_cancelled h) (th_submission h) (th_meta h).
Definition set_cancelled (c : bool) (h : TxHandle) : TxHandle :=
  mkHandle (th_id h) (th_account h) (th_intent h) (th_intent_hash h) (th_nonce h)
    (th_status h) (th_envelope h) (th_signed h) (th_broadcasts h)
    (th_last_broadcast_at h) c (th_submission h) (th_meta h).
Definition set_submission (o : SubmissionOpts) (h : TxHandle) : TxHandle :=
  mkHandle (th_id h) (th_account h) (th_intent h) (th_intent_hash h) (th_nonce h)
    (th_status h) (th_envelope h) (th_signed h) (th_broadcasts h)
    (th_last_broadcast_at h) (th_cancelled h) o (th_meta h).
Definition push_broadcast (t : TxHash) (h : TxHandle) : TxHandle :=
  mkHandle (th_id h) (th_account h) (th_intent h) (th_intent_hash h) (th_nonce h)
    (th_status h) (th_envelope h) (th_signed h) (th_broadcasts h ++ [t])
    (th_last_broadcast_at h) (th_cancelled h) (th_submission h) (th_meta h).
Definition set_signed (rlp : Bytes) (now : Z) (h : TxHandle) : TxHandle :=
  mkHandle (th_id h) (th_account h) (th_intent h) (th_intent_hash h) (th_nonce h)
    (th_status h) (th_envelope h) rlp (th_broadcasts h) now
    (th_cancelled h) (th_submission h) (th_meta h).
