(* ===== verification/ModelAlloy.v ===== *)
(** * ModelAlloy: a concrete instance of the alloy parameter

    Alloy's hashes and codecs are a parameter of the development.  This instance
    shows that the laws assumed of it can hold together, and lets programs run on
    concrete inputs: encodings are an injective binary code, hashes are a polynomial in
    the payload's bytes, and signature normalization is that of secp256k1. *)
From S2P Require Import Prelude Primitives.

(** ** An injective code of countable data into bytes *)

Fixpoint pos_bytes (p : positive) : Bytes :=
  match p with
  | xH => []
  | xO p' => Byte.x00 :: pos_bytes p'
  | xI p' => Byte.x01 :: pos_bytes p'
  end.
Fixpoint bytes_pos (b : Bytes) : positive :=
  match b with
  | [] => xH
  | Byte.x00 :: b' => xO (bytes_pos b')
  | _ :: b' => xI (bytes_pos b')
  end.

Lemma bytes_pos_bytes p : bytes_pos (pos_bytes p) = p.
Proof. induction p as [p IH|p IH|]; simpl; by rewrite ?IH. Qed.

#[export] Instance TxKind_countable : Countable TxKind.
Proof.
  refine (inj_countable' (fun k => match k with TxKind_Create => None | TxKind_Call a => Some a end)
    (fun o => match o with None => TxKind_Create | Some a => TxKind_Call a end) _). by intros [].
Defined.
#[export] Instance Signature_countable : Countable Signature.
Proof.
  refine (inj_countable' (fun s => (sig_r s, sig_s s, sig_y_parity s))
    (fun t => let '(r, s, y) := t in mkSignature r s y) _). by intros [].
Defined.
#[export] Instance TxEip1559_countable : Countable TxEip1559.
Proof.
  refine (inj_countable'
    (fun t => (tx_chain_id t, tx_nonce t, tx_gas_limit t, tx_max_fee_per_gas t,
       tx_max_priority_fee_per_gas t, tx_to t, tx_value t, tx_input t))
    (fun t => let '(a, b, c, d, e, f, g, h) := t in mkTx a b c d e f g h) _). by intros [].
Defined.
#[export] Instance TxLegacy_countable : Countable TxLegacy.
Proof.
  refine (inj_countable'
    (fun t => (leg_chain_id t, leg_nonce t, leg_gas_price t, leg_gas_limit t, leg_to t,
       leg_value t, leg_input t))
    (fun t => let '(a, b, c, d, e, f, g) := t in mkLegacy a b c d e f g) _). by intros [].
Defined.
#[export] Instance TxIntent_countable : Countable TxIntent.
Proof.
  refine (inj_countable'
    (fun i => (ti_chain_id i, ti_account i, ti_to i, ti_value i, ti_input i, ti_purpose i))
    (fun t => let '(a, b, c, d, e, f) := t in mkIntent a b c d e f) _). by intros [].
Defined.

Definition code {T} `{Countable T} (x : T) : Bytes := pos_bytes (encode x).
Definition uncode {T} `{Countable T} (b : Bytes) : option T := decode (bytes_pos b).

Lemma uncode_code {T} `{Countable T} (x : T) : uncode (code x) = Some x.
Proof. unfold uncode, code. rewrite bytes_pos_bytes. apply decode_encode. Qed.

(** A polynomial hash of the payload, kept to 64 bits. *)
Definition model_hash (b : Bytes) : B256 :=
  fold_left (fun acc x => Z.land (acc * 257 + byte_to_Z x + 1) u64_max) b 0.

(** A code starts with no other byte than 0 or 1, so 2 can tag what is not one. *)
Lemma code_untagged {T} `{Countable T} (x : T) b : code x <> Byte.x02 :: b.
Proof. unfold code. by destruct (encode x). Qed.

(** The order of the secp256k1 group. *)
Definition secp256k1_n : Z :=
  0xFFFFFFFFFFFFFFFFFFFFFFFFFFFFFFFEBAAEDCE6AF48A03BBFD25E8CD0364141.

Definition model_normalize_s (sig : Signature) : option Signature :=
  if secp256k1_n / 2 <? sig_s sig
  then Some (mkSignature (sig_r sig) (secp256k1_n - sig_s sig) (negb (sig_y_parity sig)))
  else None.

(** The fields in order, fixed width first. *)
Definition model_intent_json (i : TxIntent) : Bytes :=
  Z_to_be 8 (ti_chain_id i) ++ Z_to_be 20 (ti_account i)
  ++ match ti_to i with TxKind_Create => [Byte.x00] | TxKind_Call a => Byte.x01 :: Z_to_be 20 a end
  ++ Z_to_be 32 (ti_value i)
  ++ match ti_purpose i with
     | None => [Byte.x00]
     | Some s => Byte.x01 :: String.list_byte_of_string s
     end
  ++ ti_input i.

Definition model_decode_executed (l : LogData) : option (Address * U256 * bool) :=
  match log_topics l, log_data l with
  | [signer; nonce], [b] => Some (signer, nonce, bool_decide (b = Byte.x01))
  | _, _ => None
  end.

Definition model_decode_2718 (b : Bytes) : option TxEnvelope :=
  match b with
  | Byte.x02 :: _ => Some Envelope_Other
  | _ =>
      match uncode b with
      | Some (tx, sig) => Some (Envelope_Eip1559 tx sig)
      | None => None
      end
  end.

Lemma model_decode_code tx sig : model_decode_2718 (code (tx, sig)) = Some (Envelope_Eip1559 tx sig).
Proof.
  unfold model_decode_2718. rewrite uncode_code. pose proof (code_untagged (tx, sig)) as Hc.
  destruct (code (tx, sig)) as [|b l]; [done|]. destruct (decide (b = Byte.x02)) as [->|Hb].
  - by destruct (Hc l).
  - by destruct b.
Qed.

#[export] Instance model_alloy : Alloy := {|
  keccak256 := model_hash;
  intent_json := model_intent_json;
  eip191_hash_message := fun b => model_hash b;
  eip712_signing_hash := fun td => Ok (Z.of_nat (length (td_message td)));
  signature_hash := fun tx => Zpos (encode tx);
  encoded_2718 := fun tx sig => code (tx, sig);
  signed_hash := fun tx sig => Zpos (encode (tx, sig));
  encoded_legacy := fun tx sig => Byte.x02 :: code (tx, sig);
  decode_2718 := model_decode_2718;
  normalize_s := model_normalize_s;
  signature_bytes := fun s => Z_to_be 32 (sig_r s) ++ Z_to_be 32 (sig_s s)
    ++ [if sig_y_parity s then Byte.x1c else Byte.x1b];
  abi_execute := fun d => Z_to_be 20 (frd_from d) ++ Z_to_be 20 (frd_to d) ++ frd_data d ++ frd_signature d;
  abi_nonces := fun a => Z_to_be 20 a;
  decode_executed := model_decode_executed;
|}.

#[export] Instance model_alloy_laws : AlloyLaws model_alloy.
Proof.
  split.
  - intros tx sig. apply model_decode_code.
  - done.
  - intros sig sig'. simpl. unfold model_normalize_s.
    destruct (secp256k1_n / 2 <? sig_s sig) eqn:H; [|done]. intros [= <-]. simpl.
    assert (E : secp256k1_n / 2 * 2 + 1 = secp256k1_n) by (vm_compute; reflexivity).
    destruct (secp256k1_n / 2 <? secp256k1_n - sig_s sig) eqn:H'; [|done].
    bool_simpl. lia.
Qed.
