(* ===== verification/Errors.v ===== *)
(** * Errors: the port errors, the umbrella error and their retry classification

    The error enums of [src/src/core/deps/] and [src/src/error.rs], with the
    predicates the pipeline branches on ([is_transient], [is_already_accepted],
    [is_underpriced], [is_relay_terminal]) and the classification
    [WalletKitError::kind] a caller branches on. *)
From stdpp Require Import pretty.
From S2P Require Import Prelude Primitives.

Open Scope string_scope.

(** ** Port errors *)

Inductive RpcError : Type :=
| RpcError_Call (message : string) (transient : bool).

Inductive GasOracleError : Type :=
| Gas_Rpc (e : RpcError)
| CeilingExceeded (ceiling needed : Z).

Inductive StateStoreError : Type :=
| Backend (source : string)
| Serialization (source : string)
| Fenced
| Task (detail : string).

Inductive NonceManagerError : Type :=
| Nonce_Store (e : StateStoreError)
| Nonce_Rpc (e : RpcError).

Inductive PolicyEngineError : Type :=
| Load (detail : string)
| Eval_ (detail : string).

Inductive SignerError : Type :=
| Signer_Load (detail : string)
| ApprovalMismatch
| FeesExceedApproval
| ApprovalExpired
| Payload (e : SigningError)
| Signer_Backend (detail : string).

Inductive RouteError : Type := RelayNotConfigured.

Inductive SubmissionError : Type :=
| Submission_Rpc (e : RpcError)
| RelayAuth (message : string)
| RelayRejected (message : string)
| Submission_Route (e : RouteError).

Inductive RelayError : Type :=
| Relay_Rpc (e : RpcError)
| Relay_Submission (e : SubmissionError)
| Relay_Signing (e : SignerError)
| Rejected (message : string)
| Forwarder (message : string)
| NotConfigured.

Inductive ReadError : Type :=
| Read_Rpc (e : RpcError)
| Decode (context : string).

Inductive EnsError : Type :=
| Ens_Rpc (e : RpcError)
| OffchainLookupRequired
| Resolution (detail : string).

Inductive AccountError : Type :=
| InvalidPath (detail : string)
| InvalidPhrase
| Derivation (detail : string)
| Rng (detail : string)
| Account_Read (e : ReadError)
| Account_Rpc (e : RpcError).

(** ** Pipeline errors *)

Inductive TransactionManagerError : Type :=
| TM_AccountMismatch (intent signer : Address)
| SimulationRejected (reason : string)
| UnknownHandle
| CancelTerminal
| Denied (r : PolicyRejection)
| TM_Rpc (e : RpcError)
| TM_Gas (e : GasOracleError)
| TM_Policy (e : PolicyEngineError)
| TM_Nonce (e : NonceManagerError)
| TM_Signer (e : SignerError)
| TM_Store (e : StateStoreError)
| TM_Submission (e : SubmissionError)
| TM_Route (e : RouteError).

Inductive ExecutorError : Type :=
| Ex_Rpc (e : RpcError)
| Ex_Gas (e : GasOracleError)
| Ex_Policy (e : PolicyEngineError)
| Ex_Nonce (e : NonceManagerError)
| Ex_Signer (e : SignerError)
| Ex_Store (e : StateStoreError)
| Ex_Submission (e : SubmissionError).

Inductive WalletKitError : Type :=
| WK_Rpc (e : RpcError)
| WK_Signer (e : SignerError)
| WK_Policy (r : PolicyRejection)
| WK_PolicyEngine (e : PolicyEngineError)
| WK_Gas (e : GasOracleError)
| WK_Nonce (e : NonceManagerError)
| WK_Submission (e : SubmissionError)
| WK_Store (e : StateStoreError)
| WK_Read (e : ReadError)
| WK_Ens (e : EnsError)
| WK_Account (e : AccountError)
| WK_Simulation (reason : string)
| WK_AccountMismatch (intent signer : Address)
| WK_Cancel (reason : string)
| WK_Connect (detail : string)
| WK_Route (e : RouteError)
| WK_Relay (e : RelayError).

Inductive ErrorKind : Type :=
| Retryable
| Terminal
| NeedsReconcile.

#[export] Instance ErrorKind_eq_dec : EqDecision ErrorKind.
Proof. solve_decision. Defined.

(** ** Messages ([Display]) of the errors a handle's failure reason records *)

Definition RpcError_to_string (e : RpcError) : string :=
  match e with RpcError_Call message _ => "rpc call failed: " ++ message end.

Definition RouteError_to_string (e : RouteError) : string :=
  "private routing requested but no relay identity is configured".

Definition SubmissionError_to_string (e : SubmissionError) : string :=
  match e with
  | Submission_Rpc e => RpcError_to_string e
  | RelayAuth m => "relay rejected the endpoint-auth identity: " ++ m
  | RelayRejected m => "relay declined the transaction: " ++ m
  | Submission_Route e => RouteError_to_string e
  end.

(** [PolicyRejection]'s message: the field only when the rule pins one. *)
Definition PolicyRejection_to_string (r : PolicyRejection) : string :=
  "policy denied by rule `" ++ pr_rule r ++ "`"
  ++ match pr_field r with Some f => " (field `" ++ f ++ "`)" | None => EmptyString end
  ++ ": " ++ pr_reason r.

(** The remaining messages of the pipeline's errors: those a log line carries. *)
Definition SigningError_to_string (e : SigningError) : string :=
  match e with
  | ZeroChainDomain => "EIP-712 domain has no (or zero) chainId — refusing to sign a chain-agnostic payload"
  | Encode detail => "typed data could not be EIP-712 encoded: " ++ detail
  end.

Definition SignerError_to_string (e : SignerError) : string :=
  match e with
  | Signer_Load detail => "failed to load signing key: " ++ detail
  | ApprovalMismatch => "policy approval does not authorize this intent"
  | FeesExceedApproval => "fees exceed the approved envelope"
  | ApprovalExpired => "policy approval expired"
  | Payload e => SigningError_to_string e
  | Signer_Backend detail => "signing failed: " ++ detail
  end.

Definition GasOracleError_to_string (e : GasOracleError) : string :=
  match e with
  | Gas_Rpc e => RpcError_to_string e
  | CeilingExceeded ceiling needed =>
      "bumped max fee " ++ pretty needed ++ " wei exceeds ceiling " ++ pretty ceiling ++ " wei"
  end.

Definition PolicyEngineError_to_string (e : PolicyEngineError) : string :=
  match e with
  | Load detail => "failed to load policy plugin: " ++ detail
  | Eval_ detail => "policy evaluation failed: " ++ detail
  end.

Definition StateStoreError_to_string (e : StateStoreError) : string :=
  match e with
  | Backend source => "state store backend error: " ++ source
  | Serialization source => "state (de)serialization failed: " ++ source
  | Fenced => "write fenced: a newer owner holds this account"
  | Task detail => "storage task failed: " ++ detail
  end.

Definition NonceManagerError_to_string (e : NonceManagerError) : string :=
  match e with Nonce_Store e => StateStoreError_to_string e | Nonce_Rpc e => RpcError_to_string e end.

Definition RelayError_to_string (e : RelayError) : string :=
  match e with
  | Relay_Rpc e => RpcError_to_string e
  | Relay_Submission e => SubmissionError_to_string e
  | Relay_Signing e => SignerError_to_string e
  | Rejected message => "relay rejected the request: " ++ message
  | Forwarder message => "forwarder is not usable: " ++ message
  | NotConfigured => "gasless relay is not configured: set a relayer signer and a forwarder address"
  end.

(** alloy's checksummed form of an address is a parameter. *)
Definition TransactionManagerError_to_string (address_display : Address -> string)
    (e : TransactionManagerError) : string :=
  match e with
  | TM_AccountMismatch intent signer =>
      "signer " ++ address_display signer ++ " does not control the intent account " ++ address_display intent
  | SimulationRejected reason => "simulation rejected: " ++ reason
  | UnknownHandle => "no tracked transaction for this handle id"
  | CancelTerminal => "the transaction already settled — nothing to cancel"
  | Denied r => PolicyRejection_to_string r
  | TM_Rpc e => RpcError_to_string e
  | TM_Gas e => GasOracleError_to_string e
  | TM_Policy e => PolicyEngineError_to_string e
  | TM_Nonce e => NonceManagerError_to_string e
  | TM_Signer e => SignerError_to_string e
  | TM_Store e => StateStoreError_to_string e
  | TM_Submission e => SubmissionError_to_string e
  | TM_Route e => RouteError_to_string e
  end.

(** ** Submission predicates ([SubmissionError], deps/submission.rs) *)

Definition is_transient (e : SubmissionError) : bool :=
  match e with
  | Submission_Rpc (RpcError_Call _ true) => true
  | _ => false
  end.

Definition ALREADY_ACCEPTED : list string :=
  ["already known"; "already imported"; "nonce too low"].

Definition is_already_accepted (e : SubmissionError) : bool :=
  match e with
  | Submission_Rpc (RpcError_Call message _) =>
      existsb (fun m => str_contains m (to_ascii_lowercase message)) ALREADY_ACCEPTED
  | _ => false
  end.

Definition is_underpriced (e : SubmissionError) : bool :=
  match e with
  | Submission_Rpc (RpcError_Call message _) =>
      str_contains "replacement transaction underpriced" (to_ascii_lowercase message)
  | _ => false
  end.

Definition is_relay_terminal (e : SubmissionError) : bool :=
  match e with RelayAuth _ | RelayRejected _ => true | _ => false end.

(** ** Classification ([error.rs]) *)

Definition rpc_kind (e : RpcError) : ErrorKind :=
  match e with RpcError_Call _ true => Retryable | RpcError_Call _ false => Terminal end.

Definition submission_kind (e : SubmissionError) : ErrorKind :=
  if is_already_accepted e then NeedsReconcile
  else if is_transient e || is_underpriced e then Retryable
  else Terminal.

Definition relay_kind (e : RelayError) : ErrorKind :=
  match e with
  | Relay_Rpc e => rpc_kind e
  | Relay_Submission e => submission_kind e
  | Relay_Signing _ | Rejected _ | Forwarder _ | NotConfigured => Terminal
  end.

Definition account_kind (e : AccountError) : ErrorKind :=
  match e with
  | Account_Rpc e | Account_Read (Read_Rpc e) => rpc_kind e
  | _ => Terminal
  end.

Definition store_kind (e : StateStoreError) : ErrorKind :=
  match e with
  | Backend _ | Task _ => Retryable
  | Serialization _ | Fenced => Terminal
  end.

Definition kind (e : WalletKitError) : ErrorKind :=
  match e with
  | WK_Rpc e => rpc_kind e
  | WK_Gas (Gas_Rpc e) => rpc_kind e
  | WK_Gas (CeilingExceeded _ _) => Terminal
  | WK_Nonce (Nonce_Rpc e) => rpc_kind e
  | WK_Nonce (Nonce_Store e) => store_kind e
  | WK_Submission e => submission_kind e
  | WK_Store e => store_kind e
  | WK_Read (Read_Rpc e) => rpc_kind e
  | WK_Read (Decode _) => Terminal
  | WK_Ens (Ens_Rpc e) => rpc_kind e
  | WK_Ens (OffchainLookupRequired | Resolution _) => Terminal
  | WK_Account e => account_kind e
  | WK_Relay e => relay_kind e
  | WK_Signer _ | WK_Policy _ | WK_PolicyEngine _ | WK_Simulation _
  | WK_AccountMismatch _ _ | WK_Cancel _ | WK_Route _ | WK_Connect _ => Terminal
  end.

Definition is_retryable (e : WalletKitError) : bool :=
  bool_decide (kind e = Retryable).

(** A suggested minimum backoff in seconds: none yet. *)
Definition retry_after (e : WalletKitError) : option Z := None.

Definition remediation (e : WalletKitError) : option string :=
  match e with
  | WK_AccountMismatch _ _ => Some "sign with the key that controls the intent account"
  | WK_Gas (CeilingExceeded _ _) => Some "raise gas_ceiling or wait for the base fee to fall"
  | WK_Signer (ApprovalExpired | ApprovalMismatch | FeesExceedApproval) =>
      Some "re-submit the intent to obtain a fresh policy approval"
  | WK_Simulation _ =>
      Some "the transaction would revert — inspect calldata and account state"
  | WK_Cancel _ =>
      Some "the transaction already settled or was never tracked — nothing to cancel"
  | WK_Relay (Forwarder _) =>
      Some "check the forwarder address and that the target contract trusts it (ERC-2771)"
  | WK_Relay NotConfigured =>
      Some "set a relayer signer and forwarder via WalletBuilder::relayer(..).forwarder(..)"
  | _ => None
  end.

Definition policy_rejection (e : WalletKitError) : option PolicyRejection :=
  match e with WK_Policy r => Some r | _ => None end.

(** [impl From<TransactionManagerError> for WalletKitError]. *)
Definition WalletKitError_from_tm (e : TransactionManagerError) : WalletKitError :=
  match e with
  | TM_AccountMismatch intent signer => WK_AccountMismatch intent signer
  | SimulationRejected reason => WK_Simulation reason
  | UnknownHandle => WK_Cancel "no tracked transaction for this handle id"
  | CancelTerminal => WK_Cancel "the transaction already settled"
  | Denied r => WK_Policy r
  | TM_Rpc e => WK_Rpc e
  | TM_Gas e => WK_Gas e
  | TM_Policy e => WK_PolicyEngine e
  | TM_Nonce e => WK_Nonce e
  | TM_Signer e => WK_Signer e
  | TM_Store e => WK_Store e
  | TM_Submission e => WK_Submission e
  | TM_Route e => WK_Route e
  end.

(** [impl From<ExecutorError> for WalletKitError]. *)
Definition WalletKitError_from_executor (e : ExecutorError) : WalletKitError :=
  match e with
  | Ex_Rpc e => WK_Rpc e
  | Ex_Gas e => WK_Gas e
  | Ex_Policy e => WK_PolicyEngine e
  | Ex_Nonce e => WK_Nonce e
  | Ex_Signer e => WK_Signer e
  | Ex_Store e => WK_Store e
  | Ex_Submission e => WK_Submission e
  end.

Close Scope string_scope.

(** ** Properties *)

(** A relay refusal never satisfies a predicate under which the pipeline assumes
    the transaction was sent. *)
Lemma relay_terminal_not_sent e :
  is_relay_terminal e = true ->
  is_transient e = false /\ is_already_accepted e = false.
Proof. by destruct e. Qed.

#[export] Hint Resolve relay_terminal_not_sent : walletkit.

(** The three retry classes a send can surface, decided by the wire message and
    the transient flag alone. *)
Lemma submission_kind_cases e :
  match submission_kind e with
  | NeedsReconcile => is_already_accepted e = true
  | Retryable => is_already_accepted e = false /\ (is_transient e = true \/ is_underpriced e = true)
  | Terminal => is_already_accepted e = false /\ is_transient e = false /\ is_underpriced e = false
  end.
Proof.
  unfold submission_kind.
  destruct (is_already_accepted e), (is_transient e), (is_underpriced e); simpl; auto.
Qed.
