(* ===== verification/Ports.v ===== *)
(** * Ports: the requests a component may make and the responses it may get

    One constructor per method of the object-safe traits of
    [src/src/core/deps/] ([Rpc], [NonceManager], [GasOracle], [PolicyEngine],
    [Signer], [SubmissionStrategy], [StateStore], [Clock], [Relay]) plus the
    HTTP round trips of the adapters that post directly to a relay.  [resp p] is
    the Rust return type.  A wallet holds two policies and two signers when it
    self-relays, so those requests carry the [principal] they belong to. *)
From S2P Require Import Prelude Effects Primitives Errors.

(** Which operated account a policy or signer belongs to. *)
Inductive principal : Type :=
| User
| Relayer.

#[export] Instance principal_eq_dec : EqDecision principal.
Proof. solve_decision. Defined.

(** ** Port data *)

(** [deps/rpc.rs]. *)
Record AccountActivity : Type := mkActivity {
  act_nonce : Z;
  act_balance : U256;
}.
Inductive Simulated : Type :=
| Returned (data : Bytes)
| Reverted_ (data : Bytes).

(** The part of [alloy]'s access list result the preview keeps. *)
Abbreviation AccessList := (list (Address * list B256)).

(** [deps/relay.rs]. *)
Inductive RelayStatus : Type :=
| Relay_Pending
| Relay_Included (hash : TxHash)
| Relay_Failed (reason : string).

(** JSON values, as the adapters put them in a request body. *)
Inductive JsonValue : Type :=
| JNull
| JString (s : string)
| JBool (b : bool)
| JNumber (n : Z)
| JArray (items : list JsonValue)
| JObject (fields : list (string * JsonValue)).

(** An HTTP response as the relay adapters read it. *)
Record HttpResponse : Type := mkHttpResponse {
  http_status : Z;
  http_body : string;
}.

(** ** Requests *)

Inductive port : Type :=
(* Rpc *)
| PendingNonce (account : Address)
| TxCount (account : Address)
| BlockNumber
| FinalizedBlock
| BlockHash (number : Z)
| EstimateFees
| BaseFee
| EstimateGas (request : TransactionRequest)
| EthCall (request : TransactionRequest)
| CreateAccessList (request : TransactionRequest)
| SendRaw (rlp : Bytes)
| Receipt (tx : TxHash)
| GetAccountActivity (chain : nat) (accounts : list Address)
(* NonceManager *)
| Allocate (account : Address)
| Release (account : Address) (nonce : Z)
| ResetNonce (account : Address) (next : Z)
(* GasOracle *)
| GasEstimate
| GasBump (prev : Eip1559Estimation)
(* PolicyEngine *)
| Evaluate (who : principal) (request : SigningRequest)
| Validate (who : principal) (request : SigningRequest)
(* Signer *)
| SignTransaction (who : principal) (tx : TxEip1559) (intent_hash : IntentHash)
    (approval : PolicyApproval) (now : Z)
| SignMessage (who : principal) (message : Bytes) (approval : PolicyApproval) (now : Z)
| SignTypedData (who : principal) (typed : TypedData) (approval : PolicyApproval) (now : Z)
(* SubmissionStrategy *)
| Submit (signed_rlp : Bytes) (opts : SubmissionOpts)
(* StateStore *)
| LoadNonceState (scope : NonceScope)
| CasNonceState (scope : NonceScope) (expected_version : Z) (state : NonceState)
    (fence : FenceToken)
| PutHandle (handle : TxHandle)
| PendingHandles (account : Address)
| GetHandle (id : HandleId)
(* Clock *)
| NowUnix
(* Relay *)
| Poll (task : TaskId)
(* HTTP and the per-URL Protect transports *)
| SendRawTo (url : Url) (rlp : Bytes)
| FlashbotsPost (max_block_number : option Z) (preferences : option (bool * option (list string)))
    (rlp : Bytes)
| HttpPost (url : string) (body : list (string * JsonValue))
| HttpGet (url : string).

Definition resp (p : port) : Type :=
  match p with
  | PendingNonce _ | TxCount _ | BlockNumber => result Z RpcError
  | FinalizedBlock => result (option Z) RpcError
  | BlockHash _ => result (option B256) RpcError
  | EstimateFees => result Eip1559Estimation RpcError
  | BaseFee => result Z RpcError
  | EstimateGas _ => result Z RpcError
  | EthCall _ => result Simulated RpcError
  | CreateAccessList _ => result AccessList RpcError
  | SendRaw _ | SendRawTo _ _ => result TxHash RpcError
  | Receipt _ => result (option TransactionReceipt) RpcError
  | GetAccountActivity _ _ => result (list AccountActivity) RpcError
  | Allocate _ => result Z NonceManagerError
  | Release _ _ | ResetNonce _ _ => result unit NonceManagerError
  | GasEstimate | GasBump _ => result Eip1559Estimation GasOracleError
  | Evaluate _ _ => result Decision PolicyEngineError
  | Validate _ _ => result PolicyOutcome PolicyEngineError
  | SignTransaction _ _ _ _ _ => result Signature SignerError
  | SignMessage _ _ _ _ | SignTypedData _ _ _ _ => result SignatureEnvelope SignerError
  | Submit _ _ => result TxHash SubmissionError
  | LoadNonceState _ => result (Versioned NonceState) StateStoreError
  | CasNonceState _ _ _ _ => result bool StateStoreError
  | PutHandle _ => result unit StateStoreError
  | PendingHandles _ => result (list TxHandle) StateStoreError
  | GetHandle _ => result (option TxHandle) StateStoreError
  | NowUnix => Z
  | Poll _ => result RelayStatus RelayError
  | FlashbotsPost _ _ _ | HttpPost _ _ | HttpGet _ => result HttpResponse string
  end.

Abbreviation io := (prog resp).
Abbreviation history := (trace resp).
Abbreviation any_response := (any_env (R:=resp)).

(** ** What a history shows

    Each projection reads one kind of event off a history, newest first. *)

Definition ev_submit (e : event resp) : option (Bytes * SubmissionOpts * result TxHash SubmissionError) :=
  match e with
  | existT (Submit rlp opts) r => Some (rlp, opts, r)
  | _ => None
  end.
Definition ev_put (e : event resp) : option (TxHandle * result unit StateStoreError) :=
  match e with existT (PutHandle h) r => Some (h, r) | _ => None end.
Definition ev_allocate (e : event resp) : option (Address * result Z NonceManagerError) :=
  match e with existT (Allocate a) r => Some (a, r) | _ => None end.
Definition ev_release (e : event resp) : option (Address * Z * result unit NonceManagerError) :=
  match e with existT (Release a n) r => Some (a, n, r) | _ => None end.
Definition ev_reset (e : event resp) : option (Address * Z) :=
  match e with existT (ResetNonce a n) _ => Some (a, n) | _ => None end.
Definition ev_evaluate (e : event resp)
  : option (principal * SigningRequest * result Decision PolicyEngineError) :=
  match e with existT (Evaluate w q) r => Some (w, q, r) | _ => None end.
Definition ev_sign_tx (e : event resp)
  : option (principal * TxEip1559 * IntentHash * PolicyApproval * Z * result Signature SignerError) :=
  match e with
  | existT (SignTransaction w tx ih a now) r => Some (w, tx, ih, a, now, r)
  | _ => None
  end.
Definition ev_receipt (e : event resp) : option (TxHash * result (option TransactionReceipt) RpcError) :=
  match e with existT (Receipt t) r => Some (t, r) | _ => None end.
Definition ev_block_hash (e : event resp) : option (Z * result (option B256) RpcError) :=
  match e with existT (BlockHash n) r => Some (n, r) | _ => None end.
Definition ev_gas_bump (e : event resp)
  : option (Eip1559Estimation * result Eip1559Estimation GasOracleError) :=
  match e with existT (GasBump p) r => Some (p, r) | _ => None end.
Definition ev_poll (e : event resp) : option (TaskId * result RelayStatus RelayError) :=
  match e with existT (Poll t) r => Some (t, r) | _ => None end.
Definition ev_sign_typed (e : event resp) : option (principal * TypedData * PolicyApproval * Z) :=
  match e with existT (SignTypedData w td a now) _ => Some (w, td, a, now) | _ => None end.

Definition ev_block_number (e : event resp) : option (result Z RpcError) :=
  match e with existT BlockNumber r => Some r | _ => None end.
Definition ev_finalized (e : event resp) : option (result (option Z) RpcError) :=
  match e with existT FinalizedBlock r => Some r | _ => None end.
Definition ev_tx_count (e : event resp) : option (Address * result Z RpcError) :=
  match e with existT (TxCount a) r => Some (a, r) | _ => None end.
Definition ev_pending (e : event resp) : option (Address * result (list TxHandle) StateStoreError) :=
  match e with existT (PendingHandles a) r => Some (a, r) | _ => None end.

Definition ev_post (e : event resp) : option (string * list (string * JsonValue) * result HttpResponse string) :=
  match e with existT (HttpPost url body) r => Some (url, body, r) | _ => None end.

Definition submits (tr : history) := omap ev_submit tr.
Definition puts (tr : history) := omap ev_put tr.
Definition allocates (tr : history) := omap ev_allocate tr.
Definition releases (tr : history) := omap ev_release tr.
Definition resets (tr : history) := omap ev_reset tr.
Definition evaluates (tr : history) := omap ev_evaluate tr.
Definition signed_txs (tr : history) := omap ev_sign_tx tr.
Definition receipts (tr : history) := omap ev_receipt tr.
Definition block_hashes (tr : history) := omap ev_block_hash tr.
Definition gas_bumps (tr : history) := omap ev_gas_bump tr.
Definition polls (tr : history) := omap ev_poll tr.
Definition typed_signatures (tr : history) := omap ev_sign_typed tr.
Definition block_numbers (tr : history) := omap ev_block_number tr.
Definition finalized_reads (tr : history) := omap ev_finalized tr.
Definition tx_counts (tr : history) := omap ev_tx_count tr.
Definition pending_reads (tr : history) := omap ev_pending tr.
Definition posts (tr : history) := omap ev_post tr.

(** Whether a port request changes nothing outside: chain reads, store reads, the
    clock, policy previews. *)
Definition is_read (p : port) : bool :=
  match p with
  | PendingNonce _ | TxCount _ | BlockNumber | FinalizedBlock | BlockHash _
  | EstimateFees | BaseFee | EstimateGas _ | EthCall _ | CreateAccessList _
  | Receipt _ | GetAccountActivity _ _ | GasEstimate | GasBump _ | Evaluate _ _
  | Validate _ _ | LoadNonceState _ | PendingHandles _ | GetHandle _ | NowUnix
  | Poll _ | HttpGet _ => true
  | _ => false
  end.

(** The default body of [PolicyEngine::validate] (deps/policy_engine.rs): evaluate
    and drop the approval. *)
Definition default_validate (who : principal) (request : SigningRequest)
  : io (result PolicyOutcome PolicyEngineError) :=
  let? d := call (Evaluate who request) in
  Ret (Ok match d with Allow _ => WouldAllow | Deny r => WouldDeny r end).

(** ** Concrete environments

    [offline] fails every call; a concrete environment overrides the calls a run
    makes. *)
Definition offline_rpc : RpcError := RpcError_Call "offline" true.

Definition offline (p : port) : resp p :=
  match p return resp p with
  | PendingNonce _ | TxCount _ | BlockNumber => Err offline_rpc
  | FinalizedBlock => Err offline_rpc
  | BlockHash _ => Err offline_rpc
  | EstimateFees => Err offline_rpc
  | BaseFee => Err offline_rpc
  | EstimateGas _ => Err offline_rpc
  | EthCall _ => Err offline_rpc
  | CreateAccessList _ => Err offline_rpc
  | SendRaw _ | SendRawTo _ _ => Err offline_rpc
  | Receipt _ => Err offline_rpc
  | GetAccountActivity _ _ => Err offline_rpc
  | Allocate _ => Err (Nonce_Rpc offline_rpc)
  | Release _ _ | ResetNonce _ _ => Err (Nonce_Rpc offline_rpc)
  | GasEstimate | GasBump _ => Err (Gas_Rpc offline_rpc)
  | Evaluate _ _ => Err (Eval_ "offline")
  | Validate _ _ => Err (Eval_ "offline")
  | SignTransaction _ _ _ _ _ => Err (Signer_Backend "offline")
  | SignMessage _ _ _ _ | SignTypedData _ _ _ _ => Err (Signer_Backend "offline")
  | Submit _ _ => Err (Submission_Rpc offline_rpc)
  | LoadNonceState _ => Err (Backend "offline")
  | CasNonceState _ _ _ _ => Err (Backend "offline")
  | PutHandle _ => Err (Backend "offline")
  | PendingHandles _ => Err (Backend "offline")
  | GetHandle _ => Err (Backend "offline")
  | NowUnix => 0
  | Poll _ => Err (Relay_Rpc offline_rpc)
  | FlashbotsPost _ _ _ | HttpPost _ _ | HttpGet _ => Err "offline"
  end.

(** Run a program against an environment without state: its result and history. *)
Definition run_env {A} (h : forall p, resp p) (m : io A) : A * history :=
  let '(a, _, tr) := run (fun p (s : unit) => (h p, s)) m tt [] in (a, tr).

Lemma run_env_triple {A} (h : forall p, resp p) Env G (m : io A) Q :
  (forall p, Env p (h p)) -> triple Env G m [] Q ->
  Q (snd (run_env h m)) (fst (run_env h m)) /\ guarded G (snd (run_env h m)).
Proof.
  intros Henv Ht. unfold run_env.
  pose proof (triple_run (fun p (s : unit) => (h p, s)) Env G m tt [] Q (fun p _ => Henv p) I Ht) as H.
  by destruct (run _ m tt []) as [[a s] tr].
Qed.
