(* ===== verification/Lifecycle.v ===== *)
(** * Lifecycle: the pure transaction state machine

    [src/src/core/wallet/executor/lifecycle.rs].  One [transition] per confirm
    cycle, driven by a distilled chain event, the cycle's chain view and its
    finality rule.  A handle's life is a run of cycles; the theorems say what
    evidence a settled handle must have had, that bad reads are inert, and that
    depth counting is exact on 64-bit heights. *)
From S2P Require Import Prelude Primitives.

Inductive Finality : Type :=
| Finalized
| Depth.

Record FinalityConfig : Type := mkFinality {
  fc_mode : Finality;
  fc_required : Z;
}.

Record ChainView : Type := mkView {
  cv_latest : Z;
  cv_finalized : Z;
}.

Inductive Outcome : Type :=
| Executed
| Reverted.

Inductive ChainEvent : Type :=
| Ev_Pending
| Ev_Mined (block : Z) (block_hash : B256) (outcome : Outcome)
| Ev_Replaced
| Ev_Unknown.

#[export] Instance Outcome_eq_dec : EqDecision Outcome.
Proof. solve_decision. Defined.
#[export] Instance ChainEvent_eq_dec : EqDecision ChainEvent.
Proof. solve_decision. Defined.

Definition is_final (block : Z) (view : ChainView) (cfg : FinalityConfig) : bool :=
  match fc_mode cfg with
  | Finalized => block <=? cv_finalized view
  | Depth =>
      fc_required cfg <=? wrapping_add u64_max (saturating_sub (cv_latest view) block) 1
  end.

Definition transition (state : TxStatus) (event : ChainEvent) (view : ChainView)
    (cfg : FinalityConfig) : option TxStatus :=
  if is_terminal state then None
  else
    let target :=
      match event with
      | Ev_Unknown => None
      | Ev_Pending =>
          match state with
          | Mined _ _ | Replacing _ => Some Sent
          | _ => None
          end
      | Ev_Mined block block_hash outcome =>
          if is_final block view cfg then
            match outcome with
            | Executed => Some (Confirmed block)
            | Reverted => Some (Failed "reverted on-chain")
            end
          else Some (Mined block block_hash)
      | Ev_Replaced =>
          match state with
          | Replacing since_block =>
              if is_final since_block view cfg then Some Replaced else None
          | _ => Some (Replacing (cv_latest view))
          end
      end in
    match target with
    | Some t => if decide (t = state) then None else Some t
    | None => None
    end.

(** ** Runs of cycles *)

Record cycle : Type := mkCycle {
  cy_event : ChainEvent;
  cy_view : ChainView;
  cy_cfg : FinalityConfig;
}.

(** The status after one cycle: the transition's target, or no change. *)
Definition advance (s : TxStatus) (c : cycle) : TxStatus :=
  default s (transition s (cy_event c) (cy_view c) (cy_cfg c)).

Definition lifecycle_run (s : TxStatus) (cs : list cycle) : TxStatus :=
  fold_left advance cs s.

(** A cycle that saw a foreign transaction at our nonce, or nothing trustworthy. *)
Definition displaced_or_unknown (c : cycle) : Prop :=
  cy_event c = Ev_Replaced \/ cy_event c = Ev_Unknown.

(** The evidence in [cs] that entitles a handle to the status it settled in. *)
Definition evidence (t : TxStatus) (cs : list cycle) : Prop :=
  match t with
  | Confirmed b =>
      exists c h, c ∈ cs /\ cy_event c = Ev_Mined b h Executed /\
        is_final b (cy_view c) (cy_cfg c) = true
  | Failed _ =>
      exists c b h, c ∈ cs /\ cy_event c = Ev_Mined b h Reverted /\
        is_final b (cy_view c) (cy_cfg c) = true
  | Replaced =>
      exists cs1 c1 cs2 c2 cs3,
        cs = cs1 ++ c1 :: cs2 ++ c2 :: cs3 /\
        cy_event c1 = Ev_Replaced /\ cy_event c2 = Ev_Replaced /\
        Forall displaced_or_unknown cs2 /\
        is_final (cv_latest (cy_view c1)) (cy_view c2) (cy_cfg c2) = true
  | Replacing sb =>
      exists cs1 c1 cs2,
        cs = cs1 ++ c1 :: cs2 /\ cy_event c1 = Ev_Replaced /\
        cv_latest (cy_view c1) = sb /\ Forall displaced_or_unknown cs2
  | Mined b h =>
      exists c o, c ∈ cs /\ cy_event c = Ev_Mined b h o
  | Dropped => False
  | Pending | Sent => True
  end.

(** ** Lemmas *)

Lemma transition_terminal_state s e v cfg :
  is_terminal s = true -> transition s e v cfg = None.
Proof. intros H. unfold transition. by rewrite H. Qed.

Lemma transition_unknown s v cfg : transition s Ev_Unknown v cfg = None.
Proof. unfold transition. by destruct (is_terminal s). Qed.

Lemma transition_changes s e v cfg t : transition s e v cfg = Some t -> t <> s.
Proof. unfold transition. intros H. repeat case_match; simplify_eq; done. Qed.

Lemma advance_terminal s c : is_terminal s = true -> advance s c = s.
Proof. intros H. unfold advance. by rewrite transition_terminal_state. Qed.

Lemma lifecycle_run_snoc s cs c :
  lifecycle_run s (cs ++ [c]) = advance (lifecycle_run s cs) c.
Proof. unfold lifecycle_run. by rewrite fold_left_app. Qed.

Lemma lifecycle_run_terminal s cs : is_terminal s = true -> lifecycle_run s cs = s.
Proof.
  intros H. induction cs as [|c cs IH] using rev_ind; [done|].
  by rewrite lifecycle_run_snoc, IH, advance_terminal.
Qed.

(** Evidence is kept when more cycles follow, for every status that is not the
    running displacement clock. *)
Lemma evidence_app t cs c :
  (forall sb, t <> Replacing sb) -> evidence t cs -> evidence t (cs ++ [c]).
Proof.
  intros Hne. destruct t; simpl; try done; try (by edestruct Hne).
  - intros (x & o & ? & ?). exists x, o. split; [apply elem_of_app; by left|done].
  - intros (x & h & ? & ?). exists x, h. split; [apply elem_of_app; by left|done].
  - intros (x & b & h & ? & ?). exists x, b, h. split; [apply elem_of_app; by left|done].
  - intros (cs1 & c1 & cs2 & c2 & cs3 & -> & ?). exists cs1, c1, cs2, c2, (cs3 ++ [c]).
    split; [|done]. by rewrite <- !app_assoc; simpl; rewrite <- !app_assoc.
Qed.

Lemma evidence_replacing_app sb cs c :
  displaced_or_unknown c -> evidence (Replacing sb) cs -> evidence (Replacing sb) (cs ++ [c]).
Proof.
  intros Hc (cs1 & c1 & cs2 & -> & ? & ? & ?). exists cs1, c1, (cs2 ++ [c]).
  split_and!; try done.
  - by rewrite <- app_assoc.
  - apply Forall_app. auto.
Qed.

(** One cycle keeps the evidence invariant. *)
Lemma advance_evidence s cs c :
  evidence s cs -> evidence (advance s c) (cs ++ [c]).
Proof.
  intros Hev. unfold advance, transition.
  destruct (is_terminal s) eqn:Hterm.
  { simpl. apply evidence_app; [|done]. by intros sb ->. }
  destruct (cy_event c) as [|b h o| |] eqn:He; simpl.
  - destruct s; simpl in *; try done.
  - destruct (is_final b (cy_view c) (cy_cfg c)) eqn:Hf.
    + destruct o; case_decide; simplify_eq; simpl.
      * exists c, h. split; [apply elem_of_app; right; by left|done].
      * exists c, b, h. split; [apply elem_of_app; right; by left|done].
    + case_decide as Hd; simpl.
      * apply evidence_app; [|done]. intros sb ->. done.
      * exists c, o. split; [apply elem_of_app; right; by left|done].
  - assert (Hnew : evidence (Replacing (cv_latest (cy_view c))) (cs ++ [c])).
    { exists cs, c, []. by split_and!. }
    destruct s; simpl in Hterm; try done; try (case_decide; [done|exact Hnew]).
    destruct (is_final since_block (cy_view c) (cy_cfg c)) eqn:Hf; simpl.
    + destruct Hev as (cs1 & c1 & cs2 & -> & ? & Hsb & ?).
      exists cs1, c1, cs2, c, []. split_and!; try done.
      * by rewrite <- app_assoc.
      * by rewrite Hsb.
    + apply evidence_replacing_app; [by left|done].
  - destruct s; simpl in *; try done.
    + by apply (evidence_app (Mined _ _)).
    + apply (evidence_replacing_app since_block); [by right|done].
Qed.

Lemma lifecycle_run_evidence s cs :
  (forall sb, s <> Replacing sb) -> is_terminal s = false -> (forall b h, s <> Mined b h) ->
  evidence (lifecycle_run s cs) cs.
Proof.
  intros Hr Ht Hm. induction cs as [|c cs IH] using rev_ind.
  - simpl. destruct s; try done; [by edestruct Hm|by edestruct Hr].
  - rewrite lifecycle_run_snoc. by apply advance_evidence.
Qed.

Lemma depth_count_exact latest block :
  is_u64 latest -> is_u64 block -> (latest < u64_max \/ 0 < block) ->
  wrapping_add u64_max (saturating_sub latest block) 1 = Z.max 1 (latest - block + 1).
Proof.
  unfold is_uint. intros Hl Hb Hne. rewrite wrapping_add_small; unfold saturating_sub; lia.
Qed.

Lemma lifecycle_run_cons s c cs : lifecycle_run s (c :: cs) = lifecycle_run (advance s c) cs.
Proof. done. Qed.

Lemma lifecycle_run_app s cs cs' :
  lifecycle_run s (cs ++ cs') = lifecycle_run (lifecycle_run s cs) cs'.
Proof. unfold lifecycle_run. by rewrite fold_left_app. Qed.

Lemma advance_unknown s c : cy_event c = Ev_Unknown -> advance s c = s.
Proof. intros H. unfold advance. by rewrite H, transition_unknown. Qed.

(** A finally mined transaction settles whatever tentative status it was in. *)
Lemma advance_final_mined s c b h o :
  cy_event c = Ev_Mined b h o -> is_final b (cy_view c) (cy_cfg c) = true ->
  is_terminal (advance s c) = true.
Proof.
  intros He Hf. unfold advance, transition. rewrite He, Hf.
  destruct (is_terminal s) eqn:Ht; [done|].
  destruct o; case_decide; simplify_eq; done.
Qed.

(** The displacement clock started at [sb] survives displaced and unknown cycles. *)
Lemma run_replacing_waits sb cs :
  Forall displaced_or_unknown cs ->
  lifecycle_run (Replacing sb) cs = Replacing sb \/ lifecycle_run (Replacing sb) cs = Replaced.
Proof.
  induction cs as [|c cs IH]; intros Hf; [by left|].
  apply Forall_cons_1 in Hf as [Hc Hcs]. rewrite lifecycle_run_cons.
  destruct Hc as [He|He]; [|rewrite advance_unknown by done; auto].
  unfold advance, transition. rewrite He. simpl.
  destruct (is_final sb (cy_view c) (cy_cfg c)); simpl; [|auto].
  right. by apply lifecycle_run_terminal.
Qed.

Lemma is_final_mono block v v' cfg :
  cv_latest v <= cv_latest v' < u64_max -> cv_finalized v <= cv_finalized v' ->
  0 <= cv_latest v -> 0 <= block ->
  is_final block v cfg = true -> is_final block v' cfg = true.
Proof.
  unfold is_final, saturating_sub. intros Hl Hf H0 Hb.
  destruct (fc_mode cfg).
  - intros H. bool_simpl. apply Z.leb_le. lia.
  - rewrite !wrapping_add_small by lia. intros H. bool_simpl. apply Z.leb_le. lia.
Qed.

(** ** Properties *)

(** C12: a handle tracked from a fresh broadcast settles only on evidence.  After any
    run of cycles, [Confirmed b] means some cycle saw our transaction executed in
    block [b] at finality, [Failed] that it was seen reverted at finality, and
    [Replaced] that a foreign transaction was seen at our nonce twice, with no
    contradicting read in between and the first sighting final by the second;
    [Dropped] is never reached. *)
Theorem lifecycle_settles_on_evidence (cs : list cycle) :
  evidence (lifecycle_run Sent cs) cs /\ evidence (lifecycle_run Pending cs) cs.
Proof. split; by apply lifecycle_run_evidence. Qed.

(** A settled status is never revised, and unreliable reads are inert: erasing
    every [Unknown] cycle from a run changes nothing. *)
Theorem lifecycle_stable (s : TxStatus) (cs cs' : list cycle) :
  (if is_terminal (lifecycle_run s cs)
   then lifecycle_run s (cs ++ cs') = lifecycle_run s cs else True) /\
  lifecycle_run s cs = lifecycle_run s (filter (fun c => cy_event c <> Ev_Unknown) cs).
Proof.
  split.
  - destruct (is_terminal _) eqn:Ht; [|done].
    by rewrite lifecycle_run_app, lifecycle_run_terminal.
  - revert s. induction cs as [|c cs IH]; intros s; [done|].
    rewrite filter_cons, lifecycle_run_cons. case_decide as Hc; [apply IH|].
    by rewrite advance_unknown.
Qed.

(** The machine always settles on sufficient evidence: once some cycle sees our
    transaction mined at finality the handle is settled, and a handle that is
    tracking a displacement since block [sb] settles as [Replaced] at the first
    displaced cycle for which [sb] is final. *)
Theorem lifecycle_progress (s : TxStatus) (cs1 cs2 : list cycle) (c : cycle) :
  (forall b h o, cy_event c = Ev_Mined b h o -> is_final b (cy_view c) (cy_cfg c) = true ->
     is_terminal (lifecycle_run s (cs1 ++ c :: cs2)) = true) /\
  (forall sb, Forall displaced_or_unknown cs1 -> cy_event c = Ev_Replaced ->
     is_final sb (cy_view c) (cy_cfg c) = true ->
     lifecycle_run (Replacing sb) (cs1 ++ c :: cs2) = Replaced).
Proof.
  split.
  - intros b h o He Hf. rewrite lifecycle_run_app, lifecycle_run_cons.
    by rewrite lifecycle_run_terminal; eapply advance_final_mined.
  - intros sb Hcs He Hf. rewrite lifecycle_run_app, lifecycle_run_cons.
    destruct (run_replacing_waits sb cs1 Hcs) as [->| ->].
    + unfold advance, transition. rewrite He. simpl. rewrite Hf. simpl.
      by apply lifecycle_run_terminal.
    + by rewrite advance_terminal, lifecycle_run_terminal.
Qed.

Definition demo_view (latest : Z) : ChainView := mkView latest 0.
Definition demo_depth : FinalityConfig := mkFinality Depth 3.
Definition demo_cycle (e : ChainEvent) (latest : Z) : cycle := mkCycle e (demo_view latest) demo_depth.

Lemma lifecycle_progress_witness :
  is_terminal (lifecycle_run Sent
    [demo_cycle (Ev_Mined 10 7 Executed) 10; demo_cycle (Ev_Mined 10 7 Executed) 12]) = true /\
  lifecycle_run (Replacing 10)
    [demo_cycle Ev_Replaced 11; demo_cycle Ev_Unknown 5; demo_cycle Ev_Replaced 12] = Replaced.
Proof.
  split.
  - apply (proj1 (lifecycle_progress Sent [demo_cycle (Ev_Mined 10 7 Executed) 10] []
      (demo_cycle (Ev_Mined 10 7 Executed) 12)) 10 7 Executed); vm_compute; reflexivity.
  - apply (proj2 (lifecycle_progress Sent [demo_cycle Ev_Replaced 11; demo_cycle Ev_Unknown 5] []
      (demo_cycle Ev_Replaced 12)) 10); [|vm_compute; reflexivity..].
    constructor; [by left|constructor; [by right|constructor]].
Defined.

(** Depth counting is exact on 64-bit heights.  Below the last representable
    height an outcome is final exactly at [latest - block + 1] confirmations (one
    when the node lags behind the block), and finality is never lost as the heads
    advance. *)
Theorem depth_finality_exact (block : Z) (v v' : ChainView) (required : Z) :
  is_u64 block -> is_u64 (cv_latest v) ->
  cv_latest v <= cv_latest v' < u64_max -> cv_finalized v <= cv_finalized v' ->
  (is_final block v (mkFinality Depth required) = true
     <-> required <= Z.max 1 (cv_latest v - block + 1)) /\
  (forall mode, is_final block v (mkFinality mode required) = true ->
     is_final block v' (mkFinality mode required) = true).
Proof.
  intros Hb Hl Hv Hfin. split.
  - unfold is_final. cbn [fc_mode fc_required]. rewrite depth_count_exact by (try done; lia).
    by rewrite Z.leb_le.
  - intros mode. unfold is_uint in *. apply is_final_mono; try done; lia.
Qed.

Lemma depth_finality_exact_witness :
  (is_final 10 (demo_view 12) (mkFinality Depth 3) = true <-> 3 <= Z.max 1 (12 - 10 + 1)) /\
  is_final 10 (demo_view 20) (mkFinality Depth 3) = true.
Proof.
  assert (H : is_u64 10 /\ is_u64 12 /\ 12 <= 20 < u64_max) by (unfold is_uint, u64_max; lia).
  destruct H as (H1 & H2 & H3).
  destruct (depth_finality_exact 10 (demo_view 12) (demo_view 20) 3 H1 H2 H3 ltac:(simpl; lia))
    as [Hd Hm].
  split; [exact Hd|]. apply Hm. vm_compute. reflexivity.
Defined.
