(* ===== verification/Nonce.v ===== *)
(** * Nonce: gapless allocation over a compare-and-swap store

    [src/src/adapters/nonce.rs] ([LocalNonceManager]).  The three operations are
    load / compute / compare-and-swap loops; the computation is a pure function of
    the loaded state.  The file relates the [{next, free}] representation to the
    set of nonces in use, and proves that any number of managers sharing one store
    behave as if their operations ran one after another. *)
From S2P Require Import Prelude Effects Primitives Errors Ports.

(** ** The computation on the loaded state *)

(** [free.iter().next()]: the least element of a [BTreeSet]. *)
Definition min_free (s : gset Z) : option Z :=
  foldr (fun x acc => match acc with Some y => Some (Z.min x y) | None => Some x end)
    None (elements s).

Definition set_next (next : Z) (v : NonceState) : NonceState := mkNonceState next (ns_free v).

Definition take_nonce (value : NonceState) : Z * NonceState :=
  match min_free (ns_free value) with
  | Some n => (n, mkNonceState (ns_next value) (ns_free value ∖ {[n]}))
  | None => (ns_next value, set_next (wrapping_add u64_max (ns_next value) 1) value)
  end.

(** [while next > 0 && free.remove(&(next - 1)) { next -= 1 }]. *)
Fixpoint absorb (fuel : nat) (value : NonceState) : NonceState :=
  match fuel with
  | O => value
  | S fuel' =>
      if (0 <? ns_next value) && bool_decide (ns_next value - 1 ∈ ns_free value)
      then absorb fuel' (mkNonceState (ns_next value - 1) (ns_free value ∖ {[ns_next value - 1]}))
      else value
  end.

(** [None]: the nonce is not a live reservation and nothing is written. *)
Definition release_state (value : NonceState) (nonce : Z) : option NonceState :=
  if ns_next value <=? nonce then None
  else if wrapping_add u64_max nonce 1 =? ns_next value then
    Some (absorb (size (ns_free value)) (set_next (ns_next value - 1) value))
  else Some (mkNonceState (ns_next value) ({[nonce]} ∪ ns_free value)).

Definition reset_state (value : NonceState) (chain_next : Z) : NonceState :=
  mkNonceState (Z.max (ns_next value) chain_next)
    (filter (fun n => chain_next <= n) (ns_free value)).

(** ** The manager *)

Record LocalNonceManager : Type := mkNonceManager { nm_fence : FenceToken }.
Definition LocalNonceManager_new : LocalNonceManager := mkNonceManager SINGLE_WRITER.

(** [loop { body }]: [Ok None] goes round again; [None] when [fuel] rounds were not
    enough. *)
Fixpoint retry {A E} (fuel : nat) (body : io (result (option A) E))
  : io (option (result A E)) :=
  match fuel with
  | O => Ret None
  | S fuel' =>
      let* r := body in
      match r with
      | Ok (Some a) => Ret (Some (Ok a))
      | Ok None => retry fuel' body
      | Err e => Ret (Some (Err e))
      end
  end.

Section Manager.
Context (self : LocalNonceManager).

Definition cas (scope : NonceScope) (version : Z) (value : NonceState)
  : io (result bool NonceManagerError) :=
  map_err Nonce_Store (call (CasNonceState scope version value (nm_fence self))).

Definition allocate_body (account : Address) : io (result (option Z) NonceManagerError) :=
  let scope := eoa account in
  let? loaded := map_err Nonce_Store (call (LoadNonceState scope)) in
  let version := v_version loaded in
  let? value :=
    (if version =? 0
     then let? next := map_err Nonce_Rpc (call (PendingNonce account)) in
          Ret (Ok (set_next next (v_value loaded)))
     else Ret (Ok (v_value loaded))) in
  let '(nonce, value') := take_nonce value in
  let? won := cas scope version value' in
  Ret (Ok (if won then Some nonce else None)).

Definition release_body (account : Address) (nonce : Z)
  : io (result (option unit) NonceManagerError) :=
  let scope := eoa account in
  let? loaded := map_err Nonce_Store (call (LoadNonceState scope)) in
  match release_state (v_value loaded) nonce with
  | None => Ret (Ok (Some tt))
  | Some value' =>
      let? won := cas scope (v_version loaded) value' in
      Ret (Ok (if won then Some tt else None))
  end.

Definition reset_body (account : Address) (chain_next : Z)
  : io (result (option unit) NonceManagerError) :=
  let scope := eoa account in
  let? loaded := map_err Nonce_Store (call (LoadNonceState scope)) in
  let? won := cas scope (v_version loaded) (reset_state (v_value loaded) chain_next) in
  Ret (Ok (if won then Some tt else None)).

Definition allocate (fuel : nat) (account : Address) : io (option (result Z NonceManagerError)) :=
  retry fuel (allocate_body account).
Definition release (fuel : nat) (account : Address) (nonce : Z)
  : io (option (result unit NonceManagerError)) :=
  retry fuel (release_body account nonce).
Definition reset (fuel : nat) (account : Address) (chain_next : Z)
  : io (option (result unit NonceManagerError)) :=
  retry fuel (reset_body account chain_next).
End Manager.

(** ** The representation invariant and the set it represents *)

Record nonce_wf (v : NonceState) : Prop := {
  nw_next : 0 <= ns_next v <= u64_max;
  nw_free : forall n, n ∈ ns_free v -> 0 <= n < ns_next v;
  nw_top : ns_next v - 1 ∉ ns_free v;
}.

(** A nonce is in use when it is below the high-water mark and not freed. *)
Definition in_use (v : NonceState) (n : Z) : Prop := 0 <= n < ns_next v /\ n ∉ ns_free v.

#[export] Instance in_use_dec v n : base.Decision (in_use v n).
Proof. unfold in_use. apply _. Defined.

(** ** Lemmas on the representation *)

Lemma min_free_list (l : list Z) :
  match foldr (fun x acc => match acc with Some y => Some (Z.min x y) | None => Some x end) None l with
  | Some n => n ∈ l /\ forall m, m ∈ l -> n <= m
  | None => l = []
  end.
Proof.
  induction l as [|x l IH]; simpl; [done|].
  destruct (foldr _ None l) as [y|]; simpl.
  - destruct IH as [Hin Hle]. split.
    + destruct (Z.min_spec x y) as [[_ ->]|[_ ->]]; [constructor|by constructor].
    + intros m [->|Hm]%elem_of_cons; [lia|]. specialize (Hle m Hm). lia.
  - subst. split; [constructor|]. by intros m ->%list_elem_of_singleton.
Qed.

Lemma min_free_spec s :
  match min_free s with
  | Some n => n ∈ s /\ forall m, m ∈ s -> n <= m
  | None => s = ∅
  end.
Proof.
  unfold min_free. pose proof (min_free_list (elements s)) as H.
  destruct (foldr _ None (elements s)) as [n|].
  - destruct H as [Hin Hle]. split; [by apply elem_of_elements|].
    intros m Hm. apply Hle. by apply elem_of_elements.
  - by apply elements_empty_iff, leibniz_equiv in H.
Qed.

(** A well-formed state is determined by the set of nonces in use. *)
Lemma nonce_wf_canonical v w :
  nonce_wf v -> nonce_wf w -> (forall n, in_use v n <-> in_use w n) -> v = w.
Proof.
  intros [[Hv0 _] Hvf Hvt] [[Hw0 _] Hwf Hwt] Heq.
  assert (Hle : forall a b, 0 <= ns_next a -> ns_next a - 1 ∉ ns_free a ->
      (forall n, in_use a n -> in_use b n) -> 0 <= ns_next b -> ns_next a <= ns_next b).
  { intros a b Ha Hta Hab Hb. destruct (decide (ns_next a = 0)); [lia|].
    destruct (Hab (ns_next a - 1)) as [? _]; [split; [lia|done]|lia]. }
  assert (Hn : ns_next v = ns_next w).
  { apply Z.le_antisymm; apply Hle; auto; intros n; apply Heq. }
  destruct v as [nv fv], w as [nw fw]; simpl in *. subst. f_equal.
  apply set_eq. intros n. specialize (Heq n). unfold in_use in Heq; simpl in Heq.
  split; intros Hin.
  - destruct (decide (n ∈ fw)); [done|]. pose proof (Hvf n Hin). tauto.
  - destruct (decide (n ∈ fv)); [done|]. pose proof (Hwf n Hin). tauto.
Qed.

Lemma take_nonce_fresh v : nonce_wf v -> ~ in_use v (fst (take_nonce v)).
Proof.
  intros [H0 Hf Ht]. unfold take_nonce, in_use. pose proof (min_free_spec (ns_free v)) as Hm.
  destruct (min_free (ns_free v)); simpl; [tauto|lia].
Qed.

(** Everything below the allocated nonce is in use: no gap is ever left behind. *)
Lemma take_nonce_least v n :
  nonce_wf v -> 0 <= n < fst (take_nonce v) -> in_use v n.
Proof.
  intros [H0 Hf Ht] Hn. unfold take_nonce in Hn. unfold in_use.
  pose proof (min_free_spec (ns_free v)) as Hm.
  destruct (min_free (ns_free v)) as [m|]; simpl in Hn.
  - destruct Hm as [Hin Hle]. pose proof (Hf m Hin). split; [lia|].
    intros Hn'. specialize (Hle n Hn'). lia.
  - rewrite Hm. split; [lia|set_solver].
Qed.

Lemma take_nonce_nonneg v : nonce_wf v -> 0 <= fst (take_nonce v).
Proof.
  intros [H0 Hf Ht]. unfold take_nonce. pose proof (min_free_spec (ns_free v)) as Hm.
  destruct (min_free (ns_free v)) as [m|]; simpl; [|lia].
  destruct Hm as [Hin _]. specialize (Hf m Hin). lia.
Qed.

(** The counter did not wrap: nonce [u64::MAX] itself was not handed out. *)
Definition no_wrap (v : NonceState) : Prop := fst (take_nonce v) < u64_max.

Lemma take_nonce_wf v : nonce_wf v -> no_wrap v -> nonce_wf (snd (take_nonce v)).
Proof.
  unfold no_wrap, take_nonce. intros [H0 Hf Ht]. pose proof (min_free_spec (ns_free v)) as Hm.
  destruct (min_free (ns_free v)) as [m|]; simpl; intros Hw; constructor; simpl.
  - done.
  - intros n Hn. apply Hf. set_solver.
  - set_solver.
  - rewrite wrapping_add_small; lia.
  - rewrite Hm. set_solver.
  - rewrite Hm. set_solver.
Qed.

Lemma take_nonce_in_use v n :
  nonce_wf v -> no_wrap v ->
  in_use (snd (take_nonce v)) n <-> in_use v n \/ n = fst (take_nonce v).
Proof.
  unfold no_wrap, take_nonce, in_use. intros [H0 Hf Ht].
  pose proof (min_free_spec (ns_free v)) as Hm.
  destruct (min_free (ns_free v)) as [m|]; simpl; intros Hw.
  - destruct Hm as [Hin _]. pose proof (Hf m Hin).
    rewrite not_elem_of_difference, elem_of_singleton.
    destruct (decide (n = m)) as [->|]; [|tauto]. split; [by right|]. intros _. split; [lia|by right].
  - rewrite wrapping_add_small by lia. rewrite Hm. split.
    + intros [? _]. destruct (decide (n = ns_next v)); [by right|left]. split; [lia|set_solver].
    + intros [[? _]| ->]; (split; [lia|set_solver]).
Qed.

(** The state while the release loop runs: the top may still be free. *)
Record absorbing (v : NonceState) : Prop := {
  ab_next : 0 <= ns_next v <= u64_max;
  ab_free : forall n, n ∈ ns_free v -> 0 <= n < ns_next v;
}.

(** With one round per freed nonce the loop ends at a well-formed state, and never
    changes the set in use. *)
Lemma absorb_spec fuel v :
  absorbing v -> (size (ns_free v) <= fuel)%nat ->
  nonce_wf (absorb fuel v) /\ forall n, in_use (absorb fuel v) n <-> in_use v n.
Proof.
  revert v. induction fuel as [|fuel IH]; intros v [H0 Hf] Hsz; simpl.
  - assert (ns_free v ≡ ∅) as He by (apply size_empty_iff; lia).
    split; [constructor; [done..|set_solver]|done].
  - destruct (_ && _) eqn:Hc; bool_simpl.
    + destruct (IH (mkNonceState (ns_next v - 1) (ns_free v ∖ {[ns_next v - 1]}))) as [Hwf Hu].
      * constructor; simpl; [lia|]. intros n [Hn Hne]%elem_of_difference.
        apply Hf in Hn. assert (n <> ns_next v - 1) by set_solver. lia.
      * simpl. rewrite size_difference by set_solver. rewrite size_singleton. lia.
      * split; [done|]. intros n. rewrite Hu. unfold in_use; simpl.
        rewrite not_elem_of_difference, elem_of_singleton.
        destruct (decide (n = ns_next v - 1)) as [->|]; [|split; intros; intuition lia].
        split; [lia|]. intros [_ ?]. done.
    + split; [|done]. constructor; [done..|]. apply andb_false_iff in Hc as [Hc|Hc]; bool_simpl.
      * intros Hin%Hf. lia.
      * done.
Qed.

Lemma release_state_spec v n v' :
  nonce_wf v -> 0 <= n -> release_state v n = Some v' ->
  nonce_wf v' /\ forall m, in_use v' m <-> in_use v m /\ m <> n.
Proof.
  intros [H0 Hf Ht] Hn. unfold release_state.
  destruct (ns_next v <=? n) eqn:Hle; bool_simpl; [done|].
  rewrite wrapping_add_small by lia.
  destruct (n + 1 =? ns_next v) eqn:Htop; bool_simpl; intros [= <-].
  - destruct (absorb_spec (size (ns_free v)) (set_next (ns_next v - 1) v)) as [Hwf Hu].
    + constructor; simpl; [lia|]. intros m Hm. pose proof (Hf m Hm).
      assert (m <> ns_next v - 1) by (intros ->; done). lia.
    + done.
    + split; [done|]. intros m. rewrite Hu. unfold in_use; simpl. intuition lia.
  - split.
    + constructor; simpl; [done| |].
      * intros m [->%elem_of_singleton|Hm]%elem_of_union; [lia|auto].
      * rewrite elem_of_union, elem_of_singleton. intros [?|?]; [lia|done].
    + intros m. unfold in_use; simpl. rewrite not_elem_of_union, elem_of_singleton. intuition lia.
Qed.

Lemma release_state_none v n :
  release_state v n = None <-> ns_next v <= n.
Proof.
  unfold release_state. destruct (ns_next v <=? n) eqn:H; bool_simpl; [done|].
  destruct (_ =? _); (split; [done|lia]).
Qed.

Lemma reset_state_spec v c :
  nonce_wf v -> is_u64 c ->
  nonce_wf (reset_state v c) /\
  forall n, in_use (reset_state v c) n <-> in_use v n \/ 0 <= n < c.
Proof.
  intros [H0 Hf Ht] Hc. unfold is_uint in Hc. unfold reset_state, in_use. split.
  - constructor; simpl; [lia| |].
    + intros n [_ Hn%Hf]%elem_of_filter. lia.
    + intros [Hge Hin]%elem_of_filter. pose proof (Hf _ Hin). 
      assert (Hm : Z.max (ns_next v) c = ns_next v) by lia. by rewrite Hm in Hin.
  - intros n; simpl. rewrite elem_of_filter. split.
    + intros [Hn Hnot]. destruct (decide (n < c)); [right; lia|left].
      assert (n ∉ ns_free v) by (intros ?; apply Hnot; split; [lia|done]). split; [lia|done].
    + intros [[Hn Hnot]|Hn]; (split; [lia|intros [? ?]; try lia; done]).
Qed.

Lemma release_wf v n :
  nonce_wf v -> 0 <= n -> nonce_wf (default v (release_state v n)).
Proof.
  intros Hwf Hn. destruct (release_state v n) as [v'|] eqn:Hr; simpl; [|done].
  by apply (release_state_spec v n v').
Qed.

Lemma release_not_in_use v n :
  nonce_wf v -> 0 <= n ->
  forall m, in_use (default v (release_state v n)) m <-> in_use v m /\ m <> n.
Proof.
  intros Hwf Hn m. destruct (release_state v n) as [v'|] eqn:Hr; simpl.
  - by apply (release_state_spec v n v').
  - apply release_state_none in Hr. unfold in_use. intuition lia.
Qed.

(** ** Termination of the retry loops *)

Definition ev_cas_lost (e : event resp) : bool :=
  match e with existT (CasNonceState _ _ _ _) (Ok false) => true | _ => false end.

(** Lost compare-and-swap races in a history. *)
Definition cas_losses (tr : history) : nat := length (List.filter ev_cas_lost tr).

Lemma cas_losses_cons e tr :
  cas_losses (e :: tr) = ((if ev_cas_lost e then 1 else 0) + cas_losses tr)%nat.
Proof. unfold cas_losses. simpl. by destruct (ev_cas_lost e). Qed.

(** One lost race more in the history, unless the loop is left. *)
Ltac losses := rewrite ?cas_losses_cons; simpl; split; [lia|intros ?; first [discriminate|lia]].

Lemma retry_terminates {A E} (body : io (result (option A) E)) tr0 fuel :
  (forall tr, triple any_response any_call body tr
     (fun tr' r => (cas_losses tr <= cas_losses tr')%nat /\
        (r = Ok None -> (cas_losses tr < cas_losses tr')%nat))) ->
  triple any_response any_call (retry fuel body) tr0
    (fun tr' r => r = None -> (cas_losses tr0 + fuel <= cas_losses tr')%nat).
Proof.
  intros Hbody. revert tr0. induction fuel as [|fuel IH]; intros tr0; simpl.
  { intros _. lia. }
  apply triple_bind. eapply triple_mono; [|apply Hbody].
  intros tr' [[a|]|e] [Hmono Hloss]; simpl; [done| |done].
  eapply triple_mono; [|apply IH]. simpl. intros tr'' r H ->. specialize (Hloss eq_refl).
  specialize (H eq_refl). lia.
Qed.

(** ** Properties *)

(** C14: [{next, free}] implements the set of nonces in use.  On a well-formed state
    [allocate] hands out the least nonce not in use and adds exactly it, [release]
    removes exactly its argument, [reset] adds exactly the nonces the chain
    consumed; all three keep the state well formed. *)
Theorem nonce_state_refines_set (v : NonceState) (n c : Z) :
  nonce_wf v -> no_wrap v -> 0 <= n -> is_u64 c ->
  (let '(k, v') := take_nonce v in
   nonce_wf v' /\ ~ in_use v k /\ (forall m, 0 <= m < k -> in_use v m) /\
   (forall m, in_use v' m <-> in_use v m \/ m = k)) /\
  (let v' := default v (release_state v n) in
   nonce_wf v' /\ forall m, in_use v' m <-> in_use v m /\ m <> n) /\
  (nonce_wf (reset_state v c) /\
   forall m, in_use (reset_state v c) m <-> in_use v m \/ 0 <= m < c).
Proof.
  intros Hwf Hw Hn Hc. split_and!.
  - pose proof (take_nonce_fresh v Hwf). pose proof (fun m => take_nonce_least v m Hwf).
    pose proof (take_nonce_wf v Hwf Hw). pose proof (fun m => take_nonce_in_use v m Hwf Hw).
    destruct (take_nonce v) as [k v']. simpl in *. split_and!; auto.
  - split; [by apply release_wf|]. by apply release_not_in_use.
  - by apply reset_state_spec.
  - by apply reset_state_spec.
Qed.

Lemma nonce_state_refines_set_witness :
  let v := mkNonceState 7 {[3; 5]} in
  take_nonce v = (3, mkNonceState 7 {[5]}) /\ ~ in_use v 3 /\
  (forall m, in_use (reset_state v 4) m <-> in_use v m \/ 0 <= m < 4).
Proof.
  intros v.
  assert (Hwf : nonce_wf v).
  { constructor; [vm_compute; split; discriminate| |].
    - intros n. change (ns_free v) with ({[3; 5]} : gset Z). change (ns_next v) with 7.
      rewrite elem_of_union, !elem_of_singleton. lia.
    - change (6 ∉ ({[3; 5]} : gset Z)). rewrite elem_of_union, !elem_of_singleton. lia. }
  assert (Ht : take_nonce v = (3, mkNonceState 7 {[5]})) by (vm_compute; reflexivity).
  destruct (nonce_state_refines_set v 5 4 Hwf) as (H1 & _ & H3).
  - unfold no_wrap. rewrite Ht. vm_compute. reflexivity.
  - lia.
  - unfold is_uint, u64_max. lia.
  - rewrite Ht in H1. split; [exact Ht|]. split; [apply H1|apply H3].
Defined.

(** Releasing the nonce just allocated restores the state exactly, whatever the
    allocation recycled, so a send that fails before broadcast leaves no trace. *)
Theorem release_undoes_allocate (v : NonceState) :
  nonce_wf v -> no_wrap v ->
  let '(n, v') := take_nonce v in release_state v' n = Some v.
Proof.
  intros Hwf Hw.
  pose proof (take_nonce_fresh v Hwf) as Hfresh. pose proof (take_nonce_wf v Hwf Hw) as Hwf'.
  pose proof (take_nonce_in_use v) as Hu. pose proof (take_nonce_nonneg v Hwf) as H0.
  destruct (take_nonce v) as [n v'] eqn:Ht. simpl in *.
  destruct (release_state v' n) as [v''|] eqn:Hr.
  - destruct (release_state_spec v' n v'' Hwf' H0 Hr) as [Hwf'' Hu''].
    f_equal. apply nonce_wf_canonical; [done..|].
    intros m. rewrite Hu'', (Hu m Hwf Hw). split; [intuition congruence|].
    intros Hm. split; [by left|]. by intros ->.
  - apply release_state_none in Hr. destruct (Hu n Hwf Hw) as [_ Hin].
    destruct (Hin (or_intror eq_refl)) as [? _]. lia.
Qed.

Lemma release_undoes_allocate_witness :
  release_state (mkNonceState 3 ∅) 2 = Some (mkNonceState 2 ∅).
Proof.
  assert (Ht : take_nonce (mkNonceState 2 ∅) = (2, mkNonceState 3 ∅)) by (vm_compute; reflexivity).
  assert (Hwf : nonce_wf (mkNonceState 2 ∅)).
  { constructor; [vm_compute; split; discriminate| |apply not_elem_of_empty].
    intros n Hn. by apply not_elem_of_empty in Hn. }
  pose proof (release_undoes_allocate (mkNonceState 2 ∅) Hwf) as H. rewrite Ht in H.
  apply H. unfold no_wrap. rewrite Ht. vm_compute. reflexivity.
Defined.

(** C15: the retry loops terminate: whatever the store and the node answer, an
    operation given [fuel] rounds is still looping only if it lost at least [fuel]
    compare-and-swap races, each to another writer's success. *)
Theorem nonce_loops_terminate (self : LocalNonceManager) (fuel : nat) (account : Address)
    (n c : Z) (tr : history) :
  triple any_response any_call (allocate self fuel account) tr
    (fun tr' r => r = None -> (cas_losses tr + fuel <= cas_losses tr')%nat) /\
  triple any_response any_call (release self fuel account n) tr
    (fun tr' r => r = None -> (cas_losses tr + fuel <= cas_losses tr')%nat) /\
  triple any_response any_call (reset self fuel account c) tr
    (fun tr' r => r = None -> (cas_losses tr + fuel <= cas_losses tr')%nat).
Proof.
  split_and!; apply retry_terminates; intros tr'.
  - unfold allocate_body, cas, map_err, try_bind. simpl. split; [done|].
    intros [[value version]|e] _; simpl; [|losses].
    destruct (version =? 0); simpl.
    + split; [done|]. intros [next|e] _; simpl; [|losses].
      destruct (take_nonce _) as [k v']. simpl. split; [done|].
      intros [[|]|e] _; simpl; losses.
    + destruct (take_nonce _) as [k v']. simpl. split; [done|].
      intros [[|]|e] _; simpl; losses.
  - unfold release_body, cas, map_err, try_bind. simpl. split; [done|].
    intros [[value version]|e] _; simpl; [|losses].
    destruct (release_state value n) as [v'|]; simpl; [|losses].
    split; [done|]. intros [[|]|e] _; simpl; losses.
  - unfold reset_body, cas, map_err, try_bind. simpl. split; [done|].
    intros [[value version]|e] _; simpl; [|losses].
    split; [done|]. intros [[|]|e] _; simpl; losses.
Qed.
