(* ===== verification/NoncePool.v ===== *)
(** * NoncePool: any number of nonce managers over one store

    [LocalNonceManager] keeps no state of its own: "atomicity lives entirely in the
    [StateStore]" ([src/src/adapters/nonce.rs]).  Here several operations run at the
    same time, interleaved at every store and node call, with reads failing and
    compare-and-swaps lost, failing or committing without an acknowledgement at will.  The pool is linearizable, and no nonce is held
    by two of its users. *)
From S2P Require Import Prelude Effects Primitives Errors Ports Nonce.

(** ** Operations in flight *)

Inductive nonce_op : Type :=
| OpAllocate
| OpRelease (nonce : Z)
| OpReset (chain_next : Z).

#[export] Instance nonce_op_eq_dec : EqDecision nonce_op.
Proof. solve_decision. Defined.

(** A thread returns the nonce it was given, if its operation gives one; [None]
    when its fuel ran out. *)
Abbreviation thread := (io (option (result (option Z) NonceManagerError))).

Definition thread_result {A} (f : A -> option Z) (r : option (result A NonceManagerError))
  : option (result (option Z) NonceManagerError) :=
  match r with
  | None => None
  | Some (Ok a) => Some (Ok (f a))
  | Some (Err e) => Some (Err e)
  end.

Definition op_thread (self : LocalNonceManager) (account : Address) (fuel : nat) (op : nonce_op)
  : thread :=
  match op with
  | OpAllocate => let* r := allocate self fuel account in Ret (thread_result Some r)
  | OpRelease n => let* r := release self fuel account n in Ret (thread_result (fun _ => None) r)
  | OpReset c => let* r := reset self fuel account c in Ret (thread_result (fun _ => None) r)
  end.

(** What one operation does when it runs alone on the stored state. *)
Definition op_spec (op : nonce_op) (before : Versioned NonceState) (after : NonceState)
    (res : option Z) : Prop :=
  match op with
  | OpAllocate =>
      exists base n,
        (if v_version before =? 0
         then exists pending, is_u64 pending /\ base = set_next pending (v_value before)
         else base = v_value before) /\
        take_nonce base = (n, after) /\ res = Some n
  | OpRelease n => release_state (v_value before) n = Some after /\ res = None
  | OpReset c => after = reset_state (v_value before) c /\ res = None
  end.

(** An operation that returns without writing: releasing a nonce that is not live. *)
Definition op_noop (op : nonce_op) (before : Versioned NonceState) (res : option Z) : Prop :=
  match op with
  | OpRelease n => ns_next (v_value before) <= n /\ res = None
  | _ => False
  end.

(** ** The shared store and its interleavings *)

(** A committed write: who, on what, giving what, and whether the writer was told. *)
Record commit : Type := mkCommit {
  co_thread : nat;
  co_acked : bool;
  co_before : Versioned NonceState;
  co_after : NonceState;
}.

Record store : Type := mkStore {
  st_cell : Versioned NonceState;
  st_log : list commit;   (* newest first *)
}.

Definition commit_store (i : nat) (acked : bool) (after : NonceState) (s : store) : store :=
  mkStore (mkVersioned after (v_version (st_cell s) + 1))
    (mkCommit i acked (st_cell s) after :: st_log s).

(** The store's answer to a call of thread [i]: loads return the cell, a
    compare-and-swap commits exactly when the version is unchanged, any call may fail
    without effect, and a commit may be reported failed (its acknowledgement is lost); the
    node answers any [u64], and the other ports anything. *)
Definition store_step (i : nat) (s : store) (p : port) : resp p -> store -> Prop :=
  match p return resp p -> store -> Prop with
  | LoadNonceState _ => fun r s' => s' = s /\ (r = Ok (st_cell s) \/ exists e, r = Err e)
  | CasNonceState _ version value _ => fun r s' =>
      (version = v_version (st_cell s) /\ r = Ok true /\ s' = commit_store i true value s) \/
      (version <> v_version (st_cell s) /\ r = Ok false /\ s' = s) \/
      ((exists e, r = Err e) /\
         (s' = s \/ (version = v_version (st_cell s) /\ s' = commit_store i false value s)))
  | PendingNonce _ => fun r s' => s' = s /\ forall n, r = Ok n -> is_u64 n
  | _ => fun _ s' => s' = s
  end.

Inductive pool_step : list thread * store -> list thread * store -> Prop :=
| Step_thread ts s i p k r s' :
    ts !! i = Some (Call p k) ->
    store_step i s p r s' ->
    pool_step (ts, s) (<[i := k r]> ts, s').

Inductive pool_reach (c0 : list thread * store) : list thread * store -> Prop :=
| Reach_refl : pool_reach c0 c0
| Reach_step c c' : pool_reach c0 c -> pool_step c c' -> pool_reach c0 c'.

(** ** The thread invariant

    [pre_commit counts account op m seen]: thread [m] of operation [op] on [account], last
    having loaded [seen], has not written yet; it calls only its own account's cell; when
    it writes it writes what [op_spec] says of the loaded state, and returns at once, as it
    does when the write fails.  [counts] is what the node's pending counts satisfy. *)
Section PreCommit.
Context (counts : Z -> Prop) (account : Address) (op : nonce_op).

Fixpoint pre_commit (m : thread) (seen : option (Versioned NonceState)) : Prop :=
  match m with
  | Ret (Some (Ok res)) => exists v, seen = Some v /\ op_noop op v res
  | Ret _ => True
  | Call p k =>
      match p return (resp p -> Prop) -> (resp p -> option (Versioned NonceState) -> Prop) ->
                     (resp p -> thread) -> Prop with
      | LoadNonceState scope => fun _ rec _ =>
          scope = eoa account /\ (forall v, rec (Ok v) (Some v)) /\ forall e, rec (Err e) None
      | CasNonceState scope version value _ => fun _ rec k =>
          scope = eoa account /\
          exists v, seen = Some v /\ version = v_version v /\
            (exists res, k (Ok true) = Ret (Some (Ok res)) /\ op_spec op v value res) /\
            (op = OpAllocate -> v_version v = 0 ->
               exists pending, counts pending /\ value = snd (take_nonce (set_next pending (v_value v)))) /\
            rec (Ok false) None /\ forall e, exists e', k (Err e) = Ret (Some (Err e'))
      | PendingNonce _ => fun recs _ _ =>
          op = OpAllocate /\ forall r, (forall n, r = Ok n -> is_u64 n /\ counts n) -> recs r
      | _ => fun _ _ _ => False
      end (fun r => pre_commit (k r) seen) (fun r seen' => pre_commit (k r) seen') k
  end.

Lemma pre_commit_bind_retry {A} (f : A -> option Z) body fuel :
  (forall (K : io (option (result A NonceManagerError))) seen,
     pre_commit (let* r := K in Ret (thread_result f r)) None ->
     pre_commit
       (let* r := (let* r := body in
                   match r with
                   | Ok (Some a) => Ret (Some (Ok a))
                   | Ok None => K
                   | Err e => Ret (Some (Err e))
                   end) in Ret (thread_result f r)) seen) ->
  pre_commit (let* r := retry fuel body in Ret (thread_result f r)) None.
Proof using Type.
  intros Hbody. induction fuel as [|fuel IH]; simpl; [done|]. by apply Hbody.
Qed.

End PreCommit.

Lemma op_thread_pre_commit counts self account fuel op :
  pre_commit counts account op (op_thread self account fuel op) None.
Proof.
  destruct op as [|n|c]; simpl; apply pre_commit_bind_retry; intros K seen HK.
  - unfold allocate_body, cas, map_err, try_bind. simpl. split; [done|]. split; [|done].
    intros [value version]. simpl. destruct (version =? 0) eqn:Hv; simpl.
    + split; [done|]. intros [next|e] Hr; simpl; [|done]. specialize (Hr next eq_refl) as [Hr Hc].
      destruct (take_nonce _) as [n v'] eqn:Ht. simpl. split; [done|].
      eexists. split_and!; [done..| | |done|eauto].
      * eexists. split; [done|]. simpl. rewrite Hv. eauto 10.
      * intros _ _. exists next. simpl. by rewrite Ht.
    + destruct (take_nonce _) as [n v'] eqn:Ht. simpl. split; [done|].
      eexists. split_and!; [done..| | |done|eauto].
      * eexists. split; [done|]. simpl. rewrite Hv. eauto 10.
      * simpl. intros _ Hz. bool_simpl. done.
  - unfold release_body, cas, map_err, try_bind. simpl. split; [done|]. split; [|done].
    intros [value version]. simpl. destruct (release_state value n) as [v'|] eqn:Hr; simpl.
    + split; [done|]. eexists. split_and!; [done..| |done|done|eauto]. eexists. split; [done|]. by simpl.
    + apply release_state_none in Hr. eexists. split; [done|]. by simpl.
  - unfold reset_body, cas, map_err, try_bind. simpl. split; [done|]. split; [|done].
    intros [value version]. simpl. split; [done|].
    eexists. split_and!; [done..| |done|done|eauto]. eexists. split; [done|]. by simpl.
Qed.

(** Any count a node may report. *)
Definition any_count (_ : Z) : Prop := True.

(** ** The pool invariant *)

(** The log is a sequential history from [init] to the stored cell. *)
Fixpoint log_chain (init : Versioned NonceState) (log : list commit)
    (cell : Versioned NonceState) : Prop :=
  match log with
  | [] => cell = init
  | c :: log' =>
      cell = mkVersioned (co_after c) (v_version (co_before c) + 1) /\
      log_chain init log' (co_before c)
  end.

Definition commits_of (i : nat) (log : list commit) : list commit :=
  filter (fun c => co_thread c = i) log.

(** The contents the cell has had. *)
Definition past (s : store) : list (Versioned NonceState) :=
  st_cell s :: map co_before (st_log s).

Definition seen_ok (seen : option (Versioned NonceState)) (s : store) : Prop :=
  match seen with
  | None => True
  | Some v => v ∈ past s /\ v_version v <= v_version (st_cell s) /\
              (v_version v = v_version (st_cell s) -> v = st_cell s)
  end.

Definition thread_inv (op : nonce_op) (i : nat) (m : thread) (s : store) : Prop :=
  (commits_of i (st_log s) = [] /\ exists a seen, pre_commit any_count a op m seen /\ seen_ok seen s) \/
  (exists c res, commits_of i (st_log s) = [c] /\ op_spec op (co_before c) (co_after c) res /\
     if co_acked c then m = Ret (Some (Ok res)) else exists e, m = Ret (Some (Err e))).

Record pool_inv (ops : list nonce_op) (init : Versioned NonceState)
    (c : list thread * store) : Prop := {
  pi_chain : log_chain init (st_log (snd c)) (st_cell (snd c));
  pi_threads : Forall2 (fun _ _ => True) ops (fst c);
  pi_inv : forall i op m, ops !! i = Some op -> fst c !! i = Some m -> thread_inv op i m (snd c);
  pi_owner : forall co, co ∈ st_log (snd c) -> is_Some (ops !! co_thread co);
}.

Lemma seen_ok_commit i acked after s seen :
  seen_ok seen s -> seen_ok seen (commit_store i acked after s).
Proof.
  destruct seen as [v|]; simpl; [|done]. intros (Hin & Hle & _). split_and!; [|lia|lia].
  unfold past in *. simpl. by constructor.
Qed.

Lemma commits_of_commit_other i j acked after s :
  i <> j -> commits_of j (st_log (commit_store i acked after s)) = commits_of j (st_log s).
Proof. intros Hne. unfold commits_of. simpl. rewrite filter_cons_False; done. Qed.

Lemma thread_inv_other op i j m acked after s :
  i <> j -> thread_inv op j m s -> thread_inv op j m (commit_store i acked after s).
Proof.
  intros Hne [(Hno & a & seen & Hpre & Hseen)|(c & res & Hc & Hrest)].
  - left. rewrite commits_of_commit_other by done. split; [done|].
    exists a, seen. split; [done|]. by apply seen_ok_commit.
  - right. exists c, res. by rewrite commits_of_commit_other.
Qed.

(** A step of thread [i] either leaves the store alone or commits. *)
Lemma store_step_cases i s p r s' :
  store_step i s p r s' -> s' = s \/ exists acked after, s' = commit_store i acked after s.
Proof. destruct p; simpl; naive_solver. Qed.

(** The stepping thread keeps its own invariant. *)
Lemma thread_inv_self op i s p k r s' :
  thread_inv op i (Call p k) s -> store_step i s p r s' -> thread_inv op i (k r) s'.
Proof.
  intros [(Hno & a & seen & Hpre & Hseen)|(c & res & _ & _ & Hm)] Hstep;
    [|by destruct (co_acked c); [|destruct Hm]].
  assert (Hstay : forall m seen', pre_commit any_count a op m seen' -> seen_ok seen' s -> thread_inv op i m s).
  { intros m seen' ? ?. left. eauto. }
  assert (Hcell : seen_ok (Some (st_cell s)) s).
  { simpl. split_and!; [constructor|lia|done]. }
  destruct p; simpl in Hpre, Hstep; try done.
  - destruct Hpre as [_ Hpre], Hstep as [-> Hr]. apply (Hstay _ seen); [|done]. apply Hpre. intros n Hn. by split; [apply Hr|].
  - destruct Hpre as (_ & Hok & Herr). destruct Hstep as [-> [->|[e ->]]]; eapply Hstay; eauto; done.
  - destruct Hpre as (_ & v & -> & -> & (res & Hk & Hspec) & _ & Hlost & Herr).
    assert (Hone : forall acked, v_version v = v_version (st_cell s) ->
      commits_of i (st_log (commit_store i acked state s)) = [mkCommit i acked (st_cell s) state] /\
      op_spec op (st_cell s) state res).
    { intros acked Hv. destruct Hseen as (_ & _ & Heq). rewrite <- (Heq Hv). split; [|done].
      unfold commits_of in *. simpl. rewrite filter_cons_True by done. by rewrite Hno, Heq. }
    destruct Hstep as [(Hv & -> & ->)|[(_ & -> & ->)|[[e ->] [->|[Hv ->]]]]].
    + right. destruct (Hone true Hv). exists (mkCommit i true (st_cell s) state), res. by rewrite Hk.
    + by eapply (Hstay _ None).
    + destruct (Herr e) as [e' ->]. by eapply (Hstay _ None).
    + right. destruct (Hone false Hv), (Herr e) as [e' ->].
      exists (mkCommit i false (st_cell s) state), res. split_and!; [done..|]. by exists e'.
Qed.

Lemma pool_inv_step ops init c c' : pool_inv ops init c -> pool_step c c' -> pool_inv ops init c'.
Proof.
  intros [Hch Hlen Hinv Hown] Hst. destruct Hst as [ts s i p k r s' Hi Hstep]. simpl in *.
  assert (Hlt : (i < length ops)%nat).
  { apply Forall2_length in Hlen. apply lookup_lt_Some in Hi. lia. }
  constructor; simpl.
  - destruct (store_step_cases _ _ _ _ _ Hstep) as [->|(acked & after & ->)]; [done|]. by simpl.
  - apply Forall2_same_length. rewrite length_insert. by apply Forall2_length in Hlen.
  - intros j op m Hop Hm. destruct (decide (i = j)) as [<-|Hne].
    + rewrite list_lookup_insert_eq in Hm by (by eapply lookup_lt_Some).
      injection Hm as <-. eapply thread_inv_self; eauto.
    + rewrite list_lookup_insert_ne in Hm by done.
      destruct (store_step_cases _ _ _ _ _ Hstep) as [->|(acked & after & ->)]; [by eauto|].
      apply thread_inv_other; eauto.
  - intros co. destruct (store_step_cases _ _ _ _ _ Hstep) as [->|(acked & after & ->)]; [by auto|].
    simpl. intros [->|Hin]%elem_of_cons; [|auto]. by apply lookup_lt_is_Some.
Qed.

Definition pool_start (self : LocalNonceManager) (account : Address) (fuel : nat)
    (ops : list nonce_op) (init : Versioned NonceState) : list thread * store :=
  (map (op_thread self account fuel) ops, mkStore init []).

Lemma pool_inv_reach self account fuel ops init c :
  pool_reach (pool_start self account fuel ops init) c -> pool_inv ops init c.
Proof.
  intros H. induction H as [|c c' _ IH Hst]; [|by eapply pool_inv_step].
  constructor; simpl; [done| | |by intros ? ?%not_elem_of_nil].
  - apply Forall2_same_length. by rewrite length_map.
  - intros i op m Hop Hm. left. split; [done|]. exists account, None. split; [|done].
    apply list_lookup_fmap_Some in Hm as (op' & -> & Hop').
    assert (op' = op) as -> by congruence. apply op_thread_pre_commit.
Qed.

(** ** Sequential histories of commits *)

Definition op_typed (op : nonce_op) : Prop :=
  match op with
  | OpAllocate => True
  | OpRelease n => is_u64 n
  | OpReset c => is_u64 c
  end.

(** A cell as the stores hold it: version 0 is the absent (default) state. *)
Record cell_wf (v : Versioned NonceState) : Prop := {
  cw_value : nonce_wf (v_value v);
  cw_version : 0 <= v_version v;
  cw_absent : v_version v = 0 -> v_value v = NonceState_default;
}.

(** [op_commit ops c res]: [c] is the commit of an operation of the pool that
    returned [res] and did not wrap the counter. *)
Definition op_commit (ops : list nonce_op) (c : commit) (res : option Z) : Prop :=
  exists op, ops !! co_thread c = Some op /\ op_typed op /\
    op_spec op (co_before c) (co_after c) res /\
    (op = OpAllocate -> ns_next (co_after c) <> 0).

Lemma take_nonce_no_wrap v :
  nonce_wf v -> ns_next (snd (take_nonce v)) <> 0 -> no_wrap v.
Proof.
  intros [H0 Hf _]. unfold no_wrap, take_nonce. pose proof (min_free_spec (ns_free v)) as Hm.
  destruct (min_free (ns_free v)) as [m|]; simpl.
  - intros _. destruct Hm as [Hin _]. pose proof (Hf m Hin). lia.
  - intros Hne. destruct (decide (ns_next v = u64_max)) as [He|]; [|lia].
    exfalso. apply Hne. rewrite He. vm_compute. reflexivity.
Qed.

(** The state an allocation starts from: the cell, or the node's pending count. *)
Lemma alloc_base_wf before base :
  cell_wf before ->
  (if v_version before =? 0
   then exists pending, is_u64 pending /\ base = set_next pending (v_value before)
   else base = v_value before) ->
  nonce_wf base /\ forall n, in_use (v_value before) n -> in_use base n.
Proof.
  intros [Hwf Hv Habs]. destruct (v_version before =? 0) eqn:Hz; bool_simpl.
  - intros (p & Hp & ->). rewrite (Habs Hz). unfold is_uint in Hp. split.
    + constructor; simpl; [lia| |]; set_solver.
    + intros n [? _]. simpl in *. lia.
  - by intros ->.
Qed.

(** An operation that did not wrap the counter keeps every nonce in use but the one it
    releases, and hands out one that was not. *)
Lemma op_spec_effect op before after res :
  cell_wf before -> op_typed op -> op_spec op before after res ->
  (op = OpAllocate -> ns_next after <> 0) ->
  nonce_wf after /\
  (forall n, in_use (v_value before) n -> op <> OpRelease n -> in_use after n) /\
  (forall n, res = Some n -> in_use after n /\ (v_version before <> 0 -> ~ in_use (v_value before) n)).
Proof.
  intros Hcell Hty Hspec Hwrap. destruct op as [|n|cn]; simpl in *.
  - destruct Hspec as (base & n & Hbase & Htake & ->).
    destruct (alloc_base_wf _ _ Hcell Hbase) as [Hwf Hsub].
    assert (Hafter : after = snd (take_nonce base)) by (by rewrite Htake).
    assert (Hn : n = fst (take_nonce base)) by (by rewrite Htake).
    specialize (Hwrap eq_refl). rewrite Hafter in *.
    pose proof (take_nonce_no_wrap base Hwf Hwrap) as Hnw. split_and!.
    + by apply take_nonce_wf.
    + intros m Hm _. apply take_nonce_in_use; auto.
    + intros m [= <-]. split; [apply take_nonce_in_use; auto|].
      intros Hv. destruct (v_version before =? 0) eqn:Hz; bool_simpl; [done|].
      subst base. rewrite Hn. by apply take_nonce_fresh.
  - destruct Hspec as [Hr ->]. destruct Hcell as [Hwf _ _]. unfold is_uint in Hty.
    destruct (release_state_spec _ n _ Hwf ltac:(lia) Hr) as [Hwf' Hu].
    split_and!; [done| |done]. intros m Hm Hne. apply Hu. split; [done|]. by intros ->.
  - destruct Hspec as [-> ->]. destruct Hcell as [Hwf _ _].
    destruct (reset_state_spec _ _ Hwf Hty) as [Hwf' Hu].
    split_and!; [done| |done]. intros m Hm _. apply Hu. by left.
Qed.

Lemma op_commit_spec ops c res :
  cell_wf (co_before c) -> op_commit ops c res ->
  nonce_wf (co_after c) /\
  (forall n, in_use (v_value (co_before c)) n -> ops !! co_thread c <> Some (OpRelease n) ->
     in_use (co_after c) n) /\
  (forall n, res = Some n -> in_use (co_after c) n /\
     (v_version (co_before c) <> 0 -> ~ in_use (v_value (co_before c)) n)).
Proof.
  intros Hcell (op & Hop & Hty & Hspec & Hwrap). rewrite Hop.
  destruct (op_spec_effect op _ _ res Hcell Hty Hspec Hwrap) as (? & Hkeep & ?).
  split_and!; [done| |done]. intros n Hn Hne. apply Hkeep; congruence.
Qed.

(** The state of an account nothing was written for. *)
Definition absent_cell : Versioned NonceState := mkVersioned NonceState_default 0.

Lemma absent_cell_wf : cell_wf absent_cell.
Proof. constructor; [|done|done]. constructor; [vm_compute; split; discriminate| |]; set_solver. Qed.

(** Every cell of a history of commits is well formed, and a nonce once handed out
    stays in use until it is released. *)
Lemma log_chain_spec ops init log cell :
  cell_wf init -> log_chain init log cell ->
  Forall (fun c => exists res, op_commit ops c res) log ->
  cell_wf cell /\ (log <> [] -> v_version cell <> 0) /\
  (forall c n, c ∈ log -> op_commit ops c (Some n) -> OpRelease n ∉ ops -> in_use (v_value cell) n).
Proof.
  intros Hinit. revert cell. induction log as [|c log IH]; intros cell Hch Hall.
  { simpl in Hch. subst. split_and!; [done..|]. by intros ? ? ?%not_elem_of_nil. }
  destruct Hch as [-> Hch]. apply Forall_cons_1 in Hall as [(res & Hc) Hall].
  destruct (IH _ Hch Hall) as (Hwf & _ & Hheld).
  destruct (op_commit_spec ops c res Hwf Hc) as (Hwf' & Hkeep & _).
  pose proof (cw_version _ Hwf). split_and!.
  - constructor; simpl; [done|lia|intros; lia].
  - simpl. intros _. lia.
  - intros c' n [->|Hin]%elem_of_cons Hc' Hrel; simpl.
    + destruct (op_commit_spec ops c (Some n) Hwf Hc') as (_ & _ & Hnew). by apply Hnew.
    + apply Hkeep; [by eapply Hheld|]. intros Hop. apply Hrel. by eapply list_elem_of_lookup_2.
Qed.

Lemma log_chain_suffix init l1 c l2 cell :
  log_chain init (l1 ++ c :: l2) cell -> log_chain init l2 (co_before c).
Proof.
  revert cell. induction l1 as [|d l1 IH]; intros cell; simpl.
  - by intros [_ H].
  - intros [_ H]. by eapply IH.
Qed.

(** Two allocations of the same nonce need a release of it. *)
Lemma log_chain_distinct ops init cell l1 c l2 c' n :
  cell_wf init -> log_chain init (l1 ++ c :: l2) cell ->
  Forall (fun c => exists res, op_commit ops c res) (l1 ++ c :: l2) ->
  OpRelease n ∉ ops -> c' ∈ l2 ->
  op_commit ops c (Some n) -> op_commit ops c' (Some n) -> False.
Proof.
  intros Hinit Hch Hall Hrel Hin Hc Hc'.
  apply log_chain_suffix in Hch. apply Forall_app in Hall as [_ [_ Hall]%Forall_cons_1].
  destruct (log_chain_spec ops init l2 _ Hinit Hch Hall) as (Hwf & Hver & Hheld).
  destruct (op_commit_spec ops c (Some n) Hwf Hc) as (_ & _ & Hnew).
  destruct (Hnew n eq_refl) as [_ Hfresh]. apply Hfresh; [|by eapply Hheld].
  apply Hver. by intros ->; apply not_elem_of_nil in Hin.
Qed.

Lemma commits_of_singleton i log c :
  commits_of i log = [c] -> c ∈ log /\ co_thread c = i.
Proof.
  intros H. assert (Hin : c ∈ commits_of i log) by (rewrite H; constructor).
  unfold commits_of in Hin. apply list_elem_of_filter in Hin. tauto.
Qed.

(** Every logged commit is the commit of the thread it names. *)
Lemma pool_commit_spec ops init ts s c :
  pool_inv ops init (ts, s) -> c ∈ st_log s ->
  exists op res, ops !! co_thread c = Some op /\ op_spec op (co_before c) (co_after c) res.
Proof.
  intros [_ Hlen Hinv Hown] Hin. simpl in *. destruct (Hown c Hin) as [op Hop].
  destruct (Forall2_lookup_l _ _ _ _ _ Hlen Hop) as (m & Hm & _).
  assert (Hof : c ∈ commits_of (co_thread c) (st_log s)).
  { unfold commits_of. by apply list_elem_of_filter. }
  destruct (Hinv _ _ _ Hop Hm) as [(Hno & _)|(c' & res & Hc' & Hspec & _)].
  - rewrite Hno in Hof. by apply not_elem_of_nil in Hof.
  - rewrite Hc' in Hof. apply list_elem_of_singleton in Hof as ->. eauto.
Qed.

(** ** Properties *)

(** C5: a pool of allocations, releases and resets sharing a store is linearizable,
    under every interleaving, node answer, lost race and store failure.  The
    committed writes form one sequential history from the initial cell to the
    current one; an operation that returned [Ok] has exactly one commit, which did
    to the state it replaced what the operation does alone and gave the returned
    nonce (or it was a release of a nonce that was not live); an operation that failed has
    none, unless the store committed its write and reported a failure, and then that write
    did what the operation does alone; an operation still running or out of fuel has none. *)
Theorem nonce_pool_linearizable (self : LocalNonceManager) (account : Address) (fuel : nat)
    (ops : list nonce_op) (init : Versioned NonceState) (ts : list thread) (s : store) :
  pool_reach (pool_start self account fuel ops init) (ts, s) ->
  log_chain init (st_log s) (st_cell s) /\
  forall i op, ops !! i = Some op -> exists m, ts !! i = Some m /\
    match m with
    | Ret (Some (Ok res)) =>
        (exists c, commits_of i (st_log s) = [c] /\ op_spec op (co_before c) (co_after c) res /\
           co_acked c = true) \/
        (commits_of i (st_log s) = [] /\ exists v, v ∈ past s /\ op_noop op v res)
    | Ret (Some (Err _)) =>
        commits_of i (st_log s) = [] \/
        (exists c lost, commits_of i (st_log s) = [c] /\ op_spec op (co_before c) (co_after c) lost /\
           co_acked c = false)
    | _ => commits_of i (st_log s) = []
    end.
Proof.
  intros [Hch Hlen Hinv _]%pool_inv_reach. simpl in *. split; [done|]. intros i op Hop.
  destruct (Forall2_lookup_l _ _ _ _ _ Hlen Hop) as (m & Hm & _). exists m. split; [done|].
  destruct (Hinv _ _ _ Hop Hm) as [(Hno & a & seen & Hpre & Hseen)|(c & res & Hc & Hspec & Hret)].
  - destruct m as [[[res|e]|]|p k]; try done; [|by left]. right. split; [done|].
    destruct Hpre as (v & -> & Hnoop). exists v. split; [apply Hseen|done].
  - destruct (co_acked c) eqn:Hack; [subst m|destruct Hret as [e ->]]; [left|right]; eauto.
Qed.

(** No nonce has two holders: in a pool sharing a store, two operations that
    returned the same nonce imply that someone asked for its release. *)
Theorem nonce_pool_no_double_allocation (self : LocalNonceManager) (account : Address)
    (fuel : nat) (ops : list nonce_op) (init : Versioned NonceState)
    (ts : list thread) (s : store) (i j : nat) (n : Z) :
  cell_wf init -> Forall op_typed ops ->
  pool_reach (pool_start self account fuel ops init) (ts, s) ->
  (forall c, c ∈ st_log s -> ops !! co_thread c = Some OpAllocate -> ns_next (co_after c) <> 0) ->
  ts !! i = Some (Ret (Some (Ok (Some n)))) -> ts !! j = Some (Ret (Some (Ok (Some n)))) ->
  i <> j -> OpRelease n ∈ ops.
Proof.
  intros Hinit Hty Hreach%pool_inv_reach Hwrap Hi Hj Hne.
  destruct (decide (OpRelease n ∈ ops)) as [Hin|Hrel]; [done|exfalso].
  assert (Hall : Forall (fun c => exists res, op_commit ops c res) (st_log s)).
  { apply Forall_forall. intros c Hc%list_elem_of_In.
    destruct (pool_commit_spec _ _ _ _ _ Hreach Hc) as (op & res & Hop & Hspec).
    exists res, op. split_and!; [done| |done|]; [by eapply Forall_lookup_1|]. intros ->. auto. }
  assert (Hcommit : forall a, ts !! a = Some (Ret (Some (Ok (Some n)))) ->
    exists c, c ∈ st_log s /\ co_thread c = a /\ op_commit ops c (Some n)).
  { intros a Ha. destruct Hreach as [_ Hlen Hinv _]; simpl in *.
    destruct (Forall2_lookup_r _ _ _ _ _ Hlen Ha) as (op & Hop & _).
    destruct (Hinv _ _ _ Hop Ha) as [(_ & ? & seen & Hpre & _)|(c & res & Hc & Hspec & Hret)].
    - destruct Hpre as (v & _ & Hnoop). destruct op; simpl in Hnoop; naive_solver.
    - destruct (co_acked c); [injection Hret as <-|by destruct Hret].
      apply commits_of_singleton in Hc as [Hin <-]. exists c. split_and!; [done..|].
      exists op. split_and!; [done| |done|]; [by eapply Forall_lookup_1|]. intros ->. auto. }
  destruct (Hcommit i Hi) as (ci & Hini & Hti & Hci). destruct (Hcommit j Hj) as (cj & Hinj & Htj & Hcj).
  destruct Hreach as [Hch _ _ _]; simpl in Hch.
  apply list_elem_of_split in Hini as (l1 & l2 & Hlog). rewrite Hlog in *.
  apply elem_of_app in Hinj as [Hinj|[->|Hinj]%elem_of_cons].
  - apply list_elem_of_split in Hinj as (l3 & l4 & ->).
    rewrite <- app_assoc in *. simpl in *.
    eapply (log_chain_distinct ops init _ l3 cj _ ci); eauto.
    apply elem_of_app. right. constructor.
  - congruence.
  - eapply (log_chain_distinct ops init _ l1 ci l2 cj); eauto.
Qed.

(** ** Concrete schedules *)

(** A store that never fails, over a node whose pending count is 5. *)
Definition demo_answer (i : nat) (s : store) (p : port) : option (resp p * store) :=
  match p return option (resp p * store) with
  | LoadNonceState _ => Some (Ok (st_cell s), s)
  | CasNonceState _ version value _ =>
      if decide (version = v_version (st_cell s)) then Some (Ok true, commit_store i true value s)
      else Some (Ok false, s)
  | PendingNonce _ => Some (Ok 5, s)
  | _ => None
  end.

Fixpoint demo_schedule (sched : list nat) (c : list thread * store) : list thread * store :=
  match sched with
  | [] => c
  | i :: sched' =>
      match fst c !! i with
      | Some (Call p k) =>
          match demo_answer i (snd c) p with
          | Some (r, s') => demo_schedule sched' (<[i := k r]> (fst c), s')
          | None => c
          end
      | _ => c
      end
  end.

Lemma demo_answer_step i s p r s' : demo_answer i s p = Some (r, s') -> store_step i s p r s'.
Proof.
  destruct p; simpl; try done.
  - intros [= <- <-]. split; [done|]. intros n [= <-]. unfold is_uint, u64_max. lia.
  - intros [= <- <-]. auto.
  - case_decide; intros [= <- <-]; auto.
Qed.

Lemma demo_schedule_reach sched c c0 : pool_reach c0 c -> pool_reach c0 (demo_schedule sched c).
Proof.
  revert c. induction sched as [|i sched IH]; intros [ts s] Hc; simpl; [done|].
  destruct (ts !! i) as [[a|p k]|] eqn:Hi; [done| |done].
  destruct (demo_answer i s p) as [[r s']|] eqn:Ha; [|done].
  apply IH. eapply Reach_step; [done|]. constructor; [done|]. by apply demo_answer_step.
Qed.

(** Two first allocations race on an absent state; the loser goes round again. *)
Definition demo_race : list thread * store :=
  demo_schedule [0; 1; 0; 1; 0; 1; 1; 1]%nat
    (pool_start LocalNonceManager_new 9 3 [OpAllocate; OpAllocate]
       (mkVersioned NonceState_default 0)).

Lemma nonce_pool_linearizable_witness :
  fst demo_race = [Ret (Some (Ok (Some 5))); Ret (Some (Ok (Some 6)))] /\
  log_chain (mkVersioned NonceState_default 0) (st_log (snd demo_race)) (st_cell (snd demo_race)).
Proof.
  split; [vm_compute; reflexivity|].
  refine (proj1 (nonce_pool_linearizable LocalNonceManager_new 9 3 [OpAllocate; OpAllocate]
    (mkVersioned NonceState_default 0) (fst demo_race) (snd demo_race) _)).
  rewrite <- surjective_pairing. apply (demo_schedule_reach [0; 1; 0; 1; 0; 1; 1; 1]%nat), Reach_refl.
Defined.

(** An allocation, a release of the nonce it got and a second allocation. *)
Definition demo_recycle_ops : list nonce_op := [OpAllocate; OpRelease 5; OpAllocate].
Definition demo_recycle : list thread * store :=
  demo_schedule [0; 0; 0; 1; 1; 2; 2]%nat
    (pool_start LocalNonceManager_new 9 3 demo_recycle_ops (mkVersioned NonceState_default 0)).

Lemma nonce_pool_no_double_allocation_witness :
  fst demo_recycle !! 0%nat = fst demo_recycle !! 2%nat /\ OpRelease 5 ∈ demo_recycle_ops.
Proof.
  split; [vm_compute; reflexivity|].
  refine (nonce_pool_no_double_allocation LocalNonceManager_new 9 3 demo_recycle_ops
    (mkVersioned NonceState_default 0) (fst demo_recycle) (snd demo_recycle) 0 2 5 _ _ _ _ _ _ _).
  - constructor; [|done|done]. constructor; [vm_compute; split; discriminate| |]; set_solver.
  - repeat constructor; vm_compute; discriminate.
  - rewrite <- surjective_pairing. apply (demo_schedule_reach [0; 0; 0; 1; 1; 2; 2]%nat), Reach_refl.
  - assert (Hall : Forall (fun c => ns_next (co_after c) <> 0) (st_log (snd demo_recycle)))
      by (vm_compute; repeat constructor; discriminate).
    intros c Hc _. by apply (proj1 (Forall_forall _ _) Hall c), list_elem_of_In.
  - vm_compute. reflexivity.
  - vm_compute. reflexivity.
  - discriminate.
Defined.
