(* ===== verification/GasOracle.v ===== *)
(** * GasOracle: fee estimates and replacement pricing

    [src/src/adapters/gas_oracle.rs] ([RpcGasOracle]).  [bump] prices a replacement
    so that geth's pool admits it, the base fee is covered and a ceiling holds.
    What it promises is the contract [gas_env] the executor and the transaction
    manager are verified against. *)
From S2P Require Import Prelude Effects Primitives Errors Ports.

Definition PRICE_BUMP_PCT : Z := 10.
Definition BASE_FEE_MULTIPLIER : Z := 2.

Record RpcGasOracle : Type := mkGasOracle { ceiling_max_fee : Z }.

(** The replacement price of one fee field. *)
Definition rbf (old : Z) : Z :=
  Z.max (div_ceil (saturating_mul u128_max old (100 + PRICE_BUMP_PCT)) 100)
    (wrapping_add u128_max old 1).

Definition gas_estimate : io (result Eip1559Estimation GasOracleError) :=
  map_err Gas_Rpc (call EstimateFees).

Definition gas_bump (self : RpcGasOracle) (prev : Eip1559Estimation)
  : io (result Eip1559Estimation GasOracleError) :=
  let tip := rbf (max_priority_fee_per_gas prev) in
  let rbf_cap := rbf (max_fee_per_gas prev) in
  let? base_fee := map_err Gas_Rpc (call BaseFee) in
  let coverage :=
    saturating_add u128_max (saturating_mul u128_max base_fee BASE_FEE_MULTIPLIER) tip in
  let max_fee := Z.max rbf_cap coverage in
  if ceiling_max_fee self <? max_fee
  then Ret (Err (CeilingExceeded (ceiling_max_fee self) max_fee))
  else Ret (Ok (mkEstimation max_fee tip)).

(** ** What a replacement price must satisfy *)

Definition fees_u128 (f : Eip1559Estimation) : Prop :=
  is_u128 (max_fee_per_gas f) /\ is_u128 (max_priority_fee_per_gas f).

(** geth's rule on one field: at least 10% more, when the product is representable. *)
Definition price_bumped (old new : Z) : Prop :=
  old < new /\ (110 * old <= u128_max -> 110 * old <= 100 * new).

Record bump_ok (ceiling : Z) (prev next : Eip1559Estimation) : Prop := {
  bo_max_fee : max_fee_per_gas prev < u128_max ->
    price_bumped (max_fee_per_gas prev) (max_fee_per_gas next);
  bo_tip : max_priority_fee_per_gas prev < u128_max ->
    price_bumped (max_priority_fee_per_gas prev) (max_priority_fee_per_gas next);
  bo_tip_le : max_priority_fee_per_gas next <= max_fee_per_gas next;
  bo_ceiling : max_fee_per_gas next <= ceiling;
  bo_nonneg : 0 <= max_priority_fee_per_gas next;
}.

(** The oracle's contract, as its clients see it: estimates are [u128] fees, and a
    bump of [u128] fees is a valid replacement under the ceiling. *)
Definition gas_env (ceiling : Z) (p : port) : resp p -> Prop :=
  match p return resp p -> Prop with
  | GasBump prev => fun r => forall f, r = Ok f -> fees_u128 prev -> bump_ok ceiling prev f
  | GasEstimate => fun r => forall f, r = Ok f -> fees_u128 f
  | _ => fun _ => True
  end.

(** The node's integers have the width of their Rust types. *)
Definition node_env (p : port) : resp p -> Prop :=
  match p return resp p -> Prop with
  | BaseFee => fun r => forall b, r = Ok b -> is_u128 b
  | EstimateFees => fun r => forall f, r = Ok f -> fees_u128 f
  | _ => fun _ => True
  end.

(** ** Lemmas *)

Lemma rbf_nonneg old : is_u128 old -> 0 <= rbf old.
Proof.
  unfold is_uint, rbf, wrapping_add. intros H.
  pose proof (Z.mod_pos_bound (old + 1) (u128_max + 1) ltac:(done)). lia.
Qed.

Lemma rbf_bumped old : is_u128 old -> old < u128_max -> price_bumped old (rbf old).
Proof.
  unfold is_uint, price_bumped, rbf, saturating_mul. intros H Hlt.
  rewrite wrapping_add_small by lia. split; [lia|]. intros Hno.
  change (100 + PRICE_BUMP_PCT) with 110.
  rewrite Z.min_r by lia. pose proof (div_ceil_ge (old * 110) 100 ltac:(lia)). lia.
Qed.

Lemma coverage_ge_tip base tip :
  is_u128 base -> 0 <= tip <= u128_max ->
  tip <= saturating_add u128_max (saturating_mul u128_max base BASE_FEE_MULTIPLIER) tip.
Proof. unfold is_uint, saturating_add, saturating_mul, BASE_FEE_MULTIPLIER. lia. Qed.

Lemma rbf_le_max old : is_u128 old -> rbf old <= u128_max.
Proof.
  unfold is_uint, rbf, saturating_mul, wrapping_add. intros H.
  pose proof (Z.mod_pos_bound (old + 1) (u128_max + 1) ltac:(done)).
  pose proof (div_ceil_lt (Z.min u128_max (old * (100 + PRICE_BUMP_PCT))) 100 ltac:(lia)).
  assert (u128_max + 100 < 100 * u128_max) by done. lia.
Qed.

(** The price [bump] computes satisfies the contract when the ceiling admits it. *)
Lemma bump_price_ok ceiling prev base :
  fees_u128 prev -> is_u128 base ->
  let tip := rbf (max_priority_fee_per_gas prev) in
  let max_fee := Z.max (rbf (max_fee_per_gas prev))
    (saturating_add u128_max (saturating_mul u128_max base BASE_FEE_MULTIPLIER) tip) in
  max_fee <= ceiling -> bump_ok ceiling prev (mkEstimation max_fee tip).
Proof.
  intros [Hcap Htip] Hbase tip max_fee Hc.
  pose proof (rbf_nonneg _ Htip). pose proof (rbf_le_max _ Htip).
  pose proof (coverage_ge_tip base tip Hbase ltac:(lia)).
  constructor; simpl; [|by apply rbf_bumped|lia|lia|lia].
  intros Hlt. pose proof (rbf_bumped _ Hcap Hlt) as [? ?]. split; [lia|]. intros; lia.
Qed.

(** ** Properties *)

(** Twice the base fee and the tip, saturating: what keeps a replacement includable. *)
Definition coverage (base tip : Z) : Z := Z.min u128_max (Z.min u128_max (2 * base) + tip).

(** [price] is the least fee cap that replaces [old] and covers [base] and [tip]. *)
Definition least_price (old base tip price : Z) : Prop :=
  old < price /\ 110 * old <= 100 * price /\ coverage base tip <= price /\
  forall n, old < n -> 110 * old <= 100 * n -> coverage base tip <= n -> price <= n.

Lemma rbf_least old :
  is_u128 old -> 110 * old <= u128_max ->
  old < rbf old /\ 110 * old <= 100 * rbf old /\ forall n, old < n -> 110 * old <= 100 * n -> rbf old <= n.
Proof.
  unfold is_uint, rbf, saturating_mul. intros H Hfit. change (100 + PRICE_BUMP_PCT) with 110.
  assert (Htop : 1 < u128_max) by done. rewrite wrapping_add_small by lia. rewrite Z.min_r by lia.
  pose proof (div_ceil_ge (old * 110) 100 ltac:(lia)). pose proof (div_ceil_lt (old * 110) 100 ltac:(lia)).
  split_and!; [lia..|]. intros n Hn Hp. apply Z.max_lub; lia.
Qed.

Lemma bump_price_least prev base :
  fees_u128 prev -> 110 * max_fee_per_gas prev <= u128_max ->
  let tip := rbf (max_priority_fee_per_gas prev) in
  least_price (max_fee_per_gas prev) base tip
    (Z.max (rbf (max_fee_per_gas prev))
       (saturating_add u128_max (saturating_mul u128_max base BASE_FEE_MULTIPLIER) tip)).
Proof.
  intros [Hcap _] Hfit tip. destruct (rbf_least _ Hcap Hfit) as (H1 & H2 & H3).
  assert (E : saturating_add u128_max (saturating_mul u128_max base BASE_FEE_MULTIPLIER) tip = coverage base tip).
  { unfold saturating_add, saturating_mul, coverage, BASE_FEE_MULTIPLIER. lia. }
  rewrite E. unfold least_price. split_and!; [lia..|]. intros n ? ? ?. pose proof (H3 n). lia.
Qed.

(** C29: every branch of [bump], for every node and fees whose 110 per cent can be computed
    within [u128] (110 times the fee fits).  A bump that succeeds raises the tip to the least
    value 10% above it, as geth asks, and the fee cap to the least value that is 10% above
    the old one and covers twice the base fee just read plus that tip; the tip is within the
    cap and the cap within the ceiling.  It fails with [CeilingExceeded] exactly when that
    least cap, which the error carries, is above the ceiling, and with the node's error when
    the base fee could not be read. *)
Theorem gas_bump_spec (self : RpcGasOracle) (prev : Eip1559Estimation) (tr : history) :
  fees_u128 prev -> 110 * max_fee_per_gas prev <= u128_max -> 110 * max_priority_fee_per_gas prev <= u128_max ->
  triple node_env any_call (gas_bump self prev) tr (fun tr' r =>
    exists b, tr' = existT BaseFee b :: tr /\
    match b, r with
    | Ok base, Ok next =>
        least_price (max_priority_fee_per_gas prev) 0 0 (max_priority_fee_per_gas next) /\
        least_price (max_fee_per_gas prev) base (max_priority_fee_per_gas next) (max_fee_per_gas next) /\
        max_priority_fee_per_gas next <= max_fee_per_gas next <= ceiling_max_fee self
    | Ok base, Err (CeilingExceeded ceiling needed) =>
        ceiling = ceiling_max_fee self /\ ceiling < needed /\
        exists tip, least_price (max_priority_fee_per_gas prev) 0 0 tip /\
          least_price (max_fee_per_gas prev) base tip needed
    | Err e, Err (Gas_Rpc e') => e = e'
    | _, _ => False
    end).
Proof.
  intros Hprev Hfit Htip. unfold gas_bump, map_err, try_bind. simpl. split; [done|].
  intros [base|e] Henv; simpl; [|by eexists; split].
  specialize (Henv base eq_refl). pose proof (bump_price_least prev base Hprev Hfit) as Hleast.
  assert (Hlt : least_price (max_priority_fee_per_gas prev) 0 0 (rbf (max_priority_fee_per_gas prev))).
  { destruct (rbf_least _ (proj2 Hprev) Htip) as (H1 & H2 & H3).
    assert (coverage 0 0 = 0) by (unfold coverage, u128_max; lia).
    destruct Hprev as [_ [? _]]. split_and!; [lia..|]. intros n ? ? _. by apply H3. }
  destruct (ceiling_max_fee self <? _) eqn:Hc; bool_simpl; simpl; eexists; (split; [done|]); simpl.
  - split_and!; [done|lia|]. by eexists.
  - destruct (bump_price_ok (ceiling_max_fee self) prev base Hprev Henv Hc) as [_ _ ? _ _]. by split_and!.
Qed.

(** At the top of the range the wrapping [old + 1] makes the replacement cheaper than what
    it replaces (a debug build panics there). *)
Theorem rbf_at_max_underbids : rbf u128_max < u128_max.
Proof. vm_compute. reflexivity. Qed.

(** A node whose base fee is 70 wei. *)
Definition demo_node (p : port) : resp p :=
  match p return resp p with BaseFee => Ok 70 | q => offline q end.

Lemma demo_node_env p : node_env p (demo_node p).
Proof.
  destruct p; simpl; try done; intros ? [= <-]; unfold is_uint, u128_max; lia.
Qed.

Lemma gas_bump_spec_witness :
  fst (run_env demo_node (gas_bump (mkGasOracle 1000) (mkEstimation 100 10)))
    = Ok (mkEstimation 151 11) /\
  least_price 100 70 11 151.
Proof.
  assert (Hr : run_env demo_node (gas_bump (mkGasOracle 1000) (mkEstimation 100 10))
    = (Ok (mkEstimation 151 11), [existT BaseFee (Ok 70)])) by (vm_compute; reflexivity).
  split; [by rewrite Hr|].
  assert (Hf : fees_u128 (mkEstimation 100 10)) by (unfold fees_u128, is_uint, u128_max; simpl; lia).
  pose proof (run_env_triple demo_node node_env any_call _ _ demo_node_env
    (gas_bump_spec (mkGasOracle 1000) (mkEstimation 100 10) [] Hf
       ltac:(unfold u128_max; simpl; lia) ltac:(unfold u128_max; simpl; lia))) as [H _].
  rewrite Hr in H. simpl in H. destruct H as (b & E & H).
  apply (f_equal (fun l => match l with existT BaseFee r :: _ => r | _ => Ok 0 end)) in E.
  simpl in E. subst b. destruct H as (_ & H & _). exact H.
Defined.

(** ** The oracle discharges its contract *)

(** The ports [RpcGasOracle] implements, over the node; the others pass through. *)
Definition gas_impl (self : RpcGasOracle) (p : port) : io (resp p) :=
  match p return io (resp p) with
  | GasEstimate => gas_estimate
  | GasBump prev => gas_bump self prev
  | q => call q
  end.

Lemma gas_bump_contract self prev tr :
  triple node_env any_call (gas_bump self prev) tr
    (fun _ r => gas_env (ceiling_max_fee self) (GasBump prev) r).
Proof.
  unfold gas_bump, map_err, try_bind. simpl. split; [done|].
  intros [base|e] Henv; simpl; [|done]. specialize (Henv base eq_refl).
  destruct (ceiling_max_fee self <? _) eqn:Hc; bool_simpl; simpl; [done|].
  intros f [= <-] Hprev. by apply bump_price_ok.
Qed.

(** The contract and the node's widths hold together of every port. *)
Lemma gas_impl_contract self p tr :
  triple node_env any_call (gas_impl self p) tr
    (fun _ r => gas_env (ceiling_max_fee self) p r).
Proof.
  destruct p; simpl; try (split; [done|]; intros; exact I).
  - split; [done|]. intros [f|e] Hr; simpl; [|done]. intros f' [= <-]. auto.
  - apply gas_bump_contract.
Qed.

(** ** Escalation ladders *)

(** Fees reached by successive successful bumps. *)
Inductive ladder (ceiling : Z) : nat -> Eip1559Estimation -> Eip1559Estimation -> Prop :=
| Ladder_nil f : ladder ceiling 0 f f
| Ladder_step k f g h :
    ladder ceiling k f g -> bump_ok ceiling g h -> ladder ceiling (S k) f h.

(** Escalation is bounded: [k] successive bumps multiply the fee cap by at
    least 1.1 each, so under a ceiling at most [log_1.1 (ceiling / fee)] bumps can
    succeed, whatever the node reports. *)
Theorem gas_ladder_bounded (ceiling : Z) (k : nat) (f g : Eip1559Estimation) :
  110 * ceiling <= u128_max -> 0 < max_fee_per_gas f -> max_fee_per_gas f <= ceiling ->
  ladder ceiling k f g ->
  11 ^ Z.of_nat k * max_fee_per_gas f <= 10 ^ Z.of_nat k * max_fee_per_gas g /\
  max_fee_per_gas g <= ceiling /\ Z.of_nat k <= max_fee_per_gas g - max_fee_per_gas f.
Proof.
  intros Hceil Hpos Hf Hl. induction Hl as [f|k f g h Hl IH Hok].
  - split_and!; [rewrite !Z.pow_0_r; lia|done|lia].
  - destruct (IH Hpos Hf) as (Hpow & Hg & Hk). clear IH.
    assert (Hlt : max_fee_per_gas g < u128_max) by (assert (0 < u128_max) by done; lia).
    destruct (bo_max_fee _ _ _ Hok Hlt) as [Hinc Hten].
    pose proof (bo_ceiling _ _ _ Hok). specialize (Hten ltac:(lia)).
    assert (Hten' : 11 * max_fee_per_gas g <= 10 * max_fee_per_gas h) by lia.
    replace (Z.of_nat (S k)) with (Z.succ (Z.of_nat k)) by lia.
    rewrite !Z.pow_succ_r by lia. split_and!; [|lia|lia].
    pose proof (Z.pow_pos_nonneg 10 (Z.of_nat k) ltac:(lia) ltac:(lia)). nia.
Qed.

Lemma gas_ladder_bounded_witness :
  ladder 1000 1 (mkEstimation 100 10) (mkEstimation 151 11) /\ 11 ^ 1 * 100 <= 10 ^ 1 * 151.
Proof.
  assert (Hl : ladder 1000 1 (mkEstimation 100 10) (mkEstimation 151 11)).
  { eapply Ladder_step; [apply Ladder_nil|].
    constructor; unfold price_bumped, u128_max; simpl; lia. }
  split; [exact Hl|].
  apply (gas_ladder_bounded 1000 1 (mkEstimation 100 10) (mkEstimation 151 11) ltac:(unfold u128_max; lia) ltac:(simpl; lia)
    ltac:(simpl; lia) Hl).
Defined.
