(* ===== verification/Policy.v ===== *)
(** * Policy: the native rule engine

    [src/src/adapters/policy/native.rs].  Rules are values of any type with a
    [Policy] instance (the Rust trait); the engine folds them deny-over-allow under
    default-deny and mints an approval bound to the request's signing hash. *)
From stdpp Require Import pretty.
From S2P Require Import Prelude Effects Primitives Errors Ports.

Definition DEFAULT_APPROVAL_TTL : Z := 300.

Inductive Verdict : Type :=
| Verdict_Allow
| Verdict_Deny (r : PolicyRejection)
| Verdict_Abstain.

(** [trait Policy]. *)
Class Policy (T : Type) : Type := { check : T -> SigningRequest -> Verdict }.

(** [Box<dyn Policy>]. *)
Inductive BoxPolicy : Type :=
| Box (T : Type) (inst : Policy T) (p : T).
Arguments Box {T inst} p.
Definition box_check (b : BoxPolicy) (request : SigningRequest) : Verdict :=
  match b with Box p => check p request end.

(** ** Built-in rules *)

Record TargetAllowlist : Type := mkTargetAllowlist { ta_allowed : gset Address }.
Definition TargetAllowlist_new (allowed : list Address) : TargetAllowlist :=
  mkTargetAllowlist (list_to_set allowed).
#[export] Instance TargetAllowlist_Policy : Policy TargetAllowlist := {| check := fun self request =>
  match request with
  | Transaction i =>
      match ti_to i with
      | TxKind_Call a => if decide (a ∈ ta_allowed self) then Verdict_Allow else Verdict_Abstain
      | TxKind_Create => Verdict_Abstain
      end
  | _ => Verdict_Abstain
  end |}.

Record SpendLimit : Type := mkSpendLimit { sl_max_value : U256 }.
Definition SpendLimit_reason (value cap : U256) : string :=
  ("value " ++ pretty value ++ " exceeds cap " ++ pretty cap)%string.
#[export] Instance SpendLimit_Policy : Policy SpendLimit := {| check := fun self request =>
  match request with
  | Transaction i =>
      if sl_max_value self <? ti_value i
      then Verdict_Deny (mkRejection "SpendLimit" (Some "value")
             (SpendLimit_reason (ti_value i) (sl_max_value self)))
      else Verdict_Abstain
  | _ => Verdict_Abstain
  end |}.

Inductive MessageSigningAllowed : Type := mkMessageSigningAllowed.
#[export] Instance MessageSigningAllowed_Policy : Policy MessageSigningAllowed := {| check := fun _ request =>
  match request with Message _ => Verdict_Allow | _ => Verdict_Abstain end |}.

Record TypedDataDomainAllowlist : Type := mkTypedDataDomainAllowlist { tda_allowed : gset Address }.
Definition TypedDataDomainAllowlist_new (allowed : list Address) : TypedDataDomainAllowlist :=
  mkTypedDataDomainAllowlist (list_to_set allowed).
#[export] Instance TypedDataDomainAllowlist_Policy : Policy TypedDataDomainAllowlist :=
  {| check := fun self request =>
  match request with
  | TypedDataReq td =>
      match dom_verifying_contract (td_domain td) with
      | Some c => if decide (c ∈ tda_allowed self) then Verdict_Allow else Verdict_Abstain
      | None => Verdict_Abstain
      end
  | _ => Verdict_Abstain
  end |}.

Inductive AllowAll : Type := mkAllowAll.
#[export] Instance AllowAll_Policy : Policy AllowAll := {| check := fun _ _ => Verdict_Allow |}.

(** ** The engine *)

Record DefaultPolicyEngine : Type := mkPolicyEngine {
  pe_policies : list BoxPolicy;
  pe_fee_caps : GasEnvelope;
  pe_approval_ttl : Z;
}.
Definition DefaultPolicyEngine_new (policies : list BoxPolicy) : DefaultPolicyEngine :=
  mkPolicyEngine policies GasEnvelope_DEFAULT DEFAULT_APPROVAL_TTL.
Definition with_fee_caps (fee_caps : GasEnvelope) (e : DefaultPolicyEngine) : DefaultPolicyEngine :=
  mkPolicyEngine (pe_policies e) fee_caps (pe_approval_ttl e).

Definition malformed_payload : PolicyRejection :=
  mkRejection "malformed-payload" None "signing payload could not be hashed".
Definition default_deny : PolicyRejection :=
  mkRejection "default-deny" None "no policy granted permission".

(** The fold over the rules: a denial returns at once. *)
Fixpoint fold_rules (policies : list BoxPolicy) (request : SigningRequest) (allowed : bool)
  : result bool PolicyRejection :=
  match policies with
  | [] => Ok allowed
  | p :: policies' =>
      match box_check p request with
      | Verdict_Deny r => Err r
      | Verdict_Allow => fold_rules policies' request true
      | Verdict_Abstain => fold_rules policies' request allowed
      end
  end.

Definition cancel_ok (request : SigningRequest) : bool :=
  match request with Cancel i => is_self_send i | _ => false end.

Section Engine.
Context {A : Alloy}.

Definition decide_outcome (self : DefaultPolicyEngine) (request : SigningRequest) : PolicyOutcome :=
  match fold_rules (pe_policies self) request false with
  | Err r => WouldDeny r
  | Ok allowed =>
      if negb allowed && negb (cancel_ok request) then WouldDeny default_deny
      else if is_err (signing_hash request) then WouldDeny malformed_payload
      else WouldAllow
  end.

Definition decide_request (self : DefaultPolicyEngine) (request : SigningRequest) : io Decision :=
  match decide_outcome self request with
  | WouldDeny r => Ret (Deny r)
  | WouldAllow =>
      match signing_hash request with
      | Ok payload_hash =>
          let* now := call NowUnix in
          let valid_until := wrapping_add u64_max now (pe_approval_ttl self) in
          Ret (Allow (mint payload_hash (pe_fee_caps self) valid_until))
      | Err _ => Ret (Deny malformed_payload)
      end
  end.

Definition evaluate (self : DefaultPolicyEngine) (request : SigningRequest)
  : io (result Decision PolicyEngineError) :=
  let* d := decide_request self request in Ret (Ok d).
Definition validate (self : DefaultPolicyEngine) (request : SigningRequest)
  : io (result PolicyOutcome PolicyEngineError) :=
  Ret (Ok (decide_outcome self request)).

(** ** Lemmas *)

Definition denies (request : SigningRequest) (p : BoxPolicy) : Prop :=
  exists r, box_check p request = Verdict_Deny r.
Definition grants (request : SigningRequest) (p : BoxPolicy) : Prop :=
  box_check p request = Verdict_Allow.

Lemma fold_rules_Ok policies request allowed b :
  fold_rules policies request allowed = Ok b <->
  Forall (fun p => ~ denies request p) policies /\
  (b = true <-> allowed = true \/ Exists (grants request) policies).
Proof.
  revert allowed. induction policies as [|p policies IH]; intros allowed; simpl.
  - split.
    + intros [= <-]. split; [constructor|]. rewrite List.Exists_nil. tauto.
    + rewrite List.Exists_nil. intros [_ H]. f_equal. destruct allowed, b; intuition congruence.
  - rewrite Forall_cons_iff, List.Exists_cons. unfold denies, grants in *.
    destruct (box_check p request) as [|r|] eqn:Hp; rewrite ?IH; naive_solver.
Qed.

Lemma fold_rules_Err policies request allowed r :
  fold_rules policies request allowed = Err r <->
  exists before p after, policies = before ++ p :: after /\
    Forall (fun q => ~ denies request q) before /\ box_check p request = Verdict_Deny r.
Proof.
  revert allowed. induction policies as [|p policies IH]; intros allowed; simpl.
  - split; [done|]. intros ([] & ? & ? & ? & _); done.
  - unfold denies in *. destruct (box_check p request) as [|r'|] eqn:Hp; rewrite ?IH; split.
    + intros (before & q & after & -> & ? & ?). exists (p :: before), q, after.
      split_and!; [done| |done]. constructor; [|done]. rewrite Hp. by intros [? ?].
    + intros (before & q & after & Heq & Hall & Hq).
      destruct before as [|p' before]; simplify_eq/=; [congruence|].
      apply Forall_cons_1 in Hall as [_ Hall]. eauto 10.
    + intros [= ->]. exists [], p, policies. auto.
    + intros (before & q & after & Heq & Hall & Hq).
      destruct before as [|p' before]; simplify_eq/=; [congruence|].
      apply Forall_cons_1 in Hall as [Hn _]. destruct Hn. eauto.
    + intros (before & q & after & -> & ? & ?). exists (p :: before), q, after.
      split_and!; [done| |done]. constructor; [|done]. rewrite Hp. by intros [? ?].
    + intros (before & q & after & Heq & Hall & Hq).
      destruct before as [|p' before]; simplify_eq/=; [congruence|].
      apply Forall_cons_1 in Hall as [_ Hall]. eauto 10.
Qed.

(** The engine's decision, rule by rule. *)
Lemma decide_outcome_allow self request :
  decide_outcome self request = WouldAllow <->
  Forall (fun p => ~ denies request p) (pe_policies self) /\
  (Exists (grants request) (pe_policies self) \/ cancel_ok request = true) /\
  exists h, signing_hash request = Ok h.
Proof.
  unfold decide_outcome. destruct (fold_rules _ _ _) as [b|r] eqn:Hf.
  - apply fold_rules_Ok in Hf as [Hall Hb].
    destruct (signing_hash request) as [h|e]; simpl;
      destruct b, (cancel_ok request); simpl; naive_solver.
  - split; [done|]. intros [Hall _]. apply fold_rules_Err in Hf as (l1 & p & l2 & Heq & _ & Hp).
    rewrite Heq in Hall. apply Forall_app in Hall as [_ [Hn _]%Forall_cons_1].
    destruct Hn. by exists r.
Qed.

Lemma denies_split request before p after r :
  box_check p request = Verdict_Deny r ->
  ~ Forall (fun q => ~ denies request q) (before ++ p :: after).
Proof. intros Hp [_ [Hn _]%Forall_cons_1]%Forall_app. destruct Hn. by exists r. Qed.

Lemma decide_outcome_deny self request r :
  decide_outcome self request = WouldDeny r <->
  (exists before p after, pe_policies self = before ++ p :: after /\
     Forall (fun q => ~ denies request q) before /\ box_check p request = Verdict_Deny r) \/
  (Forall (fun q => ~ denies request q) (pe_policies self) /\
     ~ Exists (grants request) (pe_policies self) /\ cancel_ok request = false /\
     r = default_deny) \/
  (Forall (fun q => ~ denies request q) (pe_policies self) /\
     (Exists (grants request) (pe_policies self) \/ cancel_ok request = true) /\
     is_err (signing_hash request) = true /\ r = malformed_payload).
Proof.
  unfold decide_outcome. destruct (fold_rules _ _ _) as [b|r'] eqn:Hf.
  - pose proof Hf as [Hall Hb]%fold_rules_Ok.
    assert (Hno : ~ exists before p after, pe_policies self = before ++ p :: after /\
      Forall (fun q => ~ denies request q) before /\ box_check p request = Verdict_Deny r).
    { intros (l1 & p & l2 & Heq & _ & Hp). rewrite Heq in Hall. by eapply denies_split. }
    assert (Hg : b = true <-> Exists (grants request) (pe_policies self)) by intuition congruence.
    clear Hb Hf. destruct (is_err (signing_hash request)), b, (cancel_ok request); simpl;
      intuition (try congruence).
  - pose proof Hf as (l1 & p & l2 & Heq & Hl1 & Hp)%fold_rules_Err.
    assert (Hno : ~ Forall (fun q => ~ denies request q) (pe_policies self))
      by (rewrite Heq; by eapply denies_split).
    rewrite <- fold_rules_Err with (allowed := false), Hf. intuition (try congruence).
Qed.

Lemma evaluate_spec self request tr :
  triple any_response any_call (evaluate self request) tr (fun tr' r =>
    match decide_outcome self request with
    | WouldDeny rej => tr' = tr /\ r = Ok (Deny rej)
    | WouldAllow => exists h now, signing_hash request = Ok h /\ tr' = existT NowUnix now :: tr /\
        r = Ok (Allow (mint h (pe_fee_caps self)
                         (wrapping_add u64_max now (pe_approval_ttl self))))
    end).
Proof.
  unfold evaluate, decide_request. destruct (decide_outcome self request) as [|rej] eqn:Hd.
  - apply decide_outcome_allow in Hd as (_ & _ & h & Hh). rewrite Hh. simpl.
    split; [done|]. intros now _. eauto.
  - simpl. auto.
Qed.
End Engine.

(** ** The contract of a policy engine

    What the pipeline relies on: an approval is bound to the request it was
    evaluated for. *)
Definition policy_env {A : Alloy} (p : port) : resp p -> Prop :=
  match p return resp p -> Prop with
  | Evaluate _ request => fun r => forall a, r = Ok (Allow a) ->
      exists h, signing_hash request = Ok h /\ authorizes a h = true
  | _ => fun _ => True
  end.

Lemma evaluate_contract {A : Alloy} who self request tr :
  triple any_response any_call (evaluate self request) tr
    (fun _ r => policy_env (Evaluate who request) r).
Proof.
  eapply triple_mono; [|apply evaluate_spec]. simpl. intros tr' r.
  destruct (decide_outcome self request) as [|rej].
  - intros (h & now & Hh & _ & ->) a [= <-]. exists h. split; [done|].
    unfold authorizes. simpl. apply Z.eqb_refl.
  - by intros [_ ->].
Qed.

(** ** Properties *)

Section Properties.
Context {A : Alloy}.

(** C27: the native engine is deny-over-allow and default-deny.  A request passes
    exactly when no rule denies it, some rule grants it (or it cancels with a
    self-send), and its payload hashes; the order of the rules is irrelevant to the
    verdict.  Every refusal is determined: it is the first denying rule's own rejection;
    the default-deny one exactly when no rule denies, none grants and it is no self-send
    cancel; the malformed-payload one exactly when it would pass but does not hash. *)
Theorem policy_verdict (self : DefaultPolicyEngine) (request : SigningRequest) :
  (decide_outcome self request = WouldAllow <->
     Forall (fun p => ~ denies request p) (pe_policies self) /\
     (Exists (grants request) (pe_policies self) \/ cancel_ok request = true) /\
     exists h, signing_hash request = Ok h) /\
  (forall policies', policies' ≡ₚ pe_policies self ->
     decide_outcome (mkPolicyEngine policies' (pe_fee_caps self) (pe_approval_ttl self)) request
       = WouldAllow <-> decide_outcome self request = WouldAllow) /\
  (forall r, decide_outcome self request = WouldDeny r <->
     (exists before p after, pe_policies self = before ++ p :: after /\
        Forall (fun q => ~ denies request q) before /\ box_check p request = Verdict_Deny r) \/
     (Forall (fun q => ~ denies request q) (pe_policies self) /\
        ~ Exists (grants request) (pe_policies self) /\ cancel_ok request = false /\
        r = default_deny) \/
     (Forall (fun q => ~ denies request q) (pe_policies self) /\
        (Exists (grants request) (pe_policies self) \/ cancel_ok request = true) /\
        is_err (signing_hash request) = true /\ r = malformed_payload)).
Proof.
  split_and!.
  - apply decide_outcome_allow.
  - intros policies' Hp. rewrite !decide_outcome_allow. simpl.
    assert (HF : Forall (fun p => ~ denies request p) policies' <->
                 Forall (fun p => ~ denies request p) (pe_policies self)) by (by rewrite Hp).
    assert (HE : Exists (grants request) policies' <-> Exists (grants request) (pe_policies self))
      by (by rewrite Hp).
    tauto.
  - apply decide_outcome_deny.
Qed.

(** The decision and the dry run agree on every branch.  [evaluate] allows
    exactly when [validate] would, with the same refusal otherwise, and an approval
    authorizes exactly the request's signing hash, carries the engine's fee caps and
    expires one TTL after the clock read that minted it. *)
Theorem policy_evaluate_binds (self : DefaultPolicyEngine) (request : SigningRequest) (tr : history) :
  triple any_response any_call
    (let* v := validate self request in let* d := evaluate self request in Ret (v, d)) tr
    (fun tr' vd =>
       match vd with
       | (Ok WouldAllow, Ok (Allow a)) => exists h now,
           signing_hash request = Ok h /\ tr' = existT NowUnix now :: tr /\
           (forall h', authorizes a h' = true <-> h' = h) /\
           pa_gas_envelope a = pe_fee_caps self /\
           pa_valid_until a = wrapping_add u64_max now (pe_approval_ttl self)
       | (Ok (WouldDeny r), Ok (Deny r')) => r = r' /\ tr' = tr
       | _ => False
       end).
Proof.
  unfold validate. simpl. apply triple_bind.
  eapply triple_mono; [|apply evaluate_spec]. simpl. intros tr' d.
  destruct (decide_outcome self request) as [|rej]; [|by intros [-> ->]].
  intros (h & now & Hh & -> & ->). exists h, now. split_and!; [done..| |done|done].
  intros h'. unfold authorizes. simpl. rewrite Z.eqb_eq. split; congruence.
Qed.

(** What the usual production policy lets through.  An allowlist with a spend
    cap admits a transaction exactly when it calls a listed target within the cap,
    a cancel exactly when it is a self-send, and no message or typed-data request. *)
Theorem allowlist_with_cap_admits (targets : list Address) (cap : U256) (request : SigningRequest) :
  let engine := DefaultPolicyEngine_new
    [Box (TargetAllowlist_new targets); Box (mkSpendLimit cap)] in
  decide_outcome engine request = WouldAllow <->
  match request with
  | Transaction i => exists a, ti_to i = TxKind_Call a /\ a ∈ targets /\ ti_value i <= cap
  | Cancel i => ti_to i = TxKind_Call (ti_account i) /\ ti_value i = 0 /\ ti_input i = []
  | Message _ | TypedDataReq _ => False
  end.
Proof.
  intros engine. rewrite decide_outcome_allow. unfold engine. simpl.
  rewrite !Forall_cons_iff, !List.Exists_cons, List.Exists_nil.
  unfold denies, grants, box_check, check; simpl.
  destruct request as [i|b|td|i]; simpl.
  - destruct (ti_to i) as [|a].
    { split; [|by intros (a & ? & _)]. intros (_ & [[H|[H|H]]|H] & _); [done| |done..].
      by destruct (cap <? ti_value i). }
    case_decide as Ha;
      rewrite elem_of_list_to_set in Ha; destruct (cap <? ti_value i) eqn:Hv; bool_simpl.
    + split; [|intros (a' & [= <-] & _ & ?); lia]. intros ((_ & Hd & _) & _). destruct Hd. eauto.
    + split; [intros _; eauto|]. intros _. split_and!; [by intros [? ?]|by intros [? ?]|done|by auto|eauto].
    + split; [|by intros (a' & [= <-] & ? & _)]. intros (_ & [[H|[H|H]]|H] & _); done.
    + split; [|by intros (a' & [= <-] & ? & _)]. intros (_ & [[H|[H|H]]|H] & _); done.
  - split; [|done]. intros (_ & [[H|[H|H]]|H] & _); done.
  - split; [|done]. intros (_ & [[H|[H|H]]|H] & _); done.
  - assert (Hself : is_self_send i = true <->
      ti_to i = TxKind_Call (ti_account i) /\ ti_value i = 0 /\ ti_input i = []).
    { unfold is_self_send. rewrite !andb_true_iff, bool_decide_eq_true, Z.eqb_eq.
      destruct (ti_input i); intuition congruence. }
    rewrite <- Hself. split.
    + intros (_ & [[H|[H|H]]|H] & _); done.
    + intros H. split_and!; [by intros [? ?]|by intros [? ?]|done|by right|eauto].
Qed.
End Properties.
