(* ===== verification/Signer.v ===== *)
(** * Signer: the approval gate in front of the key

    [src/src/adapters/signers.rs] ([LocalSigner]) and the trait
    [src/src/core/deps/signer.rs].  The key itself (alloy's [PrivateKeySigner]) is a
    parameter: an address and a hash-signing function.  The theorems say exactly when
    a signature comes out and what it is over. *)
From S2P Require Import Prelude Effects Primitives ModelAlloy Errors Ports Policy.

(** [PrivateKeySigner]: [address] and [sign_hash_sync]. *)
Record LocalSigner : Type := mkLocalSigner {
  ls_address : Address;
  ls_sign_hash_sync : B256 -> result Signature string;
}.

Section Signer.
Context {A : Alloy}.

Definition gate (approval : PolicyApproval) (payload_hash : B256) (now : Z) : result unit SignerError :=
  if negb (authorizes approval payload_hash) then Err ApprovalMismatch
  else if pa_valid_until approval <? now then Err ApprovalExpired
  else Ok tt.

Definition sign_hash_low_s (self : LocalSigner) (hash : B256) : result Signature SignerError :=
  match ls_sign_hash_sync self hash with
  | Err e => Err (Signer_Backend e)
  | Ok sig => Ok (enforce_low_s sig)
  end.

Definition sign_transaction (self : LocalSigner) (tx : TxEip1559) (intent_hash : IntentHash)
    (approval : PolicyApproval) (now : Z) : result Signature SignerError :=
  match gate approval intent_hash now with
  | Err e => Err e
  | Ok _ =>
      if negb (admits (pa_gas_envelope approval) (tx_max_fee_per_gas tx)
                 (tx_max_priority_fee_per_gas tx))
      then Err FeesExceedApproval
      else sign_hash_low_s self (signature_hash tx)
  end.

Definition sign_message (self : LocalSigner) (message : Bytes) (approval : PolicyApproval) (now : Z)
  : result SignatureEnvelope SignerError :=
  let hash := eip191_hash_message message in
  match gate approval hash now with
  | Err e => Err e
  | Ok _ =>
      match sign_hash_low_s self hash with
      | Err e => Err e
      | Ok sig => Ok (SignatureEnvelope_secp256k1 (ls_address self) sig)
      end
  end.

Definition sign_typed_data (self : LocalSigner) (typed : TypedData) (approval : PolicyApproval)
    (now : Z) : result SignatureEnvelope SignerError :=
  match typed_data_hash typed with
  | Err e => Err (Payload e)
  | Ok hash =>
      match gate approval hash now with
      | Err e => Err e
      | Ok _ =>
          match sign_hash_low_s self hash with
          | Err e => Err e
          | Ok sig => Ok (SignatureEnvelope_secp256k1 (ls_address self) sig)
          end
      end
  end.

(** ** The contract of a signer *)

(** An approval in force for a payload at [now]. *)
Definition in_force (a : PolicyApproval) (payload_hash : B256) (now : Z) : Prop :=
  pa_payload_hash a = payload_hash /\ now <= pa_valid_until a.

(** What the pipeline relies on: a signature comes out only under an approval in
    force for the payload, and for a transaction within its fee envelope. *)
Definition signer_env (p : port) : resp p -> Prop :=
  match p return resp p -> Prop with
  | SignTransaction _ tx intent_hash approval now => fun r =>
      is_ok r = true -> in_force approval intent_hash now /\
        admits (pa_gas_envelope approval) (tx_max_fee_per_gas tx)
          (tx_max_priority_fee_per_gas tx) = true
  | SignMessage _ message approval now => fun r =>
      is_ok r = true -> in_force approval (eip191_hash_message message) now
  | SignTypedData _ typed approval now => fun r =>
      is_ok r = true -> exists h, typed_data_hash typed = Ok h /\ in_force approval h now
  | _ => fun _ => True
  end.

(** The signing ports served by a local key; the others pass through. *)
Definition signer_impl (signer_of : principal -> LocalSigner) (p : port) : io (resp p) :=
  match p return io (resp p) with
  | SignTransaction who tx intent_hash approval now =>
      Ret (sign_transaction (signer_of who) tx intent_hash approval now)
  | SignMessage who message approval now => Ret (sign_message (signer_of who) message approval now)
  | SignTypedData who typed approval now => Ret (sign_typed_data (signer_of who) typed approval now)
  | q => call q
  end.

(** ** Lemmas *)

Lemma gate_spec a h now :
  match gate a h now with
  | Ok _ => in_force a h now
  | Err e => (e = ApprovalMismatch /\ pa_payload_hash a <> h) \/
             (e = ApprovalExpired /\ pa_payload_hash a = h /\ pa_valid_until a < now)
  end.
Proof.
  unfold gate, in_force, authorizes.
  destruct (pa_payload_hash a =? h) eqn:Hh; bool_simpl; simpl; [|by left].
  destruct (pa_valid_until a <? now) eqn:Hv; bool_simpl; [by right|lia].
Qed.

Lemma gate_in_force a h now : in_force a h now -> gate a h now = Ok tt.
Proof.
  intros [Hh Hv]. unfold gate, authorizes. rewrite Hh, Z.eqb_refl. simpl.
  destruct (pa_valid_until a <? now) eqn:H; bool_simpl; [lia|done].
Qed.

Lemma signer_contract signer_of p tr :
  triple any_response any_call (signer_impl signer_of p) tr (fun _ r => signer_env p r).
Proof.
  destruct p; simpl; try (split; [done|]; intros; exact I).
  - unfold sign_transaction. pose proof (gate_spec approval intent_hash now) as Hg.
    destruct (gate _ _ _); [|done]. destruct (admits _ _ _); simpl; [|done]. auto.
  - unfold sign_message. pose proof (gate_spec approval (eip191_hash_message message) now) as Hg.
    destruct (gate _ _ _); [|done]. auto.
  - unfold sign_typed_data. destruct (typed_data_hash typed) as [h|e]; [|done].
    pose proof (gate_spec approval h now) as Hg. destruct (gate _ _ _); [|done]. eauto.
Qed.

(** ** Properties *)

Section Laws.
Context {L : AlloyLaws A}.

Lemma enforce_low_s_low sig : normalize_s (enforce_low_s sig) = None.
Proof.
  unfold enforce_low_s. destruct (normalize_s sig) as [sig'|] eqn:H; simpl; [|done].
  by eapply normalize_s_low.
Qed.

(** C28: exactly when the local signer signs, for all three payload kinds.  A
    transaction signature comes out iff the approval is for this intent, unexpired
    at [now], admits the fees, and the key signs; it is then the low-s form of the
    key's signature over the transaction's own signing hash.  Messages and typed
    data are gated by the hash that is signed, and typed data without a non-zero
    chain id is never signed. *)
Theorem local_signer_gate (self : LocalSigner) (tx : TxEip1559) (message : Bytes)
    (typed : TypedData) (intent_hash : IntentHash) (a : PolicyApproval) (now : Z) (sig : Signature) :
  (sign_transaction self tx intent_hash a now = Ok sig <->
     in_force a intent_hash now /\
     tx_max_fee_per_gas tx <= max_fee_cap (pa_gas_envelope a) /\
     tx_max_priority_fee_per_gas tx <= max_priority_cap (pa_gas_envelope a) /\
     exists raw, ls_sign_hash_sync self (signature_hash tx) = Ok raw /\ sig = enforce_low_s raw) /\
  (sign_message self message a now = Ok (SignatureEnvelope_secp256k1 (ls_address self) sig) <->
     in_force a (eip191_hash_message message) now /\
     exists raw, ls_sign_hash_sync self (eip191_hash_message message) = Ok raw /\
       sig = enforce_low_s raw) /\
  (sign_typed_data self typed a now = Ok (SignatureEnvelope_secp256k1 (ls_address self) sig) <->
     exists h id, dom_chain_id (td_domain typed) = Some id /\ id <> 0 /\
       eip712_signing_hash typed = Ok h /\ in_force a h now /\
       exists raw, ls_sign_hash_sync self h = Ok raw /\ sig = enforce_low_s raw) /\
  (forall raw, normalize_s (enforce_low_s raw) = None).
Proof.
  split_and!; [| | |apply enforce_low_s_low].
  - unfold sign_transaction, sign_hash_low_s, admits. split.
    + pose proof (gate_spec a intent_hash now). destruct (gate _ _ _); [|done].
      destruct (_ && _) eqn:Had; simpl; [|done]. bool_simpl.
      destruct (ls_sign_hash_sync _ _) eqn:Hs; [|done]. intros [= <-]. eauto 10.
    + intros (Hf & ? & ? & raw & -> & ->). rewrite (gate_in_force _ _ _ Hf).
      by rewrite !(proj2 (Z.leb_le _ _)).
  - unfold sign_message, sign_hash_low_s. split.
    + pose proof (gate_spec a (eip191_hash_message message) now). destruct (gate _ _ _); [|done].
      destruct (ls_sign_hash_sync _ _) eqn:Hs; [|done]. intros [= <-]. eauto.
    + intros (Hf & raw & -> & ->). by rewrite (gate_in_force _ _ _ Hf).
  - unfold sign_typed_data, sign_hash_low_s, typed_data_hash. split.
    + destruct (dom_chain_id (td_domain typed)) as [id|]; [|done].
      destruct (id =? 0) eqn:Hid; bool_simpl; simpl; [done|].
      destruct (eip712_signing_hash typed) as [h|e]; simpl; [|done].
      pose proof (gate_spec a h now). destruct (gate _ _ _); [|done].
      destruct (ls_sign_hash_sync _ _) eqn:Hs; [|done]. intros [= <-]. eauto 10.
    + intros (h & id & -> & Hid & -> & Hf & raw & Hs & ->).
      apply Z.eqb_neq in Hid. rewrite Hid. simpl. by rewrite (gate_in_force _ _ _ Hf), Hs.
Qed.
End Laws.

(** Policy and signer compose: an approval the native engine mints for one
    request lets the key sign a transaction exactly when the transaction's intent
    has that request's signing hash, within one TTL of the minting, at fees within
    the engine's caps.  No other intent can be signed with it. *)
Theorem approval_signs_only_its_request (engine : DefaultPolicyEngine) (key : LocalSigner)
    (request : SigningRequest) (tx : TxEip1559) (intent : TxIntent) (now : Z) (tr : history) :
  (forall h, is_ok (ls_sign_hash_sync key h) = true) ->
  triple any_response any_call (evaluate engine request) tr (fun tr' r =>
    match r with
    | Ok (Allow a) => exists minted, tr' = existT NowUnix minted :: tr /\
        (minted + pe_approval_ttl engine <= u64_max -> 0 <= minted + pe_approval_ttl engine ->
         is_ok (sign_transaction key tx (TxIntent_hash intent) a now) = true <->
         signing_hash request = Ok (TxIntent_hash intent) /\
         now <= minted + pe_approval_ttl engine /\
         admits (pe_fee_caps engine) (tx_max_fee_per_gas tx) (tx_max_priority_fee_per_gas tx) = true)
    | _ => tr' = tr
    end).
Proof.
  intros Hkey. eapply triple_mono; [|apply evaluate_spec]. intros tr' r.
  destruct (decide_outcome engine request) as [|rej]; [|by intros [-> ->]].
  intros (h & minted & Hh & -> & ->). exists minted. split; [done|]. intros Hmax Hmin.
  rewrite Hh, wrapping_add_small by lia.
  unfold sign_transaction, gate, authorizes, mint; simpl.
  destruct (h =? TxIntent_hash intent) eqn:Heq; bool_simpl; simpl; [|naive_solver].
  destruct (minted + pe_approval_ttl engine <? now) eqn:Hexp; bool_simpl; simpl;
    [split; [done|]; intros (_ & ? & _); lia|].
  destruct (admits _ _ _); simpl; [|naive_solver].
  unfold sign_hash_low_s. specialize (Hkey (signature_hash tx)).
  destruct (ls_sign_hash_sync _ _); [|done]. split; [|done]. intros _. subst h. auto.
Qed.
End Signer.

(** A key that signs everything, with a high-s signature to normalize. *)
Definition demo_key : LocalSigner :=
  mkLocalSigner 7 (fun h => Ok (mkSignature h (secp256k1_n - 1) false)).
Definition demo_intent : TxIntent := TxIntent_transfer 1 7 8 100.
Definition demo_engine : DefaultPolicyEngine :=
  DefaultPolicyEngine_new [Box (TargetAllowlist_new [8]); Box (mkSpendLimit 1000)].
Definition demo_tx : TxEip1559 := mkTx 1 0 21000 200 10 (TxKind_Call 8) 100 [].
Definition demo_clock (p : port) : resp p :=
  match p return resp p with NowUnix => 1000 | q => offline q end.

Lemma approval_signs_only_its_request_witness :
  exists a, fst (run_env demo_clock (evaluate demo_engine (Transaction demo_intent))) = Ok (Allow a) /\
    is_ok (sign_transaction demo_key demo_tx (TxIntent_hash demo_intent) a 1300) = true.
Proof.
  assert (Hr : run_env demo_clock (evaluate demo_engine (Transaction demo_intent))
    = (Ok (Allow (mint (TxIntent_hash demo_intent) GasEnvelope_DEFAULT 1300)), [existT NowUnix 1000]))
    by (vm_compute; reflexivity).
  pose proof (run_env_triple demo_clock any_response any_call _ _ (fun _ => I)
    (approval_signs_only_its_request demo_engine demo_key (Transaction demo_intent) demo_tx
       demo_intent 1300 [] (fun h => eq_refl))) as [H _].
  rewrite Hr in *. simpl fst in *. simpl snd in *. eexists. split; [reflexivity|].
  destruct H as (minted & Htr & H).
  apply (f_equal (fun tr : history => match tr with existT NowUnix n :: _ => n | _ => 0 end)) in Htr.
  simpl in Htr. subst minted.
  apply H; [vm_compute; discriminate..|].
  split; [reflexivity|]. split; [vm_compute; discriminate|vm_compute; reflexivity].
Defined.

Lemma local_signer_gate_witness :
  sign_transaction demo_key demo_tx 5 (mint 5 GasEnvelope_DEFAULT 1300) 1300
    = Ok (mkSignature (signature_hash demo_tx) 1 true) /\
  normalize_s (mkSignature (signature_hash demo_tx) 1 true) = None.
Proof.
  destruct (local_signer_gate demo_key demo_tx [] (mkTypedData (mkDomain None None None None) EmptyString [])
    5 (mint 5 GasEnvelope_DEFAULT 1300) 1300 (mkSignature (signature_hash demo_tx) 1 true)) as [[_ H] _].
  split; [apply H|vm_compute; reflexivity].
  split; [split; [reflexivity|vm_compute; discriminate]|]. split; [vm_compute; discriminate|]. split; [vm_compute; discriminate|].
  exists (mkSignature (signature_hash demo_tx) (secp256k1_n - 1) false). split; vm_compute; reflexivity.
Defined.
