(* ===== verification/Signing.v ===== *)
(** * Signing: transaction assembly shared by send, cancel and bump

    [src/src/core/wallet/signing.rs]: the one place that turns intent fields into a
    signed, 2718-encoded transaction, and reads the fees back from one. *)
From S2P Require Import Prelude Effects Primitives Errors Ports.

Definition build_tx (intent : TxIntent) (nonce gas_limit : Z) (fees : Eip1559Estimation) : TxEip1559 :=
  mkTx (ti_chain_id intent) nonce gas_limit (max_fee_per_gas fees) (max_priority_fee_per_gas fees)
    (ti_to intent) (ti_value intent) (ti_input intent).

Record SignedTx : Type := mkSignedTx { st_rlp : Bytes; st_hash : TxHash }.
Record SignedFees : Type := mkSignedFees { sf_fees : Eip1559Estimation; sf_gas_limit : Z }.

Section Signing.
Context {A : Alloy}.

Definition signed_of (tx : TxEip1559) (signature : Signature) : SignedTx :=
  mkSignedTx (encoded_2718 tx signature) (signed_hash tx signature).

Definition sign_encode (who : principal) (tx : TxEip1559) (intent_hash : IntentHash)
    (approval : PolicyApproval) (now : Z) : io (result SignedTx SignerError) :=
  let? signature := call (SignTransaction who tx intent_hash approval now) in
  Ret (Ok (signed_of tx signature)).

Definition decode_fees (signed : Bytes) : option SignedFees :=
  match decode_2718 signed with
  | Some (Envelope_Eip1559 tx _) =>
      Some (mkSignedFees (mkEstimation (tx_max_fee_per_gas tx) (tx_max_priority_fee_per_gas tx))
              (tx_gas_limit tx))
  | _ => None
  end.

(** The fees and gas limit a transaction was built with are read back from its bytes. *)
Lemma decode_fees_built {L : AlloyLaws A} intent nonce gas fees sig :
  decode_fees (encoded_2718 (build_tx intent nonce gas fees) sig) = Some (mkSignedFees fees gas).
Proof. unfold decode_fees. rewrite decode_encoded. by destruct fees. Qed.

End Signing.
