(* ===== verification/TransactionManager.v ===== *)
(** * TransactionManager: the staged send pipeline

    [src/src/core/wallet/transaction_manager.rs]: estimate, price, policy, nonce, sign,
    persist, submit; cancel by a replacing self-send; and the gasless request a user
    signs for a relayer.  Every port answers adversarially. *)
From S2P Require Import Prelude Effects Primitives ModelAlloy Errors Ports GasOracle Policy Signer Signing.

Definition DEFAULT_GAS_BUFFER_PCT : Z := 25.
Definition CANCEL_GAS_LIMIT : Z := 21000.
Definition U48_MAX : Z := u48_max.

(** The manager's ports are the requests of [Ports]; what it holds besides is the
    principal its policy and signer serve, that signer's address, the routes its
    submission strategy supports, and the gas buffer. *)
Record TransactionManager : Type := mkManager {
  tm_who : principal;
  tm_signer_address : Address;
  tm_supports_route : SubmissionRoute -> bool;
  tm_gas_buffer_pct : Z;
}.
Definition TransactionManager_new (who : principal) (address : Address)
    (supports_route : SubmissionRoute -> bool) : TransactionManager :=
  mkManager who address supports_route DEFAULT_GAS_BUFFER_PCT.
Definition with_gas_buffer_pct (pct : Z) (tm : TransactionManager) : TransactionManager :=
  mkManager (tm_who tm) (tm_signer_address tm) (tm_supports_route tm) pct.

Definition intent_request (intent : TxIntent) : TransactionRequest :=
  mkRequest (Some (ti_account intent)) (Some (ti_to intent)) (Some (ti_value intent)) (ti_input intent).

(** The 0-value self-send that replaces [target]. *)
Definition cancel_intent (target : TxHandle) : TxIntent :=
  mkIntent (ti_chain_id (th_intent target)) (th_account target)
    (TxKind_Call (th_account target)) 0 [] None.

Section Manager.
Context {A : Alloy}.
Context (self : TransactionManager).

Definition buffered_gas (estimate : Z) : Z :=
  Z.min u64_max
    (saturating_mul u128_max estimate (wrapping_add u128_max 100 (tm_gas_buffer_pct self)) / 100).

Definition tm_authorize (request : SigningRequest) : io (result PolicyApproval TransactionManagerError) :=
  let? d := map_err TM_Policy (call (Evaluate (tm_who self) request)) in
  Ret match d with Allow approval => Ok approval | Deny rejection => Err (Denied rejection) end.

Definition tm_sign_message (message : Bytes) : io (result SignatureEnvelope TransactionManagerError) :=
  let? approval := tm_authorize (Message message) in
  let* now := call NowUnix in
  map_err TM_Signer (call (SignMessage (tm_who self) message approval now)).

Definition tm_sign_typed_data (typed : TypedData) : io (result SignatureEnvelope TransactionManagerError) :=
  let? approval := tm_authorize (TypedDataReq typed) in
  let* now := call NowUnix in
  map_err TM_Signer (call (SignTypedData (tm_who self) typed approval now)).

(** The handle written ahead of the broadcast. *)
Definition pending_handle (intent : TxIntent) (nonce : Z) (approval : PolicyApproval)
    (signed : SignedTx) (now : Z) (opts : SubmissionOpts) (meta : option MetaContext) : TxHandle :=
  let intent_hash := TxIntent_hash intent in
  mkHandle (HandleId_new intent_hash nonce) (ti_account intent) intent intent_hash nonce Pending
    (pa_gas_envelope approval) (st_rlp signed) [st_hash signed] now false opts meta.

Definition build_sign_submit (intent : TxIntent) (gas_limit : Z) (fees : Eip1559Estimation)
    (nonce : Z) (approval : PolicyApproval) (opts : SubmissionOpts) (meta : option MetaContext)
  : io (result TxHandle TransactionManagerError) :=
  let account := ti_account intent in
  let intent_hash := TxIntent_hash intent in
  let* now := call NowUnix in
  let tx := build_tx intent nonce gas_limit fees in
  let* out := sign_encode (tm_who self) tx intent_hash approval now in
  match out with
  | Err e =>
      let* _ := call (Release account nonce) in
      Ret (Err (TM_Signer e))
  | Ok signed =>
      let handle := pending_handle intent nonce approval signed now opts meta in
      let* put := call (PutHandle handle) in
      match put with
      | Err e =>
          let* _ := call (Release account nonce) in
          Ret (Err (TM_Store e))
      | Ok _ =>
          let* submitted := call (Submit (st_rlp signed) opts) in
          match submitted with
          | Ok _ =>
              let handle := set_status Sent handle in
              let* _ := call (PutHandle handle) in
              Ret (Ok handle)
          | Err e =>
              if is_transient e || is_already_accepted e then
                let handle := set_status Sent handle in
                let* _ := call (PutHandle handle) in
                Ret (Ok handle)
              else
                let handle := set_status (Failed (SubmissionError_to_string e)) handle in
                let* _ := call (PutHandle handle) in
                let* _ := call (Release account nonce) in
                Ret (Err (TM_Submission e))
          end
      end
  end.

Definition send_with_meta (intent : TxIntent) (opts : SubmissionOpts) (meta : option MetaContext)
  : io (result TxHandle TransactionManagerError) :=
  if negb (tm_supports_route self (so_route opts)) then Ret (Err (TM_Route RelayNotConfigured))
  else
    let account := ti_account intent in
    let signer := tm_signer_address self in
    if negb (signer =? account) then Ret (Err (TM_AccountMismatch account signer))
    else
      let* estimated := call (EstimateGas (intent_request intent)) in
      match estimated with
      | Err (RpcError_Call message false) => Ret (Err (SimulationRejected message))
      | Err e => Ret (Err (TM_Rpc e))
      | Ok gas =>
          let gas_limit := buffered_gas gas in
          let? fees := map_err TM_Gas (call GasEstimate) in
          let? decision := map_err TM_Policy (call (Evaluate (tm_who self) (Transaction intent))) in
          match decision with
          | Deny rejection => Ret (Err (Denied rejection))
          | Allow approval =>
              let? nonce := map_err TM_Nonce (call (Allocate account)) in
              build_sign_submit intent gas_limit fees nonce approval opts meta
          end
      end.

Definition send_with (intent : TxIntent) (opts : SubmissionOpts) := send_with_meta intent opts None.
Definition send (intent : TxIntent) := send_with intent SubmissionOpts_default.

Definition persist_task_handle (intent : TxIntent) (meta : MetaContext)
  : io (result TxHandle TransactionManagerError) :=
  let intent_hash := TxIntent_hash intent in
  let nonce := saturating_to u64_max (mc_nonce meta) in
  let* now := call NowUnix in
  let handle :=
    mkHandle (HandleId_new intent_hash nonce) (ti_account intent) intent intent_hash nonce Sent
      GasEnvelope_DEFAULT [] [] now false SubmissionOpts_default (Some meta) in
  let? _ := map_err TM_Store (call (PutHandle handle)) in
  Ret (Ok handle).

Definition forwarder_nonce (forwarder owner : Address) : io (result U256 RelayError) :=
  let request := mkRequest None (Some (TxKind_Call forwarder)) None (nonces_calldata owner) in
  let? simulated := map_err Relay_Rpc (call (EthCall request)) in
  Ret match simulated with
      | Returned bytes =>
          ok_or (decode_forwarder_nonce bytes)
            (Forwarder "nonces() returned undecodable data — not an ERC2771Forwarder")
      | Reverted_ _ => Err (Forwarder "nonces() reverted — the address is not an ERC2771Forwarder")
      end.

Definition build_and_sign_forward_request (intent : TxIntent) (forwarder : Address)
    (domain : ForwarderDomain) (deadline_secs : Z) : io (result SignedRequest WalletKitError) :=
  let owner := ti_account intent in
  match ti_to intent with
  | TxKind_Create =>
      Ret (Err (WK_Relay (Rejected "contract creation cannot be relayed via ERC-2771")))
  | TxKind_Call target =>
      let? nonce := map_err WK_Relay (forwarder_nonce forwarder owner) in
      let* estimated := call (EstimateGas (intent_request intent)) in
      match estimated with
      | Err (RpcError_Call message false) => Ret (Err (WK_Simulation message))
      | Err e => Ret (Err (WK_Relay (Relay_Rpc e)))
      | Ok gas =>
          let* now := call NowUnix in
          let deadline := Z.min (saturating_add u64_max now deadline_secs) U48_MAX in
          let request :=
            mkForwardRequest owner target (ti_value intent) gas nonce deadline (ti_input intent) in
          let typed := ForwardRequest_typed_data request forwarder (ti_chain_id intent) domain in
          let? signature := map_err WalletKitError_from_tm (tm_sign_typed_data typed) in
          Ret (Ok (mkSignedRequest request signature forwarder (ti_chain_id intent)))
      end
  end.

Definition fee_basis (signed : Bytes) : result Eip1559Estimation TransactionManagerError :=
  ok_or (sf_fees <$> decode_fees signed) CancelTerminal.

(** [loop] with [attempts] counted: [None] when [fuel] rounds were not enough. *)
Fixpoint cancel_loop (fuel : nat) (target : TxHandle) (intent : TxIntent) (intent_hash : IntentHash)
    (basis : Eip1559Estimation) (approval : PolicyApproval) (now attempts : Z)
  : io (option (result SignedTx TransactionManagerError)) :=
  match fuel with
  | O => Ret None
  | S fuel' =>
      let* bumped := call (GasBump basis) in
      match bumped with
      | Err e => Ret (Some (Err (TM_Gas e)))
      | Ok fees =>
          let tx := build_tx intent (th_nonce target) CANCEL_GAS_LIMIT fees in
          let* out := sign_encode (tm_who self) tx intent_hash approval now in
          match out with
          | Err e => Ret (Some (Err (TM_Signer e)))
          | Ok signed =>
              let* submitted := call (Submit (st_rlp signed) (th_submission target)) in
              match submitted with
              | Ok _ => Ret (Some (Ok signed))
              | Err e =>
                  if is_already_accepted e then Ret (Some (Ok signed))
                  else if is_underpriced e && (attempts =? 0) then
                    let* found := call (GetHandle (th_id target)) in
                    match found with
                    | Err e => Ret (Some (Err (TM_Store e)))
                    | Ok None => Ret (Some (Err UnknownHandle))
                    | Ok (Some fresh) =>
                        match fee_basis (th_signed fresh) with
                        | Err e => Ret (Some (Err e))
                        | Ok basis' =>
                            cancel_loop fuel' target intent intent_hash basis' approval now (attempts + 1)
                        end
                    end
                  else Ret (Some (Err (TM_Submission e)))
              end
          end
      end
  end.

(** Two rounds are always enough (the reprice happens once), so the default is never used. *)
Definition broadcast_cancel_with_repricing (target : TxHandle) (intent : TxIntent)
    (intent_hash : IntentHash) (basis : Eip1559Estimation) (approval : PolicyApproval) (now : Z)
  : io (result SignedTx TransactionManagerError) :=
  let* r := cancel_loop 2 target intent intent_hash basis approval now 0 in
  Ret match r with Some done => done | None => Err CancelTerminal end.

Definition cancel (id : HandleId) : io (result TxHandle TransactionManagerError) :=
  let? found := map_err TM_Store (call (GetHandle id)) in
  match found with
  | None => Ret (Err UnknownHandle)
  | Some target =>
      if is_terminal (th_status target) then Ret (Err CancelTerminal)
      else
        let intent := cancel_intent target in
        let intent_hash := TxIntent_hash intent in
        let? approval := tm_authorize (Cancel intent) in
        let target := set_cancelled true target in
        let? _ := map_err TM_Store (call (PutHandle target)) in
        let* now := call NowUnix in
        match fee_basis (th_signed target) with
        | Err e => Ret (Err e)
        | Ok basis =>
            let* broadcast :=
              broadcast_cancel_with_repricing target intent intent_hash basis approval now in
            match broadcast with
            | Err e =>
                let* _ := call (PutHandle (set_cancelled false target)) in
                Ret (Err e)
            | Ok signed =>
                let cancel :=
                  mkHandle (HandleId_new intent_hash (th_nonce target)) (th_account target) intent
                    intent_hash (th_nonce target) Sent (pa_gas_envelope approval) (st_rlp signed)
                    [st_hash signed] now false (th_submission target) None in
                let? _ := map_err TM_Store (call (PutHandle cancel)) in
                Ret (Ok cancel)
            end
        end
  end.
End Manager.

(** ** What the pipeline's history shows *)

(** Whether a broadcast may have reached the network. *)
Definition maybe_sent (r : result TxHash SubmissionError) : bool :=
  match r with Ok _ => true | Err e => is_transient e || is_already_accepted e end.

Section SendSpec.
Context {A : Alloy}.
Context (self : TransactionManager) (intent : TxIntent) (opts : SubmissionOpts).

(** When [send] may make a call, read off the history: nonces only under an approval,
    signatures only with that approval at the allocated nonce, a broadcast only of the
    signed bytes that the last, successful store write holds. *)
Definition send_guard (tr : history) (p : port) : Prop :=
  match p with
  | Allocate a =>
      a = ti_account intent /\ exists ap rest,
        evaluates tr = (tm_who self, Transaction intent, Ok (Allow ap)) :: rest
  | SignTransaction w tx ih ap _ =>
      w = tm_who self /\ ih = TxIntent_hash intent /\
      (exists rest, evaluates tr = (w, Transaction intent, Ok (Allow ap)) :: rest) /\
      (exists rest, allocates tr = (ti_account intent, Ok (tx_nonce tx)) :: rest) /\
      exists gas fees, tx = build_tx intent (tx_nonce tx) gas fees
  | Submit rlp o =>
      o = opts /\ (exists w tx ih ap now sig rest,
        signed_txs tr = (w, tx, ih, ap, now, Ok sig) :: rest /\ rlp = encoded_2718 tx sig) /\
      exists h rest, puts tr = (h, Ok tt) :: rest /\
        th_signed h = rlp /\ th_intent h = intent /\ th_status h = Pending /\
        th_submission h = opts /\
        exists rest', allocates tr = (ti_account intent, Ok (th_nonce h)) :: rest'
  | Release a n => exists rest, allocates tr = (a, Ok n) :: rest
  | ResetNonce _ _ | SignMessage _ _ _ _ | SignTypedData _ _ _ _ => False
  | _ => True
  end.

(** The nonce ledger of one send: success keeps the nonce it allocated, behind one
    broadcast that may be live; failure asks once for the nonce to be released, whatever
    the answer, and nothing it broadcast is live. *)
Definition send_ledger (new : history) (r : result TxHandle TransactionManagerError) : Prop :=
  match r with
  | Ok h =>
      allocates new = [(ti_account intent, Ok (th_nonce h))] /\ releases new = [] /\
      (exists sr, submits new = [(th_signed h, opts, sr)] /\ maybe_sent sr = true) /\
      th_status h = Sent /\ th_intent h = intent /\ th_account h = ti_account intent /\
      th_submission h = opts /\ th_cancelled h = false /\
      (exists pr pr', puts new = [(h, pr); (set_status Pending h, pr')] /\ pr' = Ok tt)
  | Err _ =>
      (Forall (fun al => is_err (snd al) = true) (allocates new) /\
         releases new = [] /\ submits new = [] /\ puts new = []) \/
      (exists n answer, allocates new = [(ti_account intent, Ok n)] /\
         releases new = [(ti_account intent, n, answer)] /\
         Forall (fun s => maybe_sent (snd s) = false) (submits new))
  end.
End SendSpec.

Ltac send_unfold :=
  unfold send_with_meta, build_sign_submit, sign_encode, tm_authorize, map_err, try_bind.

(** C2: the order of the pipeline, for every behaviour of the ports.  A nonce is
    allocated only after the policy allowed this very intent; the key is asked only
    with that approval, for this intent at the allocated nonce; bytes are broadcast
    only if they are the ones signed, on the requested route, and after the handle
    holding them was persisted. *)
Theorem send_order {A : Alloy} (self : TransactionManager) (intent : TxIntent)
    (opts : SubmissionOpts) (meta : option MetaContext) (tr : history) :
  triple any_response (send_guard self intent opts) (send_with_meta self intent opts meta) tr
    (fun _ _ => True).
Proof.
  send_unfold.
  wp_auto ltac:(unfold send_guard; simpl; fill_in); done.
Qed.

(** C1: the nonce ledger of a send, for every behaviour of the ports.  A send that
    returns a handle has allocated exactly that handle's nonce, asked for no release, and
    made one broadcast that may be live, of the bytes the handle records; it persisted the
    handle before and after.  A send that fails either never got a nonce and touched
    nothing, or asked exactly once for the one it got to be released, and nothing it
    broadcast can be live.  The answer to that release is not looked at: when it fails, the
    nonce stays reserved. *)
Theorem send_nonce_ledger {A : Alloy} (self : TransactionManager) (intent : TxIntent)
    (opts : SubmissionOpts) (meta : option MetaContext) (tr : history) :
  triple any_response any_call (send_with_meta self intent opts meta) tr
    (fun tr' r => exists new, tr' = new ++ tr /\ send_ledger intent opts new r).
Proof.
  send_unfold.
  wp_auto ltac:(done); give_new; simpl.
  all: try (left; fill_in; repeat constructor; done).
  all: try (right; fill_in; repeat constructor; done).
  all: fill_in; done.
Qed.

(** A failed release goes unnoticed: the send reports only why it failed, and its nonce
    stays reserved, a gap that nothing fills. *)
Theorem failed_release_keeps_nonce {A : Alloy} (self : TransactionManager) (intent : TxIntent)
    (opts : SubmissionOpts) (meta : option MetaContext) (tr : history) :
  triple
    (fun p => match p return resp p -> Prop with
       | Release _ _ => fun r => is_err r = true
       | Allocate _ => fun r => is_ok r = true
       | SignTransaction _ _ _ _ _ => fun r => is_err r = true
       | _ => fun _ => True
       end) any_call (send_with_meta self intent opts meta) tr
    (fun tr' r => exists new, tr' = new ++ tr /\
       (forall e, r = Err (TM_Signer e) -> exists n e', allocates new = [(ti_account intent, Ok n)] /\
          releases new = [(ti_account intent, n, Err e')])).
Proof.
  send_unfold. wp_auto ltac:(done); give_new; simpl; intros ? [=]; simpl in *; try done; by repeat eexists.
Qed.

(** The last call of a history. *)
Definition last_call (new : history) : option (event resp) := head new.

(** C18: every failure of a send names its cause.  An unsupported route or a signer
    that does not control the account fails before any call; a deterministic
    estimation failure is a simulation rejection; a denial carries the policy's
    rejection; a submission error is one that cannot have reached the network, and
    leaves the handle persisted as failed. *)
Theorem send_errors {A : Alloy} (self : TransactionManager) (intent : TxIntent)
    (opts : SubmissionOpts) (meta : option MetaContext) (tr : history) :
  triple any_response any_call (send_with_meta self intent opts meta) tr
    (fun tr' r => exists new, tr' = new ++ tr /\
     match r with
     | Ok _ => tm_supports_route self (so_route opts) = true /\
         tm_signer_address self = ti_account intent
     | Err (TM_Route RelayNotConfigured) => tm_supports_route self (so_route opts) = false /\ new = []
     | Err (TM_AccountMismatch i s) =>
         i = ti_account intent /\ s = tm_signer_address self /\ i <> s /\ new = []
     | Err (SimulationRejected m) =>
         new = [existT (EstimateGas (intent_request intent)) (Err (RpcError_Call m false))]
     | Err (TM_Rpc e) => rpc_kind e = Retryable /\
         new = [existT (EstimateGas (intent_request intent)) (Err e)]
     | Err (TM_Gas e) => last_call new = Some (existT GasEstimate (Err e))
     | Err (Denied rej) =>
         last_call new = Some (existT (Evaluate (tm_who self) (Transaction intent)) (Ok (Deny rej)))
     | Err (TM_Policy e) =>
         last_call new = Some (existT (Evaluate (tm_who self) (Transaction intent)) (Err e))
     | Err (TM_Nonce e) => last_call new = Some (existT (Allocate (ti_account intent)) (Err e))
     | Err (TM_Signer e) => (exists s, signed_txs new = [s] /\ snd s = Err e) /\ puts new = []
     | Err (TM_Store e) => (exists h, puts new = [(h, Err e)]) /\ submits new = []
     | Err (TM_Submission e) =>
         (exists rlp, submits new = [(rlp, opts, Err e)]) /\ maybe_sent (Err e) = false /\
         exists h pr pr', puts new = [(set_status (Failed (SubmissionError_to_string e)) h, pr); (h, pr')]
     | Err UnknownHandle | Err CancelTerminal => False
     end).
Proof.
  send_unfold.
  wp_auto ltac:(done); give_new; simpl; bool_simpl; fill_in; try done; try congruence; by apply orb_false_iff.
Qed.

(** The gas limit is the estimate raised by the buffer, exactly, saturating at
    [u64::MAX], and never below the estimate. *)
Theorem buffered_gas_exact (self : TransactionManager) (estimate : Z) :
  is_u64 estimate -> 0 <= tm_gas_buffer_pct self -> 100 + tm_gas_buffer_pct self <= u128_max ->
  buffered_gas self estimate
    = Z.min u64_max (estimate * (100 + tm_gas_buffer_pct self) / 100) /\
  estimate <= buffered_gas self estimate <= u64_max.
Proof.
  intros He Hp Hmax. unfold is_uint in He. unfold buffered_gas, saturating_mul.
  rewrite wrapping_add_small by lia. set (k := 100 + tm_gas_buffer_pct self) in *.
  assert (Hlow : estimate <= estimate * k / 100) by (apply Z.div_le_lower_bound; nia).
  assert (Hbig : u64_max <= u128_max / 100) by (vm_compute; discriminate).
  destruct (decide (estimate * k <= u128_max)) as [Hle|Hgt].
  - rewrite (Z.min_r u128_max) by lia. lia.
  - rewrite (Z.min_l u128_max) by lia.
    assert (u128_max / 100 <= estimate * k / 100) by (apply Z.div_le_mono; lia). lia.
Qed.

Lemma buffered_gas_exact_witness :
  buffered_gas (TransactionManager_new User 7 (fun _ => true)) 21000 = 26250.
Proof.
  destruct (buffered_gas_exact (TransactionManager_new User 7 (fun _ => true)) 21000) as [H _].
  - unfold is_uint, u64_max. lia.
  - simpl. unfold DEFAULT_GAS_BUFFER_PCT. lia.
  - vm_compute. discriminate.
  - rewrite H. reflexivity.
Defined.

(** ** Cancel *)

Lemma cancel_loop_two_rounds {A : Alloy} self target intent ih basis approval now tr :
  triple any_response any_call (cancel_loop self 2 target intent ih basis approval now 0) tr
    (fun tr' r => exists new, tr' = new ++ tr /\ r <> None /\ (length (submits new) <= 2)%nat).
Proof.
  cbn [cancel_loop]. unfold sign_encode, try_bind.
  wp_auto ltac:(done); give_new; simpl; try (split; [done|lia]).
  all: rewrite andb_false_r in *; done.
Qed.

Definition ev_get (e : event resp) : option (HandleId * result (option TxHandle) StateStoreError) :=
  match e with existT (GetHandle i) r => Some (i, r) | _ => None end.

Section CancelSpec.
Context {A : Alloy}.
Context (self : TransactionManager).

(** When [cancel] may make a call: the original is flagged durably before anything
    is signed or sent; only a zero-value self-send at its nonce is signed, under an
    approval for exactly that cancel, priced by a bump; it goes out on the
    original's route. *)
Definition cancel_guard (tr : history) (p : port) : Prop :=
  match p with
  | SignTransaction w tx ih ap _ => exists t i rest rest' basis fees rest'',
      puts tr = (t, Ok tt) :: rest /\ th_cancelled t = true /\
      evaluates tr = (w, Cancel i, Ok (Allow ap)) :: rest' /\ is_self_send i = true /\
      ih = TxIntent_hash i /\ ti_account i = th_account t /\
      gas_bumps tr = (basis, Ok fees) :: rest'' /\
      tx = build_tx i (th_nonce t) CANCEL_GAS_LIMIT fees
  | Submit rlp o => exists t rest s sig tx rest',
      puts tr = (t, Ok tt) :: rest /\ th_cancelled t = true /\ o = th_submission t /\
      signed_txs tr = s :: rest' /\ snd s = Ok sig /\ snd (fst (fst (fst (fst s)))) = tx /\
      tx_nonce tx = th_nonce t /\ rlp = encoded_2718 tx sig
  | Allocate _ | Release _ _ | ResetNonce _ _ | SignMessage _ _ _ _ | SignTypedData _ _ _ _ => False
  | _ => True
  end.

(** Why the flag was taken back: the oracle or the key failed; the last broadcast failed,
    for any reason but "already known" and, the first time, "underpriced", a timeout
    included; or the fees of the target could not be read again after an underpriced one. *)
Definition unflag_cause (target : TxHandle) (new : history) (e : TransactionManagerError) : Prop :=
  match e with
  | TM_Gas e' => exists basis rest, gas_bumps new = (basis, Err e') :: rest
  | TM_Signer e' => exists w tx ih ap now rest, signed_txs new = (w, tx, ih, ap, now, Err e') :: rest
  | TM_Submission e' => exists rlp rest, submits new = (rlp, th_submission target, Err e') :: rest /\
      (is_underpriced e' = true -> length rest = 1%nat)
  | TM_Store e' => exists rlp o e1 rest, submits new = [(rlp, o, Err e1)] /\ is_underpriced e1 = true /\
      omap ev_get new = (th_id target, Err e') :: rest
  | UnknownHandle => exists rlp o e1 rest, submits new = [(rlp, o, Err e1)] /\ is_underpriced e1 = true /\
      omap ev_get new = (th_id target, Ok None) :: rest
  | CancelTerminal => exists rlp o e1 fresh rest, submits new = [(rlp, o, Err e1)] /\ is_underpriced e1 = true /\
      omap ev_get new = (th_id target, Ok (Some fresh)) :: rest /\ decode_fees (th_signed fresh) = None
  | _ => False
  end.

(** The last broadcast was of the cancel [c], and the network took it or had it. *)
Definition cancel_taken (target : TxHandle) (new : history) (c : TxHandle) : Prop :=
  exists sr rest, submits new = (th_signed c, th_submission target, sr) :: rest /\
    match sr with Ok _ => True | Err e => is_already_accepted e = true end.

(** How a cancel of the stored handle [target] can leave the store. *)
Definition cancel_outcome (target : TxHandle) (new : history)
    (r : result TxHandle TransactionManagerError) : Prop :=
  let flagged := set_cancelled true target in
  match r with
  | Ok c =>
      puts new = [(c, Ok tt); (flagged, Ok tt)] /\ th_nonce c = th_nonce target /\
      th_account c = th_account target /\ is_self_send (th_intent c) = true /\
      th_status c = Sent /\ th_submission c = th_submission target /\ th_meta c = None /\
      cancel_taken target new c
  | Err e =>
      (puts new = [] /\ submits new = []) \/
      (exists e', puts new = [(flagged, Err e')] /\ submits new = []) \/
      (puts new = [(flagged, Ok tt)] /\ submits new = [] /\ e = CancelTerminal /\
         decode_fees (th_signed target) = None) \/
      (exists pr, puts new = [(set_cancelled false flagged, pr); (flagged, Ok tt)] /\
         Forall (fun s => exists e', snd s = Err e' /\ is_already_accepted e' = false) (submits new) /\
         unflag_cause target new e) \/
      (exists c e', puts new = [(c, Err e'); (flagged, Ok tt)] /\ e = TM_Store e' /\ cancel_taken target new c)
  end.
End CancelSpec.

Ltac cancel_unfold :=
  unfold cancel, broadcast_cancel_with_repricing, tm_authorize, map_err, try_bind;
  cbn [cancel_loop]; unfold sign_encode, try_bind.

Lemma cancel_intent_self_send target : is_self_send (cancel_intent target) = true.
Proof. unfold is_self_send. simpl. by rewrite bool_decide_true. Qed.

Lemma fee_basis_err {A : Alloy} signed e :
  fee_basis signed = Err e -> e = CancelTerminal /\ decode_fees signed = None.
Proof. unfold fee_basis. destruct (decode_fees signed); simpl; [done|]. by intros [= <-]. Qed.

(** C16: a cancel only ever replaces the original by a zero-value self-send at the
    original's nonce, on its route, under an approval of exactly that cancel, and
    only after the original was durably flagged as cancelled. *)
Theorem cancel_order {A : Alloy} (self : TransactionManager) (id : HandleId) (tr : history) :
  triple any_response cancel_guard (cancel self id) tr (fun _ _ => True).
Proof.
  cancel_unfold.
  wp_auto ltac:(unfold cancel_guard; simpl; fill_in; apply cancel_intent_self_send); done.
Qed.

(** The branch that takes the flag back. *)
Ltac unflagged :=
  repeat match goal with H : fee_basis _ = Err _ |- _ => apply fee_basis_err in H as [-> ?] end;
  right; right; right; left; eexists; split; [reflexivity|]; split;
  [repeat (constructor; [eexists; split; [reflexivity|eassumption]|]); constructor|];
  bool_simpl; simpl; fill_in; simpl; try done; intros; rewrite ?andb_true_r in *; congruence.


(** A cancel whose broadcast timed out may be live; the original is un-flagged, and no
    handle records the cancel. *)
Theorem timed_out_cancel_unflags {A : Alloy} (self : TransactionManager) (id : HandleId) (tr : history) :
  triple
    (fun p => match p return resp p -> Prop with
       | Submit _ _ => fun r => exists m, r = Err (Submission_Rpc (RpcError_Call m true)) /\
           is_already_accepted (Submission_Rpc (RpcError_Call m true)) = false /\
           is_underpriced (Submission_Rpc (RpcError_Call m true)) = false
       | _ => fun _ => True
       end) any_call (cancel self id) tr
    (fun tr' r => exists new, tr' = new ++ tr /\
       (submits new <> [] -> exists s target pr,
          submits new = [s] /\ maybe_sent (snd s) = true /\
          puts new = [(set_cancelled false (set_cancelled true target), pr); (set_cancelled true target, Ok tt)])).
Proof.
  cancel_unfold. wp_auto ltac:(done).
  all: try (give_new; simpl; done).
  all: repeat match goal with
    | H : exists _, _ /\ _ |- _ => destruct H as (? & [=] & ? & ?); subst
    | H : exists _, _ /\ _ |- _ => destruct H as (? & ? & ? & ?); discriminate
    end.
  all: try (rewrite ?andb_true_r in *; congruence).
  all: give_new; simpl; intros _; by repeat eexists.
Qed.

(** The stores and the oracle a cancel runs against: bumps meet the oracle's
    contract, and stored bytes carry [u128] fees. *)
Definition cancel_env {A : Alloy} (ceiling : Z) (p : port) : resp p -> Prop :=
  match p return resp p -> Prop with
  | GetHandle _ => fun r => forall h f, r = Ok (Some h) -> decode_fees (th_signed h) = Some f ->
      fees_u128 (sf_fees f)
  | q => gas_env ceiling q
  end.

(** A transaction outbids [signed]: its fees are a valid replacement of those. *)
Definition outbids {A : Alloy} (ceiling : Z) (signed : Bytes) (tx : TxEip1559) : Prop :=
  exists f, decode_fees signed = Some f /\
    bump_ok ceiling (sf_fees f)
      (mkEstimation (tx_max_fee_per_gas tx) (tx_max_priority_fee_per_gas tx)).

Lemma outbids_fees {A : Alloy} ceiling signed i nonce gas fees f :
  decode_fees signed = Some f -> fees_u128 (sf_fees f) ->
  gas_env ceiling (GasBump (sf_fees f)) (Ok fees) ->
  outbids ceiling signed (build_tx i nonce gas fees).
Proof.
  intros Hd Hu Hb. exists f. split; [done|]. specialize (Hb fees eq_refl Hu). by destruct fees.
Qed.

Lemma outbids_bump {A : Alloy} ceiling signed i nonce gas fees basis :
  fee_basis signed = Ok basis ->
  (forall f, decode_fees signed = Some f -> fees_u128 (sf_fees f)) ->
  gas_env ceiling (GasBump basis) (Ok fees) ->
  outbids ceiling signed (build_tx i nonce gas fees).
Proof.
  unfold fee_basis. destruct (decode_fees signed) as [f|] eqn:Hd; simpl; [|done].
  intros [= <-] Hu Hb. eapply outbids_fees; eauto.
Qed.

(** Against an oracle that meets its contract, every cancel the key is asked to
    sign outbids the transaction it replaces: it is priced by a valid replacement of
    the fees in the bytes last read from the store, at least 10% above them, and under
    the ceiling. *)
Theorem cancel_outbids {A : Alloy} (self : TransactionManager) (ceiling : Z) (id : HandleId)
    (tr : history) :
  triple (cancel_env ceiling)
    (fun tr p => match p with
       | SignTransaction _ tx _ _ _ =>
           exists i h rest, omap ev_get tr = (i, Ok (Some h)) :: rest /\ outbids ceiling (th_signed h) tx
       | _ => True
       end) (cancel self id) tr (fun _ _ => True).
Proof.
  cancel_unfold.
  wp_auto ltac:(simpl; try done; eexists _, _, _; (split; [reflexivity|]);
    eapply outbids_bump; eauto); done.
Qed.

(** A cancel of a handle without decodable fees (a managed-relay handle carries no
    signed bytes) broadcasts nothing, yet leaves the handle flagged as cancelled: the
    error path that un-flags it is not reached. *)
Theorem cancel_without_fees_leaves_flag {A : Alloy} (self : TransactionManager) (id : HandleId)
    (tr : history) :
  triple
    (fun p => match p return resp p -> Prop with
       | GetHandle _ => fun r => exists h, r = Ok (Some h) /\ is_terminal (th_status h) = false /\
           decode_fees (th_signed h) = None
       | PutHandle _ => fun r => r = Ok tt
       | Evaluate _ _ => fun r => exists a, r = Ok (Allow a)
       | _ => fun _ => True
       end) any_call (cancel self id) tr
    (fun tr' r => exists new h, tr' = new ++ tr /\ r = Err CancelTerminal /\ submits new = [] /\
       puts new = [(set_cancelled true h, Ok tt)]).
Proof.
  unfold cancel, tm_authorize, map_err, try_bind. wp_simpl.
  apply triple_call; [done|]. intros r (h & -> & Ht & Hd). wp_simpl. rewrite Ht.
  wp_simpl. apply triple_call; [done|]. intros r (a & ->). wp_simpl.
  apply triple_call; [done|]. intros r ->. wp_simpl.
  apply triple_call; [done|]. intros now _. wp_simpl.
  unfold fee_basis. simpl th_signed. rewrite Hd. cbn [fmap option_fmap option_map ok_or triple].
  eexists [_; _; _; _], h. fill_in.
Qed.

(** ** Gasless requests *)

(** The typed data signed for a request: bound to the owner, the target call, the
    forwarder, the chain and a deadline a [uint48] holds. *)
Definition forward_bound (intent : TxIntent) (forwarder : Address) (domain : ForwarderDomain)
    (s : SignedRequest) (typed : TypedData) : Prop :=
  let r := sr_request s in
  ti_to intent = TxKind_Call (fr_to r) /\ fr_from r = ti_account intent /\
  fr_value r = ti_value intent /\ fr_data r = ti_input intent /\
  sr_forwarder s = forwarder /\ sr_chain_id s = ti_chain_id intent /\
  fr_deadline r <= U48_MAX /\
  typed = ForwardRequest_typed_data r forwarder (ti_chain_id intent) domain.

(** A gasless request is signed only as allowed.  Contract creation is refused
    without a call; the key signs exactly the typed data the policy approved, which
    binds the request to its owner, call, forwarder, chain and the forwarder's nonce,
    with a deadline clamped to 48 bits and never before the clock unless clamped;
    the build itself writes and broadcasts nothing. *)
Theorem forward_request_bound {A : Alloy} (self : TransactionManager) (intent : TxIntent)
    (forwarder : Address) (domain : ForwarderDomain) (secs : Z) (tr : history) :
  0 <= secs ->
  triple any_response
    (fun tr p => match p with
       | SignTypedData w td ap _ =>
           exists rest, evaluates tr = (w, TypedDataReq td, Ok (Allow ap)) :: rest
       | EthCall _ | EstimateGas _ | NowUnix | Evaluate _ _ => True
       | _ => False
       end)
    (build_and_sign_forward_request self intent forwarder domain secs) tr
    (fun tr' r =>
       (ti_to intent = TxKind_Create -> tr' = tr /\ is_err r = true) /\
       forall s, r = Ok s -> exists w td ap now rest,
         typed_signatures tr' = (w, td, ap, now) :: rest /\ forward_bound intent forwarder domain s td /\
         exists now ret rest', tr' = rest' ++ tr /\ In (existT NowUnix now) rest' /\
           In (existT (EthCall (mkRequest None (Some (TxKind_Call forwarder)) None
                        (nonces_calldata (ti_account intent)))) (Ok (Returned ret))) rest' /\
           decode_forwarder_nonce ret = Some (fr_nonce (sr_request s)) /\
           (0 <= now <= u64_max -> Z.min now U48_MAX <= fr_deadline (sr_request s))).
Proof.
  intros Hsecs.
  unfold build_and_sign_forward_request, forwarder_nonce, tm_sign_typed_data, tm_authorize, map_err, try_bind.
  wp_auto ltac:(simpl; fill_in); simpl; (split; [try done|]); try done.
  intros s [= <-].
  destruct a0 as [ret|ret]; [|done]. simpl in Heqr.
  destruct (decode_forwarder_nonce ret) as [n|] eqn:Hn; [|done]. injection Heqr as <-.
  eexists _, _, _, _, _. split; [reflexivity|]. unfold forward_bound. simpl. split.
  { split_and!; try done. unfold U48_MAX. lia. }
  eexists r, ret, [_; _; _; _; _; _]. split; [reflexivity|]. simpl. split_and!; auto 10.
  unfold saturating_add, U48_MAX. lia.
Qed.

(** A forwarder at nonce 4 and a permissive policy. *)
Definition demo_relay_env (p : port) : resp p :=
  match p return resp p with
  | EthCall _ => Ok (Returned (Z_to_be 32 4))
  | EstimateGas _ => Ok 50000
  | NowUnix => 1000
  | Evaluate _ _ => Ok (Allow (mint 0 GasEnvelope_DEFAULT 2000))
  | SignTypedData _ _ _ _ => Ok (SignatureEnvelope_secp256k1 7 (mkSignature 1 2 false))
  | q => offline q
  end.

Lemma forward_request_bound_witness :
  exists s, fst (run_env demo_relay_env (build_and_sign_forward_request
      (TransactionManager_new User 7 (fun _ => true)) (TxIntent_call 1 7 8 0 []) 99
      ForwarderDomain_default 60)) = Ok s /\
    fr_nonce (sr_request s) = 4 /\ fr_deadline (sr_request s) = 1060 /\
    exists td, forward_bound (TxIntent_call 1 7 8 0 []) 99 ForwarderDomain_default s td.
Proof.
  assert (Hs : (0 <= 60)%Z) by lia.
  pose proof (run_env_triple demo_relay_env any_response _ _ _ (fun _ => I)
    (forward_request_bound (TransactionManager_new User 7 (fun _ => true)) (TxIntent_call 1 7 8 0 [])
       99 ForwarderDomain_default 60 [] Hs)) as [[_ H] _].
  eexists. split; [vm_compute; reflexivity|]. split; [reflexivity|]. split; [reflexivity|].
  destruct (H _ ltac:(vm_compute; reflexivity)) as (w & td & ap & now & rest & _ & Hb & _).
  exists td. exact Hb.
Defined.
