(* ===== verification/Executor.v ===== *)
(** * Executor: per-account tracking, confirmation and escalation

    [src/src/core/wallet/executor/mod.rs].  One tick recovers (rebroadcasts), confirms
    (advances every in-flight handle by the pure transition of [Lifecycle]) and
    escalates (replaces stuck transactions at a higher price).  The executor's own
    memory, the approval cache and the highest head seen, is threaded explicitly;
    everything else is behind ports that answer adversarially. *)
From S2P Require Import Prelude Effects Primitives ModelAlloy Errors Ports Lifecycle GasOracle Policy.
From S2P Require Import Signer Signing TransactionManager.

Definition DEFAULT_REQUIRED_CONFIRMATIONS : Z := 12.
Definition DEFAULT_BUMP_TIMEOUT_SECS : Z := 30.

Record Cycle : Type := mkExecCycle {
  cyc_view : ChainView;
  cyc_finality : FinalityConfig;
  cyc_mined_nonce : Z;
}.

Record AccountExecutor : Type := mkExecutor {
  ex_who : principal;
  ex_account : Address;
  ex_required_confirmations : Z;
  ex_bump_timeout : Z;
  ex_refill : option TransactionManager;
  ex_relay : bool;   (* a managed relay is wired *)
}.
Definition AccountExecutor_new (who : principal) (account : Address) : AccountExecutor :=
  mkExecutor who account DEFAULT_REQUIRED_CONFIRMATIONS DEFAULT_BUMP_TIMEOUT_SECS None false.
Definition with_confirmations (depth : Z) (e : AccountExecutor) : AccountExecutor :=
  mkExecutor (ex_who e) (ex_account e) depth (ex_bump_timeout e) (ex_refill e) (ex_relay e).
Definition with_bump_timeout (secs : Z) (e : AccountExecutor) : AccountExecutor :=
  mkExecutor (ex_who e) (ex_account e) (ex_required_confirmations e) secs (ex_refill e) (ex_relay e).
Definition with_refill (manager : TransactionManager) (e : AccountExecutor) : AccountExecutor :=
  mkExecutor (ex_who e) (ex_account e) (ex_required_confirmations e) (ex_bump_timeout e)
    (Some manager) (ex_relay e).
Definition with_relay (e : AccountExecutor) : AccountExecutor :=
  mkExecutor (ex_who e) (ex_account e) (ex_required_confirmations e) (ex_bump_timeout e)
    (ex_refill e) true.

(** The executor's mutable memory: [approvals] and [last_latest]. *)
Record exec_state : Type := mkExecState {
  es_approvals : gmap HandleId PolicyApproval;
  es_last_latest : Z;
}.
Definition exec_state_new : exec_state := mkExecState ∅ 0.
Definition track (handle : HandleId) (approval : PolicyApproval) (st : exec_state) : exec_state :=
  mkExecState (<[handle := approval]> (es_approvals st)) (es_last_latest st).
Definition forget (handle : HandleId) (st : exec_state) : exec_state :=
  mkExecState (delete handle (es_approvals st)) (es_last_latest st).
Definition saw_latest (latest : Z) (st : exec_state) : exec_state :=
  mkExecState (es_approvals st) latest.

Definition is_awaiting_relay (handle : TxHandle) : bool :=
  match th_broadcasts handle with
  | [] => match th_meta handle with Some m => bool_decide (is_Some (mc_task m)) | None => false end
  | _ => false
  end.

(** Rebroadcast only what should be in the mempool and carries signed bytes. *)
Definition recoverable (h : TxHandle) : bool :=
  match th_status h with Pending | Sent => true | _ => false end
  && match th_signed h with [] => false | _ => true end.

Definition is_stuck (bump_timeout now : Z) (h : TxHandle) : bool :=
  match th_status h with Sent => true | _ => false end
  && (bump_timeout <=? saturating_sub now (th_last_broadcast_at h)).

(** The route a bump goes out on: public once a private route has given up. *)
Definition escalated_opts (h : TxHandle) : SubmissionOpts :=
  match so_route (th_submission h) with
  | Private route =>
      match escalation route with
      | PublicAfter cycles =>
          if cycles <=? Z.of_nat (length (th_broadcasts h)) then mkOpts Public else th_submission h
      | StayPrivate => th_submission h
      end
  | Public => th_submission h
  end.

Section Executor.
Context {A : Alloy}.
Context (self : AccountExecutor).

Definition outcome_of (receipt : TransactionReceipt) (handle : TxHandle) : Outcome :=
  let inner_ok :=
    match th_meta handle with
    | Some meta =>
        match mc_task meta with
        | None => inner_succeeded meta (receipt_logs receipt)
        | Some _ => true
        end
    | None => true
    end in
  if receipt_status receipt && inner_ok then Executed else Reverted.

Definition recover : io (result unit ExecutorError) :=
  let? handles := map_err Ex_Store (call (PendingHandles (ex_account self))) in
  let* _ :=
    for_each handles tt (fun handle _ =>
      if recoverable handle
      then let* _ := call (Submit (th_signed handle) (th_submission handle)) in Ret tt
      else Ret tt) in
  Ret (Ok tt).

Definition read_cycle (st : exec_state) : io (result (option Cycle) ExecutorError * exec_state) :=
  let* r := call BlockNumber in
  match r with
  | Err e => Ret (Err (Ex_Rpc e), st)
  | Ok latest =>
      let* r := call (TxCount (ex_account self)) in
      match r with
      | Err e => Ret (Err (Ex_Rpc e), st)
      | Ok mined_nonce =>
          if latest <? es_last_latest st then Ret (Ok None, st)
          else
            let* r := call FinalizedBlock in
            match r with
            | Err e => Ret (Err (Ex_Rpc e), st)
            | Ok tag =>
                let mode := match tag with Some _ => Finalized | None => Depth end in
                let finalized := default 0 tag in
                if latest <? finalized then Ret (Ok None, st)
                else
                  Ret (Ok (Some (mkExecCycle (mkView latest finalized)
                                   (mkFinality mode (ex_required_confirmations self)) mined_nonce)),
                       saw_latest latest st)
            end
      end
  end.

Definition anchor (receipt : TransactionReceipt) (handle : TxHandle) : io ChainEvent :=
  match receipt_block_number receipt, receipt_block_hash receipt with
  | Some block, Some block_hash =>
      let* r := call (BlockHash block) in
      Ret match r with
          | Ok (Some canonical) =>
              if canonical =? block_hash
              then Ev_Mined block block_hash (outcome_of receipt handle)
              else Ev_Unknown
          | _ => Ev_Unknown
          end
  | _, _ => Ret Ev_Unknown
  end.

(** [for hash in broadcasts.iter().rev()] with its early returns. *)
Fixpoint event_scan (hashes : list TxHash) (handle : TxHandle) (mined : Z) : io ChainEvent :=
  match hashes with
  | [] => Ret (if th_nonce handle <? mined then Ev_Replaced else Ev_Pending)
  | hash :: hashes' =>
      let* r := call (Receipt hash) in
      match r with
      | Ok None => event_scan hashes' handle mined
      | Ok (Some receipt) => anchor receipt handle
      | Err _ => Ret Ev_Unknown
      end
  end.
Definition event_for (handle : TxHandle) (mined : Z) : io ChainEvent :=
  event_scan (rev (th_broadcasts handle)) handle mined.

Definition refill_intent (manager : TransactionManager) (handle : TxHandle) : io unit :=
  let* _ := send manager (th_intent handle) in Ret tt.

Definition on_settled (handle : TxHandle) (st : exec_state) : io exec_state :=
  let st := forget (th_id handle) st in
  match ex_refill self with
  | Some manager =>
      if decide (th_status handle = Replaced)
      then let* _ := refill_intent manager handle in Ret st
      else Ret st
  | None => Ret st
  end.

Definition poll_task (handle : TxHandle) (st : exec_state) : io exec_state :=
  match ex_relay self, th_meta handle ≫= mc_task with
  | true, Some task =>
      let* r := call (Poll task) in
      match r with
      | Ok (Relay_Included hash) =>
          let handle := set_status Sent (push_broadcast hash handle) in
          let* _ := call (PutHandle handle) in Ret st
      | Ok (Relay_Failed reason) =>
          let handle := set_status (Failed reason) handle in
          let* put := call (PutHandle handle) in
          if is_ok put then on_settled handle st else Ret st
      | Ok Relay_Pending => Ret st
      | Err _ => Ret st
      end
  | _, _ => Ret st
  end.

(** A cancelled original whose nonce was consumed settles [Dropped]. *)
Definition settle_status (cancelled : bool) (next : TxStatus) : TxStatus :=
  match next with
  | Replaced => if cancelled then Dropped else Replaced
  | other => other
  end.

Definition advance_on_chain (handle : TxHandle) (cycle : Cycle) (st : exec_state) : io exec_state :=
  let* event := event_for handle (cyc_mined_nonce cycle) in
  match transition (th_status handle) event (cyc_view cycle) (cyc_finality cycle) with
  | None => Ret st
  | Some next =>
      let handle := set_status (settle_status (th_cancelled handle) next) handle in
      let* put := call (PutHandle handle) in
      if is_ok put && is_terminal (th_status handle) then on_settled handle st else Ret st
  end.

Definition advance_handle (handle : TxHandle) (cycle : Cycle) (st : exec_state) : io exec_state :=
  if is_awaiting_relay handle then poll_task handle st else advance_on_chain handle cycle st.

Definition confirm (st : exec_state) : io (result unit ExecutorError * exec_state) :=
  let* (c, st) := read_cycle st in
  match c with
  | Err e => Ret (Err e, st)
  | Ok None => Ret (Ok tt, st)
  | Ok (Some cycle) =>
      let* r := call (ResetNonce (ex_account self) (cyc_mined_nonce cycle)) in
      match r with
      | Err e => Ret (Err (Ex_Nonce e), st)
      | Ok _ =>
          let* handles := call (PendingHandles (ex_account self)) in
          match handles with
          | Err e => Ret (Err (Ex_Store e), st)
          | Ok handles =>
              let* st := for_each handles st (fun handle st => advance_handle handle cycle st) in
              Ret (Ok tt, st)
          end
      end
  end.

Definition bump_approval (handle : TxHandle) (bumped : Eip1559Estimation) (now : Z) (st : exec_state)
  : io (result (option PolicyApproval) ExecutorError) :=
  let admits_bump (a : PolicyApproval) :=
    admits (pa_gas_envelope a) (max_fee_per_gas bumped) (max_priority_fee_per_gas bumped) in
  let reevaluate :=
    let intent := th_intent handle in
    let request := if is_self_send intent then Cancel intent else Transaction intent in
    let* d := call (Evaluate (ex_who self) request) in
    Ret match d with
        | Err e => Err (Ex_Policy e)
        | Ok (Allow approval) => Ok (if admits_bump approval then Some approval else None)
        | Ok (Deny _) => Ok None
        end in
  match es_approvals st !! th_id handle with
  | Some approval =>
      if (now <=? pa_valid_until approval) && admits_bump approval
      then Ret (Ok (Some approval))
      else reevaluate
  | None => reevaluate
  end.

Definition bump (handle : TxHandle) (now : Z) (st : exec_state)
  : io (result unit ExecutorError * exec_state) :=
  let* r := call (TxCount (ex_account self)) in
  match r with
  | Err e => Ret (Err (Ex_Rpc e), st)
  | Ok mined =>
      if th_nonce handle <? mined then Ret (Ok tt, st)
      else
        match decode_fees (th_signed handle) with
        | None => Ret (Ok tt, st)
        | Some current =>
            let* r := call (GasBump (sf_fees current)) in
            match r with
            | Err (CeilingExceeded _ _) => Ret (Ok tt, st)
            | Err e => Ret (Err (Ex_Gas e), st)
            | Ok bumped =>
                if negb (admits (th_envelope handle) (max_fee_per_gas bumped)
                           (max_priority_fee_per_gas bumped))
                then Ret (Ok tt, st)
                else
                  let* a := bump_approval handle bumped now st in
                  match a with
                  | Err e => Ret (Err e, st)
                  | Ok None => Ret (Ok tt, st)
                  | Ok (Some approval) =>
                      let tx := build_tx (th_intent handle) (th_nonce handle) (sf_gas_limit current) bumped in
                      let* s := sign_encode (ex_who self) tx (th_intent_hash handle) approval now in
                      match s with
                      | Err e => Ret (Err (Ex_Signer e), st)
                      | Ok signed =>
                          let handle := set_submission (escalated_opts handle) handle in
                          let* r := call (Submit (st_rlp signed) (th_submission handle)) in
                          let finish :=
                            let handle :=
                              set_signed (st_rlp signed) now (push_broadcast (st_hash signed) handle) in
                            let* put := call (PutHandle handle) in
                            match put with
                            | Err e => Ret (Err (Ex_Store e), st)
                            | Ok _ => Ret (Ok tt, track (th_id handle) approval st)
                            end in
                          match r with
                          | Ok _ => finish
                          | Err e =>
                              if is_already_accepted e then finish
                              else Ret (Err (Ex_Submission e), st)
                          end
                      end
                  end
            end
        end
  end.

Definition escalate (st : exec_state) : io (result unit ExecutorError * exec_state) :=
  let* now := call NowUnix in
  let* r := call (PendingHandles (ex_account self)) in
  match r with
  | Err e => Ret (Err (Ex_Store e), st)
  | Ok handles =>
      let* st :=
        for_each handles st (fun handle st =>
          if is_stuck (ex_bump_timeout self) now handle
          then let* (_, st) := bump handle now st in Ret st
          else Ret st) in
      Ret (Ok tt, st)
  end.

Definition tick (st : exec_state) : io (result unit ExecutorError * exec_state) :=
  let* r := recover in
  match r with
  | Err e => Ret (Err e, st)
  | Ok _ =>
      let* (r, st) := confirm st in
      match r with
      | Err e => Ret (Err e, st)
      | Ok _ => escalate st
      end
  end.
End Executor.
