(* ===== verification/ExecutorSpec.v ===== *)
(** * ExecutorSpec: what the executor guarantees

    Proofs about [Executor]: no status is persisted without its evidence, a stale head
    changes nothing, recovery and escalation stay on the persisted route and within the
    approved envelope, and refills happen only after a durable displacement. *)
From S2P Require Import Prelude Effects Primitives ModelAlloy Errors Ports Lifecycle GasOracle Policy.
From S2P Require Import Signer Signing TransactionManager Executor.

(** ** Histories within a cycle *)

(** Calls that do not read the cycle's view or the list of in-flight handles. *)
Definition quiet (e : event resp) : bool :=
  match e with
  | existT (BlockNumber | FinalizedBlock | TxCount _ | PendingHandles _) _ => false
  | _ => true
  end.

(** [tr'] extends [tr] without reading the view again. *)
Definition quietly (tr tr' : history) : Prop :=
  exists new, tr' = new ++ tr /\ Forall (fun e => quiet e = true) new.

#[export] Instance quietly_refl : Reflexive quietly.
Proof. intros tr. by exists []. Qed.
#[export] Instance quietly_trans : Transitive quietly.
Proof.
  intros a b c (n1 & -> & H1) (n2 & -> & H2). exists (n2 ++ n1).
  split; [by rewrite app_assoc|]. by apply Forall_app.
Qed.

Lemma quietly_cons e tr : quiet e = true -> quietly tr (e :: tr).
Proof. intros H. exists [e]. split; [done|]. by repeat constructor. Qed.

(** Peel the calls made off the end of a history. *)
Ltac quiet_steps := repeat (etrans; [|apply quietly_cons; reflexivity]); reflexivity.

(** A projection of view reads does not see quiet calls. *)
Lemma quietly_omap {B} (f : event resp -> option B) tr tr' :
  (forall e, quiet e = true -> f e = None) -> quietly tr tr' -> omap f tr' = omap f tr.
Proof.
  intros Hf (new & -> & Hq). induction Hq as [|e new He Hq IH]; [done|].
  cbn [app]. cbn. by rewrite (Hf e He).
Qed.

Lemma quietly_reads tr tr' :
  quietly tr tr' ->
  block_numbers tr' = block_numbers tr /\ finalized_reads tr' = finalized_reads tr /\
  tx_counts tr' = tx_counts tr /\ pending_reads tr' = pending_reads tr.
Proof.
  intros H. split_and!; (eapply quietly_omap; [|done]); intros [[] r]; simpl; done.
Qed.

(** The history since the cycle was read: its view and the handles it works on. *)
Record cycle_reads (self : AccountExecutor) (cycle : Cycle) (handles : list TxHandle)
    (tr : history) : Prop := {
  cr_latest : exists rest, block_numbers tr = Ok (cv_latest (cyc_view cycle)) :: rest;
  cr_finalized : exists tag rest, finalized_reads tr = Ok tag :: rest /\
    cv_finalized (cyc_view cycle) = default 0 tag /\
    cyc_finality cycle
      = mkFinality (match tag with Some _ => Finalized | None => Depth end)
          (ex_required_confirmations self);
  cr_mined : exists rest, tx_counts tr = (ex_account self, Ok (cyc_mined_nonce cycle)) :: rest;
  cr_pending : exists rest, pending_reads tr = (ex_account self, Ok handles) :: rest;
}.

Lemma cycle_reads_quietly self cycle handles tr tr' :
  cycle_reads self cycle handles tr -> quietly tr tr' -> cycle_reads self cycle handles tr'.
Proof.
  intros [H1 H2 H3 H4] (E1 & E2 & E3 & E4)%quietly_reads.
  constructor; by rewrite ?E1, ?E2, ?E3, ?E4.
Qed.

(** ** Evidence for a persisted status *)

Section Spec.
Context {A : Alloy}.
Context (self : AccountExecutor).

(** The receipts of broadcasts that the node does not know as mined. *)
Definition unmined (hashes : list TxHash) : list (TxHash * result (option TransactionReceipt) RpcError) :=
  map (fun x => (x, Ok None)) hashes.

(** What the reads [new] of one step (newest first) show of a handle: its broadcasts are
    asked for from the newest on until one has an answer other than "not mined"; a
    receipt counts only when the node reports its block hash as canonical. *)
Inductive observed (h : TxHandle) (mined : Z) (new : history) : ChainEvent -> Prop :=
| obs_unmined :
    receipts new = unmined (th_broadcasts h) -> block_hashes new = [] ->
    observed h mined new (if th_nonce h <? mined then Ev_Replaced else Ev_Pending)
| obs_error older x newer e :
    th_broadcasts h = older ++ x :: newer -> receipts new = (x, Err e) :: unmined newer -> block_hashes new = [] ->
    observed h mined new Ev_Unknown
| obs_no_block older x newer rc :
    th_broadcasts h = older ++ x :: newer -> receipts new = (x, Ok (Some rc)) :: unmined newer ->
    receipt_block_number rc = None \/ receipt_block_hash rc = None -> block_hashes new = [] ->
    observed h mined new Ev_Unknown
| obs_stale older x newer rc b bh r :
    th_broadcasts h = older ++ x :: newer -> receipts new = (x, Ok (Some rc)) :: unmined newer ->
    receipt_block_number rc = Some b -> receipt_block_hash rc = Some bh ->
    block_hashes new = [(b, r)] -> r <> Ok (Some bh) ->
    observed h mined new Ev_Unknown
| obs_mined older x newer rc b bh :
    th_broadcasts h = older ++ x :: newer -> receipts new = (x, Ok (Some rc)) :: unmined newer ->
    receipt_block_number rc = Some b -> receipt_block_hash rc = Some bh ->
    block_hashes new = [(b, Ok (Some bh))] ->
    observed h mined new (Ev_Mined b bh (outcome_of rc h)).

(** The latest reads of a history show [ev]. *)
Definition saw (tr : history) (h : TxHandle) (mined : Z) (ev : ChainEvent) : Prop :=
  exists new rest, tr = new ++ rest /\ observed h mined new ev.

Definition chain_read (e : event resp) : bool :=
  match e with existT (Receipt _ | BlockHash _) _ => true | _ => false end.

Lemma observed_status h mined new ev s : observed h mined new ev -> observed (set_status s h) mined new ev.
Proof using Type.
  destruct 1; [by apply (obs_unmined (set_status s h))|by eapply obs_error|by eapply obs_no_block|by eapply obs_stale|].
  by eapply (obs_mined (set_status s h)).
Qed.

(** The handle written is an in-flight handle of this cycle, with a new status. *)
Definition tracked (tr : history) (cycle : Cycle) (h0 h : TxHandle) : Prop :=
  exists handles, cycle_reads self cycle handles tr /\ h0 ∈ handles /\ h = set_status (th_status h) h0.

(** What must have been seen before [h] is written. *)
Definition status_evidence (tr : history) (h : TxHandle) : Prop :=
  match th_status h with
  | Confirmed b => exists cycle h0 bh, tracked tr cycle h0 h /\
      saw tr h (cyc_mined_nonce cycle) (Ev_Mined b bh Executed) /\
      is_final b (cyc_view cycle) (cyc_finality cycle) = true
  | Mined b bh => exists cycle h0 o, tracked tr cycle h0 h /\
      saw tr h (cyc_mined_nonce cycle) (Ev_Mined b bh o) /\
      is_final b (cyc_view cycle) (cyc_finality cycle) = false
  | Replacing since => exists cycle h0, tracked tr cycle h0 h /\
      saw tr h (cyc_mined_nonce cycle) Ev_Replaced /\ since = cv_latest (cyc_view cycle) /\
      (forall sb, th_status h0 <> Replacing sb)
  | Replaced | Dropped => exists cycle h0 sb, tracked tr cycle h0 h /\
      saw tr h (cyc_mined_nonce cycle) Ev_Replaced /\
      th_status h0 = Replacing sb /\ is_final sb (cyc_view cycle) (cyc_finality cycle) = true /\
      (th_status h = Dropped <-> th_cancelled h = true)
  | Failed reason =>
      (exists cycle h0 b bh, tracked tr cycle h0 h /\ reason = "reverted on-chain" /\
         saw tr h (cyc_mined_nonce cycle) (Ev_Mined b bh Reverted) /\
         is_final b (cyc_view cycle) (cyc_finality cycle) = true) \/
      (exists task rest, polls tr = (task, Ok (Relay_Failed reason)) :: rest /\
         (th_meta h ≫= mc_task) = Some task) \/
      (exists e rest, submits tr = (th_signed h, th_submission h, Err e) :: rest /\
         maybe_sent (Err e) = false /\ reason = SubmissionError_to_string e)
  | Sent =>
      (exists cycle h0, tracked tr cycle h0 h /\ saw tr h (cyc_mined_nonce cycle) Ev_Pending /\
         ((exists b bh, th_status h0 = Mined b bh) \/ exists sb, th_status h0 = Replacing sb)) \/
      (exists h0 task hash rest, polls tr = (task, Ok (Relay_Included hash)) :: rest /\
         (th_meta h0 ≫= mc_task) = Some task /\ h = set_status Sent (push_broadcast hash h0)) \/
      (exists r rest rest', submits tr = (th_signed h, th_submission h, r) :: rest /\ maybe_sent r = true /\
         puts tr = (set_status Pending h, Ok tt) :: rest')
  | Pending => exists w tx ih ap now sig rest rest',
      signed_txs tr = (w, tx, ih, ap, now, Ok sig) :: rest /\ th_signed h = encoded_2718 tx sig /\
      allocates tr = (th_account h, Ok (th_nonce h)) :: rest'
  end.

(** When [confirm] may make a call: a status is written only on its evidence; the
    refill pipeline starts only after a displacement was durably recorded. *)
Definition confirm_guard (tr : history) (p : port) : Prop :=
  match p with
  | PutHandle h => status_evidence tr h
  | EstimateGas _ | Allocate _ => exists h rest,
      puts tr = (h, Ok tt) :: rest /\ th_status h = Replaced /\ is_Some (ex_refill self)
  | SendRaw _ | SendRawTo _ _ | CasNonceState _ _ _ _ | SignMessage _ _ _ _
  | SignTypedData _ _ _ _ | HttpPost _ _ => False
  | _ => True
  end.

(** Scanning the broadcasts not asked for yet, after [newer] turned out unmined. *)
Lemma event_scan_spec (G : history -> port -> Prop) hashes h mined newer done tr :
  (forall tr x, G tr (Receipt x)) -> (forall tr n, G tr (BlockHash n)) ->
  th_broadcasts h = rev hashes ++ newer -> receipts done = unmined newer -> block_hashes done = [] ->
  Forall (fun e => chain_read e = true) done ->
  triple any_response G (event_scan hashes h mined) (done ++ tr) (fun tr' ev => exists new,
    tr' = new ++ tr /\ Forall (fun e => chain_read e = true) new /\ observed h mined new ev).
Proof using Type.
  intros HR HB. revert newer done. induction hashes as [|x hashes IH]; intros newer done Hb Hrc Hbh Hq; cbn [event_scan].
  { cbn [triple]. exists done. split_and!; [done..|]. apply obs_unmined; [by rewrite Hrc, Hb|done]. }
  cbn [rev] in Hb. rewrite <- app_assoc in Hb. cbn [app] in Hb.
  assert (Hcons : forall r, receipts (existT (Receipt x) r :: done) = (x, r) :: unmined newer).
  { intros r. cbn. f_equal. exact Hrc. }
  apply triple_call; [done|]. intros [[rc|]|e] _.
  - unfold anchor. destruct (receipt_block_number rc) as [b|] eqn:Hn, (receipt_block_hash rc) as [bh|] eqn:Hh;
      try (cbn [triple]; exists (existT (Receipt x) (Ok (Some rc)) :: done); split_and!;
           [done|by constructor|eapply obs_no_block; [done|apply Hcons|auto|done]]).
    wp_simpl. apply triple_call; [done|]. intros r _. cbn [triple].
    exists (existT (BlockHash b) r :: existT (Receipt x) (Ok (Some rc)) :: done).
    split_and!; [done|by repeat constructor|].
    assert (Hbs : block_hashes (existT (BlockHash b) r :: existT (Receipt x) (Ok (Some rc)) :: done) = [(b, r)])
      by (cbn; f_equal; exact Hbh).
    assert (Hrs : receipts (existT (BlockHash b) r :: existT (Receipt x) (Ok (Some rc)) :: done)
      = (x, Ok (Some rc)) :: unmined newer) by apply Hcons.
    destruct r as [[c|]|e]; [destruct (c =? bh) eqn:Hc; bool_simpl; [subst c; by eapply obs_mined|]|..];
      (eapply (obs_stale _ _ _ _ x newer rc b bh); [done..|congruence]).
  - apply (IH (x :: newer) (existT (Receipt x) (Ok None) :: done)); [done|by rewrite Hcons|done|by constructor].
  - cbn [triple]. exists (existT (Receipt x) (Err e) :: done). split_and!; [done|by constructor|].
    eapply obs_error; [done|apply Hcons|done].
Qed.

Lemma event_for_spec (G : history -> port -> Prop) h mined tr :
  (forall tr x, G tr (Receipt x)) -> (forall tr n, G tr (BlockHash n)) ->
  triple any_response G (event_for h mined) tr (fun tr' ev => exists new,
    tr' = new ++ tr /\ Forall (fun e => chain_read e = true) new /\ observed h mined new ev).
Proof using Type.
  intros HR HB. apply (event_scan_spec G _ h mined [] [] tr); try done. by rewrite rev_involutive, app_nil_r.
Qed.

Lemma chain_reads_quietly new tr : Forall (fun e => chain_read e = true) new -> quietly tr (new ++ tr).
Proof using Type.
  intros H. exists new. split; [done|]. eapply list.Forall_impl; [exact H|]. by intros [[] r].
Qed.

(** A refill's sends are quiet, and its handle writes carry their own evidence. *)
Lemma refill_spec manager h tr rest :
  puts tr = (h, Ok tt) :: rest -> th_status h = Replaced -> ex_refill self = Some manager ->
  triple any_response confirm_guard (refill_intent manager h) tr (fun tr' _ => quietly tr tr').
Proof.
  intros Hput Hst Hre. unfold refill_intent, send, send_with. send_unfold.
  assert (Hok : forall tr', puts tr' = puts tr ->
    exists h rest, puts tr' = (h, Ok tt) :: rest /\ th_status h = Replaced /\ is_Some (ex_refill self)).
  { intros tr' ->. rewrite Hput, Hre. eauto 10. }
  wp_auto ltac:(unfold confirm_guard; simpl; first [exact I | apply Hok; reflexivity |
    unfold status_evidence; simpl; first [solve [fill_in] | right; right; fill_in; done]]).
  all: quiet_steps.
Qed.

Lemma on_settled_spec h st tr rest :
  puts tr = (h, Ok tt) :: rest ->
  triple any_response (confirm_guard) (on_settled self h st) tr (fun tr' _ => quietly tr tr').
Proof.
  intros Hput. unfold on_settled. destruct (ex_refill self) as [manager|] eqn:Hre; [|simpl; reflexivity].
  case_decide as Hst; [|simpl; reflexivity]. apply triple_bind.
  eapply triple_mono; [|by eapply refill_spec]. done.
Qed.

Lemma poll_task_spec h st tr :
  triple any_response confirm_guard (poll_task self h st) tr (fun tr' _ => quietly tr tr').
Proof using Type.
  unfold poll_task. destruct (ex_relay self); [|simpl; reflexivity].
  destruct (th_meta h ≫= mc_task) as [task|] eqn:Hm; [|simpl; reflexivity]. wp_simpl.
  apply triple_call; [done|]. intros [[|hash|reason]|e] _; wp_simpl.
  - simpl. by apply quietly_cons.
  - apply triple_call.
    { simpl. right. left. exists h, task, hash. eexists. done. }
    intros r _. simpl. etrans; [|by apply quietly_cons]. by apply quietly_cons.
  - apply triple_call.
    { simpl. right. left. eexists _, _. split; [reflexivity|]. done. }
    intros [[]|e] _; simpl.
    + eapply triple_mono; [|by eapply on_settled_spec]. intros tr' ? Hq.
      etrans; [|exact Hq]. quiet_steps.
    + etrans; [|by apply quietly_cons]. by apply quietly_cons.
  - simpl. by apply quietly_cons.
Qed.

(** What a transition's target tells about the event and the previous status. *)
Lemma transition_evidence h ev cycle handles next new tr :
  cycle_reads self cycle handles (new ++ tr) -> h ∈ handles ->
  observed h (cyc_mined_nonce cycle) new ev ->
  transition (th_status h) ev (cyc_view cycle) (cyc_finality cycle) = Some next ->
  status_evidence (new ++ tr) (set_status (settle_status (th_cancelled h) next) h).
Proof using Type.
  intros Hcyc Hin Hev Ht.
  assert (Htr : forall s, tracked (new ++ tr) cycle h (set_status s h)) by (intros s; by exists handles).
  assert (Hsaw : forall s, saw (new ++ tr) (set_status s h) (cyc_mined_nonce cycle) ev).
  { intros s. exists new, tr. split; [done|]. by apply observed_status. }
  unfold transition in Ht. destruct (is_terminal (th_status h)) eqn:Hterm; [done|].
  destruct ev as [|b bh o| |]; [| | |done].
  - destruct (th_status h) eqn:Hst; simplify_eq/=; try done; try (case_decide; simplify_eq);
      left; exists cycle, h; rewrite Hst; eauto 10.
  - destruct (is_final b (cyc_view cycle) (cyc_finality cycle)) eqn:Hf.
    + destruct o; case_decide; simplify_eq; unfold status_evidence; simpl.
      * exists cycle, h, bh. auto.
      * left. exists cycle, h, b, bh. auto.
    + case_decide; simplify_eq. exists cycle, h, o. auto.
  - destruct (th_status h) as [| | |sb| | | |] eqn:Hst; try done;
      try (case_decide; simplify_eq; exists cycle, h; split_and!; [apply Htr|apply Hsaw|done|by rewrite Hst]).
    destruct (is_final sb (cyc_view cycle) (cyc_finality cycle)) eqn:Hf; [|done].
    case_decide; simplify_eq. unfold settle_status.
    destruct (th_cancelled h) eqn:Hc; unfold status_evidence; simpl;
      exists cycle, h, sb; split_and!; try done; try apply Htr; try apply Hsaw; rewrite Hc; done.
Qed.

Lemma advance_on_chain_spec h cycle handles st tr :
  cycle_reads self cycle handles tr -> h ∈ handles ->
  triple any_response confirm_guard (advance_on_chain self h cycle st) tr (fun tr' _ => quietly tr tr').
Proof.
  intros Hcyc Hin. unfold advance_on_chain. apply triple_bind.
  eapply triple_mono; [|by apply event_for_spec]. intros tr' ev (new & -> & Hnew & Hev). cbn beta.
  pose proof (chain_reads_quietly new tr Hnew) as Hq.
  destruct (transition _ ev _ _) as [next|] eqn:Ht; [|by simpl].
  wp_simpl. apply triple_call.
  { simpl. eapply transition_evidence; eauto. by eapply cycle_reads_quietly. }
  intros [[]|e] _; simpl.
  - destruct (is_terminal _); simpl.
    + eapply triple_mono; [|by eapply on_settled_spec]. intros tr'' ? Hq'.
      etrans; [exact Hq|]. etrans; [|exact Hq']. quiet_steps.
    + etrans; [exact Hq|]. by apply quietly_cons.
  - etrans; [exact Hq|]. by apply quietly_cons.
Qed.

Lemma advance_handle_spec h cycle handles st tr :
  cycle_reads self cycle handles tr -> h ∈ handles ->
  triple any_response confirm_guard (advance_handle self h cycle st) tr
    (fun tr' _ => cycle_reads self cycle handles tr').
Proof.
  intros Hcyc Hin. unfold advance_handle.
  destruct (is_awaiting_relay h); (eapply triple_mono;
    [|first [apply poll_task_spec|by eapply advance_on_chain_spec]]);
    intros tr' ? Hq; by eapply cycle_reads_quietly.
Qed.
End Spec.

(** ** Properties *)

(** C4: confirmation never fabricates a status, whatever the node, store and relay
    answer.  A tracked handle's broadcasts are asked for from the newest on; a receipt
    counts only when it names a block and the node reports that block's hash as canonical,
    and the handle is written [Confirmed] or [Failed] only on such a receipt (successful,
    and for a self-relayed request with the forwarder's log proving the inner call; or
    reverted) in a block final in this cycle's view, [Mined] only on one that is not final
    yet; [Replacing] only when no broadcast has a receipt and the nonce is consumed, from
    the latest block on; [Replaced] or [Dropped] only when that is so again and the
    displacement is final, [Dropped] exactly for cancelled handles; back to [Sent] only when
    no broadcast has a receipt and the nonce is free.  Besides, only the relay's own verdict
    on the handle's task is written, and the pipeline's writes of a refill, which starts
    only after a durably recorded displacement. *)
Theorem confirm_no_false_status {A : Alloy} (self : AccountExecutor) (st : exec_state) (tr : history) :
  triple any_response (confirm_guard self) (confirm self st) tr (fun _ _ => True).
Proof.
  unfold confirm, read_cycle. wp_simpl.
  apply triple_call; [done|]. intros [latest|e] _; [|done]. wp_simpl.
  apply triple_call; [done|]. intros [mined|e] _; [|done]. wp_simpl.
  destruct (latest <? es_last_latest st); [done|]. wp_simpl.
  apply triple_call; [done|]. intros [tag|e] _; [|done]. wp_simpl.
  destruct (latest <? default 0 tag); [done|]. wp_simpl.
  apply triple_call; [done|]. intros [[]|e] _; [|done]. wp_simpl.
  apply triple_call; [done|]. intros [handles|e] _; [|done]. wp_simpl.
  set (cycle := mkExecCycle _ _ _).
  apply triple_bind. eapply triple_mono; [|apply (triple_for_each _ _ _ _ _ _
    (fun tr _ => cycle_reads self cycle handles tr))].
  - done.
  - constructor; simpl; eauto 10.
  - intros h tr' s' Hin Hc. by apply advance_handle_spec.
Qed.

(** The loop over handles keeps the head it works from. *)
Lemma advance_handle_head {A : Alloy} self h cycle st tr :
  triple any_response any_call (advance_handle self h cycle st) tr
    (fun _ st' => es_last_latest st' = es_last_latest st).
Proof.
  assert (Hset : forall h st tr, triple any_response any_call (on_settled self h st) tr
    (fun _ st' => es_last_latest st' = es_last_latest st)).
  { intros h0 st0 tr0. unfold on_settled. destruct (ex_refill self); [|done].
    case_decide; [|done]. apply triple_bind. eapply triple_mono; [|apply triple_any]. done. }
  unfold advance_handle, poll_task, advance_on_chain. destruct (is_awaiting_relay h).
  - destruct (ex_relay self); [|done]. destruct (th_meta h ≫= mc_task); [|done]. wp_simpl.
    apply triple_call; [done|]. intros [[|hash|reason]|e] _; wp_simpl; [done| | |done].
    + by apply triple_call.
    + apply triple_call; [done|]. intros [?|e] _; simpl; [apply Hset|done].
  - apply triple_bind. eapply triple_mono; [|apply triple_any]. intros tr' ev _. cbn beta.
    destruct (transition _ _ _ _); [|done]. wp_simpl. apply triple_call; [done|].
    intros r _. destruct (is_ok r && _); [apply Hset|done].
Qed.

(** The head a cycle read (its oldest reads) is stale for a memory. *)
Definition stale_head (st : exec_state) (new : history) : Prop :=
  exists latest, head (rev (block_numbers new)) = Some (Ok latest) /\
    (latest < es_last_latest st \/
     exists f, head (rev (finalized_reads new)) = Some (Ok f) /\ latest < default 0 f).

Ltac only_read := simpl; give_new; split; [done|]; intros _; by split; [repeat constructor|].

(** A stale or inconsistent head changes nothing.  When the latest block is below
    one seen before, or the finalized block above the latest, a confirm cycle only
    reads and keeps its memory; and the head the executor remembers never goes
    backwards. *)
Theorem confirm_skips_stale_head {A : Alloy} (self : AccountExecutor) (st : exec_state) (tr : history) :
  triple any_response any_call (confirm self st) tr (fun tr' x => exists new, tr' = new ++ tr /\
    es_last_latest st <= es_last_latest (snd x) /\
    (stale_head st new -> Forall (fun e => is_read (projT1 e) = true) new /\ snd x = st)).
Proof.
  unfold confirm, read_cycle. wp_simpl.
  apply triple_call; [done|]. intros [latest|e] _; wp_simpl;
    [|only_read].
  apply triple_call; [done|]. intros [mined|e] _; wp_simpl;
    [|only_read].
  destruct (latest <? es_last_latest st) eqn:Hl;
    [simpl; give_new; split; [done|]; intros _; by split; [repeat constructor|]|]. wp_simpl.
  apply triple_call; [done|]. intros [tag|e] _; wp_simpl;
    [|only_read].
  destruct (latest <? default 0 tag) eqn:Hf;
    [simpl; give_new; split; [done|]; intros _; by split; [repeat constructor|]|]. wp_simpl.
  bool_simpl. set (st1 := saw_latest latest st).
  assert (Hfresh : forall new, ~ stale_head st (new ++ [existT FinalizedBlock (Ok tag);
    existT (TxCount (ex_account self)) (Ok mined); existT BlockNumber (Ok latest)])).
  { intros new (l & Hbl & Hor). unfold block_numbers, finalized_reads in *. rewrite omap_app, rev_app_distr in Hbl.
    simpl in Hbl. assert (l = latest) as -> by congruence.
    destruct Hor as [?|(f & Hfi & ?)]; [lia|]. rewrite omap_app, rev_app_distr in Hfi.
    simpl in Hfi. assert (f = tag) as -> by congruence. lia. }
  apply triple_call; [done|]. intros [[]|e] _; wp_simpl;
    [|simpl; give_new; split; [done|]; intros []%(Hfresh [_])].
  apply triple_call; [done|]. intros [handles|e] _; wp_simpl;
    [|simpl; give_new; split; [done|]; intros []%(Hfresh [_; _])].
  apply triple_bind.
  set (tr1 := existT (PendingHandles _) _ :: _).
  eapply triple_mono; [|apply triple_extends, (triple_for_each _ _ _ _ _ _
    (fun _ s => es_last_latest s = latest))].
  - intros tr' s' [Hs (new & ->)]. cbn [triple]. eexists (new ++ [_; _; _; _; _]).
    split; [unfold tr1; by rewrite <- app_assoc|]. split; [simpl; lia|].
    intros Hst. exfalso. eapply (Hfresh (new ++ [_; _])). rewrite <- app_assoc. exact Hst.
  - done.
  - intros h tr' s' _ Hs. eapply triple_mono; [|apply advance_handle_head].
    intros tr'' s'' ->. exact Hs.
Qed.

(** The broadcast of a handle's own bytes on its own route. *)
Definition rebroadcast_of (h : TxHandle) : port := Submit (th_signed h) (th_submission h).

(** Recovery rebroadcasts, in the store's order, exactly the persisted bytes of the
    handles that should be in the mempool, each on its persisted route, and does
    nothing else; a managed-relay handle (no bytes) and a mined or displaced one are
    left alone. *)
Theorem recover_rebroadcasts {A : Alloy} (self : AccountExecutor) (tr : history) :
  triple any_response any_call (recover self) tr (fun tr' r => exists new read, 
    tr' = new ++ existT (PendingHandles (ex_account self)) read :: tr /\
    match read with
    | Err e => r = Err (Ex_Store e) /\ new = []
    | Ok handles => r = Ok tt /\
        map projT1 (rev new) =
          map rebroadcast_of
            (List.filter recoverable handles)
    end).
Proof.
  unfold recover, map_err, try_bind. wp_simpl.
  apply triple_call; [done|]. intros [handles|e] _; wp_simpl; [|by exists [], (Err e)].
  apply triple_bind.
  set (start := existT (PendingHandles (ex_account self)) (Ok handles) :: tr).
  assert (Hloop : forall (hs : list TxHandle) (tr0 : history), triple any_response any_call
    (for_each hs tt (fun handle _ =>
      if recoverable handle
      then let* _ := call (Submit (th_signed handle) (th_submission handle)) in Ret tt
      else Ret tt)) tr0
    (fun tr' _ => exists new, tr' = new ++ tr0 /\ map projT1 (rev new) =
       map rebroadcast_of (List.filter recoverable hs))).
  { intros hs. induction hs as [|h hs IH]; intros tr0; cbn [for_each]; [by exists []|].
    cbn [List.filter]. destruct (recoverable h); wp_simpl.
    - apply triple_call; [done|]. intros r _. wp_simpl.
      eapply triple_mono; [|apply IH]. intros tr' ? (new & -> & Hnew).
      eexists (new ++ [_]). rewrite <- app_assoc. split; [done|].
      rewrite rev_app_distr. cbn [rev app map]. f_equal. exact Hnew.
    - apply IH. }
  eapply triple_mono; [|apply Hloop]. intros tr' ? (new & -> & Hnew). cbn [triple].
  exists new, (Ok handles). done.
Qed.

(** ** Escalation *)

Section Escalate.
Context {A : Alloy}.
Context (self : AccountExecutor) (ceiling : Z).

(** [h] is one of the in-flight handles this escalation works on. *)
Definition in_flight (tr : history) (h : TxHandle) : Prop :=
  exists handles rest, pending_reads tr = (ex_account self, Ok handles) :: rest /\ h ∈ handles.

(** A replacement of [h]: same intent, same nonce and gas, priced by a bump of the fees
    in its persisted bytes, within its originally approved envelope. *)
Definition replacement_of (tr : history) (h : TxHandle) (tx : TxEip1559) : Prop :=
  exists current fees rest,
    decode_fees (th_signed h) = Some current /\ gas_bumps tr = (sf_fees current, Ok fees) :: rest /\
    tx = build_tx (th_intent h) (th_nonce h) (sf_gas_limit current) fees /\
    admits (th_envelope h) (max_fee_per_gas fees) (max_priority_fee_per_gas fees) = true.

Definition escalate_guard (tr : history) (p : port) : Prop :=
  match p with
  | SignTransaction w tx ih ap _ => exists h,
      in_flight tr h /\ th_status h = Sent /\ replacement_of tr h tx /\ w = ex_who self /\
      ih = th_intent_hash h /\
      admits (pa_gas_envelope ap) (tx_max_fee_per_gas tx) (tx_max_priority_fee_per_gas tx) = true
  | Submit rlp o => exists h tx ih ap now sig rest,
      in_flight tr h /\ th_status h = Sent /\ replacement_of tr h tx /\
      signed_txs tr = (ex_who self, tx, ih, ap, now, Ok sig) :: rest /\
      rlp = encoded_2718 tx sig /\ o = escalated_opts h
  | PutHandle h' => exists h tx ih ap now sig rest,
      in_flight tr h /\ signed_txs tr = (ex_who self, tx, ih, ap, now, Ok sig) :: rest /\
      h' = set_signed (encoded_2718 tx sig) (th_last_broadcast_at h')
             (push_broadcast (signed_hash tx sig) (set_submission (escalated_opts h) h))
  | Allocate _ | Release _ _ | ResetNonce _ _ | SignMessage _ _ _ _ | SignTypedData _ _ _ _ => False
  | _ => True
  end.

Lemma bump_spec h now st tr :
  in_flight tr h -> th_status h = Sent ->
  triple any_response escalate_guard (bump self h now st) tr
    (fun tr' _ => pending_reads tr' = pending_reads tr).
Proof.
  intros Hin Hst. unfold bump, bump_approval, sign_encode, try_bind.
  assert (Hin' : forall tr', pending_reads tr' = pending_reads tr -> in_flight tr' h).
  { intros tr' E. unfold in_flight in *. by rewrite E. }
  wp_auto ltac:(unfold escalate_guard; simpl; bool_simpl; first [exact I |
    eexists; split_and!; [apply Hin'; reflexivity|done|unfold replacement_of; fill_in; done|done..] |
    eexists h, _, _, _, _, _, _; split_and!; [apply Hin'; reflexivity|done|
       unfold replacement_of; fill_in; done|reflexivity|reflexivity|reflexivity] |
    eexists h, _, _, _, _, _, _; split_and!; [apply Hin'; reflexivity|reflexivity|reflexivity] ]).
  all: simpl; reflexivity.
Qed.
End Escalate.

Lemma escalate_guarded {A : Alloy} (self : AccountExecutor) (st : exec_state) (tr : history) :
  triple any_response (escalate_guard self) (escalate self st) tr (fun _ _ => True).
Proof.
  unfold escalate. wp_simpl. apply triple_call; [done|]. intros now _. wp_simpl.
  apply triple_call; [done|]. intros [handles|e] _; wp_simpl; [|done].
  set (tr1 := existT (PendingHandles _) _ :: _).
  apply triple_bind. eapply triple_mono; [|apply (triple_for_each _ _ _ _ _ _
    (fun tr _ => pending_reads tr = pending_reads tr1))].
  - done.
  - done.
  - intros h tr' s' Hin Htr. destruct (is_stuck _ now h) eqn:Hst; [|done].
    apply triple_bind. eapply triple_mono; [|apply bump_spec].
    + intros tr'' [r s''] E. cbn [triple]. by rewrite E, Htr.
    + unfold in_flight. rewrite Htr. simpl. eauto.
    + unfold is_stuck in Hst. by destruct (th_status h).
Qed.

(** C19: escalation replaces, and only within what was approved.  For every behaviour of
    the ports, whatever the key is asked to sign is the same intent of an in-flight
    handle at the same nonce, priced by a bump of its persisted fees that both the
    envelope approved at send time and the approval used admit; what is broadcast are
    those signed bytes on the handle's escalated route; no nonce is touched, and the
    handle written records exactly the bytes and hash broadcast. *)
Theorem escalate_within_envelope {A : Alloy} (self : AccountExecutor) (st : exec_state) (tr : history) :
  triple any_response (escalate_guard self) (escalate self st) tr (fun _ _ => True).
Proof. apply escalate_guarded. Qed.

(** Bumps meet the oracle's contract, and in-flight bytes carry [u128] fees. *)
Definition escalate_env {A : Alloy} (ceiling : Z) (p : port) : resp p -> Prop :=
  match p return resp p -> Prop with
  | PendingHandles _ => fun r => forall hs h f, r = Ok hs -> h ∈ hs ->
      decode_fees (th_signed h) = Some f -> fees_u128 (sf_fees f)
  | q => gas_env ceiling q
  end.

(** The transaction signed replaces an in-flight handle, by its own intent and nonce, and
    outbids the bytes of that very handle. *)
Definition outbid_guard {A : Alloy} (self : AccountExecutor) (ceiling : Z) (tr : history) (p : port) : Prop :=
  match p with
  | SignTransaction _ tx ih _ _ => exists h, in_flight self tr h /\ replacement_of tr h tx /\
      ih = th_intent_hash h /\ outbids ceiling (th_signed h) tx
  | _ => True
  end.

Lemma bump_outbids {A : Alloy} self ceiling h now st tr :
  in_flight self tr h -> (forall f, decode_fees (th_signed h) = Some f -> fees_u128 (sf_fees f)) ->
  triple (escalate_env ceiling) (outbid_guard self ceiling) (bump self h now st) tr (fun tr' _ => pending_reads tr' = pending_reads tr).
Proof.
  intros Hin Hu. unfold bump, bump_approval, sign_encode, try_bind.
  assert (Hin' : forall tr', pending_reads tr' = pending_reads tr -> in_flight self tr' h).
  { intros tr' E. unfold in_flight in *. by rewrite E. }
  wp_auto ltac:(simpl; first [exact I |
    exists h; bool_simpl; split_and!; [by apply Hin'|unfold replacement_of; fill_in; done|done|
      eapply outbids_fees; [eassumption|by apply Hu|assumption]]]).
  all: reflexivity.
Qed.

(** C20: against an oracle that meets its contract every replacement outbids the bytes of
    the handle it replaces, the in-flight handle whose intent and nonce it carries: at least
    10% more on both fees (when the product fits in [u128]), under the ceiling, and the tip
    within the fee cap. *)
Theorem escalate_outbids {A : Alloy} (self : AccountExecutor) (ceiling : Z) (st : exec_state)
    (tr : history) :
  triple (escalate_env ceiling) (outbid_guard self ceiling) (escalate self st) tr (fun _ _ => True).
Proof.
  unfold escalate. wp_simpl. apply triple_call; [done|]. intros now _. wp_simpl.
  apply triple_call; [done|]. intros [handles|e] Henv; wp_simpl; [|done].
  set (tr1 := existT (PendingHandles _) _ :: _).
  apply triple_bind. eapply triple_mono; [|apply (triple_for_each _ _ _ _ _ _
    (fun tr _ => pending_reads tr = pending_reads tr1))].
  - done.
  - done.
  - intros h tr' s' Hin Htr. destruct (is_stuck _ now h); [|done].
    apply triple_bind. eapply triple_mono; [|apply bump_outbids].
    + intros tr'' [r s''] E. cbn [triple]. by rewrite E, Htr.
    + unfold in_flight. rewrite Htr. simpl. eauto.
    + intros f. by apply (Henv handles h f).
Qed.

(** ** Routes *)

(** A bump leaves a private route only when that route said so. *)
Lemma escalated_opts_public h :
  (so_route (escalated_opts h) = Public <->
   so_route (th_submission h) = Public \/
   exists route cycles, so_route (th_submission h) = Private route /\
     escalation route = PublicAfter cycles /\ cycles <= Z.of_nat (length (th_broadcasts h))) /\
  (so_route (escalated_opts h) <> Public -> escalated_opts h = th_submission h).
Proof.
  split; [|unfold escalated_opts; repeat case_match; done].
  unfold escalated_opts. destruct (so_route (th_submission h)) as [|route] eqn:Hr; [rewrite Hr; split; auto|].
  destruct (escalation route) as [|cycles] eqn:He.
  - rewrite Hr. split; [done|]. intros [?|(r & c & [= <-] & ? & _)]; congruence.
  - destruct (cycles <=? _) eqn:Hc; bool_simpl; simpl.
    + split; [|done]. intros _. right. eauto.
    + rewrite Hr. split; [done|]. intros [?|(r & c & [= <-] & ? & ?)]; [done|].
      assert (c = cycles) by congruence. lia.
Qed.

(** The bytes are those of [h]: as stored, or just signed to replace them. *)
Definition bytes_of {A : Alloy} (tr : history) (h : TxHandle) (rlp : Bytes) : Prop :=
  rlp = th_signed h \/
  exists w tx ih ap now sig rest, signed_txs tr = (w, tx, ih, ap, now, Ok sig) :: rest /\
    replacement_of tr h tx /\ rlp = encoded_2718 tx sig.

(** Sent publicly, or on a private route whose broadcasts, the first send included, have
    reached the number it allows. *)
Definition may_be_public (h : TxHandle) : Prop :=
  so_route (th_submission h) = Public \/
  exists route cycles, so_route (th_submission h) = Private route /\
    escalation route = PublicAfter cycles /\ cycles <= Z.of_nat (length (th_broadcasts h)).

(** Whatever is broadcast are bytes of an in-flight handle; on the public route, of one
    allowed to be public, and otherwise on that handle's own route. *)
Definition route_guard {A : Alloy} (self : AccountExecutor) (tr : history) (p : port) : Prop :=
  match p with
  | Submit rlp o => exists h, in_flight self tr h /\ bytes_of tr h rlp /\
      (so_route o = Public -> may_be_public h) /\ (so_route o <> Public -> o = th_submission h)
  | _ => True
  end.

Lemma escalate_guard_route self {A : Alloy} tr p : escalate_guard self tr p -> route_guard self tr p.
Proof.
  destruct p; try done. simpl. intros (h & tx & ih & ap & now & sig & rest & Hin & _ & Hrep & Hs & -> & ->).
  exists h. split_and!; [done|by right; eauto 10|by intros ?%escalated_opts_public|by apply escalated_opts_public].
Qed.

Lemma recover_route {A : Alloy} self tr :
  triple any_response (route_guard self) (recover self) tr (fun _ _ => True).
Proof.
  unfold recover, map_err, try_bind. wp_simpl.
  apply triple_call; [done|]. intros [handles|e] _; wp_simpl; [|done].
  set (tr1 := existT (PendingHandles _) _ :: _).
  apply triple_bind. eapply triple_mono; [|apply (triple_for_each _ _ _ _ _ _
    (fun tr _ => pending_reads tr = pending_reads tr1))].
  - done.
  - done.
  - intros h tr' s' Hin Htr. destruct (recoverable h); [|done]. wp_simpl.
    apply triple_call; [|by simpl]. exists h. split_and!; [|by left|by left|done].
    unfold in_flight. rewrite Htr. simpl. eauto.
Qed.

(** Without refill a confirm cycle broadcasts nothing. *)
Lemma confirm_route {A : Alloy} self st tr :
  ex_refill self = None ->
  triple any_response (route_guard self) (confirm self st) tr (fun _ _ => True).
Proof.
  intros Hre.
  assert (Hset : forall h st tr, triple any_response (route_guard self) (on_settled self h st) tr (fun _ _ => True)).
  { intros h0 st0 tr0. unfold on_settled. by rewrite Hre. }
  unfold confirm, read_cycle.
  wp_auto ltac:(exact I); try done.
  apply triple_bind. eapply triple_mono; [|apply (triple_for_each _ _ _ _ _ _ (fun _ _ => True))]; [done..|].
  intros h tr' s' _ _. unfold advance_handle, poll_task, advance_on_chain. destruct (is_awaiting_relay h).
  - wp_auto ltac:(exact I); try done; apply Hset.
  - apply triple_bind. eapply triple_mono; [|by apply event_for_spec]. intros tr'' ev _. cbn beta.
    destruct (transition _ _ _ _); [|done]. wp_simpl. apply triple_call; [exact I|].
    intros r _. destruct (is_ok r && _); [apply Hset|done].
Qed.

(** C21: a private transaction does not leak.  Through a whole tick (recovery,
    confirmation, escalation) of an executor without refill, what is broadcast are the
    stored bytes of an in-flight handle or the replacement just signed for it, on that
    handle's own route, or publicly when the handle was sent publicly or its private route
    declared [PublicAfter n] and its broadcasts, the first send among them, have reached
    [n]; the bytes of a [StayPrivate] handle are never published. *)
Theorem tick_private_stays_private {A : Alloy} (self : AccountExecutor) (st : exec_state) (tr : history) :
  ex_refill self = None ->
  triple any_response (route_guard self) (tick self st) tr (fun _ _ => True).
Proof.
  intros Hre. unfold tick. apply triple_bind. eapply triple_mono; [|apply recover_route].
  intros tr1 [[]|e] _; [|done]. cbn beta iota.
  apply triple_bind. eapply triple_mono; [|by apply confirm_route].
  intros tr2 [[[]|e] st2] _; [|done]. cbn beta iota.
  eapply triple_guard_mono; [apply escalate_guard_route|]. apply escalate_guarded.
Qed.

Definition demo_stuck (opts : SubmissionOpts) (cancelled : bool) : TxHandle :=
  mkHandle 50 7 demo_intent (TxIntent_hash demo_intent) 0 Sent GasEnvelope_DEFAULT
    (encoded_2718 demo_tx (mkSignature 1 2 false)) [signed_hash demo_tx (mkSignature 1 2 false)]
    1000 cancelled opts None.

(** A healthy node and store with one stuck handle, at block 100. *)
Definition demo_exec_env (h : TxHandle) (p : port) : resp p :=
  match p return resp p with
  | PendingHandles _ => Ok [h]
  | BlockNumber => Ok 100
  | TxCount _ => Ok 0
  | FinalizedBlock => Ok None
  | ResetNonce _ _ => Ok tt
  | Receipt _ => Ok None
  | NowUnix => 2000
  | GasBump _ => Ok (mkEstimation 300 20)
  | Evaluate _ _ => Ok (Allow (mint (TxIntent_hash demo_intent) GasEnvelope_DEFAULT 3000))
  | SignTransaction _ _ _ _ _ => Ok (mkSignature 1 2 false)
  | Submit _ _ => Ok 5
  | PutHandle _ => Ok tt
  | q => offline q
  end.

Definition demo_private : SubmissionOpts := mkOpts (Private (Route_Protect (mev_blocker StayPrivate))).

Lemma tick_private_stays_private_witness :
  let x := run_env (demo_exec_env (demo_stuck demo_private false))
    (tick (AccountExecutor_new User 7) exec_state_new) in
  guarded (route_guard (AccountExecutor_new User 7)) (snd x) /\
  map (fun s => snd (fst s)) (submits (snd x)) = [demo_private; demo_private].
Proof.
  split; [|vm_compute; reflexivity].
  apply (run_env_triple (demo_exec_env (demo_stuck demo_private false)) any_response _ _
    (fun _ _ => True) (fun _ => I)
    (tick_private_stays_private (AccountExecutor_new User 7) exec_state_new [] eq_refl)).
Defined.

(** The writes in [new] are those of the lifecycle machine moving [h] on event [ev]. *)
Definition lifecycle_written (h : TxHandle) (cycle : Cycle) (ev : ChainEvent) (new : history) : Prop :=
  let s' := advance (th_status h) (mkCycle ev (cyc_view cycle) (cyc_finality cycle)) in
  if decide (s' = th_status h) then puts new = []
  else exists pr, head (rev (puts new)) = Some (set_status (settle_status (th_cancelled h) s') h, pr).

(** C22: one confirm step of a chain-tracked handle is one step of the pure lifecycle
    machine on what the node answered: the step first reads the receipts of the handle's
    broadcasts, newest first, and the canonical hash of the first receipt's block, which
    determine the event; the status it then writes is [advance] of the handle's status on
    that event in the cycle's view ([Dropped] standing for [Replaced] on a cancelled
    handle), written first, and nothing is written when the machine does not move. *)
Theorem advance_on_chain_is_lifecycle {A : Alloy} (self : AccountExecutor) (h : TxHandle)
    (cycle : Cycle) (st : exec_state) (tr : history) :
  triple any_response any_call (advance_on_chain self h cycle st) tr
    (fun tr' _ => exists ev reads new, tr' = new ++ reads ++ tr /\
       observed h (cyc_mined_nonce cycle) reads ev /\ Forall (fun e => chain_read e = true) reads /\
       lifecycle_written h cycle ev new).
Proof.
  unfold advance_on_chain. apply triple_bind. eapply triple_mono; [|by apply event_for_spec].
  intros tr1 ev (reads & -> & Hreads & Hev). cbn beta.
  destruct (transition _ ev _ _) as [next|] eqn:Ht; wp_simpl.
  - apply triple_call; [done|]. intros r _.
    eapply triple_mono; [|apply triple_extends, triple_any].
    intros tr' s' [_ (new & ->)].
    exists ev, reads, (new ++ [existT (PutHandle (set_status (settle_status (th_cancelled h) next) h)) r]).
    rewrite <- app_assoc. split_and!; [done..|]. unfold lifecycle_written, advance. simpl. rewrite Ht. simpl.
    rewrite decide_False by (by eapply transition_changes).
    exists r. unfold puts. by rewrite omap_app, rev_app_distr.
  - exists ev, reads, []. split_and!; [done..|]. unfold lifecycle_written, advance. simpl. rewrite Ht. simpl.
    by rewrite decide_True.
Qed.

(** A refill always goes out on the public route, whatever route the displaced
    transaction was sent on: even a [StayPrivate] intent is re-executed publicly. *)
Theorem refill_is_public {A : Alloy} (manager : TransactionManager) (h : TxHandle) (tr : history) :
  triple any_response
    (fun _ p => match p with Submit _ o => o = mkOpts Public | _ => True end)
    (refill_intent manager h) tr (fun _ _ => True).
Proof.
  unfold refill_intent, send, send_with. send_unfold. wp_auto ltac:(done); done.
Qed.

(** Escalation does not look at the cancelled flag: a stuck original that the user
    has cancelled is bumped like any other, and its replacement outbids the cancel. *)
Theorem cancelled_handle_is_bumped :
  let x := run_env (demo_exec_env (demo_stuck SubmissionOpts_default true))
    (escalate (AccountExecutor_new User 7) exec_state_new) in
  exists rlp h, submits (snd x) = [(rlp, SubmissionOpts_default, Ok 5)] /\
    puts (snd x) = [(h, Ok tt)] /\ th_cancelled h = true /\ th_signed h = rlp /\
    decode_fees rlp = Some (mkSignedFees (mkEstimation 300 20) 21000).
Proof. eexists _, _. split_and!; vm_compute; reflexivity. Qed.
