(* ===== verification/Submission.v ===== *)
(** * Submission: broadcast strategies and routing

    [src/src/adapters/submission/] ([Router], [PublicMempool], [PrivateMev]) and the
    HTTP triage of [src/src/adapters/http.rs].  reqwest, serde_json and the alloy
    transports behind each Protect URL are parameters; what a relay's answer is turned
    into is the code's own and is proved never to make a refusal look sent. *)
From S2P Require Import Prelude Effects Primitives Errors Ports TransactionManager.

(** [trait SubmissionStrategy]. *)
Record SubmissionStrategy : Type := mkStrategy {
  ss_submit : Bytes -> SubmissionOpts -> io (result TxHash SubmissionError);
  ss_supports_route : SubmissionRoute -> bool;
}.

(** ** Public mempool *)

Definition PublicMempool : SubmissionStrategy := {|
  ss_submit := fun signed_rlp _ => map_err Submission_Rpc (call (SendRaw signed_rlp));
  ss_supports_route := fun route => match route with Public => true | Private _ => false end;
|}.

(** ** Router *)

Definition Router_submit (public : SubmissionStrategy) (private : option SubmissionStrategy)
    (signed_rlp : Bytes) (opts : SubmissionOpts) : io (result TxHash SubmissionError) :=
  match so_route opts with
  | Public => ss_submit public signed_rlp opts
  | Private _ =>
      match private with
      | Some private => ss_submit private signed_rlp opts
      | None => Ret (Err (Submission_Route RelayNotConfigured))
      end
  end.

Definition Router_supports_route (private : option SubmissionStrategy) (route : SubmissionRoute) : bool :=
  match route with
  | Public => true
  | Private _ => match private with Some _ => true | None => false end
  end.

Definition Router (public : SubmissionStrategy) (private : option SubmissionStrategy)
  : SubmissionStrategy := {|
  ss_submit := Router_submit public private;
  ss_supports_route := Router_supports_route private;
|}.

(** ** HTTP triage ([http.rs]) *)

Inductive HttpClass : Type :=
| Unauthorized
| Transient
| Body.

Definition is_server_error (status : Z) : bool := (500 <=? status) && (status <? 600).

Definition classify_status (status : Z) : HttpClass :=
  if (status =? 401) || (status =? 403) then Unauthorized
  else if is_server_error status || (status =? 429) then Transient
  else Body.

Lemma classify_status_unauthorized status :
  classify_status status = Unauthorized <-> status = 401 \/ status = 403.
Proof.
  unfold classify_status. destruct (status =? 401) eqn:H1; [bool_simpl; simpl; tauto|].
  destruct (status =? 403) eqn:H2; [bool_simpl; simpl; tauto|]. simpl. bool_simpl.
  destruct (is_server_error status || (status =? 429)); split; try done; lia.
Qed.

(** [chars().take(n)] on UTF-8 text: every byte but a continuation byte starts a char. *)
Definition is_continuation (c : Ascii.ascii) : bool :=
  let n := Ascii.nat_of_ascii c in (Nat.leb 128 n && Nat.ltb n 192)%bool.
Fixpoint take_chars (n : nat) (text : string) : string :=
  match text with
  | EmptyString => EmptyString
  | String.String c rest =>
      if is_continuation c then String.String c (take_chars n rest)
      else match n with
           | O => EmptyString
           | S n' => String.String c (take_chars n' rest)
           end
  end.

Definition clip (text : string) : string := take_chars 200 text.

(** ** Private relays ([private_mev.rs]) *)

Definition MEV_BLOCKER_URL : Url := "https://rpc.mevblocker.io".
Definition BLOXROUTE_URL : Url := "https://protect.blxrbdn.com".

(** [protect_url]: the two built-in URLs are valid literals. *)
Definition protect_url (relay : ProtectRelay) : result Url SubmissionError :=
  match relay with
  | MevBlocker => Ok MEV_BLOCKER_URL
  | Bloxroute => Ok BLOXROUTE_URL
  | Custom url => Ok url
  end.

Definition hint_list (route : Flashbots) : list string :=
  let h := fb_hints route in
  omap (fun '(name, on) => if (on : bool) then Some name else None)
    [("calldata", hint_calldata h); ("logs", hint_logs h);
     ("function_selector", hint_function_selector h); ("contract_address", hint_contract_address h)].

Definition flashbots_preferences (route : Flashbots) : option (bool * option (list string)) :=
  let hints := hint_list route in
  let empty := match hints with [] => true | _ => false end in
  if fb_fast route || negb empty
  then Some (fb_fast route, if negb empty then Some hints else None)
  else None.

(** A JSON-RPC response: [result] and [error.message]. *)
Record JsonRpcResponse : Type := mkJsonRpcResponse {
  jr_result : option TxHash;
  jr_error : option string;
}.

Definition rejected (message : string) : SubmissionError := RelayRejected ("flashbots: " ++ message)%string.

(** A connection error or timeout: the transaction may have reached the relay. *)
Definition net_err (e : string) : SubmissionError := Submission_Rpc (RpcError_Call e true).

Section PrivateMev.
(** serde_json's reading of a response body, [StatusCode]'s [Display], the identity
    key's signature over a request body, and whether a transport can be built. *)
Context (parse_response : string -> option JsonRpcResponse).
Context (status_display : Z -> string).
Context (identity_sign : Bytes -> result string string).
Context (transport_url : Url -> result unit string).
(** The serialized [eth_sendPrivateTransaction] request. *)
Context (request_body : option Z -> option (bool * option (list string)) -> Bytes -> Bytes).

Definition classify_flashbots (status : Z) (body : string) : result TxHash SubmissionError :=
  match classify_status status with
  | Unauthorized => Err (RelayAuth ("flashbots: " ++ clip body))
  | Transient =>
      Err (Submission_Rpc (RpcError_Call ("flashbots " ++ status_display status ++ ": " ++ clip body) true))
  | Body =>
      match parse_response body with
      | None => Err (rejected (clip body))
      | Some resp =>
          match jr_error resp with
          | Some message =>
              let as_rpc := Submission_Rpc (RpcError_Call message false) in
              if is_already_accepted as_rpc || is_underpriced as_rpc then Err as_rpc
              else Err (rejected message)
          | None =>
              ok_or (jr_result resp) (rejected ("no result in response: " ++ clip body))
          end
      end
  end%string.

Definition private_tx_window (route : Flashbots) : io (result (option Z) SubmissionError) :=
  match fb_block_window route with
  | Some window =>
      let? current := map_err Submission_Rpc (call BlockNumber) in
      Ret (Ok (Some (saturating_add u64_max current window)))
  | None => Ret (Ok None)
  end.

Definition send_flashbots (rlp : Bytes) (route : Flashbots) : io (result TxHash SubmissionError) :=
  let? max_block_number := private_tx_window route in
  let preferences := flashbots_preferences route in
  match identity_sign (request_body max_block_number preferences rlp) with
  | Err e => Ret (Err (RelayAuth ("flashbots: " ++ e)%string))
  | Ok _ =>
      let? resp := map_err net_err (call (FlashbotsPost max_block_number preferences rlp)) in
      Ret (classify_flashbots (http_status resp) (http_body resp))
  end.

(** The per-URL transport: built once, then reused from the cache. *)
Definition protect_transport (relay : ProtectRelay) (cache : gset Url)
  : result Url SubmissionError * gset Url :=
  match protect_url relay with
  | Err e => (Err e, cache)
  | Ok url =>
      if decide (url ∈ cache) then (Ok url, cache)
      else
        match transport_url url with
        | Err e => (Err (RelayRejected ("relay transport: " ++ e)%string), cache)
        | Ok _ => (Ok url, {[url]} ∪ cache)
        end
  end.

Definition PrivateMev_submit (cache : gset Url) (signed_rlp : Bytes) (opts : SubmissionOpts)
  : io (result TxHash SubmissionError * gset Url) :=
  match so_route opts with
  | Public => Ret (Err (Submission_Route RelayNotConfigured), cache)
  | Private (Route_Flashbots f) => let* r := send_flashbots signed_rlp f in Ret (r, cache)
  | Private (Route_Protect p) =>
      let '(transport, cache) := protect_transport (protect_relay p) cache in
      match transport with
      | Err e => Ret (Err e, cache)
      | Ok url =>
          let* r := map_err Submission_Rpc (call (SendRawTo url signed_rlp)) in Ret (r, cache)
      end
  end.

Definition PrivateMev (cache : gset Url) : SubmissionStrategy := {|
  ss_submit := fun rlp opts => let* (r, _) := PrivateMev_submit cache rlp opts in Ret r;
  ss_supports_route := fun route => match route with Private _ => true | Public => false end;
|}.

(** ** Properties *)

Lemma classify_flashbots_not_route status body :
  classify_flashbots status body <> Err (Submission_Route RelayNotConfigured).
Proof.
  unfold classify_flashbots. destruct (classify_status status); [done..|].
  destruct (parse_response body) as [resp|]; [|done]. destruct (jr_error resp); [|by destruct (jr_result resp)].
  by destruct (_ || _).
Qed.

(** The calls a strategy may make for one broadcast: the public mempool only on the
    public route, a relay only on its own private route, always with the signed bytes
    given. *)
Definition route_calls (rlp : Bytes) (opts : SubmissionOpts) (_ : history) (p : port) : Prop :=
  match p with
  | SendRaw b => so_route opts = Public /\ b = rlp
  | SendRawTo url b => b = rlp /\ exists pr, so_route opts = Private (Route_Protect pr) /\
      protect_url (protect_relay pr) = Ok url
  | FlashbotsPost _ prefs b => b = rlp /\ exists f, so_route opts = Private (Route_Flashbots f) /\
      prefs = flashbots_preferences f
  | BlockNumber => exists f w, so_route opts = Private (Route_Flashbots f) /\ fb_block_window f = Some w
  | _ => False
  end.

Lemma router_calls (relay : option (gset Url)) (rlp : Bytes) (opts : SubmissionOpts)
    (tr : history) :
  let router := Router PublicMempool (PrivateMev <$> relay) in
  triple any_response (route_calls rlp opts) (ss_submit router rlp opts) tr (fun tr' r =>
    if ss_supports_route router (so_route opts)
    then r <> Err (Submission_Route RelayNotConfigured)
    else r = Err (Submission_Route RelayNotConfigured) /\ tr' = tr).
Proof.
  cbn [ss_submit ss_supports_route Router]. unfold Router_submit, Router_supports_route.
  destruct (so_route opts) as [|[f|p]] eqn:Hr; cbn [ss_submit PublicMempool].
  - unfold map_err. wp_auto ltac:(done); done.
  - destruct relay as [cache|]; cbn [fmap option_fmap option_map ss_submit PrivateMev]; [|done].
    unfold PrivateMev_submit, send_flashbots, private_tx_window, map_err, try_bind. rewrite Hr.
    wp_auto ltac:(simpl; rewrite ?Hr; fill_in; done); try done.
    all: apply classify_flashbots_not_route.
  - destruct relay as [cache|]; cbn [fmap option_fmap option_map ss_submit PrivateMev]; [|done].
    unfold PrivateMev_submit, protect_transport, map_err. rewrite Hr.
    wp_auto ltac:(simpl; rewrite ?Hr; fill_in; done); try done.
    by destruct (protect_relay p).
Qed.

(** The wired router never sends a private transaction to the public mempool.
    For every answer of the node and the relays it makes only the calls of the
    requested route, with the bytes given; a route it does not support is refused
    without a call, and one it does support is never refused as unconfigured. *)
Theorem router_respects_route (relay : option (gset Url)) (rlp : Bytes) (opts : SubmissionOpts)
    (tr : history) :
  let router := Router PublicMempool (PrivateMev <$> relay) in
  triple any_response (route_calls rlp opts) (ss_submit router rlp opts) tr (fun tr' r =>
    if ss_supports_route router (so_route opts)
    then r <> Err (Submission_Route RelayNotConfigured)
    else r = Err (Submission_Route RelayNotConfigured) /\ tr' = tr).
Proof. apply router_calls. Qed.

(** A relay's refusal is never mistaken for a broadcast.  The Flashbots answer
    counts as sent (a hash, or an error the pipeline assumes in flight) only for a 5xx
    or 429 status, a body reporting the transaction already known, or a body carrying a
    hash and no error; rejected credentials and any other body are terminal. *)
Theorem flashbots_refusal_never_sent (status : Z) (body : string) :
  match classify_flashbots status body with
  | Ok hash => classify_status status = Body /\
      exists resp, parse_response body = Some resp /\ jr_error resp = None /\ jr_result resp = Some hash
  | Err e =>
      (maybe_sent (Err e) = true ->
         (500 <= status < 600 \/ status = 429) \/
         exists resp m, parse_response body = Some resp /\ jr_error resp = Some m /\
           is_already_accepted (Submission_Rpc (RpcError_Call m false)) = true) /\
      (status = 401 \/ status = 403 -> is_relay_terminal e = true) /\
      (is_relay_terminal e = true -> maybe_sent (Err e) = false)
  end.
Proof.
  unfold classify_flashbots, classify_status, is_server_error.
  destruct ((status =? 401) || (status =? 403)) eqn:Hu.
  { simpl. split_and!; done. }
  destruct ((500 <=? status) && (status <? 600) || (status =? 429)) eqn:Ht.
  { simpl. split_and!; [|bool_simpl; lia|done]. intros _. left.
    apply orb_true_iff in Ht as [Ht|Ht]; bool_simpl; lia. }
  bool_simpl. destruct (parse_response body) as [resp|] eqn:Hp; [|simpl; split_and!; done || lia].
  destruct (jr_error resp) as [m|] eqn:He.
  - destruct (is_already_accepted _ || is_underpriced _) eqn:Ha; [|simpl; split_and!; done || lia].
    split_and!; [|lia|done]. cbn [maybe_sent is_transient orb]. intros Hacc. right. eauto.
  - destruct (jr_result resp) as [hash|] eqn:Hres; simpl; [eauto|split_and!; done || lia].
Qed.
End PrivateMev.
