(* ===== verification/Store.v ===== *)
(** * Store: the durable state behind the pipeline

    [src/src/core/deps/state_store.rs] (the port), and its three backends
    [src/src/adapters/store/]: the in-memory store is the reference the port
    documents; the redb and Postgres stores hold encoded tables (with redb's
    secondary index of pending handles, and Postgres's 64-bit signed columns) and are
    proved to simulate it.  serde_json is a parameter with its laws (a [serde_json::Value],
    which Postgres stores, holds no integer above [u64::MAX]); redb and Postgres
    transactions are atomic, and any call may fail without effect. *)
From S2P Require Import Prelude Effects Primitives Errors Ports Nonce NoncePool.

(** ** The port as a record of operations

    The first argument of an operation is the failure the backend has in this call,
    if any: an I/O error or a lost blocking task. *)
Record StateStore (S : Type) : Type := mkStateStore {
  load_nonce_state : option StateStoreError -> NonceScope -> S ->
    result (Versioned NonceState) StateStoreError;
  cas_nonce_state : option StateStoreError -> NonceScope -> Z -> NonceState -> FenceToken -> S ->
    result bool StateStoreError * S;
  put_handle : option StateStoreError -> TxHandle -> S -> result unit StateStoreError * S;
  pending_handles : option StateStoreError -> Address -> S -> result (list TxHandle) StateStoreError;
  get_handle : option StateStoreError -> HandleId -> S -> result (option TxHandle) StateStoreError;
}.
Arguments load_nonce_state {S} _ _ _ _.
Arguments cas_nonce_state {S} _ _ _ _ _ _ _.
Arguments put_handle {S} _ _ _ _.
Arguments pending_handles {S} _ _ _ _.
Arguments get_handle {S} _ _ _ _.

(** [impl Default for Versioned<NonceState>]. *)
Definition Versioned_default : Versioned NonceState := mkVersioned NonceState_default 0.

(** [FenceToken]'s derived [PartialOrd]. *)
Definition fence_ltb (a b : FenceToken) : bool := fence_u64 a <? fence_u64 b.

(** ** In memory ([memory.rs]) *)

Record InMemoryStateStore : Type := mkMemory {
  mem_nonces : gmap NonceScope (Versioned NonceState * FenceToken);
  mem_handles : gmap HandleId TxHandle;
}.
Definition InMemoryStateStore_default : InMemoryStateStore := mkMemory ∅ ∅.

Definition memory_load_nonce_state (scope : NonceScope) (m : InMemoryStateStore)
  : result (Versioned NonceState) StateStoreError :=
  Ok (default Versioned_default (fst <$> mem_nonces m !! scope)).

Definition memory_cas_nonce_state (scope : NonceScope) (expected_version : Z) (state : NonceState)
    (fence : FenceToken) (m : InMemoryStateStore) : result bool StateStoreError * InMemoryStateStore :=
  let '(cur_version, cur_fence) :=
    match mem_nonces m !! scope with
    | Some (v, f) => (v_version v, f)
    | None => (0, SINGLE_WRITER)
    end in
  if fence_ltb fence cur_fence then (Err Fenced, m)
  else if negb (cur_version =? expected_version) then (Ok false, m)
  else
    let entry := (mkVersioned state (wrapping_add u64_max expected_version 1), fence) in
    (Ok true, mkMemory (<[scope := entry]> (mem_nonces m)) (mem_handles m)).

Definition memory_put_handle (handle : TxHandle) (m : InMemoryStateStore)
  : result unit StateStoreError * InMemoryStateStore :=
  (Ok tt, mkMemory (mem_nonces m) (<[th_id handle := handle]> (mem_handles m))).

Definition is_pending_of (account : Address) (h : TxHandle) : bool :=
  (th_account h =? account) && negb (is_terminal (th_status h)).

Definition memory_pending_handles (account : Address) (m : InMemoryStateStore)
  : result (list TxHandle) StateStoreError :=
  Ok (filter (fun h => is_pending_of account h = true) (map snd (map_to_list (mem_handles m)))).

Definition memory_handle (id : HandleId) (m : InMemoryStateStore)
  : result (option TxHandle) StateStoreError :=
  Ok (mem_handles m !! id).

(** The in-memory store never fails. *)
Definition memory_store : StateStore InMemoryStateStore := {|
  load_nonce_state := fun _ => memory_load_nonce_state;
  cas_nonce_state := fun _ => memory_cas_nonce_state;
  put_handle := fun _ => memory_put_handle;
  pending_handles := fun _ => memory_pending_handles;
  get_handle := fun _ => memory_handle;
|}.

(** ** serde_json, as a parameter *)

Class Serde : Type := {
  nonce_to_vec : Z * FenceToken * NonceState -> result Bytes string;
  nonce_from_slice : Bytes -> result (Z * FenceToken * NonceState) string;
  state_to_value : NonceState -> result Bytes string;
  state_from_value : Bytes -> result NonceState string;
  handle_to_vec : TxHandle -> result Bytes string;
  handle_from_slice : Bytes -> result TxHandle string;
  handle_to_value : TxHandle -> result Bytes string;
  handle_from_value : Bytes -> result TxHandle string;
}.

(** The [u128]s of a handle, its fee caps, fit the widest integer of a
    [serde_json::Value] (without the crate's [arbitrary_precision] feature). *)
Definition caps_u64 (h : TxHandle) : bool :=
  (max_fee_cap (th_envelope h) <=? u64_max) && (max_priority_cap (th_envelope h) <=? u64_max).

(** What a type's derived [Serialize] wrote, its derived [Deserialize] reads back; text
    holds every [u128], but [to_value] fails on one above [u64::MAX]. *)
Class SerdeLaws (S : Serde) : Prop := {
  nonce_roundtrip : forall x, exists b, nonce_to_vec x = Ok b /\ nonce_from_slice b = Ok x;
  state_roundtrip : forall x, exists b, state_to_value x = Ok b /\ state_from_value b = Ok x;
  handle_roundtrip : forall x, exists b, handle_to_vec x = Ok b /\ handle_from_slice b = Ok x;
  handle_value_roundtrip : forall x, caps_u64 x = true ->
    exists b, handle_to_value x = Ok b /\ handle_from_value b = Ok x;
  handle_value_wide : forall x, caps_u64 x = false -> exists e, handle_to_value x = Err e;
}.

(** ** Keys *)

(** [format!("{account:x}")]: the 20 address bytes in lower-case hex. *)
Definition account_key (account : Address) : string := hex_of_bytes (Z_to_be 20 account).

(** [HandleId::as_bytes]: the 32 bytes of the id. *)
Definition id_bytes (id : HandleId) : Bytes := Z_to_be 32 id.

Definition ID_LO : Bytes := replicate 32 Byte.x00.
Definition ID_HI : Bytes := replicate 32 Byte.xff.

(** The lexicographic order of redb's byte keys. *)
Fixpoint bytes_leb (a b : Bytes) : bool :=
  match a, b with
  | [], _ => true
  | _ :: _, [] => false
  | x :: a', y :: b' =>
      (byte_to_Z x <? byte_to_Z y) || ((byte_to_Z x =? byte_to_Z y) && bytes_leb a' b')
  end.

(** ** redb ([redb.rs]) *)

Record RedbStateStore : Type := mkRedb {
  NONCE : gmap string Bytes;
  TX : gmap Bytes Bytes;
  TX_PENDING : gset (string * Bytes);
}.
Definition redb_open : RedbStateStore := mkRedb ∅ ∅ ∅.

Section Redb.
Context {J : Serde}.

(** [spawn_blocking] over the shared database: a failed transaction is aborted. *)
Definition redb_run {T} (fault : option StateStoreError) (db : RedbStateStore)
    (f : RedbStateStore -> result (T * RedbStateStore) StateStoreError)
  : result T StateStoreError * RedbStateStore :=
  match fault with
  | Some e => (Err e, db)
  | None => match f db with Ok (t, db') => (Ok t, db') | Err e => (Err e, db) end
  end.

Definition redb_load_nonce_state (fault : option StateStoreError) (scope : NonceScope)
    (db : RedbStateStore) : result (Versioned NonceState) StateStoreError :=
  let key := account_key (scope_account scope) in
  fst (redb_run fault db (fun db =>
    match NONCE db !! key with
    | Some v =>
        match nonce_from_slice v with
        | Ok (version, _, value) => Ok (mkVersioned value version, db)
        | Err e => Err (Serialization e)
        end
    | None => Ok (Versioned_default, db)
    end)).

Definition redb_cas_nonce_state (fault : option StateStoreError) (scope : NonceScope)
    (expected_version : Z) (state : NonceState) (fence : FenceToken) (db : RedbStateStore)
  : result bool StateStoreError * RedbStateStore :=
  let key := account_key (scope_account scope) in
  redb_run fault db (fun db =>
    match
      match NONCE db !! key with
      | Some v =>
          match nonce_from_slice v with
          | Ok (ver, f, _) => Ok (ver, f)
          | Err e => Err (Serialization e)
          end
      | None => Ok (0, SINGLE_WRITER)
      end
    with
    | Err e => Err e
    | Ok (cur_version, cur_fence) =>
        if fence_ltb fence cur_fence then Err Fenced
        else if negb (cur_version =? expected_version) then Ok (false, db)
        else
          match nonce_to_vec (wrapping_add u64_max expected_version 1, fence, state) with
          | Err e => Err (Serialization e)
          | Ok bytes => Ok (true, mkRedb (<[key := bytes]> (NONCE db)) (TX db) (TX_PENDING db))
          end
    end).

Definition redb_put_handle (fault : option StateStoreError) (handle : TxHandle) (db : RedbStateStore)
  : result unit StateStoreError * RedbStateStore :=
  let id := id_bytes (th_id handle) in
  let account := account_key (th_account handle) in
  let terminal := is_terminal (th_status handle) in
  match handle_to_vec handle with
  | Err e => (Err (Serialization e), db)
  | Ok bytes =>
      redb_run fault db (fun db =>
        let k := (account, id) in
        Ok (tt, mkRedb (NONCE db) (<[id := bytes]> (TX db))
                  (if terminal then TX_PENDING db ∖ {[k]} else {[k]} ∪ TX_PENDING db)))
  end.

(** The rows of one account's range scan, then each handle read from the WAL. *)
Definition redb_scan (key : string) (db : RedbStateStore) : list Bytes :=
  map snd (filter (fun k => fst k = key /\ (bytes_leb ID_LO (snd k) && bytes_leb (snd k) ID_HI) = true)
    (elements (TX_PENDING db))).

Fixpoint redb_read_all (db : RedbStateStore) (ids : list Bytes)
  : result (list TxHandle) StateStoreError :=
  match ids with
  | [] => Ok []
  | id :: ids' =>
      match TX db !! id with
      | None => redb_read_all db ids'
      | Some v =>
          match handle_from_slice v with
          | Err e => Err (Serialization e)
          | Ok h =>
              match redb_read_all db ids' with
              | Ok hs => Ok (h :: hs)
              | Err e => Err e
              end
          end
      end
  end.

Definition redb_pending_handles (fault : option StateStoreError) (account : Address)
    (db : RedbStateStore) : result (list TxHandle) StateStoreError :=
  let key := account_key account in
  fst (redb_run fault db (fun db =>
    match redb_read_all db (redb_scan key db) with
    | Ok out => Ok (out, db)
    | Err e => Err e
    end)).

Definition redb_handle (fault : option StateStoreError) (id : HandleId) (db : RedbStateStore)
  : result (option TxHandle) StateStoreError :=
  fst (redb_run fault db (fun db =>
    match TX db !! id_bytes id with
    | Some v =>
        match handle_from_slice v with
        | Ok h => Ok (Some h, db)
        | Err e => Err (Serialization e)
        end
    | None => Ok (None, db)
    end)).

Definition redb_store : StateStore RedbStateStore := {|
  load_nonce_state := redb_load_nonce_state;
  cas_nonce_state := redb_cas_nonce_state;
  put_handle := redb_put_handle;
  pending_handles := redb_pending_handles;
  get_handle := redb_handle;
|}.
End Redb.

(** ** Postgres ([postgres.rs]) *)

(** [as i64] and [as u64]. *)
Definition as_i64 (n : Z) : Z := (n + 2 ^ 63) mod 2 ^ 64 - 2 ^ 63.
Definition i64_as_u64 (n : Z) : Z := n mod 2 ^ 64.
Definition fence_to_i64 (fence : FenceToken) : Z := as_i64 (as_u64 fence).

Record nonce_row : Type := mkNonceRow { nr_version : Z; nr_fence : Z; nr_state : Bytes }.
Record handle_row : Type := mkHandleRow { hr_account : string; hr_terminal : bool; hr_handle : Bytes }.

Record PostgresStateStore : Type := mkPostgres {
  nonce_state_table : gmap string nonce_row;
  tx_handles : gmap Bytes handle_row;
}.
Definition postgres_connect : PostgresStateStore := mkPostgres ∅ ∅.

Section Postgres.
Context {J : Serde}.

Definition postgres_load_nonce_state (fault : option StateStoreError) (scope : NonceScope)
    (db : PostgresStateStore) : result (Versioned NonceState) StateStoreError :=
  match fault with
  | Some e => Err e
  | None =>
      match nonce_state_table db !! account_key (scope_account scope) with
      | Some r =>
          let version := i64_as_u64 (nr_version r) in
          match state_from_value (nr_state r) with
          | Ok value => Ok (mkVersioned value version)
          | Err e => Err (Serialization e)
          end
      | None => Ok Versioned_default
      end
  end.

Definition postgres_cas_nonce_state (fault : option StateStoreError) (scope : NonceScope)
    (expected_version : Z) (state : NonceState) (fence : FenceToken) (db : PostgresStateStore)
  : result bool StateStoreError * PostgresStateStore :=
  let account := account_key (scope_account scope) in
  let fence_i := fence_to_i64 fence in
  match fault with
  | Some e => (Err e, db)
  | None =>
      let '(cur_version, cur_fence) :=
        match nonce_state_table db !! account with
        | Some r => (nr_version r, nr_fence r)
        | None => (0, fence_to_i64 SINGLE_WRITER)
        end in
      if fence_i <? cur_fence then (Err Fenced, db)
      else if negb (cur_version =? as_i64 expected_version) then (Ok false, db)
      else
        match state_to_value state with
        | Err e => (Err (Serialization e), db)
        | Ok json =>
            let row := mkNonceRow (as_i64 (as_i64 expected_version + 1)) fence_i json in
            (Ok true, mkPostgres (<[account := row]> (nonce_state_table db)) (tx_handles db))
        end
  end.

Definition postgres_put_handle (fault : option StateStoreError) (handle : TxHandle)
    (db : PostgresStateStore) : result unit StateStoreError * PostgresStateStore :=
  match handle_to_value handle with
  | Err e => (Err (Serialization e), db)
  | Ok json =>
      match fault with
      | Some e => (Err e, db)
      | None =>
          let row := mkHandleRow (account_key (th_account handle))
                       (is_terminal (th_status handle)) json in
          (Ok tt, mkPostgres (nonce_state_table db)
                    (<[id_bytes (th_id handle) := row]> (tx_handles db)))
      end
  end.

Fixpoint postgres_decode_all (rows : list handle_row) : result (list TxHandle) StateStoreError :=
  match rows with
  | [] => Ok []
  | r :: rows' =>
      match handle_from_value (hr_handle r) with
      | Err e => Err (Serialization e)
      | Ok h =>
          match postgres_decode_all rows' with
          | Ok hs => Ok (h :: hs)
          | Err e => Err e
          end
      end
  end.

Definition postgres_pending_handles (fault : option StateStoreError) (account : Address)
    (db : PostgresStateStore) : result (list TxHandle) StateStoreError :=
  match fault with
  | Some e => Err e
  | None =>
      postgres_decode_all
        (filter (fun r => hr_account r = account_key account /\ hr_terminal r = false)
           (map snd (map_to_list (tx_handles db))))
  end.

Definition postgres_handle (fault : option StateStoreError) (id : HandleId) (db : PostgresStateStore)
  : result (option TxHandle) StateStoreError :=
  match fault with
  | Some e => Err e
  | None =>
      match tx_handles db !! id_bytes id with
      | Some r =>
          match handle_from_value (hr_handle r) with
          | Ok h => Ok (Some h)
          | Err e => Err (Serialization e)
          end
      | None => Ok None
      end
  end.

(** [clear_account]: one [DELETE] per table, each of which may fail. *)
Definition postgres_clear_account (fault1 fault2 : option StateStoreError) (account : Address)
    (db : PostgresStateStore) : result unit StateStoreError * PostgresStateStore :=
  match fault1 with
  | Some e => (Err e, db)
  | None =>
      let db1 := mkPostgres (delete (account_key account) (nonce_state_table db)) (tx_handles db) in
      match fault2 with
      | Some e => (Err e, db1)
      | None =>
          (Ok tt, mkPostgres (nonce_state_table db1)
                    (filter (fun kr => hr_account (snd kr) <> account_key account) (tx_handles db1)))
      end
  end.

Definition postgres_store : StateStore PostgresStateStore := {|
  load_nonce_state := postgres_load_nonce_state;
  cas_nonce_state := postgres_cas_nonce_state;
  put_handle := postgres_put_handle;
  pending_handles := postgres_pending_handles;
  get_handle := postgres_handle;
|}.
End Postgres.
