(* ===== verification/ModelSerde.v ===== *)
(** * ModelSerde: a concrete instance of the serde_json parameter

    Shows that the round-trip laws the durable stores rely on can hold: the code is
    the injective binary code of [ModelAlloy] on the stored records. *)
From S2P Require Import Prelude Primitives ModelAlloy Errors Ports Store.

#[export] Instance FenceToken_eq_dec : EqDecision FenceToken.
Proof. solve_decision. Defined.
#[export] Instance FenceToken_countable : Countable FenceToken.
Proof. by refine (inj_countable' fence_u64 mkFence _); intros []. Defined.
#[export] Instance NonceState_eq_dec : EqDecision NonceState.
Proof. solve_decision. Defined.
#[export] Instance NonceState_countable : Countable NonceState.
Proof.
  refine (inj_countable' (fun s => (ns_next s, ns_free s)) (fun t => mkNonceState (fst t) (snd t)) _).
  by intros [].
Defined.
#[export] Instance TxStatus_countable : Countable TxStatus.
Proof.
  refine (inj_countable'
    (fun s => match s with
      | Pending => (0, 0, 0, EmptyString) | Sent => (1, 0, 0, EmptyString)
      | Mined b h => (2, b, h, EmptyString) | Replacing b => (3, b, 0, EmptyString)
      | Confirmed b => (4, b, 0, EmptyString) | Failed r => (5, 0, 0, r)
      | Replaced => (6, 0, 0, EmptyString) | Dropped => (7, 0, 0, EmptyString) end)
    (fun t => let '(k, b, h, r) := t in
      match k with
      | 0 => Pending | 1 => Sent | 2 => Mined b h | 3 => Replacing b
      | 4 => Confirmed b | 5 => Failed r | 6 => Replaced | _ => Dropped end) _).
  by intros [].
Defined.
#[export] Instance Escalation_countable : Countable Escalation.
Proof.
  refine (inj_countable' (fun e => match e with StayPrivate => None | PublicAfter n => Some n end)
    (fun o => match o with None => StayPrivate | Some n => PublicAfter n end) _). by intros [].
Defined.
#[export] Instance Hints_countable : Countable Hints.
Proof.
  refine (inj_countable'
    (fun h => (hint_calldata h, hint_logs h, hint_function_selector h, hint_contract_address h))
    (fun t => let '(a, b, c, d) := t in mkHints a b c d) _). by intros [].
Defined.
#[export] Instance Flashbots_countable : Countable Flashbots.
Proof.
  refine (inj_countable' (fun f => (fb_escalation f, fb_block_window f, fb_fast f, fb_hints f))
    (fun t => let '(a, b, c, d) := t in mkFlashbots a b c d) _). by intros [].
Defined.
#[export] Instance ProtectRelay_countable : Countable ProtectRelay.
Proof.
  refine (inj_countable'
    (fun r => match r with MevBlocker => inl false | Bloxroute => inl true | Custom u => inr u end)
    (fun t => match t with inl false => MevBlocker | inl true => Bloxroute | inr u => Custom u end) _).
  by intros [].
Defined.
#[export] Instance Protect_countable : Countable Protect.
Proof.
  refine (inj_countable' (fun p => (protect_relay p, protect_escalation p))
    (fun t => mkProtect (fst t) (snd t)) _). by intros [].
Defined.
#[export] Instance PrivateRoute_countable : Countable PrivateRoute.
Proof.
  refine (inj_countable' (fun r => match r with Route_Flashbots f => inl f | Route_Protect p => inr p end)
    (fun t => match t with inl f => Route_Flashbots f | inr p => Route_Protect p end) _). by intros [].
Defined.
#[export] Instance SubmissionRoute_countable : Countable SubmissionRoute.
Proof.
  refine (inj_countable' (fun r => match r with Public => None | Private p => Some p end)
    (fun o => match o with None => Public | Some p => Private p end) _). by intros [].
Defined.
#[export] Instance SubmissionOpts_countable : Countable SubmissionOpts.
Proof. by refine (inj_countable' so_route mkOpts _); intros []. Defined.
#[export] Instance TaskId_countable : Countable TaskId.
Proof. by refine (inj_countable' task_str mkTaskId _); intros []. Defined.
#[export] Instance MetaContext_countable : Countable MetaContext.
Proof.
  refine (inj_countable' (fun m => (mc_forwarder m, mc_signer m, mc_nonce m, mc_task m))
    (fun t => let '(a, b, c, d) := t in mkMeta a b c d) _). by intros [].
Defined.
#[export] Instance GasEnvelope_countable : Countable GasEnvelope.
Proof.
  refine (inj_countable' (fun e => (max_fee_cap e, max_priority_cap e))
    (fun t => mkEnvelope (fst t) (snd t)) _). by intros [].
Defined.
#[export] Instance TxHandle_countable : Countable TxHandle.
Proof.
  refine (inj_countable'
    (fun h => (th_id h, th_account h, th_intent h, th_intent_hash h, th_nonce h, th_status h,
       (th_envelope h, th_signed h, th_broadcasts h, th_last_broadcast_at h, th_cancelled h,
        th_submission h, th_meta h)))
    (fun t => let '(a, b, c, d, e, f, (g, h, i, j, k, l, m)) := t in
       mkHandle a b c d e f g h i j k l m) _). by intros [].
Defined.

Definition from_code {T} `{Countable T} (b : Bytes) : result T string :=
  ok_or (uncode b) "corrupt record".

#[export] Instance model_serde : Serde := {|
  nonce_to_vec := fun x => Ok (code x);
  nonce_from_slice := from_code;
  state_to_value := fun x => Ok (code x);
  state_from_value := from_code;
  handle_to_vec := fun x => Ok (code x);
  handle_from_slice := from_code;
  handle_to_value := fun x => if caps_u64 x then Ok (code x) else Err "number out of range";
  handle_from_value := from_code;
|}.

Lemma from_code_code {T} `{Countable T} (x : T) : from_code (code x) = Ok x.
Proof. unfold from_code. by rewrite uncode_code. Qed.

#[export] Instance model_serde_laws : SerdeLaws model_serde.
Proof.
  split; cbn [nonce_to_vec nonce_from_slice state_to_value state_from_value handle_to_vec
    handle_from_slice handle_to_value handle_from_value model_serde];
    try (intros x; exists (code x); split; [done|apply from_code_code]).
  - intros x ->. exists (code x). split; [done|apply from_code_code].
  - intros x ->. by eexists.
Qed.
