(* ===== verification/StoreSpec.v ===== *)
(** * StoreSpec: the durable stores simulate the in-memory one

    The contract [simulates] of a [StateStore] backend against the reference store,
    proved of redb and of Postgres ([src/src/adapters/store/]); and the reference
    store against the shared cell the nonce managers race on. *)
From S2P Require Import Prelude Effects Primitives Errors Ports Nonce NoncePool Store ModelSerde.

Definition is_address (a : Address) : Prop := is_uint (2 ^ 160 - 1) a.

Definition handle_valid (h : TxHandle) : Prop := is_u256 (th_id h) /\ is_address (th_account h).

(** Writing [h] keeps the account of the handle it replaces: an id is a hash of the
    intent, which names the account. *)
Definition same_account (m : InMemoryStateStore) (h : TxHandle) : Prop :=
  forall h', mem_handles m !! th_id h = Some h' -> th_account h' = th_account h.

(** The handles a backend cannot encode, with the error it gives. *)
Abbreviation refusals := (TxHandle -> option StateStoreError).
Definition no_refusal : refusals := fun _ => None.

(** A write of a handle the backend cannot encode fails before it reaches the database. *)
Definition put_fault (refuses : refusals) (fault : option StateStoreError) (h : TxHandle)
  : option StateStoreError :=
  match refuses h with Some e => Some e | None => fault end.

(** [simulates fits refuses ops R]: operation by operation, a backend state related to a
    reference state answers as the reference does (pending handles in any order),
    and a failing call changes nothing; [fits] bounds the integers a backend can
    hold and [refuses] says which handles it does not store. *)
Record simulates {S} (fits : Z -> FenceToken -> Prop) (refuses : refusals) (ops : StateStore S)
    (R : S -> InMemoryStateStore -> Prop) : Prop := {
  sim_load : forall fault scope s m, R s m -> is_address (scope_account scope) ->
    load_nonce_state ops fault scope s =
      match fault with Some e => Err e | None => memory_load_nonce_state scope m end;
  sim_cas : forall fault scope version state fence s m,
    R s m -> is_address (scope_account scope) -> fits version fence ->
    match fault with
    | Some e => cas_nonce_state ops fault scope version state fence s = (Err e, s)
    | None =>
        fst (cas_nonce_state ops fault scope version state fence s)
          = fst (memory_cas_nonce_state scope version state fence m) /\
        R (snd (cas_nonce_state ops fault scope version state fence s))
          (snd (memory_cas_nonce_state scope version state fence m))
    end;
  sim_put : forall fault h s m, R s m -> handle_valid h -> same_account m h ->
    match put_fault refuses fault h with
    | Some e => put_handle ops fault h s = (Err e, s)
    | None => fst (put_handle ops fault h s) = Ok tt /\
              R (snd (put_handle ops fault h s)) (snd (memory_put_handle h m))
    end;
  sim_pending : forall fault a s m, R s m -> is_address a ->
    match fault with
    | Some e => pending_handles ops fault a s = Err e
    | None => exists l l', pending_handles ops fault a s = Ok l /\
                memory_pending_handles a m = Ok l' /\ l ≡ₚ l'
    end;
  sim_get : forall fault id s m, R s m -> is_u256 id ->
    get_handle ops fault id s = match fault with Some e => Err e | None => memory_handle id m end;
}.

(** ** Keys are injective *)

Lemma account_key_inj a b : is_address a -> is_address b -> account_key a = account_key b -> a = b.
Proof.
  unfold is_address, is_uint. intros Ha Hb H%hex_of_bytes_inj.
  assert (E : 256 ^ Z.of_nat 20 = 2 ^ 160) by (vm_compute; reflexivity).
  apply Z_to_be_inj in H; rewrite ?E; lia.
Qed.

Lemma id_bytes_inj a b : is_u256 a -> is_u256 b -> id_bytes a = id_bytes b -> a = b.
Proof.
  unfold is_uint, u256_max. intros Ha Hb H.
  assert (E : 256 ^ Z.of_nat 32 = 2 ^ 256) by (vm_compute; reflexivity).
  apply Z_to_be_inj in H; rewrite ?E; lia.
Qed.

Lemma scope_key_inj a b :
  is_address (scope_account a) -> is_address (scope_account b) ->
  account_key (scope_account a) = account_key (scope_account b) -> a = b.
Proof. intros Ha Hb H%account_key_inj; [|done..]. destruct a, b; simpl in *. by subst. Qed.

(** The range scan's bounds hold every 32-byte id. *)
Lemma bytes_leb_lo n b : (n <= length b)%nat -> bytes_leb (replicate n Byte.x00) b = true.
Proof.
  revert b. induction n as [|n IH]; intros [|y b] Hlen; cbn [replicate bytes_leb length] in *; try done; [lia|].
  pose proof (byte_to_Z_bound y). assert (E : byte_to_Z Byte.x00 = 0) by done.
  rewrite IH, andb_true_r by lia. apply orb_true_iff. rewrite Z.ltb_lt, Z.eqb_eq. lia.
Qed.

Lemma bytes_leb_hi n b : (length b <= n)%nat -> bytes_leb b (replicate n Byte.xff) = true.
Proof.
  revert b. induction n as [|n IH]; intros [|y b] Hlen; cbn [replicate bytes_leb length] in *; try done; [lia|].
  pose proof (byte_to_Z_bound y). assert (E : byte_to_Z Byte.xff = 255) by done.
  rewrite IH, andb_true_r by lia. apply orb_true_iff. rewrite Z.ltb_lt, Z.eqb_eq. lia.
Qed.

Lemma id_in_range id : bytes_leb ID_LO (id_bytes id) && bytes_leb (id_bytes id) ID_HI = true.
Proof.
  unfold ID_LO, ID_HI, id_bytes.
  rewrite bytes_leb_lo, bytes_leb_hi by (rewrite length_Z_to_be; lia). done.
Qed.

(** ** The reference store's pending list *)

Lemma memory_pending_elem a m l h :
  memory_pending_handles a m = Ok l ->
  h ∈ l <-> (exists id, mem_handles m !! id = Some h) /\ is_pending_of a h = true.
Proof.
  intros [= <-]. rewrite list_elem_of_filter, list_elem_of_fmap. split.
  - intros (Hp & [id h'] & -> & Hin). apply elem_of_map_to_list in Hin. eauto.
  - intros [[id Hid] Hp]. split; [done|]. exists (id, h). split; [done|].
    by apply elem_of_map_to_list.
Qed.

(** Every stored handle sits under its own id and is well formed. *)
Definition memory_wf (m : InMemoryStateStore) : Prop :=
  forall id h, mem_handles m !! id = Some h -> th_id h = id /\ handle_valid h.

Lemma memory_put_wf m h : memory_wf m -> handle_valid h -> memory_wf (snd (memory_put_handle h m)).
Proof.
  intros Hm Hh id h'. simpl. destruct (decide (id = th_id h)) as [->|Hne].
  - rewrite lookup_insert_eq. intros [= <-]. done.
  - rewrite lookup_insert_ne by done. auto.
Qed.

Lemma memory_pending_nodup a m l :
  memory_wf m -> memory_pending_handles a m = Ok l -> NoDup (map (fun h => id_bytes (th_id h)) l).
Proof.
  intros Hm [= <-].
  assert (H : NoDup (map th_id (map snd (map_to_list (mem_handles m))))).
  { rewrite map_map. assert (E : map (fun x => th_id (snd x)) (map_to_list (mem_handles m))
      = map fst (map_to_list (mem_handles m))).
    { apply map_ext_in. intros [id h] Hin%list_elem_of_In%elem_of_map_to_list. simpl.
      by apply Hm in Hin as [-> _]. }
    rewrite E. apply NoDup_fst_map_to_list. }
  assert (Hv : Forall handle_valid (map snd (map_to_list (mem_handles m)))).
  { apply Forall_forall. intros h ([id h'] & <- & Hin)%in_map_iff.
    apply list_elem_of_In, elem_of_map_to_list in Hin. by apply Hm in Hin as [_ ?]. }
  induction (map snd (map_to_list (mem_handles m))) as [|h l IH]; simpl in *; [constructor|].
  apply list.NoDup_cons in H as [Hni Hnd]. apply Forall_cons_1 in Hv as [Hh Hv].
  rewrite filter_cons. case_decide; [|auto]. simpl. apply list.NoDup_cons. split; [|auto].
  intros (h' & Heq & [_ Hin]%list_elem_of_filter)%list_elem_of_fmap. apply Hni.
  rewrite (id_bytes_inj (th_id h) (th_id h')).
  - apply list_elem_of_fmap. eauto.
  - apply Hh.
  - apply (proj1 (Forall_forall _ _) Hv). by apply list_elem_of_In.
  - done.
Qed.

(** ** redb *)

Section RedbSim.
Context {J : Serde} {JL : SerdeLaws J}.

Record redb_rel (db : RedbStateStore) (m : InMemoryStateStore) : Prop := {
  rr_wf : memory_wf m;
  rr_nonce : forall scope, is_address (scope_account scope) ->
    match mem_nonces m !! scope with
    | None => NONCE db !! account_key (scope_account scope) = None
    | Some (v, f) => exists b, NONCE db !! account_key (scope_account scope) = Some b /\
        nonce_from_slice b = Ok (v_version v, f, v_value v)
    end;
  rr_tx : forall id, is_u256 id ->
    match mem_handles m !! id with
    | None => TX db !! id_bytes id = None
    | Some h => exists b, TX db !! id_bytes id = Some b /\ handle_from_slice b = Ok h
    end;
  rr_pending : forall k b, (k, b) ∈ TX_PENDING db <->
    exists h, mem_handles m !! th_id h = Some h /\ is_terminal (th_status h) = false /\
      k = account_key (th_account h) /\ b = id_bytes (th_id h);
}.

Lemma redb_sim_load fault scope db m :
  redb_rel db m -> is_address (scope_account scope) ->
  redb_load_nonce_state fault scope db =
    match fault with Some e => Err e | None => memory_load_nonce_state scope m end.
Proof.
  intros Hr Ha. unfold redb_load_nonce_state, memory_load_nonce_state, redb_run.
  destruct fault as [e|]; [done|]. pose proof (rr_nonce _ _ Hr scope Ha) as Hn.
  destruct (mem_nonces m !! scope) as [[[value version] f]|]; simpl in *.
  - destruct Hn as (b & -> & Hb). by rewrite Hb.
  - by rewrite Hn.
Qed.

(** A nonce row written under one account's key is read back by that scope only. *)
Lemma redb_rel_nonce_insert db m scope v f b :
  redb_rel db m -> is_address (scope_account scope) ->
  nonce_from_slice b = Ok (v_version v, f, v_value v) ->
  redb_rel (mkRedb (<[account_key (scope_account scope) := b]> (NONCE db)) (TX db) (TX_PENDING db))
    (mkMemory (<[scope := (v, f)]> (mem_nonces m)) (mem_handles m)).
Proof.
  intros Hr Ha Hb. constructor; simpl; try apply Hr.
  intros sc Hsc. destruct (decide (sc = scope)) as [->|Hne].
  - rewrite !lookup_insert_eq. eauto.
  - assert (Hk : account_key (scope_account scope) <> account_key (scope_account sc)).
    { intros Heq%scope_key_inj; [|done..]. by subst. }
    rewrite !lookup_insert_ne by done. by apply (rr_nonce _ _ Hr).
Qed.

Lemma redb_sim_cas scope version state fence db m :
  redb_rel db m -> is_address (scope_account scope) ->
  let r := redb_cas_nonce_state None scope version state fence db in
  let r' := memory_cas_nonce_state scope version state fence m in
  fst r = fst r' /\ redb_rel (snd r) (snd r').
Proof.
  intros Hr Ha. simpl. unfold redb_cas_nonce_state, memory_cas_nonce_state, redb_run.
  pose proof (rr_nonce _ _ Hr scope Ha) as Hn.
  destruct (nonce_roundtrip (wrapping_add u64_max version 1, fence, state)) as (b' & Hto & Hfrom).
  destruct (mem_nonces m !! scope) as [[[value ver] f]|]; simpl in *.
  - destruct Hn as (b & -> & Hb). rewrite Hb.
    destruct (fence_ltb fence f); [done|]. destruct (negb (ver =? version)); [done|].
    rewrite Hto. simpl. split; [done|]. by apply redb_rel_nonce_insert.
  - rewrite Hn. destruct (fence_ltb fence SINGLE_WRITER); [done|].
    destruct (negb _); [done|]. rewrite Hto. simpl. split; [done|]. by apply redb_rel_nonce_insert.
Qed.

Lemma redb_rel_put db m h b :
  redb_rel db m -> handle_valid h -> same_account m h -> handle_from_slice b = Ok h ->
  let k := (account_key (th_account h), id_bytes (th_id h)) in
  redb_rel
    (mkRedb (NONCE db) (<[id_bytes (th_id h) := b]> (TX db))
       (if is_terminal (th_status h) then TX_PENDING db ∖ {[k]} else {[k]} ∪ TX_PENDING db))
    (snd (memory_put_handle h m)).
Proof.
  intros Hr Hh Hacc Hb k. pose proof (rr_wf _ _ Hr) as Hwf.
  assert (Hold : forall h', mem_handles m !! th_id h' = Some h' -> id_bytes (th_id h') = id_bytes (th_id h) ->
    th_id h' = th_id h /\ th_account h' = th_account h).
  { intros h' Hin Heq. pose proof (Hwf _ _ Hin) as [_ [Hid _]].
    apply id_bytes_inj in Heq; [|done|apply Hh]. split; [done|]. apply Hacc. by rewrite <- Heq. }
  constructor; simpl; [by apply memory_put_wf|apply Hr| |].
  - intros id Hid. destruct (decide (id = th_id h)) as [->|Hne].
    + rewrite !lookup_insert_eq. eauto.
    + assert (id_bytes (th_id h) <> id_bytes id)
        by (intros ?%id_bytes_inj; [done|apply Hh|done]).
      rewrite !lookup_insert_ne by done. by apply (rr_tx _ _ Hr).
  - intros a c.
    transitivity ((is_terminal (th_status h) = false /\ (a, c) = k) \/ ((a, c) ∈ TX_PENDING db /\ (a, c) <> k)).
    { destruct (is_terminal (th_status h)).
      - rewrite elem_of_difference, elem_of_singleton. naive_solver.
      - rewrite elem_of_union, elem_of_singleton. destruct (decide ((a, c) = k)); naive_solver. }
    rewrite (rr_pending _ _ Hr). split.
    + intros [[Ht [-> ->]%pair_eq]|[(h' & Hin & Ht & -> & ->) Hne]].
      * exists h. by rewrite lookup_insert_eq.
      * exists h'. rewrite lookup_insert_ne; [done|]. intros Heq. apply Hne. unfold k.
        assert (Hid : id_bytes (th_id h') = id_bytes (th_id h)) by (by rewrite Heq).
        by destruct (Hold h' Hin Hid) as [-> ->].
    + intros (h' & Hin & Ht & -> & ->). destruct (decide (th_id h' = th_id h)) as [He|Hne].
      * rewrite He, lookup_insert_eq in Hin. injection Hin as <-. by left.
      * rewrite lookup_insert_ne in Hin by done. right. split; [eauto|].
        intros [_ Hid]%pair_eq. by destruct (Hold h' Hin Hid).
Qed.

Lemma redb_read_all_spec db hs :
  Forall (fun h => exists b, TX db !! id_bytes (th_id h) = Some b /\ handle_from_slice b = Ok h) hs ->
  redb_read_all db (map (fun h => id_bytes (th_id h)) hs) = Ok hs.
Proof.
  induction hs as [|h hs IH]; simpl; [done|].
  intros [(b & -> & Hb) Hall]%Forall_cons_1. by rewrite Hb, IH.
Qed.

(** The index scan finds the ids of exactly the account's pending handles. *)
Lemma redb_scan_perm db m a l :
  redb_rel db m -> is_address a -> memory_pending_handles a m = Ok l ->
  redb_scan (account_key a) db ≡ₚ map (fun h => id_bytes (th_id h)) l.
Proof.
  intros Hr Ha Hl. pose proof (rr_wf _ _ Hr) as Hwf. apply NoDup_Permutation.
  - unfold redb_scan. apply NoDup_fmap_2_strong; [|apply list.NoDup_filter, NoDup_elements].
    intros [k b] [k' b'] [[Hk _] _]%list_elem_of_filter [[Hk' _] _]%list_elem_of_filter Heq.
    simpl in *. congruence.
  - by eapply memory_pending_nodup.
  - intros b. unfold redb_scan. rewrite !list_elem_of_fmap. split.
    + intros ([k b'] & -> & [[Hk _] Hin%elem_of_elements]%list_elem_of_filter). simpl in *.
      apply (rr_pending _ _ Hr) in Hin as (h & Hin & Ht & Hka & ->). exists h. split; [done|].
      apply (memory_pending_elem _ _ _ _ Hl). split; [eauto|]. unfold is_pending_of.
      pose proof (Hwf _ _ Hin) as [_ [_ Hv]].
      rewrite (account_key_inj (th_account h) a) by (done || congruence).
      by rewrite Z.eqb_refl, Ht.
    + intros (h & -> & ((id & Hin) & Hp)%(memory_pending_elem _ _ _ _ Hl)).
      unfold is_pending_of in Hp. bool_simpl.
      exists (account_key a, id_bytes (th_id h)). split; [done|].
      apply list_elem_of_filter. split; [split; [done|apply id_in_range]|].
      apply elem_of_elements, (rr_pending _ _ Hr). exists h.
      pose proof (Hwf _ _ Hin) as [-> _]. by subst.
Qed.

Lemma redb_sim_pending a db m :
  redb_rel db m -> is_address a ->
  exists l l', redb_pending_handles None a db = Ok l /\ memory_pending_handles a m = Ok l' /\ l ≡ₚ l'.
Proof.
  intros Hr Ha.
  destruct (memory_pending_handles a m) as [l'|] eqn:Hl; [|done].
  pose proof (redb_scan_perm db m a l' Hr Ha Hl) as Hp.
  apply Permutation_map_inv in Hp as (l & Heq & Hperm). exists l, l'.
  unfold redb_pending_handles, redb_run. rewrite Heq. rewrite redb_read_all_spec; [by split_and!|].
  apply Forall_forall. intros h Hin%list_elem_of_In.
  assert (Hin' : h ∈ l') by (by rewrite Hperm).
  apply (memory_pending_elem _ _ _ _ Hl) in Hin' as [[id Hid] _].
  destruct (rr_wf _ _ Hr _ _ Hid) as [<- [Hv _]].
  pose proof (rr_tx _ _ Hr _ Hv) as Htx. by rewrite Hid in Htx.
Qed.

Lemma redb_simulates : simulates (fun _ _ => True) no_refusal redb_store redb_rel.
Proof.
  constructor; simpl.
  - intros. by apply redb_sim_load.
  - intros [e|] scope version state fence db m Hr Ha _; [done|]. by apply redb_sim_cas.
  - intros fault h db m Hr Hh Hacc. unfold redb_put_handle, redb_run.
    destruct (handle_roundtrip h) as (b & -> & Hb).
    destruct fault as [e|]; simpl; [done|]. split; [done|]. by apply redb_rel_put.
  - intros [e|] a db m Hr Ha; [done|]. by apply redb_sim_pending.
  - intros [e|] id db m Hr Hid; [done|]. unfold redb_handle, memory_handle; simpl.
    pose proof (rr_tx _ _ Hr id Hid) as Htx.
    destruct (mem_handles m !! id) as [h|]; [|by rewrite Htx].
    destruct Htx as (b & -> & Hb). by rewrite Hb.
Qed.

Lemma redb_rel_open : redb_rel redb_open InMemoryStateStore_default.
Proof.
  unfold redb_open, InMemoryStateStore_default. constructor; simpl.
  - intros id h H. simpl in H. by apply lookup_empty_Some in H.
  - intros scope _. by rewrite !lookup_empty.
  - intros id _. by rewrite !lookup_empty.
  - intros k b. split; [set_solver|]. by intros (h & ?%lookup_empty_Some & _).
Qed.
End RedbSim.

(** ** Postgres *)

Lemma as_i64_id n : 0 <= n < 2 ^ 63 -> as_i64 n = n.
Proof. unfold as_i64. intros H. rewrite Z.mod_small by lia. lia. Qed.

Lemma i64_as_u64_id n : 0 <= n < 2 ^ 63 -> i64_as_u64 n = n.
Proof. unfold i64_as_u64. intros H. apply Z.mod_small. lia. Qed.

(** What a [BIGINT] holds exactly: versions short of [i64::MAX] and non-negative fences. *)
Definition i64_fits (version : Z) (fence : FenceToken) : Prop :=
  0 <= version < 2 ^ 63 - 1 /\ 0 <= fence_u64 fence < 2 ^ 63.

Section PostgresSim.
Context {J : Serde} {JL : SerdeLaws J}.

Definition row_of (h : TxHandle) : handle_row :=
  mkHandleRow (account_key (th_account h)) (is_terminal (th_status h))
    (match handle_to_value h with Ok b => b | Err _ => [] end).

Lemma row_of_decodes h : caps_u64 h = true -> handle_from_value (hr_handle (row_of h)) = Ok h.
Proof. intros Hc. destruct (handle_value_roundtrip h Hc) as (b & Hto & Hfrom). simpl. by rewrite Hto. Qed.

(** Postgres refuses exactly the handles with a fee cap above [u64::MAX]. *)
Definition wide_caps (h : TxHandle) : option StateStoreError :=
  if caps_u64 h then None
  else Some (Serialization (match handle_to_value h with Ok _ => EmptyString | Err e => e end)).

Record postgres_rel (db : PostgresStateStore) (m : InMemoryStateStore) : Prop := {
  pr_wf : memory_wf m;
  pr_nonce : forall scope, is_address (scope_account scope) ->
    match mem_nonces m !! scope with
    | None => nonce_state_table db !! account_key (scope_account scope) = None
    | Some (v, f) =>
        (0 <= v_version v < 2 ^ 63 /\ 0 <= fence_u64 f < 2 ^ 63) /\
        exists b, state_from_value b = Ok (v_value v) /\
          nonce_state_table db !! account_key (scope_account scope)
            = Some (mkNonceRow (v_version v) (fence_u64 f) b)
    end;
  pr_lookup : forall id, is_u256 id -> tx_handles db !! id_bytes id = row_of <$> mem_handles m !! id;
  pr_caps : forall id h, mem_handles m !! id = Some h -> caps_u64 h = true;
  pr_dom : forall k r, tx_handles db !! k = Some r -> exists id, is_u256 id /\ k = id_bytes id;
}.

(** The handle table is, row for row, the reference's handles. *)
Lemma pr_rows db m :
  postgres_rel db m ->
  map_to_list (tx_handles db) ≡ₚ
    map (fun ih => (id_bytes (fst ih), row_of (snd ih))) (map_to_list (mem_handles m)).
Proof.
  intros Hr. pose proof (pr_wf _ _ Hr) as Hwf. apply NoDup_Permutation.
  - apply NoDup_map_to_list.
  - apply NoDup_fmap_2_strong; [|apply NoDup_map_to_list].
    intros [i h] [i' h'] Hin%elem_of_map_to_list Hin'%elem_of_map_to_list [Hk _]%pair_eq.
    simpl in Hk. pose proof (Hwf _ _ Hin) as [<- [? _]]. pose proof (Hwf _ _ Hin') as [<- [? _]].
    apply id_bytes_inj in Hk; [|done..]. rewrite Hk in *. by simplify_eq.
  - intros [k r]. rewrite elem_of_map_to_list, list_elem_of_fmap. split.
    + intros Hk. destruct (pr_dom _ _ Hr _ _ Hk) as (id & Hid & ->).
      rewrite (pr_lookup _ _ Hr) in Hk by done. apply fmap_Some in Hk as (h & Hin & ->).
      exists (id, h). split; [done|]. by apply elem_of_map_to_list.
    + intros ([id h] & [-> ->]%pair_eq & Hin%elem_of_map_to_list). simpl in *.
      pose proof (Hwf _ _ Hin) as [<- [? _]]. rewrite (pr_lookup _ _ Hr) by done. by rewrite Hin.
Qed.

Lemma postgres_sim_load fault scope db m :
  postgres_rel db m -> is_address (scope_account scope) ->
  postgres_load_nonce_state fault scope db =
    match fault with Some e => Err e | None => memory_load_nonce_state scope m end.
Proof.
  intros Hr Ha. unfold postgres_load_nonce_state, memory_load_nonce_state.
  destruct fault as [e|]; [done|]. pose proof (pr_nonce _ _ Hr scope Ha) as Hn.
  destruct (mem_nonces m !! scope) as [[[value version] f]|]; cbn [fmap option_fmap option_map fst default] in *.
  - destruct Hn as ([Hv _] & b & Hb & ->). simpl in *. rewrite Hb. by rewrite i64_as_u64_id.
  - by rewrite Hn.
Qed.

Lemma postgres_rel_nonce_insert db m scope v f b :
  postgres_rel db m -> is_address (scope_account scope) ->
  0 <= v_version v < 2 ^ 63 -> 0 <= fence_u64 f < 2 ^ 63 ->
  state_from_value b = Ok (v_value v) ->
  postgres_rel
    (mkPostgres (<[account_key (scope_account scope) := mkNonceRow (v_version v) (fence_u64 f) b]>
       (nonce_state_table db)) (tx_handles db))
    (mkMemory (<[scope := (v, f)]> (mem_nonces m)) (mem_handles m)).
Proof.
  intros Hr Ha Hv Hf Hb. constructor; simpl; try apply Hr.
  intros sc Hsc. destruct (decide (sc = scope)) as [->|Hne].
  - rewrite !lookup_insert_eq. eauto.
  - assert (Hk : account_key (scope_account scope) <> account_key (scope_account sc)).
    { intros Heq%scope_key_inj; [|done..]. by subst. }
    rewrite !lookup_insert_ne by done. by apply (pr_nonce _ _ Hr).
Qed.

Lemma postgres_sim_cas scope version state fence db m :
  postgres_rel db m -> is_address (scope_account scope) -> i64_fits version fence ->
  let r := postgres_cas_nonce_state None scope version state fence db in
  let r' := memory_cas_nonce_state scope version state fence m in
  fst r = fst r' /\ postgres_rel (snd r) (snd r').
Proof.
  intros Hr Ha [Hver Hfence].
  cbv zeta. unfold postgres_cas_nonce_state, memory_cas_nonce_state.
  unfold fence_to_i64, as_u64, fence_ltb, SINGLE_WRITER.
  rewrite (as_i64_id version), (as_i64_id (fence_u64 fence)), (as_i64_id (version + 1)) by lia.
  rewrite (wrapping_add_small u64_max version 1) by (unfold u64_max; lia).
  pose proof (pr_nonce _ _ Hr scope Ha) as Hn.
  destruct (state_roundtrip state) as (b' & Hto & Hfrom). rewrite Hto.
  assert (Hins : postgres_rel
    (mkPostgres (<[account_key (scope_account scope) := mkNonceRow (version + 1) (fence_u64 fence) b']>
       (nonce_state_table db)) (tx_handles db))
    (mkMemory (<[scope := (mkVersioned state (version + 1), fence)]> (mem_nonces m)) (mem_handles m))).
  { apply (postgres_rel_nonce_insert db m scope (mkVersioned state (version + 1)) fence b');
      simpl; try done; lia. }
  destruct (mem_nonces m !! scope) as [[[value ver] f]|].
  - destruct Hn as (_ & b & _ & ->). cbn [nr_version nr_fence v_version fence_u64].
    destruct (fence_u64 fence <? fence_u64 f); [done|]. by destruct (negb (ver =? version)).
  - rewrite Hn. cbn [fence_u64]. rewrite (as_i64_id 0) by lia.
    destruct (fence_u64 fence <? 0); [done|]. by destruct (negb (0 =? version)).
Qed.

Lemma postgres_rel_put db m h :
  postgres_rel db m -> handle_valid h -> caps_u64 h = true ->
  postgres_rel (mkPostgres (nonce_state_table db) (<[id_bytes (th_id h) := row_of h]> (tx_handles db)))
    (snd (memory_put_handle h m)).
Proof.
  intros Hr Hh Hc. constructor; simpl; [by apply memory_put_wf; [apply Hr|]|apply Hr| | |].
  - intros id Hid. destruct (decide (id = th_id h)) as [->|Hne].
    + by rewrite !lookup_insert_eq.
    + rewrite !lookup_insert_ne; [by apply Hr|done|].
      intros Heq%id_bytes_inj; [done|apply Hh|done].
  - intros id h'. destruct (decide (id = th_id h)) as [->|Hne].
    + rewrite lookup_insert_eq. by intros [= <-].
    + rewrite lookup_insert_ne by done. apply Hr.
  - intros k r. destruct (decide (k = id_bytes (th_id h))) as [->|Hne].
    + intros _. exists (th_id h). split; [apply Hh|done].
    + rewrite lookup_insert_ne by done. apply Hr.
Qed.

Lemma postgres_decode_rows hs :
  Forall (fun h => caps_u64 h = true) hs -> postgres_decode_all (map row_of hs) = Ok hs.
Proof.
  induction 1 as [|h hs Hc _ IH]; [done|]. cbn [map postgres_decode_all].
  by rewrite row_of_decodes, IH.
Qed.

(** The [WHERE] clause selects the rows of the account's pending handles. *)
Lemma postgres_where a hs :
  is_address a -> Forall handle_valid hs ->
  filter (fun r => hr_account r = account_key a /\ hr_terminal r = false) (map row_of hs)
  = map row_of (filter (fun h => is_pending_of a h = true) hs).
Proof.
  intros Ha Hv. induction hs as [|h hs IH]; [done|]. apply Forall_cons_1 in Hv as [[_ Hh] Hv].
  cbn [map]. rewrite !filter_cons, IH by done.
  assert (Hiff : (hr_account (row_of h) = account_key a /\ hr_terminal (row_of h) = false) <->
    is_pending_of a h = true).
  { unfold is_pending_of. rewrite andb_true_iff, Z.eqb_eq, negb_true_iff. simpl. split.
    - intros [Hk ?]. split; [|done]. by apply account_key_inj.
    - by intros [-> ?]. }
  repeat case_decide; tauto || done.
Qed.

Lemma postgres_sim_pending a db m :
  postgres_rel db m -> is_address a ->
  exists l l', postgres_pending_handles None a db = Ok l /\ memory_pending_handles a m = Ok l' /\
    l ≡ₚ l'.
Proof.
  intros Hr Ha. unfold postgres_pending_handles, memory_pending_handles.
  pose proof (pr_rows _ _ Hr) as Hp. apply Permutation_map_inv in Hp as (l & Heq & Hperm).
  rewrite Heq, map_map. cbn [snd].
  assert (Hall : Forall (fun h => handle_valid h /\ caps_u64 h = true) (map snd l)).
  { apply Forall_forall. intros h ([id h'] & <- & Hin%list_elem_of_In)%in_map_iff.
    rewrite <- Hperm in Hin. apply elem_of_map_to_list in Hin.
    split; [by apply (pr_wf _ _ Hr) in Hin as [_ ?]|by apply (pr_caps _ _ Hr) in Hin]. }
  rewrite <- (map_map snd row_of l), postgres_where; [|done|by eapply list.Forall_impl; [exact Hall|intros ? []]].
  rewrite postgres_decode_rows
    by (apply list.Forall_forall; intros h [_ Hin]%list_elem_of_filter; by apply (proj1 (list.Forall_forall _ _) Hall)). eexists _, _. split_and!; [done..|].
  by rewrite Hperm.
Qed.

Lemma postgres_simulates : simulates i64_fits wide_caps postgres_store postgres_rel.
Proof.
  constructor; cbn [load_nonce_state cas_nonce_state put_handle pending_handles get_handle postgres_store].
  - intros. by apply postgres_sim_load.
  - intros [e|] scope version state fence db m Hr Ha Hfit; [done|]. by apply postgres_sim_cas.
  - intros fault h db m Hr Hh _. unfold postgres_put_handle, put_fault, wide_caps.
    destruct (caps_u64 h) eqn:Hc; [|by destruct (handle_value_wide h Hc) as [e ->]].
    destruct (handle_value_roundtrip h Hc) as (b & Hto & Hb). rewrite Hto.
    destruct fault as [e|]; [done|]. split; [done|].
    pose proof (postgres_rel_put db m h Hr Hh Hc) as Hput. unfold row_of in Hput. by rewrite Hto in Hput.
  - intros [e|] a db m Hr Ha; [done|]. by apply postgres_sim_pending.
  - intros [e|] id db m Hr Hid; [done|]. unfold postgres_handle, memory_handle.
    rewrite (pr_lookup _ _ Hr) by done.
    destruct (mem_handles m !! id) as [h|] eqn:Hh; [|done]. cbn [fmap option_fmap option_map].
    by rewrite row_of_decodes by (by eapply (pr_caps _ _ Hr)).
Qed.

Lemma postgres_rel_connect : postgres_rel postgres_connect InMemoryStateStore_default.
Proof.
  unfold postgres_connect, InMemoryStateStore_default. constructor; simpl.
  - intros id h H. simpl in H. by apply lookup_empty_Some in H.
  - intros scope _. by rewrite !lookup_empty.
  - intros id _. by rewrite !lookup_empty.
  - intros id h H. by apply lookup_empty_Some in H.
  - by intros k r ?%lookup_empty_Some.
Qed.
End PostgresSim.

(** ** Observable behaviour: sequences of store calls *)

Inductive store_op : Type :=
| S_Load (scope : NonceScope)
| S_Cas (scope : NonceScope) (version : Z) (state : NonceState) (fence : FenceToken)
| S_Put (h : TxHandle)
| S_Pending (account : Address)
| S_Get (id : HandleId).

Inductive store_res : Type :=
| R_Load (r : result (Versioned NonceState) StateStoreError)
| R_Cas (r : result bool StateStoreError)
| R_Put (r : result unit StateStoreError)
| R_Pending (r : result (list TxHandle) StateStoreError)
| R_Get (r : result (option TxHandle) StateStoreError).

Definition store_exec {S} (ops : StateStore S) (fault : option StateStoreError) (op : store_op) (s : S)
  : store_res * S :=
  match op with
  | S_Load scope => (R_Load (load_nonce_state ops fault scope s), s)
  | S_Cas scope version state fence =>
      let '(r, s') := cas_nonce_state ops fault scope version state fence s in (R_Cas r, s')
  | S_Put h => let '(r, s') := put_handle ops fault h s in (R_Put r, s')
  | S_Pending a => (R_Pending (pending_handles ops fault a s), s)
  | S_Get id => (R_Get (get_handle ops fault id s), s)
  end.

Fixpoint store_run {S} (ops : StateStore S) (calls : list (option StateStoreError * store_op)) (s : S)
  : list store_res :=
  match calls with
  | [] => []
  | (fault, op) :: calls' =>
      let '(r, s') := store_exec ops fault op s in r :: store_run ops calls' s'
  end.

(** The result of a call the backend failed with [e]. *)
Definition failed (op : store_op) (e : StateStoreError) : store_res :=
  match op with
  | S_Load _ => R_Load (Err e)
  | S_Cas _ _ _ _ => R_Cas (Err e)
  | S_Put _ => R_Put (Err e)
  | S_Pending _ => R_Pending (Err e)
  | S_Get _ => R_Get (Err e)
  end.

(** The reference: a failed call answers its error and changes nothing, any other
    runs on the in-memory store. *)
Fixpoint reference_run (calls : list (option StateStoreError * store_op)) (m : InMemoryStateStore)
  : list store_res :=
  match calls with
  | [] => []
  | (Some e, op) :: calls' => failed op e :: reference_run calls' m
  | (None, op) :: calls' =>
      let '(r, m') := store_exec memory_store None op m in r :: reference_run calls' m'
  end.

(** Equal answers; pending handles come in any order. *)
Definition res_equiv (r r' : store_res) : Prop :=
  match r, r' with
  | R_Pending (Ok l), R_Pending (Ok l') => l ≡ₚ l'
  | _, _ => r = r'
  end.

#[export] Instance res_equiv_refl : Reflexive res_equiv.
Proof. intros [| | |[l|e]|]; simpl; done. Qed.

(** The calls as the reference sees them: a write the backend cannot encode is a fault. *)
Definition refuse (refuses : refusals) (c : option StateStoreError * store_op)
  : option StateStoreError * store_op :=
  match c with
  | (fault, S_Put h) => (put_fault refuses fault h, S_Put h)
  | _ => c
  end.

Lemma refuse_none (calls : list (option StateStoreError * store_op)) :
  map (refuse no_refusal) calls = calls.
Proof.
  rewrite <- (map_id calls) at 2. apply map_ext. by intros [fault []].
Qed.

Lemma refuse_op refuses fault op : snd (refuse refuses (fault, op)) = op.
Proof. by destruct op. Qed.

Definition op_valid (fits : Z -> FenceToken -> Prop) (op : store_op) : Prop :=
  match op with
  | S_Load scope => is_address (scope_account scope)
  | S_Cas scope version _ fence => is_address (scope_account scope) /\ fits version fence
  | S_Put h => handle_valid h
  | S_Pending a => is_address a
  | S_Get id => is_u256 id
  end.

(** A handle id always comes with the same account. *)
Definition ids_agree (m : InMemoryStateStore) (calls : list (option StateStoreError * store_op)) : Prop :=
  forall f h, (f, S_Put h) ∈ calls ->
    same_account m h /\
    forall f' h', (f', S_Put h') ∈ calls -> th_id h' = th_id h -> th_account h' = th_account h.

Lemma ids_agree_step m c calls :
  ids_agree m (c :: calls) ->
  match c with
  | (None, op) => ids_agree (snd (store_exec memory_store None op m)) calls
  | (Some _, _) => ids_agree m calls
  end.
Proof.
  intros H. assert (Htl : ids_agree m calls).
  { intros f h Hin. destruct (H f h) as [H1 H2]; [by constructor|]. split; [done|].
    intros f' h' Hin'. apply (H2 f'). by constructor. }
  destruct c as [[e|] op]; [done|]. destruct op as [| | h | |]; try done.
  - intros f h Hin. simpl. unfold memory_cas_nonce_state.
    destruct (match mem_nonces m !! scope with Some (v, f0) => _ | None => _ end) as [cv cf].
    destruct (fence_ltb fence cf); [by eapply Htl|]. destruct (negb _); by eapply Htl.
  - intros f h' Hin. destruct (Htl f h' Hin) as [Hacc Hothers]. split; [|done].
    intros h0. simpl. destruct (decide (th_id h = th_id h')) as [He|Hne].
    + rewrite He, lookup_insert_eq. intros [= <-].
      destruct (H f h') as [_ H2]; [by constructor|]. apply (H2 None h); [constructor|done].
    + rewrite lookup_insert_ne by done. apply Hacc.
Qed.

Lemma simulates_exec {S} fits refuses (ops : StateStore S) R fault op s m :
  simulates fits refuses ops R -> R s m -> op_valid fits op ->
  (forall h, op = S_Put h -> same_account m h) ->
  match fst (refuse refuses (fault, op)) with
  | Some e => store_exec ops fault op s = (failed op e, s)
  | None => res_equiv (fst (store_exec ops fault op s)) (fst (store_exec memory_store None op m)) /\
            R (snd (store_exec ops fault op s)) (snd (store_exec memory_store None op m))
  end.
Proof.
  intros Hsim HR Hv Hacc. destruct op as [scope|scope version state fence|h|a|id]; simpl in *.
  - rewrite (sim_load _ _ _ _ Hsim fault scope s m HR Hv). by destruct fault.
  - destruct Hv as [Ha Hfit].
    pose proof (sim_cas _ _ _ _ Hsim fault scope version state fence s m HR Ha Hfit) as H.
    destruct fault as [e|]; [by rewrite H|].
    destruct (cas_nonce_state ops None scope version state fence s) as [r s'].
    destruct (memory_cas_nonce_state scope version state fence m) as [r' m'].
    simpl in *. destruct H as [-> ?]. done.
  - pose proof (sim_put _ _ _ _ Hsim fault h s m HR Hv (Hacc h eq_refl)) as H.
    destruct (put_fault refuses fault h) as [e|]; [by rewrite H|].
    destruct (put_handle ops fault h s) as [r s']. simpl in *. destruct H as [-> ?]. done.
  - pose proof (sim_pending _ _ _ _ Hsim fault a s m HR Hv) as H.
    destruct fault as [e|]; [by rewrite H|]. destruct H as (l & l' & Hl & Hl' & Hp).
    change (res_equiv (R_Pending (pending_handles ops None a s))
      (R_Pending (memory_pending_handles a m)) /\ R s m). by rewrite Hl, Hl'.
  - rewrite (sim_get _ _ _ _ Hsim fault id s m HR Hv). by destruct fault.
Qed.

(** Any sequence of calls on a simulating backend is answered as the reference answers it. *)
Lemma simulates_run {S} fits refuses (ops : StateStore S) R calls s m :
  simulates fits refuses ops R -> R s m -> Forall (fun c => op_valid fits (snd c)) calls ->
  ids_agree m (map (refuse refuses) calls) ->
  Forall2 res_equiv (store_run ops calls s) (reference_run (map (refuse refuses) calls) m).
Proof.
  intros Hsim. revert s m. induction calls as [|[fault op] calls IH]; intros s m HR Hv Hid; [constructor|].
  apply Forall_cons_1 in Hv as [Hop Hv]. simpl in Hop.
  assert (Hacc : forall h, op = S_Put h -> same_account m h).
  { intros h ->. apply (Hid (put_fault refuses fault h) h). constructor. }
  pose proof (simulates_exec fits refuses ops R fault op s m Hsim HR Hop Hacc) as Hex.
  cbn [map] in *. pose proof (refuse_op refuses fault op) as Eop.
  destruct (refuse refuses (fault, op)) as [fault' op']. simpl in Eop, Hex. subst op'.
  apply ids_agree_step in Hid. cbn [store_run reference_run].
  destruct fault' as [e|].
  - rewrite Hex. constructor; [reflexivity|]. by apply IH.
  - destruct (store_exec ops fault op s) as [r s'].
    destruct (store_exec memory_store None op m) as [r' m'].
    destruct Hex as [Heq HR']. constructor; [done|]. by apply IH.
Qed.

Lemma refuse_elem refuses calls f h :
  (f, S_Put h) ∈ map (refuse refuses) calls -> exists f', (f', S_Put h) ∈ calls.
Proof.
  intros ([f' op] & E & Hin)%list_elem_of_fmap. exists f'.
  pose proof (refuse_op refuses f' op) as Eop. rewrite <- E in Eop. simpl in Eop. by subst op.
Qed.

Lemma ids_agree_start refuses calls :
  (forall f h f' h', (f, S_Put h) ∈ calls -> (f', S_Put h') ∈ calls ->
     th_id h' = th_id h -> th_account h' = th_account h) ->
  ids_agree InMemoryStateStore_default (map (refuse refuses) calls).
Proof.
  intros H f h [f1 Hin]%refuse_elem. split.
  - intros h' Hl. simpl in Hl. by apply lookup_empty_Some in Hl.
  - intros f' h' [f2 Hin']%refuse_elem. eauto.
Qed.

(** ** Properties *)

Section Properties.
Context {J : Serde} {JL : SerdeLaws J}.

(** C25: the redb store is observably the in-memory store.  Whatever sequence of
    loads, compare-and-swaps, handle writes and queries is made of a fresh database,
    with any of them failing, every answer is the reference's: the encoded tables and
    the secondary pending index never drift from the handles they index. *)
Theorem redb_refines_memory (calls : list (option StateStoreError * store_op)) :
  Forall (fun c => op_valid (fun _ _ => True) (snd c)) calls ->
  (forall f h f' h', (f, S_Put h) ∈ calls -> (f', S_Put h') ∈ calls ->
     th_id h' = th_id h -> th_account h' = th_account h) ->
  Forall2 res_equiv (store_run redb_store calls redb_open)
    (reference_run calls InMemoryStateStore_default).
Proof.
  intros Hv Hid. rewrite <- (refuse_none calls) at 2.
  eapply simulates_run; [apply redb_simulates|apply redb_rel_open|done|].
  by apply ids_agree_start.
Qed.

(** C26: the Postgres store is observably the in-memory store as well, for versions
    and fences a signed 64-bit column holds, whatever calls fail; except that it refuses a
    handle with a fee cap above [u64::MAX], whose write answers a serialization error and
    leaves the database as it was. *)
Theorem postgres_refines_memory (calls : list (option StateStoreError * store_op)) :
  Forall (fun c => op_valid i64_fits (snd c)) calls ->
  (forall f h f' h', (f, S_Put h) ∈ calls -> (f', S_Put h') ∈ calls ->
     th_id h' = th_id h -> th_account h' = th_account h) ->
  Forall2 res_equiv (store_run postgres_store calls postgres_connect)
    (reference_run (map (refuse wide_caps) calls) InMemoryStateStore_default).
Proof.
  intros Hv Hid. eapply simulates_run; [apply postgres_simulates|apply postgres_rel_connect|done|].
  by apply ids_agree_start.
Qed.
End Properties.

(** The cell of one account, as the nonce managers see it. *)
Definition cell_of (scope : NonceScope) (m : InMemoryStateStore) : Versioned NonceState :=
  default Versioned_default (fst <$> mem_nonces m !! scope).

(** The in-memory store implements the cell the nonce managers are verified
    against: under single-writer fencing its loads and compare-and-swaps on an
    account are steps of the shared cell, and touch neither other accounts nor
    handles. *)
Theorem memory_implements_cell (i : nat) (scope : NonceScope) (version : Z) (state : NonceState)
    (m : InMemoryStateStore) (log : list commit) :
  (forall v f, mem_nonces m !! scope = Some (v, f) -> f = SINGLE_WRITER) ->
  v_version (cell_of scope m) < u64_max -> 0 <= v_version (cell_of scope m) ->
  store_step i (mkStore (cell_of scope m) log) (LoadNonceState scope)
    (memory_load_nonce_state scope m) (mkStore (cell_of scope m) log) /\
  let '(r, m') := memory_cas_nonce_state scope version state SINGLE_WRITER m in
  (exists log', store_step i (mkStore (cell_of scope m) log)
     (CasNonceState scope version state SINGLE_WRITER) r (mkStore (cell_of scope m') log')) /\
  (forall sc, sc <> scope -> cell_of sc m' = cell_of sc m) /\
  mem_handles m' = mem_handles m /\
  (forall v f, mem_nonces m' !! scope = Some (v, f) -> f = SINGLE_WRITER).
Proof.
  intros Hf Hmax Hmin. split; [by split; [|left]|].
  unfold memory_cas_nonce_state.
  set (cur := match mem_nonces m !! scope with Some (v, f) => (v_version v, f) | None => _ end).
  assert (Hcur : cur = (v_version (cell_of scope m), SINGLE_WRITER)).
  { unfold cur, cell_of. destruct (mem_nonces m !! scope) as [[v f]|] eqn:Hl; [|done].
    by rewrite (Hf v f eq_refl). }
  rewrite Hcur. change (fence_ltb SINGLE_WRITER SINGLE_WRITER) with false.
  destruct (v_version (cell_of scope m) =? version) eqn:Hv; bool_simpl; cbn [negb].
  - subst version. split_and!; simpl; [| |done|].
    + exists (mkCommit i true (cell_of scope m) state :: log). left. split_and!; [done..|].
      unfold commit_store, cell_of; simpl. rewrite lookup_insert_eq. cbn [fmap option_fmap option_map fst].
      simpl. f_equal. f_equal. apply wrapping_add_small. unfold cell_of in *. lia.
    + intros sc Hne. unfold cell_of; simpl. by rewrite lookup_insert_ne.
    + intros v f. rewrite lookup_insert_eq. by intros [= _ <-].
  - split_and!; [|done..|done]. exists log. right. left. simpl. auto.
Qed.

(** ** Concrete calls *)

Definition demo_handle (status : TxStatus) : TxHandle :=
  mkHandle 77 9 (TxIntent_transfer 1 9 8 5) 3 0 status GasEnvelope_DEFAULT [] [] 0 false
    SubmissionOpts_default None.
Definition demo_scope : NonceScope := eoa 9.

(** A handle is persisted, a write fails, a nonce is stored, the handle settles. *)
Definition demo_calls : list (option StateStoreError * store_op) :=
  [(None, S_Put (demo_handle Sent)); (Some (Backend "disk"), S_Put (demo_handle Replaced));
   (None, S_Pending 9); (None, S_Cas demo_scope 0 (mkNonceState 1 ∅) SINGLE_WRITER);
   (None, S_Load demo_scope); (None, S_Put (demo_handle (Confirmed 12))); (None, S_Pending 9);
   (None, S_Get 77)].

Definition demo_results : list store_res :=
  [R_Put (Ok tt); R_Put (Err (Backend "disk")); R_Pending (Ok [demo_handle Sent]); R_Cas (Ok true);
   R_Load (Ok (mkVersioned (mkNonceState 1 ∅) 1)); R_Put (Ok tt); R_Pending (Ok []);
   R_Get (Ok (Some (demo_handle (Confirmed 12))))].

Lemma demo_reference : reference_run demo_calls InMemoryStateStore_default = demo_results.
Proof. vm_compute. reflexivity. Qed.

Lemma demo_calls_agree f h f' h' :
  (f, S_Put h) ∈ demo_calls -> (f', S_Put h') ∈ demo_calls ->
  th_id h' = th_id h -> th_account h' = th_account h.
Proof.
  assert (Hall : Forall (fun c : option StateStoreError * store_op =>
    match snd c with S_Put h => th_account h = 9 | _ => True end) demo_calls).
  { repeat constructor. }
  intros Hin%list_elem_of_In Hin'%list_elem_of_In _.
  apply (proj1 (Forall_forall _ _) Hall) in Hin. apply (proj1 (Forall_forall _ _) Hall) in Hin'.
  simpl in *. congruence.
Qed.

Lemma demo_calls_valid fits :
  fits 0 SINGLE_WRITER -> Forall (fun c => op_valid fits (snd c)) demo_calls.
Proof.
  intros Hf. repeat constructor; simpl; unfold is_address, handle_valid, is_uint, u256_max; simpl; try done.
Qed.

Lemma redb_refines_memory_witness :
  Forall2 res_equiv (store_run redb_store demo_calls redb_open) demo_results.
Proof.
  rewrite <- demo_reference. apply redb_refines_memory.
  - apply demo_calls_valid. exact I.
  - exact demo_calls_agree.
Defined.

Lemma postgres_refines_memory_witness :
  Forall2 res_equiv (store_run postgres_store demo_calls postgres_connect) demo_results.
Proof.
  rewrite <- demo_reference. assert (E : map (refuse wide_caps) demo_calls = demo_calls) by reflexivity.
  rewrite <- E at 2. apply postgres_refines_memory.
  - apply demo_calls_valid. split; vm_compute; split; congruence.
  - exact demo_calls_agree.
Defined.

Lemma memory_implements_cell_witness :
  exists log', store_step 0 (mkStore Versioned_default [])
    (CasNonceState demo_scope 0 (mkNonceState 1 ∅) SINGLE_WRITER) (Ok true)
    (mkStore (mkVersioned (mkNonceState 1 ∅) 1) log').
Proof.
  destruct (memory_implements_cell 0 demo_scope 0 (mkNonceState 1 ∅) InMemoryStateStore_default [])
    as [_ H].
  - intros v f Hl. simpl in Hl. by apply lookup_empty_Some in Hl.
  - vm_compute. reflexivity.
  - vm_compute. discriminate.
  - destruct H as [H _]. exact H.
Defined.

(** A fence of [2^63] or more, which the port allows, is read back as a negative
    [BIGINT]: the Postgres store then fences out a newer owner that the in-memory
    store admits. *)
Theorem postgres_high_fence_rejected (state : NonceState) :
  let newer := mkFence (2 ^ 63) in
  fence_ltb SINGLE_WRITER newer = true /\
  fst (memory_cas_nonce_state demo_scope 0 state newer InMemoryStateStore_default) = Ok true /\
  fst (postgres_cas_nonce_state None demo_scope 0 state newer postgres_connect) = Err Fenced.
Proof. split_and!; vm_compute; reflexivity. Qed.
