(* ===== verification/Progress.v ===== *)
(** * Progress: what confirm passes make of the store

    The confirm phase of [src/src/core/wallet/executor/mod.rs] run on the in-memory store
    against nodes that answer.  Each pass maps the stored handles of its account through
    one cycle of the pure machine of [Lifecycle], and any number of passes is a run of that
    machine; so a handle settles in the store as soon as the chain's evidence is final.
    The nonce reset that opens a pass is the manager's own loop over the same store. *)
From S2P Require Import Prelude Effects Primitives ModelAlloy Errors Ports Lifecycle GasOracle Policy.
From S2P Require Import Signer Signing TransactionManager Executor Nonce NoncePool Store ModelSerde StoreSpec.

(** ** Evaluating a program *)

Section Eval.
Context {S : Type} (h : forall p, S -> resp p * S).

Definition eval {T} (m : io T) (s : S) : T * S := fst (run h m s []).

Lemma run_history {T} (m : io T) s tr tr' : fst (run h m s tr) = fst (run h m s tr').
Proof using Type.
  revert s tr tr'. induction m as [a|p k IH]; intros s tr tr'; simpl; [done|].
  destruct (h p s) as [r s']. apply IH.
Qed.

Lemma eval_call {T} p (k : resp p -> io T) s : eval (Call p k) s = let '(r, s') := h p s in eval (k r) s'.
Proof using Type. unfold eval. simpl. destruct (h p s) as [r s']. apply run_history. Qed.

Lemma eval_bind {T U} (m : io T) (f : T -> io U) s :
  eval (bind m f) s = let '(a, s') := eval m s in eval (f a) s'.
Proof using Type.
  revert s. induction m as [a|p k IH]; intros s; [done|]. cbn [bind]. rewrite !eval_call.
  destruct (h p s) as [r s']. apply IH.
Qed.
End Eval.

(** ** A node that answers *)

Record chain : Type := mkChain {
  ch_latest : Z;
  ch_finalized : option Z;
  ch_mined : Z;   (* the account's transaction count *)
  ch_receipt : TxHash -> option TransactionReceipt;
  ch_block_hash : Z -> option B256;
}.

(** The manager's reset over the store, with nobody else writing: its first round commits. *)
Definition store_world (p : port) (m : InMemoryStateStore) : resp p * InMemoryStateStore :=
  match p return resp p * InMemoryStateStore with
  | LoadNonceState scope => (memory_load_nonce_state scope m, m)
  | CasNonceState scope version state fence => memory_cas_nonce_state scope version state fence m
  | q => (offline q, m)
  end.
Definition local_reset (account : Address) (next : Z) (m : InMemoryStateStore)
  : result unit NonceManagerError * InMemoryStateStore :=
  let '(r, m', _) := run store_world (reset LocalNonceManager_new 1 account next) m [] in
  (match r with Some r => r | None => Err (Nonce_Rpc offline_rpc) end, m').

Definition chain_world (c : chain) (p : port) (m : InMemoryStateStore) : resp p * InMemoryStateStore :=
  match p return resp p * InMemoryStateStore with
  | BlockNumber => (Ok (ch_latest c), m)
  | TxCount _ => (Ok (ch_mined c), m)
  | FinalizedBlock => (Ok (ch_finalized c), m)
  | Receipt t => (Ok (ch_receipt c t), m)
  | BlockHash n => (Ok (ch_block_hash c n), m)
  | ResetNonce a n => local_reset a n m
  | PutHandle h => memory_put_handle h m
  | PendingHandles a => (memory_pending_handles a m, m)
  | GetHandle id => (memory_handle id m, m)
  | q => (offline q, m)
  end.

(** The account's cell was written by the single writer the managers are. *)
Definition single_writer (account : Address) (m : InMemoryStateStore) : Prop :=
  forall v f, mem_nonces m !! eoa account = Some (v, f) -> f = SINGLE_WRITER.

(** The store after a reset: the account's cell, and nothing else, moved on. *)
Definition reset_in (account : Address) (next : Z) (m : InMemoryStateStore) : InMemoryStateStore :=
  let cell := cell_of (eoa account) m in
  mkMemory (<[eoa account := (mkVersioned (reset_state (v_value cell) next)
                                (wrapping_add u64_max (v_version cell) 1), SINGLE_WRITER)]> (mem_nonces m))
    (mem_handles m).

Lemma local_reset_spec account next m :
  single_writer account m -> local_reset account next m = (Ok tt, reset_in account next m).
Proof.
  intros Hf. unfold local_reset, reset, reset_body, cas, memory_load_nonce_state, reset_in, cell_of.
  cbn. unfold memory_cas_nonce_state.
  destruct (mem_nonces m !! eoa account) as [[[value version] f]|] eqn:Hl; cbn.
  - rewrite (Hf _ _ Hl). change (fence_ltb SINGLE_WRITER SINGLE_WRITER) with false. by rewrite Z.eqb_refl.
  - reflexivity.
Qed.

Lemma reset_in_single_writer account next m : single_writer account (reset_in account next m).
Proof. intros v f. simpl. rewrite lookup_insert_eq. by intros [= _ <-]. Qed.

(** The event the chain shows for a handle: its newest broadcast with a receipt, if that
    is anchored in the canonical chain; else whether its nonce is consumed. *)
Definition anchored {A : Alloy} (c : chain) (receipt : TransactionReceipt) (h : TxHandle) : ChainEvent :=
  match receipt_block_number receipt, receipt_block_hash receipt with
  | Some block, Some block_hash =>
      if decide (ch_block_hash c block = Some block_hash)
      then Ev_Mined block block_hash (outcome_of receipt h) else Ev_Unknown
  | _, _ => Ev_Unknown
  end.
Definition chain_event {A : Alloy} (c : chain) (h : TxHandle) : ChainEvent :=
  match head (omap (ch_receipt c) (rev (th_broadcasts h))) with
  | Some receipt => anchored c receipt h
  | None => if th_nonce h <? ch_mined c then Ev_Replaced else Ev_Pending
  end.

Section Pass.
Context {A : Alloy}.
Context (self : AccountExecutor).

Definition chain_cycle (c : chain) : Cycle :=
  mkExecCycle (mkView (ch_latest c) (default 0 (ch_finalized c)))
    (mkFinality (match ch_finalized c with Some _ => Finalized | None => Depth end)
       (ex_required_confirmations self))
    (ch_mined c).

(** One cycle of the machine on a handle; a handle a managed relay still holds waits. *)
Definition observed (c : chain) (h : TxHandle) : cycle :=
  mkCycle (if is_awaiting_relay h then Ev_Unknown else chain_event c h)
    (cyc_view (chain_cycle c)) (cyc_finality (chain_cycle c)).
Definition stepped (c : chain) (h : TxHandle) : TxHandle :=
  set_status (settle_status (th_cancelled h) (advance (th_status h) (observed c h))) h.

(** The pass goes ahead: the heads did not go back. *)
Definition heads_ok (last : Z) (c : chain) : Prop :=
  last <= ch_latest c /\ default 0 (ch_finalized c) <= ch_latest c.

(** ** One pass *)

Context (Hrefill : ex_refill self = None) (Hrelay : ex_relay self = false).

Lemma eval_event_scan c hashes h m :
  eval (chain_world c) (event_scan hashes h (ch_mined c)) m =
  (match head (omap (ch_receipt c) hashes) with
   | Some receipt => anchored c receipt h
   | None => if th_nonce h <? ch_mined c then Ev_Replaced else Ev_Pending
   end, m).
Proof using Type.
  induction hashes as [|x hashes IH]; [done|]. cbn [event_scan]. wp_simpl. rewrite eval_call. simpl.
  destruct (ch_receipt c x) as [receipt|]; [|exact IH].
  cbn [list.head]. unfold anchor, anchored. destruct (receipt_block_number receipt) as [b|], (receipt_block_hash receipt) as [bh|];
    [|reflexivity..]. wp_simpl. rewrite eval_call. simpl. destruct (ch_block_hash c b) as [canonical|]; [|done].
  destruct (canonical =? bh) eqn:E; bool_simpl; [subst|]; case_decide; naive_solver.
Qed.

Lemma settle_status_nonterminal cancelled st : is_terminal st = false -> settle_status cancelled st = st.
Proof using Type. by destruct st. Qed.

Lemma set_status_same h : set_status (th_status h) h = h.
Proof using Type. by destruct h. Qed.

(** A step that changes nothing is no write. *)
Lemma stepped_same c h :
  is_terminal (th_status h) = false ->
  transition (th_status h) (cy_event (observed c h)) (cy_view (observed c h)) (cy_cfg (observed c h)) = None ->
  stepped c h = h.
Proof using Type.
  intros Ht Hn. unfold stepped, advance. rewrite Hn. simpl. rewrite settle_status_nonterminal by done.
  apply set_status_same.
Qed.

Lemma eval_advance c h st m :
  is_terminal (th_status h) = false -> mem_handles m !! th_id h = Some h ->
  exists st', eval (chain_world c) (advance_handle self h (chain_cycle c) st) m =
    (st', snd (memory_put_handle (stepped c h) m)) /\ es_last_latest st' = es_last_latest st.
Proof using Hrefill Hrelay.
  intros Ht Hm.
  assert (Hput : stepped c h = h -> snd (memory_put_handle (stepped c h) m) = m).
  { intros ->. unfold memory_put_handle. simpl. rewrite insert_id by done. by destruct m. }
  unfold advance_handle. destruct (is_awaiting_relay h) eqn:Haw.
  - exists st. split; [|done]. unfold poll_task. rewrite Hrelay. rewrite Hput; [done|].
    apply stepped_same; [done|]. unfold observed. rewrite Haw. simpl. unfold transition. by rewrite Ht.
  - unfold advance_on_chain, event_for. rewrite eval_bind. cbn [cyc_mined_nonce chain_cycle].
    rewrite eval_event_scan. fold (chain_event c h).
    destruct (transition _ _ _ _) as [next|] eqn:Hn.
    + rewrite eval_bind. unfold call. rewrite eval_call. simpl.
      assert (Hst : stepped c h = set_status (settle_status (th_cancelled h) next) h).
      { unfold stepped, advance, observed. rewrite Haw. cbn [cy_event cy_view cy_cfg]. by rewrite Hn. }
      rewrite Hst. destruct (is_terminal (settle_status _ _)); [|exists st; split; reflexivity].
      unfold on_settled. rewrite Hrefill. exists (forget (th_id h) st). split; reflexivity.
    + exists st. split; [|done]. rewrite Hput; [done|]. apply stepped_same; [done|].
      unfold observed. by rewrite Haw.
Qed.

(** The handles of [l] written in turn. *)
Definition write_all (c : chain) (l : list TxHandle) (m : InMemoryStateStore) : InMemoryStateStore :=
  fold_left (fun m h => snd (memory_put_handle (stepped c h) m)) l m.

Lemma eval_advance_all c l st m :
  NoDup (map th_id l) -> (forall h, h ∈ l -> is_terminal (th_status h) = false /\ mem_handles m !! th_id h = Some h) ->
  exists st', eval (chain_world c) (for_each l st (fun h st => advance_handle self h (chain_cycle c) st)) m =
    (st', write_all c l m) /\ es_last_latest st' = es_last_latest st.
Proof using Hrefill Hrelay.
  revert st m. induction l as [|h l IH]; intros st m Hd Hl; [by exists st|].
  apply list.NoDup_cons in Hd as [Hni Hd]. destruct (Hl h) as [Ht Hm]; [constructor|].
  destruct (eval_advance c h st m Ht Hm) as (st1 & He & Hs1). cbn [for_each]. rewrite eval_bind, He.
  destruct (IH st1 (snd (memory_put_handle (stepped c h) m)) Hd) as (st2 & He2 & Hs2).
  - intros h' Hin. destruct (Hl h') as [Ht' Hm']; [by constructor|]. split; [done|].
    simpl. rewrite lookup_insert_ne; [done|]. intros E. apply Hni. rewrite E.
    by apply list_elem_of_fmap_2.
  - exists st2. split; [exact He2|congruence].
Qed.

Lemma write_all_lookup c l m id :
  NoDup (map th_id l) ->
  mem_nonces (write_all c l m) = mem_nonces m /\
  ((forall h, h ∈ l -> th_id h <> id) -> mem_handles (write_all c l m) !! id = mem_handles m !! id) /\
  (forall h, h ∈ l -> th_id h = id -> mem_handles (write_all c l m) !! id = Some (stepped c h)).
Proof using Type.
  revert m. induction l as [|h l IH]; intros m Hd.
  { split_and!; [done..|]. by intros h ?%not_elem_of_nil. }
  apply list.NoDup_cons in Hd as [Hni Hd].
  destruct (IH (snd (memory_put_handle (stepped c h) m)) Hd) as (Hn & Hout & Hin). split_and!.
  - exact Hn.
  - intros Hne. cbn [write_all fold_left]. etransitivity; [apply Hout; intros h' Hh'; apply Hne; by constructor|].
    simpl. rewrite lookup_insert_ne; [done|]. apply Hne. constructor.
  - intros h' [->|Hh']%elem_of_cons Hid; [|by apply Hin].
    etransitivity; [apply Hout|simpl; rewrite Hid; apply lookup_insert_eq].
    intros h' Hh' E. apply Hni. rewrite Hid, <- E. by apply list_elem_of_fmap_2.
Qed.

(** The account's pending handles stepped, the rest untouched. *)
Definition stepped_all (c : chain) (m : InMemoryStateStore) : InMemoryStateStore :=
  mkMemory (mem_nonces m)
    ((fun h => if is_pending_of (ex_account self) h then stepped c h else h) <$> mem_handles m).

(** The store after a pass: the nonces reset, then the handles stepped. *)
Definition passed (c : chain) (m : InMemoryStateStore) : InMemoryStateStore :=
  stepped_all c (reset_in (ex_account self) (ch_mined c) m).

Definition named_by_id (m : InMemoryStateStore) : Prop := map_Forall (fun id h => th_id h = id) (mem_handles m).

Lemma pending_list m :
  named_by_id m ->
  let l := filter (fun h => is_pending_of (ex_account self) h = true) (map snd (map_to_list (mem_handles m))) in
  NoDup (map th_id l) /\
  forall h, h ∈ l <-> mem_handles m !! th_id h = Some h /\ is_pending_of (ex_account self) h = true.
Proof using Type.
  intros Hm l.
  assert (Hin : forall h, h ∈ l <-> mem_handles m !! th_id h = Some h /\ is_pending_of (ex_account self) h = true).
  { intros h. unfold l. rewrite list_elem_of_filter, list_elem_of_fmap. split.
    - intros [Hp ([id h'] & -> & Hh%elem_of_map_to_list)]. simpl in *. by rewrite (Hm id h' Hh).
    - intros [Hh Hp]. split; [done|]. exists (th_id h, h). split; [done|]. by apply elem_of_map_to_list. }
  split; [|done]. unfold l.
  assert (E : map th_id (map snd (map_to_list (mem_handles m))) = map fst (map_to_list (mem_handles m))).
  { rewrite map_map. apply map_ext_in. intros [id h] Hh%list_elem_of_In%elem_of_map_to_list. by apply Hm. }
  eapply sublist_NoDup; [|apply (fmap_sublist th_id), sublist_filter]. change (fmap th_id) with (map th_id). rewrite E. apply NoDup_fst_map_to_list.
Qed.

Lemma write_all_stepped c l m :
  named_by_id m -> NoDup (map th_id l) ->
  (forall h, h ∈ l <-> mem_handles m !! th_id h = Some h /\ is_pending_of (ex_account self) h = true) ->
  write_all c l m = stepped_all c m.
Proof using Type.
  intros Hm Hd Hin. destruct (write_all_lookup c l m 0 Hd) as [Hn _]. unfold stepped_all. rewrite <- Hn.
  destruct (write_all c l m) as [nonces handles] eqn:E. simpl. f_equal. apply map_eq. intros id.
  rewrite lookup_fmap. destruct (write_all_lookup c l m id Hd) as (_ & Hout & Hins). rewrite E in *. simpl in *.
  destruct (mem_handles m !! id) as [h|] eqn:Hh; simpl.
  - pose proof (Hm id h Hh) as Hid. simpl in Hid. destruct (is_pending_of (ex_account self) h) eqn:Hp.
    + apply Hins; [|done]. apply Hin. by rewrite Hid.
    + apply Hout. intros h' [Hh' Hp']%Hin Hid'. rewrite Hid', Hh in Hh'. injection Hh' as <-. congruence.
  - apply Hout. intros h' [Hh' _]%Hin Hid'. rewrite Hid', Hh in Hh'. done.
Qed.

Lemma eval_confirm c st m :
  named_by_id m -> single_writer (ex_account self) m -> heads_ok (es_last_latest st) c ->
  exists st', eval (chain_world c) (confirm self st) m = ((Ok tt, st'), passed c m) /\
    es_last_latest st' = ch_latest c.
Proof using Hrefill Hrelay.
  intros Hm Hsw [Hlast Hfin]. unfold confirm, read_cycle. cbn [bind call].
  do 2 (rewrite eval_call; cbn [chain_world bind]). rewrite (proj2 (Z.ltb_ge _ _) Hlast). cbn [bind].
  rewrite eval_call. cbn [chain_world bind]. rewrite (proj2 (Z.ltb_ge _ _) Hfin). cbn [bind].
  rewrite eval_call. cbn [chain_world bind cyc_mined_nonce]. rewrite local_reset_spec by done.
  set (m1 := reset_in _ _ m). assert (Hm1 : named_by_id m1) by exact Hm.
  rewrite eval_call. cbn [chain_world memory_pending_handles].
  destruct (pending_list m1 Hm1) as [Hd Hin]. set (l := filter _ _) in *. rewrite eval_bind.
  destruct (eval_advance_all c l (saw_latest (ch_latest c) st) m1 Hd) as (st' & He & Hs).
  { intros h [Hh Hp]%Hin. split; [|done]. unfold is_pending_of in Hp. by bool_simpl. }
  change (mkExecCycle _ _ _) with (chain_cycle c). rewrite He. exists st'. split; [|exact Hs].
  change (eval _ (Ret (Ok tt, st')) (write_all c l m1)) with ((@Ok unit ExecutorError tt, st'), write_all c l m1).
  f_equal. apply write_all_stepped; done.
Qed.

(** ** Any number of passes *)

(** The passes against the nodes of [cs] in turn; [None] if one of them fails. *)
Fixpoint confirm_passes (cs : list chain) (st : exec_state) (m : InMemoryStateStore)
  : option (exec_state * InMemoryStateStore) :=
  match cs with
  | [] => Some (st, m)
  | c :: cs' =>
      match eval (chain_world c) (confirm self st) m with
      | (Ok _, st', m') => confirm_passes cs' st' m'
      | _ => None
      end
  end.
Fixpoint heads_in_order (last : Z) (cs : list chain) : Prop :=
  match cs with
  | [] => True
  | c :: cs' => heads_ok last c /\ heads_in_order (ch_latest c) cs'
  end.

(** A pending handle after the passes: its status run through the machine. *)
Definition tracked (cs : list chain) (h : TxHandle) : TxHandle :=
  if is_pending_of (ex_account self) h
  then set_status (settle_status (th_cancelled h)
         (lifecycle_run (th_status h) (map (fun c => observed c h) cs))) h
  else h.

Lemma settle_status_terminal cancelled st : is_terminal (settle_status cancelled st) = is_terminal st.
Proof using Type. by destruct st, cancelled. Qed.

Lemma tracked_cons c cs h :
  tracked cs (if is_pending_of (ex_account self) h then stepped c h else h) = tracked (c :: cs) h.
Proof using Type.
  unfold tracked. destruct (is_pending_of (ex_account self) h) eqn:Hp; [|by rewrite Hp].
  cbn [map]. rewrite lifecycle_run_cons. unfold stepped. set (s := advance _ _).
  unfold is_pending_of in *. cbn [set_status th_account th_status th_cancelled]. bool_simpl.
  rewrite settle_status_terminal. destruct (th_account h =? ex_account self) eqn:Ha; bool_simpl; [|done].
  destruct (is_terminal s) eqn:Ht; cbn [negb andb].
  - by rewrite lifecycle_run_terminal.
  - by rewrite (settle_status_nonterminal _ s Ht).
Qed.

Lemma passed_named c m : named_by_id m -> named_by_id (passed c m).
Proof using Type.
  intros Hm id h. simpl. rewrite lookup_fmap. destruct (mem_handles m !! id) as [h0|] eqn:Hh; [|done].
  intros [= <-]. rewrite <- (Hm id h0 Hh). by destruct (is_pending_of _ h0).
Qed.

(** The account's nonce state after the passes: reset to each count the node showed. *)
Definition nonces_after (cs : list chain) (v : NonceState) : NonceState :=
  fold_left (fun v c => reset_state v (ch_mined c)) cs v.

Lemma passed_cell c m :
  v_value (cell_of (eoa (ex_account self)) (passed c m)) =
    reset_state (v_value (cell_of (eoa (ex_account self)) m)) (ch_mined c).
Proof using Type. unfold passed, cell_of at 1. simpl. by rewrite lookup_insert_eq. Qed.

Lemma passes_tracked cs st m :
  named_by_id m -> single_writer (ex_account self) m -> heads_in_order (es_last_latest st) cs ->
  exists st' m', confirm_passes cs st m = Some (st', m') /\
    mem_handles m' = tracked cs <$> mem_handles m /\
    v_value (cell_of (eoa (ex_account self)) m') = nonces_after cs (v_value (cell_of (eoa (ex_account self)) m)) /\
    forall scope, scope <> eoa (ex_account self) -> mem_nonces m' !! scope = mem_nonces m !! scope.
Proof using Hrefill Hrelay.
  revert st m. induction cs as [|c cs IH]; intros st m Hm Hsw Hh.
  - exists st, m. split_and!; try done. apply map_eq. intros id. rewrite lookup_fmap.
    destruct (mem_handles m !! id) as [h|] eqn:E; [|done]. simpl. f_equal. unfold tracked.
    destruct (is_pending_of _ h) eqn:Hp; [|done]. unfold is_pending_of in Hp. bool_simpl. simpl.
    by rewrite settle_status_nonterminal, set_status_same.
  - destruct Hh as [Hc Hh]. destruct (eval_confirm c st m Hm Hsw Hc) as (st1 & He & Hs).
    rewrite <- Hs in Hh. destruct (IH st1 (passed c m) (passed_named c m Hm) (reset_in_single_writer _ _ _) Hh)
      as (st' & m' & Hp & Hm' & Hcell & Hn).
    exists st', m'. cbn [confirm_passes]. rewrite He. split_and!; [done| |by rewrite Hcell, passed_cell|].
    2: { intros scope Hne. rewrite Hn by done. simpl. by rewrite lookup_insert_ne. }
    rewrite Hm'. cbn [passed stepped_all reset_in mem_handles]. rewrite <- map_fmap_compose. apply map_fmap_ext.
    intros id h _. apply tracked_cons.
Qed.
End Pass.

(** C13: an executor without refill and without a managed relay, alone on its store, against
    nodes that answer every read, with heads that do not go back: confirm passes always
    succeed and leave in the store exactly what the pure machine computes.  Every pending
    handle of the account has the status of a run of the machine over what the chain
    showed of it, pass by pass; the account's nonce state is reset to the transaction count
    each pass read; no other handle and no other account's nonces change.  So a handle is settled in the
    store once some pass saw its transaction mined in a final canonical block, whatever the
    passes before and after saw; and a displaced one settles as replaced, or dropped if it
    was cancelled, at the first displaced pass for which the displacement is final. *)
Theorem confirm_passes_settle {A : Alloy} (self : AccountExecutor) (cs : list chain) (st : exec_state)
    (m : InMemoryStateStore) :
  ex_refill self = None -> ex_relay self = false ->
  named_by_id m -> single_writer (ex_account self) m -> heads_in_order (es_last_latest st) cs ->
  exists st' m', confirm_passes self cs st m = Some (st', m') /\
    mem_handles m' = tracked self cs <$> mem_handles m /\
    v_value (cell_of (eoa (ex_account self)) m') =
      nonces_after cs (v_value (cell_of (eoa (ex_account self)) m)) /\
    (forall scope, scope <> eoa (ex_account self) -> mem_nonces m' !! scope = mem_nonces m !! scope) /\
    forall id h cs1 c cs2, mem_handles m !! id = Some h -> is_pending_of (ex_account self) h = true ->
      is_awaiting_relay h = false -> cs = cs1 ++ c :: cs2 ->
      let cy := chain_cycle self c in
      exists h', mem_handles m' !! id = Some h' /\
        (forall b bh o, chain_event c h = Ev_Mined b bh o -> is_final b (cyc_view cy) (cyc_finality cy) = true ->
           is_terminal (th_status h') = true) /\
        (forall sb, th_status h = Replacing sb -> Forall (fun c => chain_event c h = Ev_Replaced) (cs1 ++ [c]) ->
           is_final sb (cyc_view cy) (cyc_finality cy) = true ->
           th_status h' = if th_cancelled h then Dropped else Replaced).
Proof.
  intros Hr Hl Hm Hsw Hh.
  destruct (passes_tracked self Hr Hl cs st m Hm Hsw Hh) as (st' & m' & Hp & Ht & Hcell & Hn).
  exists st', m'. split_and!; [done..|]. intros id h cs1 c cs2 Hid Hpend Haw -> cy.
  exists (tracked self (cs1 ++ c :: cs2) h). split_and!; [by rewrite Ht, lookup_fmap, Hid| |];
    unfold tracked; rewrite Hpend; cbn [set_status th_status]; rewrite map_app; cbn [map].
  - intros b bh o He Hf. rewrite settle_status_terminal.
    apply (proj1 (lifecycle_progress (th_status h) _ _ (observed self c h)) b bh o); [|exact Hf].
    unfold observed. by rewrite Haw.
  - intros sb Hs Hall Hf. apply Forall_app in Hall as [Hall [Hc _]%Forall_cons_1]. rewrite Hs.
    rewrite (proj2 (lifecycle_progress Sent _ _ _) sb); [by destruct (th_cancelled h)| | |exact Hf].
    + apply Forall_map. eapply list.Forall_impl; [exact Hall|]. intros c' Hc'. left. unfold observed.
      by rewrite Haw.
    + unfold observed. by rewrite Haw.
Qed.

Definition demo_tracked : TxHandle :=
  mkHandle 1 7 (mkIntent 1 7 (TxKind_Call 8) 0 [] None) 0 11 Sent GasEnvelope_DEFAULT [Byte.x02] [5] 0 false
    SubmissionOpts_default None.
Definition demo_settling : InMemoryStateStore := mkMemory ∅ {[1 := demo_tracked]}.
Definition demo_chain (latest : Z) : chain :=
  mkChain latest None 12 (fun t => if t =? 5 then Some (mkReceipt (Some 90) (Some 77) true []) else None)
    (fun _ => Some 77).

Lemma confirm_passes_settle_witness :
  exists st' m' h', confirm_passes (AccountExecutor_new User 7) [demo_chain 91; demo_chain 101] exec_state_new
      demo_settling = Some (st', m') /\
    mem_handles m' !! 1 = Some h' /\ is_terminal (th_status h') = true /\ th_status h' = Confirmed 90.
Proof.
  destruct (confirm_passes_settle (AccountExecutor_new User 7) [demo_chain 91; demo_chain 101] exec_state_new
    demo_settling eq_refl eq_refl) as (st' & m' & Hp & Ht & _ & _ & Hs).
  - apply map_Forall_singleton. reflexivity.
  - intros v f H. simpl in H. by apply lookup_empty_Some in H.
  - repeat split; vm_compute; discriminate.
  - destruct (Hs 1 demo_tracked [demo_chain 91] (demo_chain 101) []) as (h' & Hh' & Hm & _);
      [apply lookup_singleton_eq|reflexivity..|].
    exists st', m', h'. split; [exact Hp|]. split; [exact Hh'|].
    split; [apply (Hm 90 77 Executed); vm_compute; reflexivity|].
    rewrite Ht, lookup_fmap in Hh'. injection Hh' as <-. vm_compute. reflexivity.
Defined.
