(* ===== verification/Gelato.v ===== *)
(** * Gelato: the managed relay

    [src/src/adapters/relay/gelato.rs] and the gasless options of
    [src/src/core/deps/relay.rs].  Gelato submits a user's ERC-2771 call and pays; the
    adapter shapes the typed data the user signs, posts it with the sponsor key and
    polls the task.  reqwest, serde_json and alloy's text forms are parameters. *)
From stdpp Require Import pretty.
From S2P Require Import Prelude Effects Primitives ModelAlloy Errors Ports Submission.

(** ** Gasless options ([deps/relay.rs]) *)

Inductive FeeScheme : Type :=
| Sponsored (api_key : string)
| SyncFee (fee_token : Address).

Inductive NonceScheme : Type :=
| Sequential
| Concurrent.
Definition NonceScheme_default : NonceScheme := Sequential.

Record Gelato : Type := mkGelato {
  gelato_fee : FeeScheme;
  gelato_nonce : NonceScheme;
}.
Definition sponsored (api_key : string) : Gelato := mkGelato (Sponsored api_key) NonceScheme_default.
Definition sync_fee (fee_token : Address) : Gelato := mkGelato (SyncFee fee_token) NonceScheme_default.
Definition concurrent (g : Gelato) : Gelato := mkGelato (gelato_fee g) Concurrent.
Definition sequential (g : Gelato) : Gelato := mkGelato (gelato_fee g) Sequential.

Record SelfRelay : Type := mkSelfRelay { self_relay_submission : SubmissionOpts }.
Definition SelfRelay_new : SelfRelay := mkSelfRelay SubmissionOpts_default.
Definition SelfRelay_via (route : SubmissionOpts) : SelfRelay := mkSelfRelay route.

Inductive GaslessRoute : Type :=
| Gasless_SelfRelay (relay : SelfRelay)
| Gasless_Gelato.

(** A validity window in whole seconds. *)
Record Deadline : Type := mkDeadline { deadline_secs : Z }.
Definition Deadline_default : Deadline := mkDeadline 3600.

Record GaslessOpts : Type := mkGaslessOpts {
  go_route : GaslessRoute;
  go_deadline : Deadline;
}.
Definition gasless_of_route (route : GaslessRoute) : GaslessOpts := mkGaslessOpts route Deadline_default.
Definition gasless_of_self_relay (relay : SelfRelay) : GaslessOpts :=
  gasless_of_route (Gasless_SelfRelay relay).
Definition GaslessOpts_gelato : GaslessOpts := gasless_of_route Gasless_Gelato.

(** ** The four forwarders *)

Record GelatoDomain : Type := mkGelatoDomain {
  gd_name : string;
  gd_verifying_contract : Address;
}.

Definition SPONSORED_SEQUENTIAL : GelatoDomain :=
  mkGelatoDomain "GelatoRelay1BalanceERC2771" 0xd8253782c45a12053594b9deb72d8e8ab2fca54c.
Definition SPONSORED_CONCURRENT : GelatoDomain :=
  mkGelatoDomain "GelatoRelay1BalanceConcurrentERC2771" 0xc65d82ece367ef06bf2ab791b3f3cf037dc0e816.
Definition SYNC_FEE_SEQUENTIAL : GelatoDomain :=
  mkGelatoDomain "GelatoRelayERC2771" 0xb539068872230f20456cf38ec52ef2f91af4ae49.
Definition SYNC_FEE_CONCURRENT : GelatoDomain :=
  mkGelatoDomain "GelatoRelayConcurrentERC2771" 0x8598806401a63ddf52473f1b3c55bb9e33e2d73b.

(** ** Calls *)

Inductive Replay : Type :=
| Replay_Nonce (n : U256)
| Replay_Salt (salt : B256).

Record GelatoCall : Type := mkGelatoCall {
  gc_chain_id : Z;
  gc_target : Address;
  gc_data : Bytes;
  gc_user : Address;
  gc_replay : Replay;
  gc_deadline : U256;
}.
Definition GelatoCall_nonce (c : GelatoCall) : U256 :=
  match gc_replay c with Replay_Nonce n => n | Replay_Salt _ => 0 end.

Definition GELATO_BASE_URL : string := "https://api.gelato.digital".

Record GelatoRelay : Type := mkGelatoRelay {
  gr_fee : FeeScheme;
  gr_nonce : NonceScheme;
  gr_base_url : string;
}.
Definition GelatoRelay_new (config : Gelato) : GelatoRelay :=
  mkGelatoRelay (gelato_fee config) (gelato_nonce config) GELATO_BASE_URL.

Definition gelato_domain (self : GelatoRelay) : GelatoDomain :=
  match gr_fee self, gr_nonce self with
  | Sponsored _, Sequential => SPONSORED_SEQUENTIAL
  | Sponsored _, Concurrent => SPONSORED_CONCURRENT
  | SyncFee _, Sequential => SYNC_FEE_SEQUENTIAL
  | SyncFee _, Concurrent => SYNC_FEE_CONCURRENT
  end.

Definition verifying_contract (self : GelatoRelay) : Address :=
  gd_verifying_contract (gelato_domain self).

(** The [sol!] struct a fee scheme and replay protection sign: its name and the field
    that carries the replay protection. *)
Definition gelato_struct (fee : FeeScheme) (replay : Replay) : string * (string * SolValue) :=
  match fee, replay with
  | Sponsored _, Replay_Nonce n => ("SponsoredCallERC2771", ("userNonce", SolUint n))
  | SyncFee _, Replay_Nonce n => ("CallWithSyncFeeERC2771", ("userNonce", SolUint n))
  | Sponsored _, Replay_Salt s => ("SponsoredCallConcurrentERC2771", ("userSalt", SolBytes32 s))
  | SyncFee _, Replay_Salt s => ("CallWithSyncFeeConcurrentERC2771", ("userSalt", SolBytes32 s))
  end.

Definition gelato_typed_data (self : GelatoRelay) (c : GelatoCall) : TypedData :=
  let '(primary, replay_field) := gelato_struct (gr_fee self) (gc_replay c) in
  mkTypedData
    (mkDomain (Some (gd_name (gelato_domain self))) (Some "1") (Some (gc_chain_id c))
       (Some (verifying_contract self)))
    primary
    [("chainId", SolUint (gc_chain_id c)); ("target", SolAddress (gc_target c));
     ("data", SolBytes (gc_data c)); ("user", SolAddress (gc_user c)); replay_field;
     ("userDeadline", SolUint (gc_deadline c))].

(** A task status as Gelato reports it. *)
Record TaskStatus : Type := mkTaskStatus {
  ts_task_state : string;
  ts_transaction_hash : option string;
  ts_last_check_message : option string;
}.

(** A [reqwest] error: the request may have reached Gelato. *)
Definition gelato_net_err (e : string) : RelayError := Relay_Rpc (RpcError_Call e true).

Section Gelato.
Context {A : Alloy}.
(** The [sol!] encoder of [userNonce(address)]. *)
Context (abi_user_nonce : Address -> Bytes).
(** [Display] of addresses, byte strings, 32-byte words and HTTP statuses. *)
Context (address_display : Address -> string) (bytes_display : Bytes -> string).
Context (b256_display : B256 -> string) (status_display : Z -> string).
(** serde_json's reading of the two response bodies, and [TxHash::from_str]. *)
Context (parse_relay_response : string -> option string).
Context (parse_status_envelope : string -> option TaskStatus).
Context (parse_tx_hash : string -> option TxHash).

Definition concurrent_salt (user : Address) (data : Bytes) (deadline : U256) : B256 :=
  keccak256 (Z_to_be 20 user ++ Z_to_be 32 deadline ++ data).

Definition user_nonce (self : GelatoRelay) (user : Address) : io (result U256 RelayError) :=
  let request := mkRequest None (Some (TxKind_Call (verifying_contract self))) None (abi_user_nonce user) in
  let? simulated := map_err Relay_Rpc (call (EthCall request)) in
  Ret match simulated with
      | Returned bytes =>
          if (32 <=? length bytes)%nat then Ok (be_to_Z (take 32 bytes))
          else Err (Forwarder "userNonce() returned undecodable data — not a Gelato ERC-2771 forwarder")
      | Reverted_ _ =>
          Err (Forwarder "userNonce() reverted — no Gelato ERC-2771 forwarder at the expected address on this chain")
      end.

Definition build_call (self : GelatoRelay) (intent : TxIntent) (deadline : U256)
  : io (result GelatoCall RelayError) :=
  if negb (ti_value intent =? 0) then
    Ret (Err (Rejected "Gelato ERC-2771 relay cannot forward ETH value (msg.value must be 0)"))
  else
    match ti_to intent with
    | TxKind_Create => Ret (Err (Rejected "contract creation cannot be relayed via ERC-2771"))
    | TxKind_Call target =>
        let? replay :=
          match gr_nonce self with
          | Sequential =>
              let? n := user_nonce self (ti_account intent) in Ret (Ok (Replay_Nonce n))
          | Concurrent =>
              Ret (Ok (Replay_Salt (concurrent_salt (ti_account intent) (ti_input intent) deadline)))
          end in
        Ret (Ok (mkGelatoCall (ti_chain_id intent) target (ti_input intent) (ti_account intent)
                   replay deadline))
    end.

Definition endpoint (self : GelatoRelay) : string :=
  match gr_fee self with
  | Sponsored _ => "sponsored-call-erc2771"
  | SyncFee _ => "call-with-sync-fee-erc2771"
  end.

(** The JSON object posted for a signed call. *)
Definition relay_body (self : GelatoRelay) (c : GelatoCall) (signature : SignatureEnvelope)
  : list (string * JsonValue) :=
  [("chainId", JString (pretty (gc_chain_id c)));
   ("target", JString (address_display (gc_target c)));
   ("data", JString (bytes_display (gc_data c)));
   ("user", JString (address_display (gc_user c)));
   ("userDeadline", JString (pretty (gc_deadline c)));
   ("userSignature", JString ("0x" ++ hex_of_bytes (SignatureEnvelope_as_bytes signature))%string)]
  ++ match gc_replay c with
     | Replay_Nonce n => [("userNonce", JString (pretty n)); ("isConcurrent", JBool false)]
     | Replay_Salt s => [("userSalt", JString (b256_display s)); ("isConcurrent", JBool true)]
     end
  ++ match gr_fee self with
     | Sponsored api_key => [("sponsorApiKey", JString api_key)]
     | SyncFee fee_token => [("feeToken", JString (address_display fee_token)); ("isRelayContext", JBool true)]
     end.

Definition relay_url (self : GelatoRelay) : string :=
  (gr_base_url self ++ "/relays/v2/" ++ endpoint self)%string.

(** What Gelato's answer to a post is turned into. *)
Definition relay_answer (resp : HttpResponse) : result TaskId RelayError :=
  match classify_status (http_status resp) with
  | Unauthorized => Err (Rejected ("Gelato rejected credentials: " ++ clip (http_body resp)))
  | Transient =>
      Err (Relay_Rpc (RpcError_Call ("Gelato " ++ status_display (http_status resp) ++ ": "
                                       ++ clip (http_body resp)) true))
  | Body =>
      match parse_relay_response (http_body resp) with
      | None => Err (Rejected ("Gelato: unexpected relay response: " ++ clip (http_body resp)))
      | Some task_id => Ok (mkTaskId task_id)
      end
  end%string.

Definition gelato_submit (self : GelatoRelay) (c : GelatoCall) (signature : SignatureEnvelope)
  : io (result TaskId RelayError) :=
  let? resp := map_err gelato_net_err (call (HttpPost (relay_url self) (relay_body self c signature))) in
  Ret (relay_answer resp).

Lemma relay_answer_accepted {E} (f : RelayError -> E) resp task :
  map_res_err f (relay_answer resp) = Ok task ->
  classify_status (http_status resp) = Body /\ parse_relay_response (http_body resp) = Some (task_str task).
Proof.
  unfold relay_answer. destruct (classify_status _); [done..|].
  destruct (parse_relay_response _); simpl; [|done]. by intros [= <-].
Qed.

Lemma relay_answer_refused {E} (f : RelayError -> E) resp e task :
  map_res_err f (relay_answer resp) = Err e ->
  classify_status (http_status resp) = Body -> parse_relay_response (http_body resp) = Some task -> False.
Proof. unfold relay_answer. intros H Hc Hp. rewrite Hc, Hp in H. done. Qed.

Definition in_states (states : list string) (s : string) : bool := existsb (String.eqb s) states.

(** The verdict a task status is mapped to. *)
Definition task_verdict (task : TaskStatus) : RelayStatus :=
  let state := ts_task_state task in
  if in_states ["CheckPending"; "ExecPending"; "WaitingForConfirmation"] state then Relay_Pending
  else if in_states ["ExecSuccess"] state then
    match ts_transaction_hash task ≫= parse_tx_hash with
    | Some hash => Relay_Included hash
    | None => Relay_Pending
    end
  else if in_states ["ExecReverted"; "Cancelled"; "Blacklisted"; "NotFound"] state then
    Relay_Failed (default state (ts_last_check_message task))
  else Relay_Pending.

Definition parse_status (body : string) : result RelayStatus RelayError :=
  match parse_status_envelope body with
  | None =>
      Err (Relay_Rpc (RpcError_Call ("Gelato status: unparseable body: " ++ clip body)%string true))
  | Some task => Ok (task_verdict task)
  end.

Definition status_url (self : GelatoRelay) (task : TaskId) : string :=
  (gr_base_url self ++ "/tasks/status/" ++ task_str task)%string.

Definition poll (self : GelatoRelay) (task : TaskId) : io (result RelayStatus RelayError) :=
  let? resp := map_err gelato_net_err (call (HttpGet (status_url self task))) in
  Ret match classify_status (http_status resp) with
      | Unauthorized =>
          Err (Rejected ("Gelato status endpoint rejected: " ++ clip (http_body resp)))
      | Transient =>
          Err (Relay_Rpc (RpcError_Call ("Gelato status " ++ status_display (http_status resp) ++ ": "
                                           ++ clip (http_body resp)) true))
      | Body => parse_status (http_body resp)
      end%string.

(** ** Properties *)

(** Building a call reads at most the forwarder's counter for the intent's account. *)
Definition build_call_guard (self : GelatoRelay) (intent : TxIntent) (_ : history) (p : port) : Prop :=
  p = EthCall (mkRequest None (Some (TxKind_Call (verifying_contract self))) None
                 (abi_user_nonce (ti_account intent))) /\
  gr_nonce self = Sequential /\ ti_value intent = 0 /\ ti_to intent <> TxKind_Create.

(** Where a call's replay protection came from. *)
Definition replay_source (self : GelatoRelay) (intent : TxIntent) (deadline : U256) (new : history)
    (replay : Replay) : Prop :=
  match gr_nonce self with
  | Sequential => exists req ret, new = [existT (EthCall req) (Ok (Returned ret))] /\
      (32 <= length ret)%nat /\ replay = Replay_Nonce (be_to_Z (take 32 ret))
  | Concurrent => new = [] /\
      replay = Replay_Salt (keccak256 (Z_to_be 20 (ti_account intent) ++ Z_to_be 32 deadline ++ ti_input intent))
  end.

(** What a Gelato call is built from, for every node.  Value and contract creation
    are refused without a call; otherwise the one read made is the forwarder's counter
    for the user (none in concurrent mode), and the call carries the intent's own chain,
    target, data and account, the deadline, and that counter or the request's salt. *)
Theorem gelato_build_call_spec (self : GelatoRelay) (intent : TxIntent) (deadline : U256) (tr : history) :
  triple any_response (build_call_guard self intent) (build_call self intent deadline) tr (fun tr' r =>
    exists new, tr' = new ++ tr /\
    (ti_value intent <> 0 \/ ti_to intent = TxKind_Create ->
       new = [] /\ exists m, r = Err (Rejected m)) /\
    (forall c, r = Ok c -> ti_value intent = 0 /\ ti_to intent = TxKind_Call (gc_target c) /\
       gc_chain_id c = ti_chain_id intent /\ gc_data c = ti_input intent /\
       gc_user c = ti_account intent /\ gc_deadline c = deadline /\
       replay_source self intent deadline new (gc_replay c)) /\
    (forall e, r = Err e -> match e with
       | Rejected _ => ti_value intent <> 0 \/ ti_to intent = TxKind_Create
       | Relay_Rpc e' => exists req, new = [existT (EthCall req) (Err e')]
       | Forwarder _ => exists req s, new = [existT (EthCall req) (Ok s)]
       | _ => False end)).
Proof.
  unfold build_call, user_nonce, map_err, try_bind, replay_source.
  destruct (ti_value intent =? 0) eqn:Hv; bool_simpl; cbn [negb triple].
  2: { exists []. split_and!; [done|eauto|done|]. intros e [= <-]. auto. }
  destruct (ti_to intent) as [|target] eqn:Hto; cbn [triple].
  { exists []. split_and!; [done|eauto|done|]. intros e [= <-]. auto. }
  destruct (gr_nonce self) eqn:Hn; wp_simpl; cbn [triple].
  - split; [unfold build_call_guard; by rewrite Hto|]. intros [[ret|ret]|e] _; wp_simpl.
    + destruct (32 <=? length ret)%nat eqn:Hl; wp_simpl; cbn [triple].
      * apply Nat.leb_le in Hl. eexists [_]. split_and!; [done|by intros [?|?]| |done].
        intros c [= <-]. split_and!; simpl; eauto.
      * eexists [_]. split_and!; [done|by intros [?|?]|done|]. intros e [= <-]. eauto.
    + cbn [triple]. eexists [_]. split_and!; [done|by intros [?|?]|done|]. intros e [= <-]. eauto.
    + cbn [triple]. eexists [_]. split_and!; [done|by intros [?|?]|done|]. intros e' [= <-]. eauto.
  - exists []. split_and!; [done|by intros [?|?]| |done]. intros c [= <-]. done.
Qed.

Lemma in_states_spec states s : in_states states s = true <-> In s states.
Proof.
  unfold in_states. rewrite existsb_exists. split.
  - by intros (x & ? & ->%String.eqb_eq).
  - intros. exists s. by rewrite String.eqb_refl.
Qed.

Lemma task_verdict_spec (t : TaskStatus) :
  match task_verdict t with
  | Relay_Included hash => ts_task_state t = "ExecSuccess" /\
      exists text, ts_transaction_hash t = Some text /\ parse_tx_hash text = Some hash
  | Relay_Failed reason =>
      In (ts_task_state t) ["ExecReverted"; "Cancelled"; "Blacklisted"; "NotFound"] /\
      reason = default (ts_task_state t) (ts_last_check_message t)
  | Relay_Pending =>
      ~ In (ts_task_state t) ["ExecReverted"; "Cancelled"; "Blacklisted"; "NotFound"] /\
      (ts_task_state t = "ExecSuccess" -> ts_transaction_hash t ≫= parse_tx_hash = None)
  end.
Proof.
  unfold task_verdict.
  destruct (in_states ["CheckPending"; _; _] _) eqn:H1.
  { apply in_states_spec in H1. simpl in H1. split; [simpl|]; intros; intuition congruence. }
  destruct (in_states ["ExecSuccess"] _) eqn:H2.
  { apply in_states_spec in H2. destruct H2 as [<-|[]].
    destruct (ts_transaction_hash t) as [text|]; simpl; [destruct (parse_tx_hash text) eqn:Hh|].
    - eauto.
    - split; [intuition congruence|done].
    - split; [intuition congruence|done]. }
  destruct (in_states ["ExecReverted"; _; _; _] _) eqn:H3.
  { by apply in_states_spec in H3. }
  split; [by rewrite <- in_states_spec, H3|].
  intros Hs. rewrite Hs in H2. discriminate.
Qed.

(** One signature authorizes one Gelato call.  The typed data determines the whole
    call and the forwarder it is bound to: whatever the fee and replay schemes of two
    relays, equal typed data means the same call at the same forwarder. *)
Theorem gelato_signature_binds_call (r1 r2 : GelatoRelay) (c1 c2 : GelatoCall) :
  gelato_typed_data r1 c1 = gelato_typed_data r2 c2 ->
  c1 = c2 /\ gelato_domain r1 = gelato_domain r2 /\ verifying_contract r1 = verifying_contract r2.
Proof.
  unfold gelato_typed_data, verifying_contract, gelato_domain.
  destruct c1 as [? ? ? ? [] ?], c2 as [? ? ? ? [] ?], r1 as [[] [] ?], r2 as [[] [] ?];
    simpl; intros [=]; subst; done.
Qed.

End Gelato.

(** Two relays that differ in their sponsor key sign the same call at one forwarder. *)
Lemma gelato_signature_binds_call_witness :
  let call := mkGelatoCall 1 8 [] 7 (Replay_Nonce 4) 1060 in
  gelato_typed_data (GelatoRelay_new (sponsored "a")) call = gelato_typed_data (GelatoRelay_new (sponsored "b")) call /\
  verifying_contract (GelatoRelay_new (sponsored "a")) = verifying_contract (GelatoRelay_new (sponsored "b")).
Proof.
  intros call. split; [reflexivity|].
  apply (gelato_signature_binds_call (GelatoRelay_new (sponsored "a")) (GelatoRelay_new (sponsored "b")) call call).
  reflexivity.
Defined.
