(* ===== verification/Preview.v ===== *)
(** * Preview: simulating an intent without signing it

    [src/src/core/wallet/preview.rs].  [alloy_sol_types]' decoders of the two standard
    revert payloads are parameters; their selectors are Solidity's. *)
From S2P Require Import Prelude Effects Primitives Errors Ports TransactionManager.

Inductive RevertReason : Type :=
| Revert_Error (reason : string)
| Revert_Panic (code : Z)
| Revert_Custom (selector data : Bytes)
| Revert_Unknown (data : Bytes).

Inductive SimOutcome : Type :=
| Success
| Revert (reason : RevertReason).

Record TxPreview : Type := mkPreview {
  pv_gas_estimate : option Z;
  pv_outcome : SimOutcome;
  pv_access_list : option AccessList;
  pv_return_data : Bytes;
}.

(** [Error(string)] and [Panic(uint256)]. *)
Definition REVERT_SELECTOR : Bytes := Z_to_be 4 0x08c379a0.
Definition PANIC_SELECTOR : Bytes := Z_to_be 4 0x4e487b71.

Section Preview.
Context (decode_error : Bytes -> option string) (decode_panic : Bytes -> option U256).

Definition decode_revert (data : Bytes) : RevertReason :=
  if (length data <? 4)%nat then Revert_Unknown data
  else
    let selector := take 4 data in
    if decide (selector = REVERT_SELECTOR) then
      match decode_error data with
      | Some reason => Revert_Error reason
      | None => Revert_Unknown data
      end
    else if decide (selector = PANIC_SELECTOR) then
      match decode_panic data with
      | Some code => Revert_Panic (saturating_to u64_max code)
      | None => Revert_Unknown data
      end
    else Revert_Custom selector data.

Definition dry_run (intent : TxIntent) : io (result TxPreview RpcError) :=
  let request := intent_request intent in
  let? simulated := call (EthCall request) in
  let '(outcome, return_data) :=
    match simulated with
    | Returned data => (Success, data)
    | Reverted_ data => (Revert (decode_revert data), data)
    end in
  let* gas := call (EstimateGas request) in
  let* access := call (CreateAccessList request) in
  Ret (Ok (mkPreview (result_ok gas) outcome (result_ok access) return_data)).

(** The bytes a revert reason keeps, when it keeps them. *)
Definition kept_data (r : RevertReason) : option Bytes :=
  match r with Revert_Custom _ d | Revert_Unknown d => Some d | _ => None end.

(** A preview is read-only and never masks the outcome.  It makes only the three
    simulation calls for this very intent; it fails only when [eth_call] itself does; a
    revert is a successful preview carrying the raw payload; and the gas and access-list
    extras are what the node answered, absent when it failed.  A payload is called a
    custom error only when it starts with neither standard selector. *)
Theorem preview_outcome (intent : TxIntent) (tr : history) :
  triple any_response
    (fun _ p => In p [EthCall (intent_request intent); EstimateGas (intent_request intent);
                      CreateAccessList (intent_request intent)])
    (dry_run intent) tr (fun tr' r =>
      match r with
      | Err e => tr' = existT (EthCall (intent_request intent)) (Err e) :: tr
      | Ok pv => exists sim gas access,
          tr' = existT (CreateAccessList (intent_request intent)) access
             :: existT (EstimateGas (intent_request intent)) gas
             :: existT (EthCall (intent_request intent)) (Ok sim) :: tr /\
          pv_gas_estimate pv = result_ok gas /\ pv_access_list pv = result_ok access /\
          match sim with
          | Returned data => pv_outcome pv = Success /\ pv_return_data pv = data
          | Reverted_ data => exists reason, pv_outcome pv = Revert reason /\ pv_return_data pv = data /\
              (forall d, kept_data reason = Some d -> d = data) /\
              (forall sel d, reason = Revert_Custom sel d ->
                 sel = take 4 data /\ length sel = 4%nat /\
                 sel <> REVERT_SELECTOR /\ sel <> PANIC_SELECTOR)
          end
      end).
Proof.
  unfold dry_run, try_bind. wp_simpl. apply triple_call; [simpl; auto|].
  intros [sim|e] _; wp_simpl; [|done].
  destruct sim as [data|data]; wp_simpl.
  all: apply triple_call; [simpl; auto|]; intros gas _; wp_simpl.
  all: apply triple_call; [simpl; auto|]; intros access _; wp_simpl; cbn [triple].
  all: eexists _, gas, access; split_and!; [reflexivity..|].
  - done.
  - exists (decode_revert data). split_and!; [done..| |].
    + unfold decode_revert. intros d. repeat case_match; simpl; congruence.
    + unfold decode_revert. intros sel d. repeat case_match; try discriminate.
      intros [= <- <-]. split_and!; [done| |done..].
      rewrite length_take. apply Nat.ltb_ge in H. lia.
Qed.
End Preview.
