(* ===== verification/Facade.v ===== *)
(** * Facade: the composition root

    [src/src/facade.rs].  A builder collects the ports and knobs; [build] wires one
    account's send pipeline and executor, a router whose private arm exists only with a
    relay identity, and at most one gasless backend.  The wallet's operations are
    programs over ports; [wire] gives the ports the adapters the builder chose, so that
    theorems about the pipeline become theorems about the wired wallet.  The store, the
    clock, the node and the nonce manager's own retries stay ports. *)
From S2P Require Import Prelude Effects Primitives ModelAlloy Errors Ports GasOracle Policy Signer Signing.
From S2P Require Import TransactionManager Executor ExecutorSpec Submission Gelato Preview.

(** [trait Signer] and [trait PolicyEngine] as the wallet holds them. *)
Record SignerOps : Type := mkSignerOps {
  sg_address : Address;
  sg_sign_transaction : TxEip1559 -> IntentHash -> PolicyApproval -> Z -> io (result Signature SignerError);
  sg_sign_message : Bytes -> PolicyApproval -> Z -> io (result SignatureEnvelope SignerError);
  sg_sign_typed_data : TypedData -> PolicyApproval -> Z -> io (result SignatureEnvelope SignerError);
}.
Record PolicyEngine : Type := mkEngine {
  pe_evaluate : SigningRequest -> io (result Decision PolicyEngineError);
  pe_validate : SigningRequest -> io (result PolicyOutcome PolicyEngineError);
}.

(** The adapters of the crate as such objects. *)
Definition LocalSigner_ops {A : Alloy} (key : LocalSigner) : SignerOps := {|
  sg_address := ls_address key;
  sg_sign_transaction := fun tx ih a now => Ret (sign_transaction key tx ih a now);
  sg_sign_message := fun m a now => Ret (sign_message key m a now);
  sg_sign_typed_data := fun td a now => Ret (sign_typed_data key td a now);
|}.
Definition DefaultPolicyEngine_ops {A : Alloy} (engine : DefaultPolicyEngine) : PolicyEngine := {|
  pe_evaluate := evaluate engine;
  pe_validate := validate engine;
|}.

(** ** The builder *)

(** The relay identity signs request bodies. *)
Abbreviation RelayIdentity := (Bytes -> result string string).

Record WalletBuilder : Type := mkBuilder {
  wb_signer : SignerOps;
  wb_policy : PolicyEngine;
  wb_confirmations : option Z;
  wb_bump_timeout : option Z;
  wb_gas_ceiling : Z;
  wb_gas_buffer_pct : option Z;
  wb_refill_on_replaced : bool;
  wb_relay_identity : option RelayIdentity;
  wb_relayer : option SignerOps;
  wb_forwarder : option Address;
  wb_relayer_policy : option PolicyEngine;
  wb_gelato : option Gelato;
}.

(** [Wallet::builder]. *)
Definition builder (signer : SignerOps) (policy : PolicyEngine) : WalletBuilder :=
  mkBuilder signer policy None None u128_max None false None None None None None.

Definition set_confirmations (depth : Z) (b : WalletBuilder) : WalletBuilder :=
  mkBuilder (wb_signer b) (wb_policy b) (Some depth) (wb_bump_timeout b) (wb_gas_ceiling b)
    (wb_gas_buffer_pct b) (wb_refill_on_replaced b) (wb_relay_identity b) (wb_relayer b)
    (wb_forwarder b) (wb_relayer_policy b) (wb_gelato b).
Definition set_bump_timeout (secs : Z) (b : WalletBuilder) : WalletBuilder :=
  mkBuilder (wb_signer b) (wb_policy b) (wb_confirmations b) (Some secs) (wb_gas_ceiling b)
    (wb_gas_buffer_pct b) (wb_refill_on_replaced b) (wb_relay_identity b) (wb_relayer b)
    (wb_forwarder b) (wb_relayer_policy b) (wb_gelato b).
Definition set_gas_ceiling (wei : Z) (b : WalletBuilder) : WalletBuilder :=
  mkBuilder (wb_signer b) (wb_policy b) (wb_confirmations b) (wb_bump_timeout b) wei
    (wb_gas_buffer_pct b) (wb_refill_on_replaced b) (wb_relay_identity b) (wb_relayer b)
    (wb_forwarder b) (wb_relayer_policy b) (wb_gelato b).
Definition set_gas_buffer_pct (pct : Z) (b : WalletBuilder) : WalletBuilder :=
  mkBuilder (wb_signer b) (wb_policy b) (wb_confirmations b) (wb_bump_timeout b) (wb_gas_ceiling b)
    (Some pct) (wb_refill_on_replaced b) (wb_relay_identity b) (wb_relayer b)
    (wb_forwarder b) (wb_relayer_policy b) (wb_gelato b).
Definition set_refill_on_replaced (on : bool) (b : WalletBuilder) : WalletBuilder :=
  mkBuilder (wb_signer b) (wb_policy b) (wb_confirmations b) (wb_bump_timeout b) (wb_gas_ceiling b)
    (wb_gas_buffer_pct b) on (wb_relay_identity b) (wb_relayer b)
    (wb_forwarder b) (wb_relayer_policy b) (wb_gelato b).
Definition set_relay_identity (identity : RelayIdentity) (b : WalletBuilder) : WalletBuilder :=
  mkBuilder (wb_signer b) (wb_policy b) (wb_confirmations b) (wb_bump_timeout b) (wb_gas_ceiling b)
    (wb_gas_buffer_pct b) (wb_refill_on_replaced b) (Some identity) (wb_relayer b)
    (wb_forwarder b) (wb_relayer_policy b) (wb_gelato b).
Definition set_relayer (relayer : SignerOps) (b : WalletBuilder) : WalletBuilder :=
  mkBuilder (wb_signer b) (wb_policy b) (wb_confirmations b) (wb_bump_timeout b) (wb_gas_ceiling b)
    (wb_gas_buffer_pct b) (wb_refill_on_replaced b) (wb_relay_identity b) (Some relayer)
    (wb_forwarder b) (wb_relayer_policy b) (wb_gelato b).
Definition set_forwarder (forwarder : Address) (b : WalletBuilder) : WalletBuilder :=
  mkBuilder (wb_signer b) (wb_policy b) (wb_confirmations b) (wb_bump_timeout b) (wb_gas_ceiling b)
    (wb_gas_buffer_pct b) (wb_refill_on_replaced b) (wb_relay_identity b) (wb_relayer b)
    (Some forwarder) (wb_relayer_policy b) (wb_gelato b).
Definition set_relayer_policy (policy : PolicyEngine) (b : WalletBuilder) : WalletBuilder :=
  mkBuilder (wb_signer b) (wb_policy b) (wb_confirmations b) (wb_bump_timeout b) (wb_gas_ceiling b)
    (wb_gas_buffer_pct b) (wb_refill_on_replaced b) (wb_relay_identity b) (wb_relayer b)
    (wb_forwarder b) (Some policy) (wb_gelato b).
Definition set_gelato (gelato : Gelato) (b : WalletBuilder) : WalletBuilder :=
  mkBuilder (wb_signer b) (wb_policy b) (wb_confirmations b) (wb_bump_timeout b) (wb_gas_ceiling b)
    (wb_gas_buffer_pct b) (wb_refill_on_replaced b) (wb_relay_identity b) (wb_relayer b)
    (wb_forwarder b) (wb_relayer_policy b) (Some gelato).

(** ** The wallet *)

Record GaslessRuntime : Type := mkRuntime {
  rt_manager : TransactionManager;
  rt_executor : AccountExecutor;
  rt_forwarder : Address;
}.
Inductive GaslessBackend : Type :=
| Backend_SelfRelay (runtime : GaslessRuntime)
| Backend_Gelato (relay : GelatoRelay).

Record Wallet : Type := mkWallet {
  w_manager : TransactionManager;
  w_executor : AccountExecutor;
  w_account : Address;
  w_gasless : option GaslessBackend;
}.

(** [if let Some(x) = opt { e = e.with(x) }]. *)
Definition apply_if {T U} (f : T -> U -> U) (o : option T) (u : U) : U :=
  match o with Some x => f x u | None => u end.

(** The executors' memories, which live as long as the wallet. *)
Record wallet_state : Type := mkWalletState {
  ws_user : exec_state;
  ws_relayer : exec_state;
}.
Definition wallet_state_new : wallet_state := mkWalletState exec_state_new exec_state_new.

Section Facade.
Context {A : Alloy}.
(** The parameters of the private relays, Gelato and the preview. *)
Context (parse_response : string -> option JsonRpcResponse) (status_display : Z -> string).
Context (transport_url : Url -> result unit string).
Context (request_body : option Z -> option (bool * option (list string)) -> Bytes -> Bytes).
Context (abi_user_nonce : Address -> Bytes).
Context (address_display : Address -> string) (bytes_display : Bytes -> string) (b256_display : B256 -> string).
Context (parse_relay_response : string -> option string).
Context (parse_status_envelope : string -> option TaskStatus) (parse_tx_hash : string -> option TxHash).
Context (decode_error : Bytes -> option string) (decode_panic : Bytes -> option U256).

(** ** Wiring *)

(** Always a router; its private arm is present only with a relay identity. *)
Definition wallet_router (b : WalletBuilder) (cache : gset Url) : SubmissionStrategy :=
  Router PublicMempool
    ((fun id => PrivateMev parse_response status_display id transport_url request_body cache)
       <$> wb_relay_identity b).

Definition build (b : WalletBuilder) : Wallet :=
  let account := sg_address (wb_signer b) in
  let manager :=
    apply_if with_gas_buffer_pct (wb_gas_buffer_pct b)
      (TransactionManager_new User account (ss_supports_route (wallet_router b ∅))) in
  let executor := AccountExecutor_new User account in
  let executor := apply_if with_confirmations (wb_confirmations b) executor in
  let executor := apply_if with_bump_timeout (wb_bump_timeout b) executor in
  let executor := if wb_refill_on_replaced b then with_refill manager executor else executor in
  match wb_relayer b, wb_forwarder b, wb_gelato b with
  | Some relayer_signer, Some forwarder, _ =>
      let relayer_account := sg_address relayer_signer in
      let relayer_manager := TransactionManager_new Relayer relayer_account (ss_supports_route (wallet_router b ∅)) in
      let relayer_executor := AccountExecutor_new Relayer relayer_account in
      let relayer_executor := apply_if with_confirmations (wb_confirmations b) relayer_executor in
      let relayer_executor := apply_if with_bump_timeout (wb_bump_timeout b) relayer_executor in
      mkWallet manager executor account
        (Some (Backend_SelfRelay (mkRuntime relayer_manager relayer_executor forwarder)))
  | _, _, Some config =>
      mkWallet manager (with_relay executor) account (Some (Backend_Gelato (GelatoRelay_new config)))
  | _, _, _ => mkWallet manager executor account None
  end.

(** The policy and signer of each operated account; the relayer's policy defaults to
    permissive. *)
Definition policy_of (b : WalletBuilder) (who : principal) : PolicyEngine :=
  match who with
  | User => wb_policy b
  | Relayer =>
      default (DefaultPolicyEngine_ops (DefaultPolicyEngine_new [Box mkAllowAll]))
        (wb_relayer_policy b)
  end.
Definition signer_of (b : WalletBuilder) (who : principal) : SignerOps :=
  match who with User => wb_signer b | Relayer => default (wb_signer b) (wb_relayer b) end.

(** The ports as the wallet's adapters serve them, over the node, the relays, the store,
    the clock and the nonce manager; [cache] holds the Protect transports built so far. *)
Definition wire (b : WalletBuilder) (cache : gset Url) (p : port) : io (resp p) :=
  match p return io (resp p) with
  | GasEstimate => gas_estimate
  | GasBump prev => gas_bump (mkGasOracle (wb_gas_ceiling b)) prev
  | Evaluate who request => pe_evaluate (policy_of b who) request
  | Validate who request => pe_validate (policy_of b who) request
  | SignTransaction who tx ih a now => sg_sign_transaction (signer_of b who) tx ih a now
  | SignMessage who m a now => sg_sign_message (signer_of b who) m a now
  | SignTypedData who td a now => sg_sign_typed_data (signer_of b who) td a now
  | Submit rlp opts => ss_submit (wallet_router b cache) rlp opts
  | Poll task =>
      match wb_gelato b with
      | Some config =>
          poll status_display parse_status_envelope parse_tx_hash (GelatoRelay_new config) task
      | None => call (Poll task)
      end
  | q => call q
  end.

(** ** Operations *)

Definition wallet_send (w : Wallet) (intent : TxIntent) : io (result TxHandle WalletKitError) :=
  map_err WalletKitError_from_tm (send (w_manager w) intent).

Definition wallet_send_with (w : Wallet) (intent : TxIntent) (opts : SubmissionOpts)
  : io (result TxHandle WalletKitError) :=
  map_err WalletKitError_from_tm (send_with (w_manager w) intent opts).

Definition wallet_cancel (w : Wallet) (id : HandleId) : io (result TxHandle WalletKitError) :=
  map_err WalletKitError_from_tm (cancel (w_manager w) id).

(** The outer [execute()] transaction a relayer sends for a signed request. *)
Definition outer_intent (relayer forwarder : Address) (intent : TxIntent) (signed : SignedRequest)
  : TxIntent :=
  mkIntent (ti_chain_id intent) relayer (TxKind_Call forwarder) (ti_value intent)
    (execute_calldata (sr_request signed) (SignatureEnvelope_as_bytes (sr_signature signed))) None.

Definition send_self_relay (w : Wallet) (runtime : GaslessRuntime) (intent : TxIntent)
    (submission : SubmissionOpts) (deadline : Deadline) : io (result TxHandle WalletKitError) :=
  let? signed :=
    build_and_sign_forward_request (w_manager w) intent (rt_forwarder runtime)
      ForwarderDomain_default (deadline_secs deadline) in
  let outer := outer_intent (tm_signer_address (rt_manager runtime)) (rt_forwarder runtime) intent signed in
  let meta := for_request signed in
  map_err WalletKitError_from_tm (send_with_meta (rt_manager runtime) outer submission (Some meta)).

Definition send_gelato (w : Wallet) (relay : GelatoRelay) (intent : TxIntent) (deadline : Deadline)
  : io (result TxHandle WalletKitError) :=
  let* now := call NowUnix in
  let deadline := saturating_add u64_max now (deadline_secs deadline) in
  let? c := map_err WK_Relay (build_call abi_user_nonce relay intent deadline) in
  let? signature :=
    map_err WalletKitError_from_tm (tm_sign_typed_data (w_manager w) (gelato_typed_data relay c)) in
  let? task :=
    map_err WK_Relay
      (gelato_submit address_display bytes_display b256_display status_display parse_relay_response
         relay c signature) in
  let meta := for_gelato_task (verifying_contract relay) (gc_user c) (GelatoCall_nonce c) task in
  map_err WalletKitError_from_tm (persist_task_handle intent meta).

Definition send_gasless (w : Wallet) (intent : TxIntent) (opts : GaslessOpts)
  : io (result TxHandle WalletKitError) :=
  match go_route opts, w_gasless w with
  | Gasless_SelfRelay route, Some (Backend_SelfRelay runtime) =>
      send_self_relay w runtime intent (self_relay_submission route) (go_deadline opts)
  | Gasless_Gelato, Some (Backend_Gelato relay) => send_gelato w relay intent (go_deadline opts)
  | _, _ => Ret (Err (WK_Relay NotConfigured))
  end.

Definition wallet_dry_run (intent : TxIntent) : io (result TxPreview WalletKitError) :=
  map_err WK_Rpc (dry_run decode_error decode_panic intent).

Definition wallet_validate (intent : TxIntent) : io (result PolicyOutcome WalletKitError) :=
  map_err WK_PolicyEngine (call (Validate User (Transaction intent))).

Definition wallet_sign_message (w : Wallet) (message : Bytes) : io (result SignatureEnvelope WalletKitError) :=
  map_err WalletKitError_from_tm (tm_sign_message (w_manager w) message).

Definition wallet_sign_typed_data (w : Wallet) (typed : TypedData)
  : io (result SignatureEnvelope WalletKitError) :=
  map_err WalletKitError_from_tm (tm_sign_typed_data (w_manager w) typed).

Definition wallet_handle (id : HandleId) : io (result (option TxHandle) WalletKitError) :=
  map_err WK_Store (call (GetHandle id)).

Definition wallet_status (id : HandleId) : io (result (option TxStatus) WalletKitError) :=
  let? h := wallet_handle id in Ret (Ok (th_status <$> h)).

Definition wallet_tick (w : Wallet) (st : wallet_state) : io (result unit WalletKitError * wallet_state) :=
  let* (r, user) := Executor.tick (w_executor w) (ws_user st) in
  let st := mkWalletState user (ws_relayer st) in
  match r with
  | Err e => Ret (Err (WalletKitError_from_executor e), st)
  | Ok _ =>
      match w_gasless w with
      | Some (Backend_SelfRelay runtime) =>
          let* (r, relayer) := Executor.tick (rt_executor runtime) (ws_relayer st) in
          let st := mkWalletState (ws_user st) relayer in
          Ret (map_res_err WalletKitError_from_executor r, st)
      | _ => Ret (Ok tt, st)
      end
  end.

(** What the background loop of [Wallet::run] wakes to after a tick. *)
Inductive wake : Type :=
| Wake_Interval
| Wake_Stop.

(** The loop of [Wallet::run]: tick, swallow its error, wait for the interval or the stop
    signal.  [true]: it ended on the stop signal; [false]: it is still waiting. *)
Fixpoint run_loop (w : Wallet) (wakes : list wake) (st : wallet_state) : io (bool * wallet_state) :=
  let* (_, st) := wallet_tick w st in
  match wakes with
  | [] => Ret (false, st)
  | Wake_Interval :: wakes' => run_loop w wakes' st
  | Wake_Stop :: _ => Ret (true, st)
  end.

(** ** Gasless sends *)

(** The handle of a self-relayed request: the relayer's, tracking the inner request. *)
Definition relayed_handle (runtime : GaslessRuntime) (intent : TxIntent) (h : TxHandle) : Prop :=
  th_account h = tm_signer_address (rt_manager runtime) /\
  exists nonce, th_meta h = Some (mkMeta (rt_forwarder runtime) (ti_account intent) nonce None).

(** The user's signature over a request for this intent, in a history. *)
Definition user_signed (w : Wallet) (runtime : GaslessRuntime) (intent : TxIntent) (tr : history)
    (input : Bytes) : Prop :=
  exists request ap now sig,
    fr_from request = ti_account intent /\ ti_to intent = TxKind_Call (fr_to request) /\
    fr_value request = ti_value intent /\ fr_data request = ti_input intent /\
    In (existT (SignTypedData (tm_who (w_manager w))
                  (ForwardRequest_typed_data request (rt_forwarder runtime) (ti_chain_id intent)
                     ForwarderDomain_default) ap now) (Ok sig)) tr /\
    input = execute_calldata request (SignatureEnvelope_as_bytes sig).

(** When a self-relayed send may make a call. *)
Definition self_relay_guard (w : Wallet) (runtime : GaslessRuntime) (intent : TxIntent)
    (submission : SubmissionOpts) (tr : history) (p : port) : Prop :=
  match p with
  | SignTypedData who td ap _ => who = tm_who (w_manager w) /\
      exists rest, evaluates tr = (who, TypedDataReq td, Ok (Allow ap)) :: rest
  | SignTransaction who tx ih ap _ => who = tm_who (rt_manager runtime) /\
      tx_to tx = TxKind_Call (rt_forwarder runtime) /\ user_signed w runtime intent tr (tx_input tx) /\
      exists outer rest, evaluates tr = (who, Transaction outer, Ok (Allow ap)) :: rest /\
        ih = TxIntent_hash outer /\ tx_input tx = ti_input outer
  | Allocate a | Release a _ => a = tm_signer_address (rt_manager runtime)
  | Submit _ o => o = submission
  | PutHandle h => relayed_handle runtime intent h
  | EthCall _ | EstimateGas _ | GasEstimate | NowUnix | Evaluate _ _ => True
  | _ => False
  end.

(** C30: a self-relayed send keeps the two accounts apart, for every behaviour of the
    ports.  The user's key signs only the forward request its own policy approved, and no
    nonce of the user's is touched; the relayer's key signs only a call of the forwarder
    that carries a request the user signed for this intent, under the relayer's policy;
    the outer transaction goes out on the requested route and is tracked under the
    relayer with the inner request recorded. *)
Theorem self_relay_separates_accounts (w : Wallet) (runtime : GaslessRuntime) (intent : TxIntent)
    (route : SelfRelay) (deadline : Deadline) (tr : history) :
  w_gasless w = Some (Backend_SelfRelay runtime) ->
  triple any_response (self_relay_guard w runtime intent (self_relay_submission route))
    (send_gasless w intent (mkGaslessOpts (Gasless_SelfRelay route) deadline)) tr
    (fun _ r => forall h, r = Ok h -> relayed_handle runtime intent h /\ th_status h = Sent /\
       th_submission h = self_relay_submission route).
Proof.
  intros Hw. unfold send_gasless. rewrite Hw. cbn [go_route go_deadline].
  unfold send_self_relay, build_and_sign_forward_request, forwarder_nonce, tm_sign_typed_data, tm_authorize.
  unfold send_with_meta, build_sign_submit, sign_encode, map_err, try_bind.
  wp_auto ltac:(unfold self_relay_guard, user_signed, relayed_handle; simpl; fill_in; auto 20).
  all: try (intros h [= <-]; unfold relayed_handle; simpl; fill_in).
  all: done.
Qed.

(** The user's signature over a Gelato call for this intent, in a history. *)
Definition gelato_signed (w : Wallet) (relay : GelatoRelay) (intent : TxIntent) (tr : history)
    (c : GelatoCall) (sig : SignatureEnvelope) : Prop :=
  (exists ap now, In (existT (SignTypedData (tm_who (w_manager w)) (gelato_typed_data relay c) ap now) (Ok sig)) tr) /\
  gc_user c = ti_account intent /\ ti_to intent = TxKind_Call (gc_target c) /\
  gc_chain_id c = ti_chain_id intent /\ gc_data c = ti_input intent /\ ti_value intent = 0.

(** A task Gelato accepted, in a history. *)
Definition gelato_accepted (relay : GelatoRelay) (tr : history) (task : TaskId) : Prop :=
  exists body resp, In (relay_url relay, body, Ok resp) (posts tr) /\
    classify_status (http_status resp) = Body /\
    parse_relay_response (http_body resp) = Some (task_str task).

(** When a managed send may make a call. *)
Definition gelato_guard (w : Wallet) (relay : GelatoRelay) (intent : TxIntent) (tr : history) (p : port)
  : Prop :=
  match p with
  | SignTypedData who td ap _ => who = tm_who (w_manager w) /\
      exists rest, evaluates tr = (who, TypedDataReq td, Ok (Allow ap)) :: rest
  | HttpPost url body => url = relay_url relay /\ exists c sig,
      body = relay_body address_display bytes_display b256_display relay c sig /\
      gelato_signed w relay intent tr c sig
  | PutHandle h => th_account h = ti_account intent /\ th_intent h = intent /\ th_status h = Sent /\
      th_signed h = [] /\ th_broadcasts h = [] /\ exists nonce task, gelato_accepted relay tr task /\
        th_meta h = Some (mkMeta (verifying_contract relay) (ti_account intent) nonce (Some task))
  | EthCall req => req_to req = Some (TxKind_Call (verifying_contract relay))
  | NowUnix | Evaluate _ _ => True
  | _ => False
  end.

(** C31: a managed send is policy-gated and tracked, for every behaviour of the ports.
    Gelato is posted only a call for this intent that the user signed under its policy;
    no nonce is allocated, no transaction is signed and nothing is broadcast; a handle is
    persisted only for a task Gelato accepted, without bytes to rebroadcast; and once a
    task is accepted the send fails only if the store does. *)
Theorem gelato_send_gated (w : Wallet) (relay : GelatoRelay) (intent : TxIntent) (deadline : Deadline)
    (tr : history) :
  w_gasless w = Some (Backend_Gelato relay) ->
  triple any_response (gelato_guard w relay intent)
    (send_gasless w intent (mkGaslessOpts Gasless_Gelato deadline)) tr
    (fun tr' r => exists new, tr' = new ++ tr /\
       match r with
       | Ok h => exists rest, puts new = (h, Ok tt) :: rest
       | Err e => (exists task, gelato_accepted relay new task) ->
           exists h e' rest, e = WK_Store e' /\ puts new = (h, Err e') :: rest
       end).
Proof using Type.
  clear parse_response transport_url request_body parse_status_envelope parse_tx_hash decode_error decode_panic.
  intros Hw. unfold send_gasless. rewrite Hw. cbn [go_route go_deadline].
  unfold send_gelato, build_call, user_nonce, tm_sign_typed_data, tm_authorize, gelato_submit, persist_task_handle.
  unfold map_err, try_bind.
  wp_auto ltac:(bool_simpl;
    repeat match goal with H : map_res_err _ (relay_answer _ _ _) = Ok _ |- _ =>
      apply relay_answer_accepted in H as [? ?] end; unfold gelato_guard, gelato_signed, gelato_accepted; cbn -[Nat.leb relay_body gelato_typed_data relay_url]; fill_in; eauto 12).
  all: try (give_new; simpl; fill_in).
  all: try (intros (task & body & resp & Hin & Hc & Hp); simpl in Hin).
  all: try solve [exfalso; intuition (simplify_eq; eauto using relay_answer_refused)].
  all: simpl; fill_in.
Qed.

(** ** The wired wallet *)

(** A builder over the native engine and a local key. *)
Record native_builder (b : WalletBuilder) (engine : DefaultPolicyEngine) (key : LocalSigner) : Prop := {
  nb_policy : wb_policy b = DefaultPolicyEngine_ops engine;
  nb_signer : wb_signer b = LocalSigner_ops key;
}.

(** Bytes the user's policy and key stand behind: a transaction for the intent that the
    engine's rules allow, within its fee caps, signed by the key in low-s form. *)
Definition authorized (engine : DefaultPolicyEngine) (key : LocalSigner) (intent : TxIntent) (rlp : Bytes)
  : Prop :=
  decide_outcome engine (Transaction intent) = WouldAllow /\ ls_address key = ti_account intent /\
  exists nonce gas fees raw,
    let tx := build_tx intent nonce gas fees in
    admits (pe_fee_caps engine) (max_fee_per_gas fees) (max_priority_fee_per_gas fees) = true /\
    ls_sign_hash_sync key (signature_hash tx) = Ok raw /\ rlp = encoded_2718 tx (enforce_low_s raw).

(** What the native adapters promise the pipeline. *)
Definition native_env (engine : DefaultPolicyEngine) (key : LocalSigner) (p : port) : resp p -> Prop :=
  match p return resp p -> Prop with
  | Evaluate User request => fun r => forall a, r = Ok (Allow a) ->
      decide_outcome engine request = WouldAllow /\ pa_gas_envelope a = pe_fee_caps engine
  | SignTransaction User tx _ a _ => fun r => forall sig, r = Ok sig ->
      admits (pa_gas_envelope a) (tx_max_fee_per_gas tx) (tx_max_priority_fee_per_gas tx) = true /\
      exists raw, ls_sign_hash_sync key (signature_hash tx) = Ok raw /\ sig = enforce_low_s raw
  | _ => fun _ => True
  end.

(** The pipeline's calls: bytes go out on the requested route, and are authorized. *)
Definition pipeline_guard (engine : DefaultPolicyEngine) (key : LocalSigner) (intent : TxIntent)
    (opts : SubmissionOpts) (_ : history) (p : port) : Prop :=
  match p with
  | Submit rlp o => o = opts /\ authorized engine key intent rlp
  | Evaluate who _ | SignTransaction who _ _ _ _ => who = User
  | EstimateGas _ | GasEstimate | NowUnix | Allocate _ | Release _ _ | PutHandle _ => True
  | _ => False
  end.

(** The calls that leave the process, and what they may carry. *)
Definition egress_guard (engine : DefaultPolicyEngine) (key : LocalSigner) (intent : TxIntent)
    (opts : SubmissionOpts) (_ : history) (p : port) : Prop :=
  match p with
  | SendRaw rlp => so_route opts = Public /\ authorized engine key intent rlp
  | SendRawTo _ rlp | FlashbotsPost _ _ rlp => so_route opts <> Public /\ authorized engine key intent rlp
  | HttpPost _ _ | Submit _ _ | SignTransaction _ _ _ _ _ | SignMessage _ _ _ _ | SignTypedData _ _ _ _ => False
  | _ => True
  end.

Lemma authorized_intro engine key intent nonce gas fees ih a now sig :
  (ls_address key =? ti_account intent) = true ->
  native_env engine key (Evaluate User (Transaction intent)) (Ok (Allow a)) ->
  native_env engine key (SignTransaction User (build_tx intent nonce gas fees) ih a now) (Ok sig) ->
  authorized engine key intent (encoded_2718 (build_tx intent nonce gas fees) sig).
Proof.
  intros Hk He Hs. destruct (He _ eq_refl) as [Hd Hc]. destruct (Hs _ eq_refl) as (Had & raw & Hr & ->).
  rewrite Hc in Had. bool_simpl. split_and!; [done..|]. by exists nonce, gas, fees, raw.
Qed.

Lemma send_pipeline engine key manager intent opts meta tr :
  tm_who manager = User -> tm_signer_address manager = ls_address key ->
  triple (native_env engine key) (pipeline_guard engine key intent opts)
    (send_with_meta manager intent opts meta) tr
    (fun tr' r => (forall h, r = Ok h -> th_intent h = intent /\ authorized engine key intent (th_signed h)) /\
       (tm_supports_route manager (so_route opts) = false -> tr' = tr /\ r = Err (TM_Route RelayNotConfigured))).
Proof.
  intros Hw Ha. unfold send_with_meta, build_sign_submit, sign_encode, map_err, try_bind. rewrite Hw, Ha.
  destruct (tm_supports_route manager (so_route opts)) eqn:Hroute; cbn [negb]; [|by split].
  destruct (ls_address key =? ti_account intent) eqn:Hk; cbn [negb]; [|by split].
  wp_auto ltac:(simpl; first [exact I | reflexivity | split; [reflexivity|eapply authorized_intro; eassumption]]).
  all: split; [|done]; intros h Hh; try discriminate; injection Hh as <-.
  all: split; [reflexivity|eapply authorized_intro; eassumption].
Qed.

(** The router makes only the egress calls of its route. *)
Lemma router_egress b cache engine key intent opts rlp trl :
  authorized engine key intent rlp ->
  triple any_response (egress_guard engine key intent opts) (ss_submit (wallet_router b cache) rlp opts) trl
    (fun _ _ => True).
Proof.
  intros Hauth. unfold wallet_router.
  assert (Hg : forall identity relay, triple any_response (egress_guard engine key intent opts)
    (ss_submit (Router PublicMempool (PrivateMev parse_response status_display identity transport_url
       request_body <$> relay)) rlp opts) trl (fun _ _ => True)).
  { intros identity relay. eapply triple_guard_mono; [|eapply triple_mono; [|apply router_calls]]; [|done].
    intros tr' p. destruct p; simpl; try done.
    - by intros [-> ->].
    - intros [-> (pr & -> & _)]. done.
    - intros [-> (f & -> & _)]. done. }
  destruct (wb_relay_identity b) as [id|]; simpl.
  - apply (Hg id (Some cache)).
  - apply (Hg (fun _ => Err EmptyString) None).
Qed.

Lemma build_routes b route :
  tm_supports_route (w_manager (build b)) route =
    match route with Public => true | Private _ => bool_decide (is_Some (wb_relay_identity b)) end.
Proof.
  unfold build. destruct (wb_relayer b), (wb_forwarder b), (wb_gelato b), (wb_gas_buffer_pct b);
    simpl; destruct route; simpl; try done; by destruct (wb_relay_identity b).
Qed.

Lemma build_manager_who b : tm_who (w_manager (build b)) = User.
Proof. unfold build. by destruct (wb_relayer b), (wb_forwarder b), (wb_gelato b), (wb_gas_buffer_pct b). Qed.

Lemma build_manager_address b : tm_signer_address (w_manager (build b)) = sg_address (wb_signer b).
Proof. unfold build. by destruct (wb_relayer b), (wb_forwarder b), (wb_gelato b), (wb_gas_buffer_pct b). Qed.

(** The wired ports meet the native contract and stay within the egress calls. *)
Lemma wire_native b cache engine key intent opts tr trl p :
  wb_policy b = DefaultPolicyEngine_ops engine -> wb_signer b = LocalSigner_ops key ->
  pipeline_guard engine key intent opts tr p ->
  triple any_response (egress_guard engine key intent opts) (wire b cache p) trl
    (fun _ r => native_env engine key p r).
Proof.
  intros Hp Hs. destruct p; simpl; try done; try (intros _; split; [done|]; intros; exact I).
  - intros ->. simpl. rewrite Hp. simpl. unfold evaluate, decide_request.
    destruct (decide_outcome engine request) eqn:Hd; [|by simpl].
    destruct (signing_hash request); [|by simpl]. simpl. split; [done|]. by intros now _ a0 [= <-].
  - intros ->. simpl. rewrite Hs. simpl. unfold sign_transaction, sign_hash_low_s. intros sig.
    destruct (gate _ _ _); [|done]. destruct (admits _ _ _) eqn:Had; [|done]. simpl.
    destruct (ls_sign_hash_sync _ _) as [raw|] eqn:Hr; [|done]. intros [= <-]. eauto.
  - intros [-> Hauth]. by apply router_egress.
Qed.

(** A wired wallet's send lets out only authorized transactions: the statement over the
    node's port, from which the one over the provider follows. *)
Lemma wired_send_authorized (b : WalletBuilder) (cache : gset Url) (engine : DefaultPolicyEngine)
    (key : LocalSigner) (intent : TxIntent) (opts : SubmissionOpts) (tr trl : history) :
  native_builder b engine key ->
  triple any_response (egress_guard engine key intent opts)
    (interp (wire b cache) (wallet_send_with (build b) intent opts) tr) trl
    (fun _ x =>
       (forall h, fst x = Ok h -> th_intent h = intent /\ authorized engine key intent (th_signed h)) /\
       (wb_relay_identity b = None -> so_route opts <> Public ->
          snd x = tr /\ fst x = Err (WK_Route RelayNotConfigured))).
Proof.
  intros [Hp Hs].
  apply (interp_guarded _ (native_env engine key) _ (pipeline_guard engine key intent opts) _ _ _
    (fun tr' r => (forall h, r = Ok h -> th_intent h = intent /\ authorized engine key intent (th_signed h)) /\
       (wb_relay_identity b = None -> so_route opts <> Public ->
          tr' = tr /\ r = Err (WK_Route RelayNotConfigured)))).
  - intros p tr' trl' HG. by apply (wire_native b cache engine key intent opts tr').
  - unfold wallet_send_with, send_with, map_err. apply triple_bind.
    eapply triple_mono; [|apply (send_pipeline engine key)].
    + intros tr' r [Hok Hno]. cbn [triple]. split.
      * intros h Hh. apply Hok. destruct r; [by injection Hh as <-|done].
      * intros Hid Hpriv. destruct Hno as [-> ->]; [|done]. rewrite build_routes, Hid. by destruct (so_route opts).
    + by apply build_manager_who.
    + rewrite build_manager_address, Hs. done.
Qed.

(** How [build] wires gasless sends.  A send is refused before any call exactly when
    its backend was not configured (self-relay needs both a relayer and a forwarder, and
    takes precedence over Gelato); the user's executor polls relay tasks exactly when the
    backend is Gelato; and a self-relay runtime sends and tracks the relayer's account,
    never the user's policy and key. *)
Theorem build_gasless_wiring (b : WalletBuilder) (intent : TxIntent) (opts : GaslessOpts) :
  (send_gasless (build b) intent opts = Ret (Err (WK_Relay NotConfigured)) <->
     match go_route opts with
     | Gasless_SelfRelay _ => wb_relayer b = None \/ wb_forwarder b = None
     | Gasless_Gelato => wb_gelato b = None \/ (is_Some (wb_relayer b) /\ is_Some (wb_forwarder b))
     end) /\
  (ex_relay (w_executor (build b)) = true <-> exists relay, w_gasless (build b) = Some (Backend_Gelato relay)) /\
  (forall runtime, w_gasless (build b) = Some (Backend_SelfRelay runtime) ->
     exists relayer, wb_relayer b = Some relayer /\
       tm_who (rt_manager runtime) = Relayer /\ ex_who (rt_executor runtime) = Relayer /\
       tm_signer_address (rt_manager runtime) = sg_address relayer /\
       ex_account (rt_executor runtime) = sg_address relayer /\
       wb_forwarder b = Some (rt_forwarder runtime)).
Proof using Type.
  clear parse_status_envelope parse_tx_hash decode_error decode_panic.
  assert (Hrel : forall w rt route d, send_self_relay w rt intent route d <> Ret (Err (WK_Relay NotConfigured))).
  { intros. unfold send_self_relay, build_and_sign_forward_request, try_bind. by destruct (ti_to intent). }
  unfold send_gasless, build.
  destruct (wb_relayer b) as [r|], (wb_forwarder b) as [f|], (wb_gelato b) as [g|]; simpl;
    destruct (wb_confirmations b), (wb_bump_timeout b), (wb_refill_on_replaced b); simpl;
    (split_and!; [destruct (go_route opts); simpl; split; try naive_solver
                 |split; [naive_solver|by intros [? [=]]]
                 |intros runtime; intros [= <-] || done; eauto 10]).
Qed.
End Facade.

(** ** A wallet on concrete ports *)

(** A relay that answers [task-1], a forwarder at nonce 4, permissive policies and a node
    that accepts the broadcast. *)
Definition demo_gasless_env (p : port) : resp p :=
  match p return resp p with
  | EthCall _ => Ok (Returned (Z_to_be 32 4))
  | EstimateGas _ => Ok 50000
  | GasEstimate => Ok (mkEstimation 200 10)
  | NowUnix => 1000
  | Evaluate _ _ => Ok (Allow (mint 0 GasEnvelope_DEFAULT 2000))
  | SignTypedData _ _ _ _ => Ok (SignatureEnvelope_secp256k1 7 (mkSignature 1 2 false))
  | SignTransaction _ _ _ _ _ => Ok (mkSignature 1 2 false)
  | Allocate _ => Ok 11
  | PutHandle _ => Ok tt
  | Submit _ _ => Ok 5
  | HttpPost _ _ => Ok (mkHttpResponse 201 "task-1")
  | q => offline q
  end.

Definition demo_wallet_intent : TxIntent := TxIntent_call 1 7 8 0 [].
Definition demo_builder : WalletBuilder :=
  builder (LocalSigner_ops demo_key) (DefaultPolicyEngine_ops demo_engine).
Definition demo_build : WalletBuilder -> Wallet :=
  build (fun _ => None) (fun _ => EmptyString) (fun _ => Ok tt) (fun _ _ _ => []).
Definition demo_send_gasless : Wallet -> TxIntent -> GaslessOpts -> io (result TxHandle WalletKitError) :=
  send_gasless (fun _ => EmptyString) (fun _ => []) (fun _ => "to") (fun _ => "0x") (fun _ => "salt") Some.
Definition demo_relayer : LocalSigner := mkLocalSigner 70 (fun h => Ok (mkSignature h 1 false)).
Definition demo_runtime : GaslessRuntime :=
  mkRuntime (w_manager (demo_build (builder (LocalSigner_ops demo_relayer) (DefaultPolicyEngine_ops demo_engine))))
    (AccountExecutor_new Relayer 70) 99.

Lemma self_relay_separates_accounts_witness :
  let w := mkWallet (w_manager (demo_build demo_builder)) (AccountExecutor_new User 7) 7
             (Some (Backend_SelfRelay demo_runtime)) in
  exists h, fst (run_env demo_gasless_env
      (demo_send_gasless w demo_wallet_intent (gasless_of_self_relay SelfRelay_new))) = Ok h /\
    relayed_handle demo_runtime demo_wallet_intent h.
Proof.
  intros w.
  destruct (run_env_triple demo_gasless_env any_response _ _ _ (fun _ => I)
    (self_relay_separates_accounts (fun _ => EmptyString) (fun _ => []) (fun _ => "to") (fun _ => "0x")
       (fun _ => "salt") Some w demo_runtime demo_wallet_intent SelfRelay_new Deadline_default [] eq_refl)) as [H _].
  eexists. split; [vm_compute; reflexivity|].
  apply (H _ ltac:(vm_compute; reflexivity)).
Defined.

Lemma gelato_send_gated_witness :
  let relay := GelatoRelay_new (sponsored "key") in
  let w := mkWallet (w_manager (demo_build demo_builder)) (with_relay (AccountExecutor_new User 7)) 7
             (Some (Backend_Gelato relay)) in
  let x := run_env demo_gasless_env (demo_send_gasless w demo_wallet_intent (mkGaslessOpts Gasless_Gelato Deadline_default)) in
  exists h rest, fst x = Ok h /\ puts (snd x) = (h, Ok tt) :: rest /\
    (th_meta h ≫= mc_task) = Some (mkTaskId "task-1").
Proof.
  intros relay w x.
  destruct (run_env_triple demo_gasless_env any_response _ _ _ (fun _ => I)
    (gelato_send_gated (fun _ => EmptyString) (fun _ => []) (fun _ => "to") (fun _ => "0x")
       (fun _ => "salt") Some w relay demo_wallet_intent Deadline_default [] eq_refl)) as [(new & Hnew & H) _].
  rewrite app_nil_r in Hnew.
  assert (Hx : exists h, fst x = Ok h /\ (th_meta h ≫= mc_task) = Some (mkTaskId "task-1"))
    by (eexists; split; vm_compute; reflexivity).
  destruct Hx as (h & Hh & Ht). unfold x in Hh.
  unfold demo_send_gasless in Hh. rewrite Hh in H. destruct H as [rest H].
  exists h, rest. split_and!; [done| |done].
  unfold x, demo_send_gasless. by rewrite Hnew.
Defined.
