(* ===== verification/Session.v ===== *)
(** * Session: every operation of a wallet, interleaved over one store

    A host runs sends, cancels, gasless sends and the background loop concurrently over
    one store, any of them may be dropped at any [await], and a restart starts again from
    the store.  The session state is the in-memory store of [adapters/store/memory.rs]
    (which the redb and Postgres stores refine) and two ghost logs: what each policy
    approved and what each key signed.  The invariant ties them together: every stored
    handle names itself by its own intent and nonce and holds bytes its key signed for
    that intent at that nonce, and every byte string broadcast was signed under an
    approval of the key's policy, for the key's own account or as a cancel. *)
From S2P Require Import Prelude Effects Primitives ModelAlloy Errors Ports Lifecycle GasOracle Policy.
From S2P Require Import Signer Signing TransactionManager Executor ExecutorSpec Submission Nonce NoncePool.
From S2P Require Import Store Gelato Preview Facade.

(** One signature issued: the key's account, what it signed, the intent it was signed as,
    the approval it was shown and the signature. *)
Record issued : Type := mkIssued {
  is_who : principal;
  is_tx : TxEip1559;
  is_intent_hash : IntentHash;
  is_approval : PolicyApproval;
  is_signature : Signature;
}.

Record session : Type := mkSession {
  ss_store : InMemoryStateStore;
  ss_approved : list (principal * SigningRequest * PolicyApproval);
  ss_signed : list issued;
  ss_sent : list Bytes;
}.
Definition session_new : session := mkSession InMemoryStateStore_default [] [] [].

Section Session.
Context {A : Alloy}.

(** ** How the world answers

    The store answers with its contents, pending handles in any order, or fails; a failed
    write may have taken effect all the same (a lost acknowledgement).  Everything else answers anything of its Rust
    type. *)
Definition store_answers (s : session) (p : port) : resp p -> session -> Prop :=
  match p return resp p -> session -> Prop with
  | PutHandle h => fun r s' =>
      let stored := mkSession (snd (memory_put_handle h (ss_store s))) (ss_approved s) (ss_signed s) (ss_sent s) in
      (r = Ok tt /\ s' = stored) \/ (is_err r = true /\ (s' = s \/ s' = stored))
  | GetHandle id => fun r s' => s' = s /\ (r = memory_handle id (ss_store s) \/ is_err r = true)
  | PendingHandles a => fun r s' =>
      s' = s /\ ((exists l l', r = Ok l /\ memory_pending_handles a (ss_store s) = Ok l' /\ l ≡ₚ l') \/
                 is_err r = true)
  | Evaluate who q => fun r s' =>
      match r with
      | Ok (Allow a) => s' = mkSession (ss_store s) ((who, q, a) :: ss_approved s) (ss_signed s) (ss_sent s)
      | _ => s' = s
      end
  | SignTransaction who tx ih a _ => fun r s' =>
      match r with
      | Ok sig => s' = mkSession (ss_store s) (ss_approved s) (mkIssued who tx ih a sig :: ss_signed s) (ss_sent s)
      | Err _ => s' = s
      end
  | Submit rlp _ => fun _ s' =>
      s' = mkSession (ss_store s) (ss_approved s) (ss_signed s) (rlp :: ss_sent s)
  | NowUnix => fun r s' => is_u64 r /\ s' = s
  | Allocate _ => fun r s' => (forall n, r = Ok n -> is_u64 n) /\ s' = s
  | _ => fun _ s' => s' = s
  end.

(** What the policies and keys promise, if anything: [world p r] says that [r] is an
    answer to [p] they may give. *)
Context (world : forall p, resp p -> Prop).

Definition session_step (s : session) (p : port) (r : resp p) (s' : session) : Prop :=
  world p r /\ store_answers s p r s'.

(** ** Well-formed handles *)

(** The handle's bytes are those its key signed for its intent at its nonce, and the
    newest broadcast it tracks is their hash. *)
Definition signed_payload (s : session) (h : TxHandle) : Prop :=
  exists who gas fees a sig,
    let tx := build_tx (th_intent h) (th_nonce h) gas fees in
    mkIssued who tx (th_intent_hash h) a sig ∈ ss_signed s /\
    th_signed h = encoded_2718 tx sig /\ head (rev (th_broadcasts h)) = Some (signed_hash tx sig).

(** A managed relay holds the transaction: no bytes, a task, and at most the one hash the
    relay reported. *)
Definition relayed_payload (h : TxHandle) : Prop :=
  th_signed h = [] /\ is_Some (th_meta h ≫= mc_task) /\ (length (th_broadcasts h) <= 1)%nat.

(** Statuses that only an on-chain receipt explains. *)
Definition on_chain (st : TxStatus) : bool :=
  match st with Mined _ _ | Confirmed _ => true | _ => false end.

Record handle_wf (s : session) (h : TxHandle) : Prop := {
  wf_intent_hash : th_intent_hash h = TxIntent_hash (th_intent h);
  wf_id : th_id h = HandleId_new (th_intent_hash h) (th_nonce h);
  wf_account : th_account h = ti_account (th_intent h);
  wf_nonce : th_nonce h <= u64_max;
  wf_time : is_u64 (th_last_broadcast_at h);
  wf_payload : signed_payload s h \/ relayed_payload h;
  wf_on_chain : on_chain (th_status h) = true -> th_broadcasts h <> [];
}.

(** Which accounts each principal's key controls, where that matters. *)
Context (owns : principal -> Address -> Prop).

(** A key signs for its own account, or a self-send: [Wallet::cancel] takes any handle. *)
Definition signs_for (who : principal) (i : TxIntent) : Prop :=
  owns who (ti_account i) \/ is_self_send i = true.

(** The calls that keep the invariant. *)
Definition safe (s : session) (p : port) : Prop :=
  match p with
  | PutHandle h => handle_wf s h
  | SignTransaction who tx ih a _ =>
      (exists q, (who, q, a) ∈ ss_approved s) /\
      exists i nonce gas fees, tx = build_tx i nonce gas fees /\ ih = TxIntent_hash i /\ signs_for who i
  | Submit rlp _ => exists g, g ∈ ss_signed s /\ rlp = encoded_2718 (is_tx g) (is_signature g)
  | SendRaw _ | SendRawTo _ _ | FlashbotsPost _ _ _ | CasNonceState _ _ _ _ => False
  | _ => True
  end.

(** A signature given for an intent, under an approval of the key's own policy. *)
Definition signed_ok (s : session) (g : issued) : Prop :=
  (exists q, (is_who g, q, is_approval g) ∈ ss_approved s) /\
  (exists i nonce gas fees, is_tx g = build_tx i nonce gas fees /\ is_intent_hash g = TxIntent_hash i /\
     signs_for (is_who g) i) /\
  (exists now, world (SignTransaction (is_who g) (is_tx g) (is_intent_hash g) (is_approval g) now)
     (Ok (is_signature g))).

Record session_inv (s : session) : Prop := {
  si_store : map_Forall (fun id h => th_id h = id /\ handle_wf s h) (mem_handles (ss_store s));
  si_approved : forall who q a, (who, q, a) ∈ ss_approved s -> world (Evaluate who q) (Ok (Allow a));
  si_signed : forall g, g ∈ ss_signed s -> signed_ok s g;
  si_sent : forall rlp, rlp ∈ ss_sent s ->
    exists g, g ∈ ss_signed s /\ rlp = encoded_2718 (is_tx g) (is_signature g);
}.

(** What an exchange tells a task for good. *)
Definition session_valid (s : session) (e : event resp) : Prop :=
  match e with
  | existT (GetHandle _) (Ok (Some h)) => handle_wf s h
  | existT (PendingHandles a) (Ok hs) => Forall (fun h => handle_wf s h /\ th_account h = a) hs
  | existT (Evaluate who q) (Ok (Allow a)) => (who, q, a) ∈ ss_approved s
  | existT (SignTransaction who tx ih a _) (Ok sig) => mkIssued who tx ih a sig ∈ ss_signed s
  | _ => True
  end.

(** Responses of their Rust types. *)
Definition typed_env (p : port) : resp p -> Prop :=
  match p return resp p -> Prop with
  | NowUnix => fun r => is_u64 r
  | Allocate _ => fun r => forall n, r = Ok n -> is_u64 n
  | _ => fun _ => True
  end.

(** ** Monotonicity and the store *)

(** The ghost logs only grow. *)
Definition grows (s s' : session) : Prop :=
  ss_approved s ⊆ ss_approved s' /\ ss_signed s ⊆ ss_signed s'.

Lemma session_step_grows s p r s' : session_step s p r s' -> grows s s'.
Proof.
  intros [_ H]. revert H. unfold grows. destruct p; simpl; try (intros ->; done); try (intros [_ ->]; done); try (intros [-> _]; done).
  - destruct r as [[a|]|]; intros ->; simpl; split; set_solver.
  - destruct r; intros ->; simpl; split; set_solver.
  - intros [[_ ->]|[_ [->| ->]]]; done.
Qed.

Lemma handle_wf_mono s s' h : grows s s' -> handle_wf s h -> handle_wf s' h.
Proof.
  intros [_ Hs] []. split; try done. destruct wf_payload0 as [(w & gas & fees & a & sig & Hin & ?)|]; [|by right].
  left. exists w, gas, fees, a, sig. split; [by apply Hs|done].
Qed.

Lemma session_valid_mono s p r s' e : session_step s p r s' -> session_valid s e -> session_valid s' e.
Proof.
  intros Hstep%session_step_grows. destruct e as [q rq]. destruct q; simpl; try done.
  - destruct rq as [[a|]|]; try done. destruct Hstep as [Ha _]. apply Ha.
  - destruct rq; [|done]. destruct Hstep as [_ Hs]. apply Hs.
  - destruct rq; [|done]. intros H. eapply list.Forall_impl; [exact H|]. intros h [? ?]. split; [by eapply handle_wf_mono|done].
  - destruct rq as [[h|]|]; try done. by apply handle_wf_mono.
Qed.

Lemma session_inv_ghost s s' :
  session_inv s -> grows s s' -> ss_store s' = ss_store s ->
  (forall who q a, (who, q, a) ∈ ss_approved s' -> (who, q, a) ∈ ss_approved s \/
     world (Evaluate who q) (Ok (Allow a))) ->
  (forall g, g ∈ ss_signed s' -> g ∈ ss_signed s \/ signed_ok s' g) ->
  (forall rlp, rlp ∈ ss_sent s' -> rlp ∈ ss_sent s \/
     exists g, g ∈ ss_signed s' /\ rlp = encoded_2718 (is_tx g) (is_signature g)) ->
  session_inv s'.
Proof.
  intros [Hst Hap Hsg Hse] Hg Heq Hap' Hsg' Hse'. split.
  - rewrite Heq. intros id h Hh. destruct (Hst id h Hh). split; [done|]. by eapply handle_wf_mono.
  - intros who q a Hin. destruct (Hap' who q a Hin); auto.
  - intros g Hin. destruct (Hsg' g Hin) as [Hold|]; [|done]. destruct (Hsg g Hold) as [(q & Hq) ?].
    split; [|done]. exists q. by apply Hg.
  - intros rlp Hin. destruct (Hse' rlp Hin) as [Hold|]; [|done].
    destruct (Hse rlp Hold) as (g & Hgin & ->). exists g. split; [|done]. by apply Hg.
Qed.

Lemma session_inv_put s h :
  session_inv s -> handle_wf s h ->
  session_inv (mkSession (snd (memory_put_handle h (ss_store s))) (ss_approved s) (ss_signed s) (ss_sent s)).
Proof.
  intros [Hst Hap Hsg Hse] Hh. set (s' := mkSession _ _ _ _).
  assert (Hm : forall h', handle_wf s h' -> handle_wf s' h') by (intros h'; by apply handle_wf_mono).
  split; [|done..]. apply map_Forall_insert_2; [auto|].
  intros id h' Hh'. destruct (Hst id h' Hh'). auto.
Qed.

Lemma session_inv_pending s a hs :
  session_inv s -> memory_pending_handles a (ss_store s) = Ok hs ->
  Forall (fun h => handle_wf s h /\ th_account h = a) hs.
Proof.
  intros Hinv [= <-]. apply list.Forall_forall. intros h [Hp Hin]%list_elem_of_filter.
  apply list_elem_of_In, in_map_iff in Hin as ([id h'] & <- & Hin%list_elem_of_In).
  apply elem_of_map_to_list in Hin. apply (si_store s Hinv) in Hin as [_ ?]. split; [done|].
  unfold is_pending_of in Hp. by bool_simpl.
Qed.

(** A safe call keeps the invariant, and its exchange is one a task may rely on. *)
Lemma session_step_inv s p r s' :
  session_inv s -> safe s p -> session_step s p r s' ->
  typed_env p r /\ session_valid s' (existT p r) /\ session_inv s'.
Proof.
  intros Hinv Hsafe Hstep. pose proof (session_step_grows _ _ _ _ Hstep) as Hg.
  destruct Hstep as [Hw Hstep].
  destruct p; simpl in Hsafe, Hstep |- *; try (subst s'; done); try done.
  all: try (by destruct Hstep; subst s').
  - destruct r as [[a|]|]; subst s'; try done. split_and!; [done|set_solver|].
    eapply session_inv_ghost; eauto. simpl. intros who' q' a' [[= -> -> ->]|Hin]%elem_of_cons; auto.
  - destruct r as [sig|]; subst s'; [|done]. split_and!; [done|set_solver|].
    eapply session_inv_ghost; eauto. simpl. intros g [->|Hin]%elem_of_cons; [|by left].
    right. destruct Hsafe as [Hq Hb]. split_and!; [done|done|by eexists].
  - subst s'. split_and!; [done|done|]. eapply session_inv_ghost; eauto. simpl.
    intros rlp [->|Hin]%elem_of_cons; [|by left]. by right.
  - destruct Hstep as [[-> ->]|[He [->| ->]]]; split_and!; try done; by apply session_inv_put.
  - destruct Hstep as [-> Hr]. split_and!; [done| |done].
    destruct r as [hs|]; [|done]. destruct Hr as [(l & l' & [= ->] & Hl & Hp)|]; [|done].
    rewrite Hp. by eapply session_inv_pending.
  - destruct Hstep as [-> Hr]. split_and!; [done| |done].
    destruct r as [[h|]|]; [|done|done]. destruct Hr as [[= Hr]|]; [|done].
    symmetry in Hr. by apply (si_store s Hinv) in Hr as [_ ?].
Qed.

Lemma session_new_inv : session_inv session_new.
Proof. split; simpl; [done|set_solver..]. Qed.

(** ** Handles the operations write *)

Lemma pending_handle_wf s w acct intent nonce gas fees a a' sig now opts meta :
  typed_env (Allocate acct) (Ok nonce) -> typed_env NowUnix now ->
  mkIssued w (build_tx intent nonce gas fees) (TxIntent_hash intent) a sig ∈ ss_signed s ->
  handle_wf s (pending_handle intent nonce a' (signed_of (build_tx intent nonce gas fees) sig) now opts meta).
Proof.
  intros Hn Hnow Hin. split; try done; simpl.
  - by apply Hn.
  - left. exists w, gas, fees, a, sig. simpl. done.
Qed.

Lemma handle_wf_status s h st : on_chain st = false -> handle_wf s h -> handle_wf s (set_status st h).
Proof. intros Hst []. split; try done. simpl. by rewrite Hst. Qed.

Lemma handle_wf_cancelled s h c : handle_wf s h -> handle_wf s (set_cancelled c h).
Proof. intros []. by split. Qed.

(** A cancel: the handle of a self-send at the target's nonce. *)
Lemma cancel_handle_wf s w target c gas fees a sig now env opts meta :
  handle_wf s target -> typed_env NowUnix now ->
  let flagged := set_cancelled c target in
  mkIssued w (build_tx (cancel_intent target) (th_nonce flagged) gas fees)
    (TxIntent_hash (cancel_intent target)) a sig ∈ ss_signed s ->
  let signed := signed_of (build_tx (cancel_intent target) (th_nonce flagged) gas fees) sig in
  handle_wf s (mkHandle (HandleId_new (TxIntent_hash (cancel_intent target)) (th_nonce flagged))
    (th_account flagged) (cancel_intent target) (TxIntent_hash (cancel_intent target)) (th_nonce flagged)
    Sent env (st_rlp signed) [st_hash signed] now false opts meta).
Proof. intros [] Hnow flagged Hin. split; try done. left. exists w, gas, fees, a, sig. done. Qed.

(** A bump: the same intent at the same nonce, signed again. *)
Lemma bumped_handle_wf s w h gas fees a sig now opts :
  handle_wf s h -> typed_env NowUnix now ->
  mkIssued w (build_tx (th_intent h) (th_nonce h) gas fees) (th_intent_hash h) a sig ∈ ss_signed s ->
  let signed := signed_of (build_tx (th_intent h) (th_nonce h) gas fees) sig in
  handle_wf s (set_signed (st_rlp signed) now (push_broadcast (st_hash signed) (set_submission opts h))).
Proof.
  intros [] Hnow Hin. split; try done; simpl.
  - left. exists w, gas, fees, a, sig. simpl. by rewrite rev_app_distr.
  - by destruct (th_broadcasts h).
Qed.

(** The relay's report of a hash for a task that had none. *)
Lemma reported_handle_wf s h hash :
  handle_wf s h -> th_broadcasts h = [] -> handle_wf s (set_status Sent (push_broadcast hash h)).
Proof.
  intros [] Hnil. split; try done. right. unfold relayed_payload. simpl. rewrite Hnil.
  destruct wf_payload0 as [(? & ? & ? & ? & ? & _ & _ & Hlast)|(? & ? & _)]; [|split_and!; auto].
  by rewrite Hnil in Hlast.
Qed.

Lemma task_handle_wf s intent meta now env opts :
  is_Some (mc_task meta) -> typed_env NowUnix now ->
  let nonce := saturating_to u64_max (mc_nonce meta) in
  handle_wf s (mkHandle (HandleId_new (TxIntent_hash intent) nonce) (ti_account intent) intent
    (TxIntent_hash intent) nonce Sent env [] [] now false opts (Some meta)).
Proof.
  intros Ht Hnow. split; try done; simpl.
  - unfold saturating_to. lia.
  - right. split_and!; simpl; [done|done|lia].
Qed.

(** A handle that waits for no relay tracks a broadcast. *)
Lemma tracked_nonempty s h : handle_wf s h -> is_awaiting_relay h = false -> th_broadcasts h <> [].
Proof.
  intros [] Haw Hnil. destruct wf_payload0 as [(? & ? & ? & ? & ? & _ & _ & Hlast)|(_ & Htask & _)].
  - by rewrite Hnil in Hlast.
  - unfold is_awaiting_relay in Haw. rewrite Hnil in Haw. destruct (th_meta h) as [m|]; simpl in Htask.
    + by rewrite bool_decide_true in Haw.
    + by destruct Htask.
Qed.

Lemma advanced_handle_wf s h st :
  handle_wf s h -> is_awaiting_relay h = false -> handle_wf s (set_status st h).
Proof. intros Hwf Haw. pose proof (tracked_nonempty s h Hwf Haw). by destruct Hwf. Qed.

(** Bytes worth rebroadcasting were signed. *)
Lemma recoverable_signed s h : handle_wf s h -> recoverable h = true ->
  exists g, g ∈ ss_signed s /\ th_signed h = encoded_2718 (is_tx g) (is_signature g).
Proof.
  intros Hwf Hrec. unfold recoverable in Hrec. apply andb_true_iff in Hrec as [_ Hne].
  destruct (wf_payload s h Hwf) as [(w & gas & fees & a & sig & Hin & Hs & _)|(Hnil & _)].
  - eexists. split; [exact Hin|]. done.
  - by rewrite Hnil in Hne.
Qed.

(** ** Safe calls *)

Lemma put_safe s h : handle_wf s h -> safe s (PutHandle h).
Proof. done. Qed.

Lemma sign_safe s w q a i nonce gas fees now :
  signs_for w i -> (w, q, a) ∈ ss_approved s ->
  safe s (SignTransaction w (build_tx i nonce gas fees) (TxIntent_hash i) a now).
Proof. intros Ho H. split; [by exists q|]. by exists i, nonce, gas, fees. Qed.

Lemma cancel_signs_for w target : signs_for w (cancel_intent target).
Proof. right. unfold is_self_send, cancel_intent. simpl. by rewrite bool_decide_true. Qed.

Lemma resign_safe s w q a h acct nonce gas fees now :
  handle_wf s h -> th_account h = acct -> owns w acct -> (w, q, a) ∈ ss_approved s ->
  safe s (SignTransaction w (build_tx (th_intent h) nonce gas fees) (th_intent_hash h) a now).
Proof.
  intros Hwf <- Ho Hq. rewrite (wf_intent_hash s h Hwf). apply (sign_safe _ _ q); [|done].
  left. by rewrite <- (wf_account s h Hwf).
Qed.

Lemma submit_safe s w tx ih a sig opts :
  mkIssued w tx ih a sig ∈ ss_signed s -> safe s (Submit (st_rlp (signed_of tx sig)) opts).
Proof. intros H. eexists. split; [exact H|]. done. Qed.
End Session.


Create HintDb session discriminated.
#[export] Hint Constants Opaque : session.
#[export] Hint Resolve pending_handle_wf handle_wf_cancelled cancel_handle_wf bumped_handle_wf : session.
#[export] Hint Resolve put_safe sign_safe cancel_signs_for resign_safe submit_safe : session.
#[export] Hint Extern 4 (handle_wf _ (set_status _ _)) => (simple apply handle_wf_status; [reflexivity|]) : session.

(** ** Operations *)

Abbreviation session_safe owns m tr Q := (triple typed_env (knows_safe session_valid (safe owns)) m tr Q).

(** What the task knew before the program began. *)
Ltac use_known :=
  repeat match goal with
  | HK : knows _ ?tr _, Hf : Forall (session_valid ?s) ?tr |- _ =>
      let H := fresh "Hknown" in pose proof (HK s Hf) as H; clear HK; cbn beta in H; destruct_and? H
  end.

(** Prove a call safe from the exchanges made so far. *)
Ltac session_call :=
  let s := fresh "s" in
  let Hv := fresh "Hv" in
  intros s Hv; first
    [ exact I
    | rewrite ?Forall_cons_iff in Hv; cbn [session_valid] in Hv; destruct_and? Hv;
      use_known; solve [eauto 8 with session nocore] ].

Section Operations.
Context {A : Alloy} (owns : principal -> Address -> Prop).

(** The signer's address of a manager is its key's. *)
Definition manager_owned (self : TransactionManager) : Prop := owns (tm_who self) (tm_signer_address self).
Definition executor_owned (self : AccountExecutor) : Prop :=
  owns (ex_who self) (ex_account self) /\ forall manager, ex_refill self = Some manager -> manager_owned manager.

Lemma send_safe self intent opts meta tr :
  manager_owned self ->
  session_safe owns (send_with_meta self intent opts meta) tr (fun _ _ => True).
Proof.
  intros Ho. assert (Hs : (tm_signer_address self =? ti_account intent) = true -> signs_for owns (tm_who self) intent).
  { intros E%Z.eqb_eq. left. rewrite <- E. exact Ho. }
  send_unfold. destruct (tm_signer_address self =? ti_account intent); cbn [negb];
    [specialize (Hs eq_refl)|clear Hs]; wp_auto ltac:(session_call); done.
Qed.

Lemma cancel_safe self id tr : session_safe owns (cancel self id) tr (fun _ _ => True).
Proof.
  cancel_unfold. wp_auto ltac:(session_call); done.
Qed.

Lemma persist_task_safe intent meta tr :
  is_Some (mc_task meta) -> session_safe owns (persist_task_handle intent meta) tr (fun _ _ => True).
Proof.
  intros Ht. unfold persist_task_handle, map_err, try_bind.
  wp_auto ltac:(intros s _; first [exact I | by apply task_handle_wf]); done.
Qed.

(** ** The executor *)

(** The executor's approval cache holds only approvals of its own policy. *)
Definition cache_known (who : principal) (tr : history) (st : exec_state) : Prop :=
  forall id a, es_approvals st !! id = Some a ->
  exists q, knows session_valid tr (fun s => (who, q, a) ∈ ss_approved s).

Lemma cache_known_new who tr : cache_known who tr exec_state_new.
Proof. intros id a. unfold exec_state_new. simpl. by rewrite lookup_empty. Qed.

Lemma cache_known_extend who new tr st : cache_known who tr st -> cache_known who (new ++ tr) st.
Proof. intros H id a Hid. destruct (H id a Hid) as [q Hq]. exists q. by apply knows_extend. Qed.

Lemma cache_known_cons who e tr st : cache_known who tr st -> cache_known who (e :: tr) st.
Proof. apply (cache_known_extend who [e]). Qed.

Lemma cache_known_forget who id tr st : cache_known who tr st -> cache_known who tr (forget id st).
Proof. intros H id' a Hid. simpl in Hid. apply lookup_delete_Some in Hid as [_ Hid]. eauto. Qed.

Lemma cache_known_track who id a q tr st :
  knows session_valid tr (fun s => (who, q, a) ∈ ss_approved s) ->
  cache_known who tr st -> cache_known who tr (track id a st).
Proof.
  intros Ha H id' a' Hid. simpl in Hid. apply lookup_insert_Some in Hid as [[<- <-]|[_ Hid]]; eauto.
Qed.

Definition read_wf (acct : Address) (tr : history) (h : TxHandle) : Prop :=
  knows session_valid tr (fun s => handle_wf s h /\ th_account h = acct).

Lemma read_wf_pending acct handles h tr :
  h ∈ handles -> read_wf acct (existT (PendingHandles acct) (Ok handles) :: tr) h.
Proof.
  intros Hin. eapply knows_event; [constructor|]. simpl. intros s Hs. rewrite list.Forall_forall in Hs. auto.
Qed.

Section Executor.
Context (self : AccountExecutor) (Howned : executor_owned self).
Abbreviation cached tr st := (cache_known (ex_who self) tr st).
Abbreviation read_own tr h := (read_wf (ex_account self) tr h).

(** An approval fit for a bump comes from this policy: out of the cache, or fresh. *)
Lemma bump_approval_safe h bumped now st tr :
  cached tr st ->
  session_safe owns (bump_approval self h bumped now st) tr (fun tr' r =>
    cached tr' st /\ forall a, r = Ok (Some a) ->
    exists q, knows session_valid tr' (fun s => (ex_who self, q, a) ∈ ss_approved s)).
Proof.
  intros Hst. unfold bump_approval.
  wp_auto ltac:(intros s _; exact I); (split; [auto using cache_known_cons|]); intros a' Ha.
  all: repeat case_match; simplify_eq/=; first [by eapply Hst | eexists; eapply knows_event; [constructor|by simpl]].
Qed.

(** A bump shows the key only an approval of this policy and writes a well-formed handle. *)
Lemma bump_safe h now st tr :
  read_own tr h -> typed_env NowUnix now -> cached tr st ->
  session_safe owns (bump self h now st) tr (fun tr' x => cached tr' (snd x)).
Proof.
  pose proof (proj1 Howned) as Ho. intros Hh Hnow Hst. unfold bump. wp_simpl.
  apply triple_call; [done|]. intros [mined|e] _; [|by apply cache_known_cons].
  destruct (_ <? mined); [by apply cache_known_cons|].
  destruct (decode_fees _) as [current|]; [|by apply cache_known_cons].
  apply triple_call; [done|]. intros [bumped|e] _; cycle 1.
  { destruct e; simpl; auto using cache_known_cons. }
  destruct (negb _); [simpl; auto using cache_known_cons|].
  set (tr1 := existT (GasBump _) _ :: _). apply triple_bind.
  eapply triple_mono; [|apply triple_extends, bump_approval_safe; by do 2 apply cache_known_cons].
  intros tr2 r [[Hst2 Hr] [new ->]].
  assert (Hh2 : read_own (new ++ tr1) h) by (apply knows_extend, (knows_extend _ [_; _]); exact Hh).
  clear Hh. unfold read_wf in Hh2. set (tr2 := new ++ tr1) in *. clearbody tr2.
  destruct r as [[a|]|]; cbn beta iota; try done.
  destruct (Hr a eq_refl) as [q Hq]. unfold sign_encode, try_bind.
  wp_auto ltac:(session_call); cbn [snd]; auto 6 using cache_known_cons.
  all: apply (cache_known_track _ _ _ q);
    [repeat apply (knows_extend _ [_]); exact Hq|auto 6 using cache_known_cons].
Qed.

(** A loop over the handles read in [tr0] whose body keeps the cache known. *)
Lemma handles_loop (handles : list TxHandle) body tr0 st :
  cached tr0 st -> (forall h, h ∈ handles -> read_own tr0 h) ->
  (forall h tr st, h ∈ handles -> read_own tr h -> cached tr st ->
     session_safe owns (body h st) tr (fun tr' st' => cached tr' st')) ->
  session_safe owns (for_each handles st body) tr0 (fun tr' st' => cached tr' st').
Proof.
  intros Hst Hwf Hbody.
  eapply triple_mono; [|apply (triple_for_each _ _ _ _ _ _
    (fun tr st => cached tr st /\ exists new, tr = new ++ tr0))].
  - by intros tr' st' [? _].
  - split; [done|by exists []].
  - intros h tr st' Hin [Hst' [new ->]].
    eapply triple_mono; [|apply triple_extends, Hbody; [done|by apply knows_extend, Hwf|done]].
    intros tr' st'' [? [new' ->]]. split; [done|]. exists (new' ++ new). by rewrite app_assoc.
Qed.

Lemma escalate_safe st tr :
  cached tr st -> session_safe owns (escalate self st) tr (fun tr' x => cached tr' (snd x)).
Proof.
  intros Hst. unfold escalate. wp_simpl. apply triple_call; [done|]. intros now Hnow. wp_simpl.
  apply triple_call; [done|]. intros [handles|e] _; wp_simpl; [|simpl; auto using cache_known_cons].
  apply triple_bind. eapply triple_mono; [|apply handles_loop].
  - done.
  - auto using cache_known_cons.
  - intros h Hin. by apply read_wf_pending.
  - intros h tr' st' _ Hh Hst'. destruct (is_stuck _ now h); [|done].
    apply triple_bind. eapply triple_mono; [|by apply bump_safe]. by intros tr'' [r st''].
Qed.

Lemma recover_safe tr : session_safe owns (recover self) tr (fun _ _ => True).
Proof.
  unfold recover, map_err, try_bind. wp_simpl. apply triple_call; [done|].
  intros [handles|e] _; wp_simpl; [|done]. apply triple_bind.
  eapply triple_mono; [|apply (triple_for_each _ _ _ _ _ _
    (fun tr' _ => forall h, h ∈ handles -> read_own tr' h))]; [done| |].
  - intros h Hin. by apply read_wf_pending.
  - intros h tr' [] Hin Hwf. destruct (recoverable h) eqn:Hrec; [|done]. wp_simpl.
    apply triple_call; [|intros r _ h' Hin'; by apply (knows_extend _ [_]), Hwf].
    intros s Hv. apply recoverable_signed; [|done]. by apply (Hwf h Hin).
Qed.

(** ** Confirmation *)

Lemma on_settled_safe h st tr :
  cached tr st -> session_safe owns (on_settled self h st) tr (fun tr' st' => cached tr' st').
Proof.
  pose proof (proj2 Howned) as Hm. intros Hst. apply (cache_known_forget _ (th_id h)) in Hst. unfold on_settled.
  destruct (ex_refill self) as [manager|]; [|done]. case_decide; [|done].
  unfold refill_intent, send, send_with. apply triple_bind, triple_bind.
  eapply triple_mono; [|apply triple_extends, send_safe, Hm; done].
  intros tr' _ [_ [new ->]]. by apply cache_known_extend.
Qed.

Lemma poll_task_safe h st tr :
  read_own tr h -> is_awaiting_relay h = true -> cached tr st ->
  session_safe owns (poll_task self h st) tr (fun tr' st' => cached tr' st').
Proof.
  intros Hh Haw Hst.
  assert (Hnil : th_broadcasts h = []) by (unfold is_awaiting_relay in Haw; by destruct (th_broadcasts h)).
  unfold poll_task. destruct (ex_relay self), (th_meta h ≫= mc_task); try done. wp_simpl.
  apply triple_call; [done|]. intros [[|hash|reason]|e] _; wp_simpl; try (by apply cache_known_cons).
  - apply triple_call.
    + intros s Hv. apply reported_handle_wf; [|done]. apply Forall_cons_iff in Hv as [_ Hv]. by apply Hh.
    + intros r _. simpl. auto using cache_known_cons.
  - apply triple_call.
    + intros s Hv. apply handle_wf_status; [done|]. apply Forall_cons_iff in Hv as [_ Hv]. by apply Hh.
    + intros r _. destruct (is_ok r); [apply on_settled_safe|simpl]; auto using cache_known_cons.
Qed.

Lemma event_scan_safe hashes h mined tr : session_safe owns (event_scan hashes h mined) tr (fun _ _ => True).
Proof.
  revert tr. induction hashes as [|x hashes IH]; intros tr; cbn [event_scan]; [done|].
  wp_simpl. apply triple_call; [done|]. intros [[rc|]|e] _; [|apply IH|done].
  unfold anchor. wp_auto ltac:(intros s _; exact I); done.
Qed.

Lemma advance_handle_safe h cycle st tr :
  read_own tr h -> cached tr st ->
  session_safe owns (advance_handle self h cycle st) tr (fun tr' st' => cached tr' st').
Proof.
  intros Hh Hst. unfold advance_handle. destruct (is_awaiting_relay h) eqn:Haw; [by apply poll_task_safe|].
  unfold advance_on_chain, event_for. apply triple_bind.
  eapply triple_mono; [|apply triple_extends, event_scan_safe]. intros tr' ev [_ [new ->]].
  apply (cache_known_extend _ new) in Hst. apply (knows_extend _ new) in Hh.
  destruct (transition _ _ _ _); [|done]. wp_simpl. apply triple_call.
  - intros s Hv. apply advanced_handle_wf; [|done]. by apply Hh.
  - intros r _. destruct (_ && _); [apply on_settled_safe|simpl]; auto using cache_known_cons.
Qed.

Lemma confirm_safe st tr :
  cached tr st -> session_safe owns (confirm self st) tr (fun tr' x => cached tr' (snd x)).
Proof.
  intros Hst. unfold confirm. apply triple_bind.
  eapply triple_mono with (Q := fun tr' x => cached tr' (snd x)).
  2: { unfold read_cycle. wp_auto ltac:(intros s _; exact I); simpl; auto 6 using cache_known_cons. }
  intros tr' [c st'] Hst'. simpl in Hst'. destruct c as [[cycle|]|e]; [|done|done].
  wp_simpl. apply triple_call; [done|]. intros [[]|e] _; [|simpl; auto using cache_known_cons].
  wp_simpl. apply triple_call; [done|]. intros [handles|e] _; [|simpl; auto using cache_known_cons].
  apply triple_bind. eapply triple_mono; [|apply handles_loop].
  - done.
  - auto using cache_known_cons.
  - intros h Hin. by apply read_wf_pending.
  - intros h tr'' st'' _ Hh Hs. by apply advance_handle_safe.
Qed.

Lemma tick_safe st tr :
  cached tr st -> session_safe owns (Executor.tick self st) tr (fun tr' x => cached tr' (snd x)).
Proof.
  intros Hst. unfold Executor.tick. apply triple_bind.
  eapply triple_mono; [|apply triple_extends, recover_safe]. intros tr1 r [_ [new ->]].
  apply (cache_known_extend _ new) in Hst. destruct r; [|done]. apply triple_bind.
  eapply triple_mono; [|by apply confirm_safe]. intros tr2 [r st2] Hst2.
  destruct r; [|done]. by apply escalate_safe.
Qed.
End Executor.
End Operations.

(** ** The wallet's tasks *)

Section Wallet.
Context {A : Alloy}.
Context (abi_user_nonce : Address -> Bytes).
Context (address_display : Address -> string) (bytes_display : Bytes -> string) (b256_display : B256 -> string).
Context (status_display : Z -> string) (parse_relay_response : string -> option string).

Abbreviation gasless w intent opts :=
  (send_gasless status_display abi_user_nonce address_display bytes_display b256_display
     parse_relay_response w intent opts).

(** What a host may start: any operation of any wallet over the store; or of the wallets
    that satisfy [P]. *)
Inductive task_of (P : Wallet -> Prop) : io unit -> Prop :=
| Task_send w intent opts : P w -> task_of P (let* _ := wallet_send_with w intent opts in Ret tt)
| Task_cancel w id : P w -> task_of P (let* _ := wallet_cancel w id in Ret tt)
| Task_gasless w intent opts : P w -> task_of P (let* _ := gasless w intent opts in Ret tt)
| Task_message w message : P w -> task_of P (let* _ := wallet_sign_message w message in Ret tt)
| Task_typed_data w typed : P w -> task_of P (let* _ := wallet_sign_typed_data w typed in Ret tt)
| Task_run w wakes : P w -> task_of P (let* _ := run_loop w wakes wallet_state_new in Ret tt).
Definition any_wallet (_ : Wallet) : Prop := True.
Definition wallet_task : io unit -> Prop := task_of any_wallet.

(** Every manager and executor of the wallet signs for its key's own account, as
    [WalletBuilder::build] wires them. *)
Definition wallet_owned (owns : principal -> Address -> Prop) (w : Wallet) : Prop :=
  manager_owned owns (w_manager w) /\ executor_owned owns (w_executor w) /\
  forall rt, w_gasless w = Some (Backend_SelfRelay rt) ->
    manager_owned owns (rt_manager rt) /\ executor_owned owns (rt_executor rt).

Context (owns : principal -> Address -> Prop).

Lemma wallet_tick_safe w st tr :
  wallet_owned owns w ->
  cache_known (ex_who (w_executor w)) tr (ws_user st) ->
  (forall rt, w_gasless w = Some (Backend_SelfRelay rt) ->
     cache_known (ex_who (rt_executor rt)) tr (ws_relayer st)) ->
  session_safe owns (wallet_tick w st) tr (fun tr' x =>
    cache_known (ex_who (w_executor w)) tr' (ws_user (snd x)) /\
    forall rt, w_gasless w = Some (Backend_SelfRelay rt) ->
      cache_known (ex_who (rt_executor rt)) tr' (ws_relayer (snd x))).
Proof.
  intros (_ & Hw1 & Hw2) Hu Hr. unfold wallet_tick. apply triple_bind.
  eapply triple_mono; [|apply triple_extends, tick_safe, Hu; exact Hw1]. intros tr1 [r u] [Hu1 [new ->]].
  assert (Hr1 : forall rt, w_gasless w = Some (Backend_SelfRelay rt) ->
    cache_known (ex_who (rt_executor rt)) (new ++ tr) (ws_relayer st))
    by (intros rt E; by apply cache_known_extend, Hr).
  destruct r; [|by simpl]. destruct (w_gasless w) as [[rt|relay]|] eqn:Hw; try by simpl.
  apply triple_bind. eapply triple_mono; [|apply triple_extends, tick_safe, Hr1; [by apply Hw2|reflexivity]].
  intros tr2 [r v] [Hv [new2 ->]]. simpl. split; [by apply cache_known_extend|].
  intros rt' [= <-]. done.
Qed.

Lemma run_loop_safe w wakes st tr :
  wallet_owned owns w ->
  cache_known (ex_who (w_executor w)) tr (ws_user st) ->
  (forall rt, w_gasless w = Some (Backend_SelfRelay rt) ->
     cache_known (ex_who (rt_executor rt)) tr (ws_relayer st)) ->
  session_safe owns (run_loop w wakes st) tr (fun _ _ => True).
Proof.
  intros Hw. revert st tr. induction wakes as [|[] wakes IH]; intros st tr Hu Hr; cbn [run_loop];
    apply triple_bind; (eapply triple_mono; [|by apply wallet_tick_safe]);
    intros tr' [r st'] [Hu' Hr']; try done. by apply IH.
Qed.

Lemma forward_request_safe self intent forwarder domain secs tr :
  session_safe owns (build_and_sign_forward_request self intent forwarder domain secs) tr (fun _ _ => True).
Proof.
  unfold build_and_sign_forward_request, forwarder_nonce, tm_sign_typed_data, tm_authorize, map_err, try_bind.
  wp_auto ltac:(intros s _; exact I); done.
Qed.

Lemma gasless_safe w intent opts tr :
  wallet_owned owns w -> session_safe owns (gasless w intent opts) tr (fun _ _ => True).
Proof.
  intros (_ & _ & Hw). unfold send_gasless.
  destruct (go_route opts), (w_gasless w) as [[rt|gr]|]; try done.
  - unfold send_self_relay, try_bind, map_err. apply triple_bind.
    eapply triple_mono; [|apply forward_request_safe]. intros tr' [signed|e] _; [|done].
    apply triple_bind. eapply triple_mono; [|apply send_safe; by apply Hw]. done.
  - unfold send_gelato, build_call, user_nonce, tm_sign_typed_data, tm_authorize, gelato_submit,
      map_err, try_bind.
    wp_auto ltac:(intros s _; exact I); try done.
    all: apply triple_bind; (eapply triple_mono; [|by apply persist_task_safe]); done.
Qed.

Lemma wallet_task_safe m : task_of (wallet_owned owns) m -> session_safe owns m [] (fun _ _ => True).
Proof.
  intros [w intent opts Hw|w id Hw|w intent opts Hw|w message Hw|w typed Hw|w wakes Hw]; apply triple_bind.
  - unfold wallet_send_with, map_err. apply triple_bind. eapply triple_mono; [|by apply send_safe; destruct Hw]. done.
  - unfold wallet_cancel, map_err. apply triple_bind. eapply triple_mono; [|apply cancel_safe]. done.
  - eapply triple_mono; [|by apply gasless_safe]. done.
  - unfold wallet_sign_message, tm_sign_message, tm_authorize, map_err, try_bind.
    wp_auto ltac:(intros s _; exact I); done.
  - unfold wallet_sign_typed_data, tm_sign_typed_data, tm_authorize, map_err, try_bind.
    wp_auto ltac:(intros s _; exact I); done.
  - eapply triple_mono; [|apply run_loop_safe; intros; [exact Hw|apply cache_known_new..]]. done.
Qed.

(** What every reachable state of a session satisfies, whatever the policies and keys
    promise. *)
Lemma session_reach_inv (world : forall p, resp p -> Prop) startable ts s :
  (forall m, startable m -> task_of (wallet_owned owns) m) ->
  tasks_reach (session_step world) startable session_new (ts, s) ->
  session_inv world owns s /\ Forall (fun m => match m with Ret _ => True | Call p _ => safe owns s p end) ts.
Proof.
  intros Hstart. apply (tasks_invariant (session_step world) startable session_valid typed_env (safe owns)
    (session_inv world owns)).
  - intros m Hm. by apply wallet_task_safe, Hstart.
  - intros ? ? ? ? ?. by apply session_valid_mono.
  - apply session_step_inv.
  - apply session_new_inv.
Qed.

End Wallet.

Section Sessions.
Context {A : Alloy}.
Context (abi_user_nonce : Address -> Bytes).
Context (address_display : Address -> string) (bytes_display : Bytes -> string) (b256_display : B256 -> string).
Context (status_display : Z -> string) (parse_relay_response : string -> option string).
Abbreviation tasks_from P :=
  (task_of abi_user_nonce address_display bytes_display b256_display status_display parse_relay_response P).

(** Any wallet is wired for a key that may own any account. *)
Definition own_any (_ : principal) (_ : Address) : Prop := True.
Lemma any_task_owned m : tasks_from any_wallet m -> tasks_from (wallet_owned own_any) m.
Proof. intros []; by constructor. Qed.

(** C9: whatever operations any wallets run concurrently over one store, in whatever
    interleaving, with every node, policy, key and relay answering adversarially, writes
    failing or taking effect unacknowledged, tasks dropped at any await and loops
    restarted: every stored handle is named by its own intent and nonce, holds bytes a key
    signed for exactly that intent at that nonce (or a relay's task), and tracks the hash
    of those bytes; and the next write of any task keeps it so. *)
Theorem session_handles_wf ts s :
  tasks_reach (session_step any_response) (tasks_from any_wallet) session_new (ts, s) ->
  map_Forall (fun id h => th_id h = id /\ handle_wf s h) (mem_handles (ss_store s)) /\
  Forall (fun m => match m with Call (PutHandle h) _ => handle_wf s h | _ => True end) ts.
Proof.
  intros [[] Hts]%(session_reach_inv _ _ _ _ _ _ own_any _ _ _ _ any_task_owned). split; [done|].
  eapply list.Forall_impl; [exact Hts|]. intros [u|p k]; [done|]. by destruct p.
Qed.

(** ** Native policies and local keys *)

(** What the native engine and the local key promise of an answer, for the engine and key
    of each operated account. *)
Definition native_world (engines : principal -> DefaultPolicyEngine) (keys : principal -> LocalSigner)
    (p : port) : resp p -> Prop :=
  match p return resp p -> Prop with
  | Evaluate who q => fun r => forall a, r = Ok (Allow a) ->
      decide_outcome (engines who) q = WouldAllow /\ signing_hash q = Ok (pa_payload_hash a) /\
      pa_gas_envelope a = pe_fee_caps (engines who)
  | SignTransaction who tx ih a now => fun r => forall sig, r = Ok sig ->
      r = sign_transaction (keys who) tx ih a now
  | _ => fun _ => True
  end.

(** The engine of [adapters/policy/native.rs] keeps that promise. *)
Lemma evaluate_native_world engines keys who q tr :
  triple any_response any_call (evaluate (engines who) q) tr
    (fun _ r => native_world engines keys (Evaluate who q) r).
Proof.
  unfold evaluate, decide_request. destruct (decide_outcome (engines who) q) eqn:Hd; [|done].
  destruct (signing_hash q) eqn:Hs; [|done]. wp_simpl. apply triple_call; [done|].
  by intros now _ a0 [= <-].
Qed.

(** The account of a principal is the address of its key. *)
Definition key_owns (keys : principal -> LocalSigner) (who : principal) (a : Address) : Prop :=
  a = ls_address (keys who).

(** Bytes a policy and its key stand behind, for the intent of hash [ih] at [nonce]: a
    transaction built from that intent, whose account is the key's own (or which is a
    zero-value self-send, as every cancel is), whose very hash the policy's rules allowed,
    its fees within the policy's caps, signed by the key in low-s form. *)
Definition backed (engines : principal -> DefaultPolicyEngine) (keys : principal -> LocalSigner)
    (ih : IntentHash) (nonce : Z) (rlp : Bytes) : Prop :=
  exists who q i gas fees raw,
    let tx := build_tx i nonce gas fees in
    TxIntent_hash i = ih /\ (ti_account i = ls_address (keys who) \/ is_self_send i = true) /\
    decide_outcome (engines who) q = WouldAllow /\ signing_hash q = Ok (TxIntent_hash i) /\
    admits (pe_fee_caps (engines who)) (max_fee_per_gas fees) (max_priority_fee_per_gas fees) = true /\
    ls_sign_hash_sync (keys who) (signature_hash tx) = Ok raw /\ rlp = encoded_2718 tx (enforce_low_s raw).

Lemma signed_ok_backed engines keys s g :
  session_inv (native_world engines keys) (key_owns keys) s -> g ∈ ss_signed s ->
  backed engines keys (is_intent_hash g) (tx_nonce (is_tx g)) (encoded_2718 (is_tx g) (is_signature g)).
Proof.
  intros Hinv Hg. destruct (si_signed _ _ s Hinv g Hg) as ((q & Hq) & (i & n & gas & fees & Htx & Hih & Hfor) & now & Hw).
  destruct (si_approved _ _ s Hinv _ _ _ Hq _ eq_refl) as (Hd & Hh & Hcaps).
  specialize (Hw _ eq_refl). rewrite Htx in Hw |- *. unfold sign_transaction, gate, sign_hash_low_s in Hw.
  destruct (authorizes _ _) eqn:Ha; [|done]. cbn [negb] in Hw. destruct (_ <? now); [done|].
  destruct (admits _ _ _) eqn:Had; [|done]. cbn [negb] in Hw.
  destruct (ls_sign_hash_sync _ _) as [raw|] eqn:Hraw; [|done]. injection Hw as ->.
  unfold authorizes in Ha. apply Z.eqb_eq in Ha. rewrite Hcaps in Had. rewrite Ha, Hih in Hh.
  exists (is_who g), q, i, gas, fees, raw. done.
Qed.

Lemma stored_backed engines keys s id h :
  session_inv (native_world engines keys) (key_owns keys) s -> mem_handles (ss_store s) !! id = Some h ->
  th_signed h <> [] -> backed engines keys (th_intent_hash h) (th_nonce h) (th_signed h).
Proof.
  intros Hinv Hh Hne. destruct (si_store _ _ s Hinv id h Hh) as [_ Hwf].
  destruct (wf_payload s h Hwf) as [(w & gas & fees & a & sig & Hin & -> & _)|[? _]]; [|done].
  by apply (signed_ok_backed _ _ _ _ Hinv Hin).
Qed.

Definition some_backed engines keys (rlp : Bytes) : Prop :=
  exists ih nonce, backed engines keys ih nonce rlp.

(** What a host may start over native policies and local keys: any operation of any wallet
    whose managers and executors work for the accounts of their keys. *)
Definition native_task (keys : principal -> LocalSigner) : io unit -> Prop :=
  tasks_from (wallet_owned (key_owns keys)).

(** C10: a whole session under native policies and local keys, of wallets that work for
    their keys' accounts, lets out only backed bytes.  For every interleaving of sends,
    cancels, gasless sends and executor loops over one store, adversarial nodes and lossy
    writes included: every byte string ever broadcast (first sends, cancels, rebroadcasts
    and bumps alike) is a transaction built from an intent of some key's own account, which
    that account's rules allowed, within its fee caps, signed by that key; or, as a cancel
    takes any handle, a zero-value self-send of whatever account that the canceller's own
    rules allowed, within its caps, signed by its key.  The bytes of every stored handle are
    so backed for the handle's own intent hash and nonce. *)
Theorem session_broadcasts_backed (engines : principal -> DefaultPolicyEngine)
    (keys : principal -> LocalSigner) ts s :
  tasks_reach (session_step (native_world engines keys)) (native_task keys) session_new (ts, s) ->
  (forall rlp, rlp ∈ ss_sent s -> some_backed engines keys rlp) /\
  (forall id h, mem_handles (ss_store s) !! id = Some h -> th_signed h <> [] ->
     backed engines keys (th_intent_hash h) (th_nonce h) (th_signed h)) /\
  Forall (fun m => match m with Call (Submit rlp _) _ => some_backed engines keys rlp | _ => True end) ts.
Proof.
  intros [Hinv Hts]%(session_reach_inv _ _ _ _ _ _ (key_owns keys) _ _ _ _ (fun m Hm => Hm)).
  assert (Hb : forall rlp, (exists g, g ∈ ss_signed s /\ rlp = encoded_2718 (is_tx g) (is_signature g)) ->
    some_backed engines keys rlp).
  { intros rlp (g & Hg & ->). do 2 eexists. by eapply signed_ok_backed. }
  split_and!.
  - intros rlp Hin. apply Hb. by apply (si_sent _ _ s Hinv).
  - intros id h Hh. by apply (stored_backed _ _ s id).
  - eapply list.Forall_impl; [exact Hts|]. intros [u|p k]; [done|]. destruct p; try done. apply Hb.
Qed.

(** [WalletBuilder::build] wires every wallet over local keys so. *)
Theorem built_wallet_owned parse_response transport_url request_body (b : WalletBuilder) (keys : principal -> LocalSigner) :
  (forall who, sg_address (signer_of b who) = ls_address (keys who)) ->
  wallet_owned (key_owns keys) (build parse_response status_display transport_url request_body b).
Proof.
  intros Hk. pose proof (Hk User) as Hu. pose proof (Hk Relayer) as Hr. simpl in Hu, Hr.
  unfold wallet_owned, executor_owned, manager_owned, key_owns, build.
  destruct (wb_relayer b), (wb_forwarder b), (wb_gelato b), (wb_confirmations b), (wb_bump_timeout b),
    (wb_gas_buffer_pct b), (wb_refill_on_replaced b); simpl in *;
    (split; [done|]); (split; [split; [done|]; try done; by intros ? [= <-]|]); try done;
    intros ? [= <-]; simpl; done.
Qed.
End Sessions.

(** ** Concrete sessions *)

(** A healthy world at block 100 where the account's nonce 11 is still unmined. *)
Definition demo_world (p : port) (s : session) : resp p * session :=
  match p return resp p * session with
  | PutHandle h =>
      (Ok tt, mkSession (snd (memory_put_handle h (ss_store s))) (ss_approved s) (ss_signed s) (ss_sent s))
  | GetHandle id => (memory_handle id (ss_store s), s)
  | PendingHandles a => (memory_pending_handles a (ss_store s), s)
  | Evaluate who q =>
      let a := mint 0 GasEnvelope_DEFAULT 2000 in
      (Ok (Allow a), mkSession (ss_store s) ((who, q, a) :: ss_approved s) (ss_signed s) (ss_sent s))
  | SignTransaction who tx ih a _ =>
      let sig := mkSignature 1 2 false in
      (Ok sig, mkSession (ss_store s) (ss_approved s) (mkIssued who tx ih a sig :: ss_signed s) (ss_sent s))
  | Submit rlp _ => (Ok 5, mkSession (ss_store s) (ss_approved s) (ss_signed s) (rlp :: ss_sent s))
  | GasBump _ => (Ok (mkEstimation 300 15), s)
  | BlockNumber => (Ok 100, s)
  | TxCount _ => (Ok 12, s)
  | FinalizedBlock => (Ok None, s)
  | ResetNonce _ _ => (Ok tt, s)
  | Receipt _ => (Ok None, s)
  | NowUnix => (1000, s)
  | Allocate _ => (Ok 11, s)
  | q => (demo_gasless_env q, s)
  end.

Lemma demo_world_step p s : session_step any_response s p (fst (demo_world p s)) (snd (demo_world p s)).
Proof.
  split; [done|]. destruct p; simpl; auto;
    try solve [(split; [|done]); try (intros ? [= <-]); unfold is_uint, u64_max; lia].
  split; [done|]. left. eexists _, _. split; [reflexivity|]. by split.
Qed.

Definition demo_task : io unit -> Prop :=
  wallet_task (fun _ => []) (fun _ => "to") (fun _ => "0x") (fun _ => "salt") (fun _ => EmptyString) Some.
Definition demo_send_task : io unit :=
  let* _ := wallet_send_with (demo_build demo_builder) demo_wallet_intent SubmissionOpts_default in Ret tt.
Definition demo_sent : session := snd (fst (run demo_world demo_send_task session_new [])).

Lemma demo_sent_reach : tasks_reach (session_step any_response) demo_task session_new ([Ret tt], demo_sent).
Proof. apply tasks_run_start; [apply demo_world_step|by constructor|constructor]. Qed.

Lemma session_handles_wf_witness :
  length (ss_sent demo_sent) = 1%nat /\
  exists id h, mem_handles (ss_store demo_sent) !! id = Some h /\ th_status h = Sent /\ handle_wf demo_sent h.
Proof.
  destruct (session_handles_wf (fun _ => []) (fun _ => "to") (fun _ => "0x") (fun _ => "salt")
    (fun _ => EmptyString) Some _ _ demo_sent_reach) as [Hinv _].
  split; [vm_compute; reflexivity|].
  assert (E : exists h, mem_handles (ss_store demo_sent) !! HandleId_new (TxIntent_hash demo_wallet_intent) 11
    = Some h /\ th_status h = Sent) by (eexists; split; vm_compute; reflexivity).
  destruct E as (h & Hh & Hs). eexists _, h. split_and!; [exact Hh|exact Hs|].
  by apply Hinv in Hh as [_ ?].
Defined.

(** The same world with the native engine and a local key behind both accounts. *)
Definition demo_engines (_ : principal) : DefaultPolicyEngine := demo_engine.
Definition demo_keys (_ : principal) : LocalSigner := demo_key.
Definition demo_native_world (p : port) (s : session) : resp p * session :=
  match p return resp p * session with
  | Evaluate who q =>
      match decide_outcome demo_engine q, signing_hash q with
      | WouldAllow, Ok h =>
          let a := mint h (pe_fee_caps demo_engine) 2000 in
          (Ok (Allow a), mkSession (ss_store s) ((who, q, a) :: ss_approved s) (ss_signed s) (ss_sent s))
      | _, _ => (Err (Eval_ "denied"), s)
      end
  | SignTransaction who tx ih a now =>
      match sign_transaction demo_key tx ih a now with
      | Ok sig =>
          (Ok sig, mkSession (ss_store s) (ss_approved s) (mkIssued who tx ih a sig :: ss_signed s) (ss_sent s))
      | Err e => (Err e, s)
      end
  | q => demo_world q s
  end.

Lemma demo_native_step p s :
  session_step (native_world demo_engines demo_keys) s p
    (fst (demo_native_world p s)) (snd (demo_native_world p s)).
Proof.
  split; [|pose proof (demo_world_step p s) as [_ H]; destruct p; try exact H]; [destruct p; try exact I| |].
  - simpl. destruct (decide_outcome _ _) eqn:?; [|done]. destruct (signing_hash _) eqn:?; [|done].
    by intros a0 [= <-].
  - unfold demo_native_world, native_world. unfold demo_keys. destruct (sign_transaction _ _ _ _ _); [|done].
    by intros sig [= <-].
  - unfold demo_native_world. destruct (decide_outcome demo_engine request); [destruct (signing_hash request)|]; done.
  - unfold demo_native_world. destruct (sign_transaction _ _ _ _ _); done.
Qed.

(** The same wallet over the demo key's own account. *)
Definition demo_key_wallet : Wallet :=
  mkWallet (TransactionManager_new User (ls_address demo_key) (tm_supports_route (w_manager (demo_build demo_builder))))
    (AccountExecutor_new User (ls_address demo_key)) (ls_address demo_key) None.
Definition demo_key_task (m : io unit) : Prop :=
  native_task (fun _ => []) (fun _ => "to") (fun _ => "0x") (fun _ => "salt") (fun _ => EmptyString) Some demo_keys m.

Definition demo_native_task : io unit :=
  let* _ := wallet_send_with demo_key_wallet demo_intent SubmissionOpts_default in Ret tt.
Definition demo_native_sent : session := snd (fst (run demo_native_world demo_native_task session_new [])).

Lemma demo_key_wallet_owned : wallet_owned (key_owns demo_keys) demo_key_wallet.
Proof. by split_and!; [| |intros ? ?]. Qed.

Lemma session_broadcasts_backed_witness :
  exists rlp, ss_sent demo_native_sent = [rlp] /\ some_backed demo_engines demo_keys rlp.
Proof.
  assert (Hr : tasks_reach (session_step (native_world demo_engines demo_keys)) demo_key_task session_new
    ([Ret tt], demo_native_sent)).
  { apply tasks_run_start; [apply demo_native_step|constructor; exact demo_key_wallet_owned|constructor]. }
  destruct (session_broadcasts_backed (fun _ => []) (fun _ => "to") (fun _ => "0x") (fun _ => "salt")
    (fun _ => EmptyString) Some _ _ _ _ Hr) as [H _].
  assert (E : exists rlp, ss_sent demo_native_sent = [rlp]) by (eexists; vm_compute; reflexivity).
  destruct E as [rlp E]. exists rlp. split; [exact E|]. apply H. rewrite E. constructor.
Defined.

(** ** What the invariant does not give *)

Definition demo_id : HandleId := HandleId_new (TxIntent_hash demo_wallet_intent) 11.
Definition demo_loop_task : io unit :=
  let* _ := run_loop (demo_build demo_builder) [] wallet_state_new in Ret tt.
Definition demo_cancel_task : io unit :=
  let* _ := wallet_cancel (demo_build demo_builder) demo_id in Ret tt.

(** The loop reads the pending handles, the cancel runs to its end, the loop writes what
    it read. *)
Definition demo_race_end : list (io unit) * session :=
  schedule demo_world (replicate 7 1%nat ++ replicate 20 0%nat ++ replicate 20 1%nat)
    ([demo_cancel_task; demo_loop_task; Ret tt], demo_sent).

Lemma demo_race_reach : tasks_reach (session_step any_response) demo_task session_new demo_race_end.
Proof.
  apply schedule_reach; [apply demo_world_step|].
  eapply reach_step; [|apply TaskStart; by constructor]. eapply reach_step; [|apply TaskStart; by constructor].
  apply demo_sent_reach.
Qed.

(** The executor writes the handle it read at the start of its pass: a cancel that
    completes in between is durably recorded, yet the flag it set on the original is
    overwritten, so the original settles as replaced (and may be refilled) instead of
    dropped. *)
Theorem stale_pass_unflags_cancel :
  exists s original cancel id,
    tasks_reach (session_step any_response) demo_task session_new ([Ret tt; Ret tt; Ret tt], s) /\
    mem_handles (ss_store s) !! demo_id = Some original /\ th_cancelled original = false /\
    mem_handles (ss_store s) !! id = Some cancel /\ th_status cancel = Sent /\
    is_self_send (th_intent cancel) = true /\ th_nonce cancel = th_nonce original.
Proof.
  set (s := snd demo_race_end).
  set (id := HandleId_new (TxIntent_hash (mkIntent 1 7 (TxKind_Call 7) 0 [] None)) 11).
  assert (Ho : exists h, mem_handles (ss_store s) !! demo_id = Some h /\ th_cancelled h = false /\
    th_nonce h = 11) by (eexists; split_and!; vm_compute; reflexivity).
  assert (Hc : exists h, mem_handles (ss_store s) !! id = Some h /\ th_status h = Sent /\
    is_self_send (th_intent h) = true /\ th_nonce h = 11) by (eexists; split_and!; vm_compute; reflexivity).
  destruct Ho as (original & ? & ? & ?), Hc as (cancel & ? & ? & ? & ?).
  exists s, original, cancel, id. split_and!; [|assumption..|congruence].
  replace [Ret tt; Ret tt; Ret tt : io unit] with (fst demo_race_end) by (vm_compute; reflexivity).
  unfold s. rewrite <- surjective_pairing. apply demo_race_reach.
Qed.

(** ** Cancelling a relayed handle *)

Definition demo_relay_wallet : Wallet :=
  mkWallet (w_manager (demo_build demo_builder)) (AccountExecutor_new User 7) 7
    (Some (Backend_SelfRelay (mkRuntime
       (TransactionManager_new Relayer 70 (tm_supports_route (w_manager (demo_build demo_builder))))
       (AccountExecutor_new Relayer 70) 99))).
Definition demo_relay_task : io unit :=
  let* _ := demo_send_gasless demo_relay_wallet demo_wallet_intent (gasless_of_self_relay SelfRelay_new) in Ret tt.
Definition demo_relayed : session := snd (fst (run demo_world demo_relay_task session_new [])).
Definition demo_relayed_id : HandleId :=
  default 0 (fst <$> head (map_to_list (mem_handles (ss_store demo_relayed)))).
Definition demo_foreign_cancel_task : io unit :=
  let* _ := wallet_cancel demo_relay_wallet demo_relayed_id in Ret tt.
Definition demo_foreign : session :=
  snd (fst (run demo_world demo_foreign_cancel_task demo_relayed [])).

(** [Wallet::cancel] always uses the user's pipeline and does not compare the handle's
    account with its key: cancelling a self-relayed handle makes the user's key sign, and
    broadcasts, a transaction meant for the relayer's account at the relayer's nonce. *)
Theorem cancel_signs_for_foreign_account :
  exists h g, tasks_reach (session_step any_response) demo_task session_new ([Ret tt; Ret tt], demo_foreign) /\
    mem_handles (ss_store demo_foreign) !! demo_relayed_id = Some h /\
    th_account h <> w_account demo_relay_wallet /\
    g ∈ ss_signed demo_foreign /\ is_who g = User /\ tx_nonce (is_tx g) = th_nonce h /\
    tx_to (is_tx g) = TxKind_Call (th_account h) /\
    encoded_2718 (is_tx g) (is_signature g) ∈ ss_sent demo_foreign.
Proof.
  assert (Hr : tasks_reach (session_step any_response) demo_task session_new ([Ret tt; Ret tt], demo_foreign)).
  { apply tasks_run_start; [apply demo_world_step|by constructor|].
    apply tasks_run_start; [apply demo_world_step|by constructor|constructor]. }
  assert (Ho : exists h, mem_handles (ss_store demo_foreign) !! demo_relayed_id = Some h /\
    th_account h = 70 /\ th_nonce h = 11) by (eexists; split_and!; vm_compute; reflexivity).
  assert (Hg : exists g rest, ss_signed demo_foreign = g :: rest /\ is_who g = User /\
    tx_nonce (is_tx g) = 11 /\ tx_to (is_tx g) = TxKind_Call 70 /\
    exists more, ss_sent demo_foreign = encoded_2718 (is_tx g) (is_signature g) :: more).
  { eexists _, _. split; [vm_compute; reflexivity|]. split_and!; try reflexivity.
    eexists. vm_compute. reflexivity. }
  destruct Ho as (h & ? & Ha & Hn), Hg as (g & rest & Hs & ? & ? & ? & more & Hm).
  exists h, g. split; [exact Hr|]. rewrite Ha, Hn, Hs, Hm.
  split_and!; try assumption; [discriminate|constructor|constructor].
Qed.
