(* ===== verification/Ownership.v ===== *)
(** * Ownership: no two sends hold the same nonce

    Any number of wallets' operations and background loops run concurrently over one nonce
    pool.  The pool answers [allocate], [release] and [reset] one at a time, as
    [NoncePool] and [Atomicity] show the manager does over its store; an answer
    may be lost after the operation took effect.  Everything else answers anything.  A send
    owns the nonce it was handed until it gives it back; what it broadcasts stays owned. *)
From S2P Require Import Prelude Effects Primitives ModelAlloy Errors Ports Lifecycle GasOracle Policy.
From S2P Require Import Signer Signing TransactionManager Executor ExecutorSpec Submission Nonce NoncePool.
From S2P Require Import Store Gelato Preview Facade Session.

(** ** The shared pool *)

Abbreviation pools := (gmap Address (Versioned NonceState)).
Definition pool_of (ps : pools) (a : Address) : Versioned NonceState := default absent_cell (ps !! a).
Definition pool_commit (a : Address) (after : NonceState) (ps : pools) : pools :=
  <[a := mkVersioned after (v_version (pool_of ps a) + 1)]> ps.

(** The operation ran on the account's pool and returned [res].  The counter does not
    wrap: an account's nonce stays below [2^64 - 1] (EIP-2681). *)
Definition performed (op : nonce_op) (a : Address) (res : option Z) (ps ps' : pools) : Prop :=
  (exists after, op_spec op (pool_of ps a) after res /\ (op = OpAllocate -> ns_next after <> 0) /\
     ps' = pool_commit a after ps) \/
  (op_noop op (pool_of ps a) res /\ ps' = ps).

(** A compare-and-swap on an account's cell; one that fails may have taken effect. *)
Definition cas_answers (a : Address) (version : Z) (value : NonceState) (r : result bool StateStoreError)
    (ps ps' : pools) : Prop :=
  let written := version = v_version (pool_of ps a) /\ ns_next value < u64_max /\ ps' = pool_commit a value ps in
  (r = Ok true /\ written) \/
  (r = Ok false /\ version <> v_version (pool_of ps a) /\ ps' = ps) \/
  (is_err r = true /\ (ps' = ps \/ written)).

(** How the pool and the node answer a call. *)
Definition pool_answers (ps : pools) (p : port) : resp p -> pools -> Prop :=
  match p return resp p -> pools -> Prop with
  | Allocate a => fun r ps' =>
      match r with
      | Ok n => performed OpAllocate a (Some n) ps ps'
      | Err _ => ps' = ps \/ exists n, performed OpAllocate a (Some n) ps ps'
      end
  | Release a n => fun r ps' =>
      performed (OpRelease n) a None ps ps' \/ (is_err r = true /\ ps' = ps)
  | ResetNonce a c => fun r ps' =>
      performed (OpReset c) a None ps ps' \/ (is_err r = true /\ ps' = ps)
  | CasNonceState scope version value _ => fun r ps' => cas_answers (scope_account scope) version value r ps ps'
  | TxCount _ => fun r ps' => (forall n, r = Ok n -> is_u64 n) /\ ps' = ps
  | _ => fun _ ps' => ps' = ps
  end.

(** ** What a task owns *)

(** The nonce a task was handed and has neither given back nor broadcast. *)
Fixpoint unspent (tr : history) : option (Address * Z) :=
  match tr with
  | [] => None
  | existT (Allocate a) (Ok n) :: _ => Some (a, n)
  | existT (Release _ _) _ :: _ => None
  | existT (Submit _ _) r :: tr' => if maybe_sent r then None else unspent tr'
  | _ :: tr' => unspent tr'
  end.

(** The account and nonce of every broadcast a task made under its own allocation that
    may have reached the network, newest first. *)
Fixpoint broadcast_nonces (tr : history) : list (Address * Z) :=
  match tr with
  | [] => []
  | existT (Submit _ _) r :: tr' =>
      (if maybe_sent r then option_list (unspent tr') else []) ++ broadcast_nonces tr'
  | _ :: tr' => broadcast_nonces tr'
  end.

Definition owned (tr : history) : list (Address * Z) := option_list (unspent tr) ++ broadcast_nonces tr.

(** A task gives back only the nonce it holds; while it holds one, it broadcasts only
    bytes signed at it; it marks consumed only what a [u64] count can say; and it goes
    through the manager and the submission strategy. *)
Definition own_guard {A : Alloy} (tr : history) (p : port) : Prop :=
  match p with
  | Release a n => unspent tr = Some (a, n)
  | Submit rlp _ => forall a n, unspent tr = Some (a, n) ->
      exists tx sig, rlp = encoded_2718 tx sig /\ tx_nonce tx = n
  | ResetNonce _ c => is_u64 c
  | SendRaw _ | SendRawTo _ _ | FlashbotsPost _ _ _ | CasNonceState _ _ _ _ => False
  | _ => True
  end.

(** Transaction counts are [u64]. *)
Definition count_env (p : port) : resp p -> Prop :=
  match p return resp p -> Prop with
  | TxCount _ => fun r => forall n, r = Ok n -> is_u64 n
  | _ => fun _ => True
  end.

(** ** The pool's invariant *)

(** Every owned nonce is in use in its account's pool, and no nonce is owned twice. *)
Record ownership_inv (ps : pools) (hs : list history) : Prop := {
  pi_cells : forall a, cell_wf (pool_of ps a);
  pi_used : forall a n, (a, n) ∈ concat (map owned hs) ->
    v_version (pool_of ps a) <> 0 /\ in_use (v_value (pool_of ps a)) n;
  pi_once : NoDup (concat (map owned hs));
}.

Lemma pool_of_commit a after ps b :
  pool_of (pool_commit a after ps) b =
  if decide (a = b) then mkVersioned after (v_version (pool_of ps a) + 1) else pool_of ps b.
Proof.
  unfold pool_commit. generalize (mkVersioned after (v_version (pool_of ps a) + 1)). intros v. unfold pool_of.
  case_decide; subst; [by rewrite lookup_insert_eq|by rewrite lookup_insert_ne].
Qed.

(** What one operation does to the pools. *)
Lemma performed_spec op a res ps ps' :
  (forall b, cell_wf (pool_of ps b)) -> op_typed op -> performed op a res ps ps' ->
  (forall b, cell_wf (pool_of ps' b)) /\
  (forall b n, v_version (pool_of ps b) <> 0 -> in_use (v_value (pool_of ps b)) n ->
     (b = a -> op <> OpRelease n) ->
     v_version (pool_of ps' b) <> 0 /\ in_use (v_value (pool_of ps' b)) n) /\
  (forall n, op = OpAllocate -> res = Some n ->
     (v_version (pool_of ps a) <> 0 -> ~ in_use (v_value (pool_of ps a)) n) /\
     v_version (pool_of ps' a) <> 0 /\ in_use (v_value (pool_of ps' a)) n).
Proof.
  intros Hwf Hty [(after & Hop & Hwrap & ->)|[Hnoop ->]].
  - destruct (op_spec_effect op _ after res (Hwf a) Hty Hop Hwrap) as (Hn & Hkeep & Hnew).
    pose proof (cw_version _ (Hwf a)). split_and!; [intros b|intros b n Hv Hu Hr|intros n Ha Hr];
      rewrite ?pool_of_commit.
    + case_decide; [|done]. constructor; simpl; [done|lia|lia].
    + case_decide as Hab; [|done]. subst. simpl. split; [lia|]. by apply Hkeep; auto.
    + rewrite decide_True by done. simpl. destruct (Hnew n Hr). split_and!; [done|lia|done].
  - split_and!; [done|done|]. intros n -> _. done.
Qed.

(** A history that takes over what the old one owned, less what it dropped, and maybe a
    nonce nobody owned. *)
Lemma ownership_update ps ps' hs1 tr tr' hs2 (dropped : list (Address * Z)) (gained : option (Address * Z)) :
  ownership_inv ps (hs1 ++ tr :: hs2) -> option_list gained ++ owned tr ≡ₚ dropped ++ owned tr' ->
  (forall b, cell_wf (pool_of ps' b)) ->
  (forall b n, v_version (pool_of ps b) <> 0 -> in_use (v_value (pool_of ps b)) n ->
     (b, n) ∉ dropped -> v_version (pool_of ps' b) <> 0 /\ in_use (v_value (pool_of ps' b)) n) ->
  (forall b n, gained = Some (b, n) ->
     (v_version (pool_of ps b) <> 0 -> ~ in_use (v_value (pool_of ps b)) n) /\
     v_version (pool_of ps' b) <> 0 /\ in_use (v_value (pool_of ps' b)) n) ->
  ownership_inv ps' (hs1 ++ tr' :: hs2).
Proof.
  intros [_ Hu Hd] Hp Hwf Hkeep Hgain.
  set (all := concat (map owned (hs1 ++ tr :: hs2))) in *. set (all' := concat (map owned (hs1 ++ tr' :: hs2))).
  assert (E : option_list gained ++ all ≡ₚ dropped ++ all').
  { unfold all, all'. rewrite !map_app, !concat_app. cbn [map concat].
    transitivity ((option_list gained ++ owned tr) ++ concat (map owned hs1) ++ concat (map owned hs2));
      [solve_Permutation|rewrite Hp; solve_Permutation]. }
  assert (Hall : NoDup (option_list gained ++ all)).
  { destruct gained as [[b n]|]; [|done]. apply list.NoDup_cons. split; [|done]. intros Hin%Hu.
    destruct (Hgain b n eq_refl) as [Hf _], Hin as [Hv Hn]. by apply Hf. }
  rewrite E in Hall. apply list.NoDup_app in Hall as (_ & Hdis & Hd'). constructor; [done| |done].
  intros b n Hin. assert (Hdr : (b, n) ∉ dropped) by (intros Hdr; by apply (Hdis _ Hdr)).
  assert (Hin' : (b, n) ∈ option_list gained ++ all) by (rewrite E; by apply elem_of_app; right).
  apply elem_of_app in Hin' as [Hg|Ha].
  - destruct gained as [x|]; [|by apply not_elem_of_nil in Hg]. apply list_elem_of_singleton in Hg as <-. by apply Hgain.
  - destruct (Hu b n Ha). by apply Hkeep.
Qed.

(** The same, on pools an operation ran on: it frees at most what the task drops. *)
Lemma ownership_performed op a res ps ps' hs1 tr tr' hs2 dropped gained :
  ownership_inv ps (hs1 ++ tr :: hs2) -> op_typed op -> performed op a res ps ps' ->
  option_list gained ++ owned tr ≡ₚ dropped ++ owned tr' ->
  (forall n, op = OpRelease n -> (a, n) ∈ dropped) ->
  (forall b n, gained = Some (b, n) -> b = a /\ op = OpAllocate /\ res = Some n) ->
  ownership_inv ps' (hs1 ++ tr' :: hs2).
Proof.
  intros Hinv Hty Hp Hown Hrel Hg. pose proof (pi_cells _ _ Hinv) as Hwf.
  destruct (performed_spec op a res ps ps' Hwf Hty Hp) as (Hwf' & Hkeep & Hnew).
  apply (ownership_update ps ps' _ _ _ _ dropped gained Hinv Hown Hwf').
  - intros b m Hv Hm Hne. apply Hkeep; [done..|]. intros -> Hop. by apply Hne, Hrel.
  - intros b n Hbn. destruct (Hg b n Hbn) as (-> & -> & ->). by apply Hnew.
Qed.

Lemma ownership_same ps hs1 tr tr' hs2 :
  ownership_inv ps (hs1 ++ tr :: hs2) -> owned tr ≡ₚ owned tr' -> ownership_inv ps (hs1 ++ tr' :: hs2).
Proof.
  intros Hinv Hown. by apply (ownership_update ps ps _ tr _ _ [] None Hinv); [|apply Hinv|..].
Qed.

Lemma owned_u64 ps hs1 tr hs2 a n :
  ownership_inv ps (hs1 ++ tr :: hs2) -> (a, n) ∈ owned tr -> is_u64 n.
Proof.
  intros [Hwf Hu _] Hin. destruct (Hu a n) as [_ [Hn _]].
  { rewrite map_app, concat_app. apply elem_of_app. right. by apply elem_of_app; left. }
  destruct (Hwf a) as [[Hnext _ _] _ _]. unfold is_uint. lia.
Qed.

(** Every call a task may make keeps the invariant. *)
Lemma ownership_step {A : Alloy} ps hs1 tr hs2 p r ps' :
  ownership_inv ps (hs1 ++ tr :: hs2) -> own_guard tr p -> pool_answers ps p r ps' ->
  count_env p r /\ ownership_inv ps' (hs1 ++ (existT p r :: tr) :: hs2).
Proof.
  intros Hinv HG Hs. destruct p; simpl in HG, Hs; try (subst ps'; split; [exact I|]);
    try (by apply (ownership_same _ _ _ _ _ Hinv)); try done.
  - destruct Hs as [Hn ->]. split; [done|]. by apply (ownership_same _ _ _ _ _ Hinv).
  - split; [exact I|]. destruct r as [n|e].
    + apply (ownership_performed OpAllocate _ _ _ _ _ _ _ _ (option_list (unspent tr)) (Some (account, n)) Hinv I Hs);
        [|done|by intros b m [= <- <-]].
      unfold owned. simpl. solve_Permutation.
    + destruct Hs as [->|[n Hs]]; [by apply (ownership_same _ _ _ _ _ Hinv)|].
      by apply (ownership_performed OpAllocate _ _ _ _ _ _ _ _ [] None Hinv I Hs).
  - split; [exact I|].
    assert (Hown : owned tr = (account, nonce) :: broadcast_nonces tr) by (unfold owned; by rewrite HG).
    destruct Hs as [Hs|[_ ->]].
    + assert (Hty : is_u64 nonce) by (eapply owned_u64; [exact Hinv|rewrite Hown; constructor]).
      apply (ownership_performed (OpRelease nonce) _ _ _ _ _ _ _ _ [(account, nonce)] None Hinv Hty Hs); [by rewrite Hown| |done].
      intros n [= ->]. constructor.
    + apply (ownership_update _ _ _ _ _ _ [(account, nonce)] None Hinv); [by rewrite Hown|apply Hinv|done|done].
  - split; [exact I|]. destruct Hs as [Hs|[_ ->]]; [|by apply (ownership_same _ _ _ _ _ Hinv)].
    by apply (ownership_performed (OpReset _) _ _ _ _ _ _ _ _ [] None Hinv HG Hs).
  - apply (ownership_same _ _ _ _ _ Hinv). unfold owned. simpl. by destruct (maybe_sent r).
Qed.

(** ** The operations *)

Section Own.
Context {A : Alloy}.

(** [own m]: started without holding a nonce, [m] keeps the guard and ends without
    holding one. *)
Definition own {T} (m : io T) : Prop :=
  forall tr, unspent tr = None -> triple count_env own_guard m tr (fun tr' _ => unspent tr' = None).

(** The calls that neither take nor return a nonce. *)
Definition neutral (p : port) : Prop :=
  match p with
  | Allocate _ | Release _ _ | SendRaw _ | SendRawTo _ _ | FlashbotsPost _ _ _ | CasNonceState _ _ _ _ => False
  | ResetNonce _ c => is_u64 c
  | _ => True
  end.

Lemma own_ret {T} (a : T) : own (Ret a).
Proof. by intros tr Htr. Qed.

Lemma neutral_guard tr p : unspent tr = None -> neutral p -> own_guard tr p.
Proof. intros Htr Hp. destruct p; try done. simpl. by rewrite Htr. Qed.

Lemma neutral_unspent tr p (r : resp p) : unspent tr = None -> neutral p -> unspent (existT p r :: tr) = None.
Proof. intros Htr Hp. destruct p; try done. simpl. by destruct (maybe_sent r). Qed.

Lemma own_call {T} p (k : resp p -> io T) :
  neutral p -> (forall r, count_env p r -> own (k r)) -> own (Call p k).
Proof.
  intros Hp Hk tr Htr. apply triple_call; [by apply neutral_guard|].
  intros r Hr. apply Hk; [done|]. by apply neutral_unspent.
Qed.

Lemma own_bind {T U} (m : io T) (f : T -> io U) : own m -> (forall a, own (f a)) -> own (bind m f).
Proof.
  intros Hm Hf tr Htr. apply triple_bind. eapply triple_mono; [|by apply Hm].
  intros tr' a Htr'. by apply Hf.
Qed.

Lemma own_for_each {T S} (xs : list T) (s : S) body :
  (forall x s, own (body x s)) -> own (for_each xs s body).
Proof. intros Hb tr Htr. apply triple_for_each; [done|]. intros x tr' s' _ Htr'. by apply Hb. Qed.

End Own.

(** A program whose calls are neutral, branch by branch. *)
Ltac own_auto :=
  wp_simpl;
  lazymatch goal with
  | |- own (Ret _) => apply own_ret
  | |- own (Call _ _) => apply own_call; [exact I|intros ? _; own_auto]
  | |- own (bind (match ?x with _ => _ end) _) => wp_destruct x; own_auto
  | |- own (bind _ _) => apply own_bind; [own_auto|intros ?; own_auto]
  | |- own (for_each _ _ _) => apply own_for_each; intros ? ?; own_auto
  | |- own (match ?x with _ => _ end) => wp_destruct x; own_auto
  | |- own _ => first [solve [auto with walletkit]|idtac]
  end.

Section Operations.
Context {A : Alloy}.

(** A send takes a nonce and gives it back, or spends it. *)
Lemma send_own self intent opts meta : own (send_with_meta self intent opts meta).
Proof.
  intros tr Htr. send_unfold.
  wp_auto ltac:(simpl; first [exact I|reflexivity|intros ? ? [= <- <-]; eexists _, _; split; reflexivity
    |match goal with H : _ || _ = false |- _ => by rewrite H end]).
  all: simpl; rewrite ?Htr; first [done|match goal with H : _ || _ = _ |- _ => by rewrite H end].
Qed.
#[local] Hint Resolve send_own : walletkit.

Lemma authorize_own self q : own (tm_authorize self q).
Proof. unfold tm_authorize, try_bind, map_err. own_auto. Qed.
Lemma sign_encode_own who tx ih a now : own (sign_encode who tx ih a now).
Proof. unfold sign_encode, try_bind, map_err. own_auto. Qed.
Lemma typed_data_own self typed : own (tm_sign_typed_data self typed).
Proof. unfold tm_sign_typed_data, tm_authorize, try_bind, map_err. own_auto. Qed.
Lemma persist_task_own intent meta : own (persist_task_handle intent meta).
Proof. unfold persist_task_handle, try_bind, map_err. own_auto. Qed.
#[local] Hint Resolve authorize_own sign_encode_own typed_data_own persist_task_own : walletkit.

Lemma cancel_loop_own self fuel target intent ih basis a now attempts :
  own (cancel_loop self fuel target intent ih basis a now attempts).
Proof. revert basis attempts. induction fuel as [|fuel IH]; intros basis attempts; cbn [cancel_loop]; own_auto. Qed.
#[local] Hint Resolve cancel_loop_own : walletkit.

Lemma cancel_own self id : own (cancel self id).
Proof. unfold cancel, broadcast_cancel_with_repricing, try_bind, map_err. own_auto. Qed.

Lemma forward_request_own self intent forwarder domain secs :
  own (build_and_sign_forward_request self intent forwarder domain secs).
Proof. unfold build_and_sign_forward_request, forwarder_nonce, try_bind, map_err. own_auto. Qed.
#[local] Hint Resolve cancel_own forward_request_own : walletkit.

(** ** The executor *)

Section Executor.
Context (self : AccountExecutor).

Lemma bump_own h now st : own (bump self h now st).
Proof. unfold bump, bump_approval. own_auto. Qed.
#[local] Hint Resolve bump_own : walletkit.

Lemma escalate_own st : own (escalate self st).
Proof. unfold escalate. own_auto. Qed.

Lemma recover_own : own (recover self).
Proof. unfold recover, try_bind, map_err. own_auto. Qed.

Lemma on_settled_own h st : own (on_settled self h st).
Proof. unfold on_settled, refill_intent, send, send_with. own_auto. Qed.
#[local] Hint Resolve on_settled_own : walletkit.

Lemma event_scan_own hashes h mined : own (event_scan hashes h mined).
Proof. induction hashes; cbn [event_scan]; unfold anchor; own_auto. Qed.
#[local] Hint Resolve event_scan_own : walletkit.

Lemma advance_handle_own h cycle st : own (advance_handle self h cycle st).
Proof. unfold advance_handle, poll_task, advance_on_chain, event_for. own_auto. Qed.
#[local] Hint Resolve advance_handle_own : walletkit.

(** The count a cycle resets the nonces to is one the node reported. *)
Lemma read_cycle_own st tr :
  unspent tr = None ->
  triple count_env own_guard (read_cycle self st) tr (fun tr' x =>
    unspent tr' = None /\ forall cycle, fst x = Ok (Some cycle) -> is_u64 (cyc_mined_nonce cycle)).
Proof.
  intros Htr. unfold read_cycle. wp_auto ltac:(exact I); (split; [exact Htr|]); try done.
  intros cycle [= <-]. simpl. auto.
Qed.

Lemma confirm_own st : own (confirm self st).
Proof.
  intros tr Htr. unfold confirm. apply triple_bind.
  eapply triple_mono; [|by apply read_cycle_own]. intros tr' [c st'] [Htr' Hc].
  destruct c as [[cycle|]|e]; [|done|done]. refine (own_call (ResetNonce _ _) _ (Hc _ eq_refl) _ tr' Htr').
  intros r _. own_auto.
Qed.
#[local] Hint Resolve recover_own confirm_own escalate_own : walletkit.

Lemma tick_own st : own (Executor.tick self st).
Proof. unfold Executor.tick. own_auto. Qed.
End Executor.
End Operations.
#[export] Hint Resolve send_own typed_data_own persist_task_own cancel_own forward_request_own tick_own : walletkit.

(** ** Every operation of a wallet *)

Section Wallets.
Context {A : Alloy}.
Context (abi_user_nonce : Address -> Bytes).
Context (address_display : Address -> string) (bytes_display : Bytes -> string) (b256_display : B256 -> string).
Context (status_display : Z -> string) (parse_relay_response : string -> option string).

Abbreviation any_task :=
  (wallet_task abi_user_nonce address_display bytes_display b256_display status_display parse_relay_response).

Lemma wallet_tick_own w st : own (wallet_tick w st).
Proof. unfold wallet_tick. own_auto. Qed.
#[local] Hint Resolve wallet_tick_own : walletkit.

Lemma run_loop_own w wakes st : own (run_loop w wakes st).
Proof. revert st. induction wakes as [|wake wakes IH]; intros st; cbn [run_loop]; own_auto. Qed.
#[local] Hint Resolve run_loop_own : walletkit.

Lemma gasless_own w intent opts :
  own (send_gasless status_display abi_user_nonce address_display bytes_display b256_display
    parse_relay_response w intent opts).
Proof.
  unfold send_gasless, send_self_relay, send_gelato, build_call, user_nonce, gelato_submit, try_bind, map_err.
  own_auto.
Qed.
#[local] Hint Resolve gasless_own : walletkit.

Lemma wallet_task_own m : any_task m -> own m.
Proof.
  intros [w intent opts _|w id _|w intent opts _|w message _|w typed _|w wakes _];
    unfold wallet_send_with, wallet_cancel, wallet_sign_message, wallet_sign_typed_data, tm_sign_message,
      tm_authorize, send_with, try_bind, map_err; own_auto.
Qed.

(** What the sends of all tasks broadcast. *)
Definition all_broadcasts (ts : list (io unit * history)) : list (Address * Z) :=
  concat (map broadcast_nonces (map snd ts)).

Lemma broadcasts_owned hs : concat (map broadcast_nonces hs) `sublist_of` concat (map owned hs).
Proof. induction hs as [|tr hs IH]; [done|]. cbn [map concat]. apply sublist_app; [by apply sublist_inserts_l|done]. Qed.

Lemma ownership_reach ps0 ts ps :
  (forall a, cell_wf (pool_of ps0 a)) -> logged_reach pool_answers any_task ps0 (ts, ps) ->
  ownership_inv ps (map snd ts) /\ Forall (guarded own_guard) (map snd ts).
Proof.
  intros H0. apply (logged_invariant pool_answers any_task count_env own_guard ownership_inv).
  - intros m Hm. eapply triple_mono; [|by apply (wallet_task_own m Hm)]. done.
  - constructor; [done| |constructor]. by intros ? ? ?%not_elem_of_nil.
  - intros s hs [Hwf Hu Hd]. by constructor.
  - intros s hs1 tr hs2 p r s'. apply ownership_step.
Qed.

Lemma ownership_broadcasts ps ts :
  ownership_inv ps (map snd ts) ->
  NoDup (all_broadcasts ts) /\
  forall a n, (a, n) ∈ all_broadcasts ts -> in_use (v_value (pool_of ps a)) n.
Proof.
  intros [_ Hu Hd]. pose proof (broadcasts_owned (map snd ts)) as Hsub.
  split; [by eapply sublist_NoDup|]. intros a n Hin. apply Hu. by eapply elem_of_sublist.
Qed.

(** C3: whatever operations and background loops any wallets run concurrently over one
    nonce pool, in whatever interleaving, with tasks dropped at any await and every other
    port answering adversarially: no two broadcasts that sends made under a nonce they were
    handed, and that may have reached the network, have the same account and nonce; the
    pool still counts each of those nonces as in use, so it will not hand it out again; and
    every task only ever gave back a nonce it held and had not broadcast, and while holding
    one broadcast only bytes signed at it. *)
Theorem sends_never_share_nonce ps0 ts ps :
  (forall a, cell_wf (pool_of ps0 a)) ->
  logged_reach pool_answers any_task ps0 (ts, ps) ->
  NoDup (all_broadcasts ts) /\
  (forall a n, (a, n) ∈ all_broadcasts ts -> in_use (v_value (pool_of ps a)) n) /\
  Forall (guarded own_guard) (map snd ts).
Proof.
  intros H0 [Hinv Hg]%ownership_reach; [|done]. destruct (ownership_broadcasts _ _ Hinv). by split_and!.
Qed.
End Wallets.

(** ** A concrete race *)

(** The healthy world of [Session] over a pool that starts at the node's count 5. *)
Definition demo_pool (p : port) (ps : pools) : resp p * pools :=
  match p return resp p * pools with
  | Allocate a =>
      let cell := pool_of ps a in
      let base := if v_version cell =? 0 then set_next 5 (v_value cell) else v_value cell in
      let '(n, after) := take_nonce base in
      if (0 <? ns_next after) && (0 <=? n) && (n <=? u64_max)
      then (Ok n, pool_commit a after ps) else (Err (Nonce_Rpc offline_rpc), ps)
  | Release a n =>
      match release_state (v_value (pool_of ps a)) n with
      | Some after => (Ok tt, pool_commit a after ps)
      | None => (Ok tt, ps)
      end
  | ResetNonce a c => (Ok tt, pool_commit a (reset_state (v_value (pool_of ps a)) c) ps)
  | CasNonceState _ _ _ _ => (Err (Backend "offline"), ps)
  | q => (fst (demo_world q session_new), ps)
  end.

Lemma demo_pool_step p ps : pool_answers ps p (fst (demo_pool p ps)) (snd (demo_pool p ps)).
Proof.
  destruct p; try reflexivity; simpl.
  - split; [|done]. intros n [= <-]. unfold is_uint, u64_max. lia.
  - destruct (take_nonce _) as [n after] eqn:Ht. destruct (_ && _) eqn:Hz; bool_simpl; simpl; [|by left].
    left. exists after. split_and!; [|lia|done]. simpl. eexists _, n. split_and!; [|exact Ht|done].
    destruct (v_version (pool_of ps account) =? 0); [|done]. exists 5. split; [unfold is_uint, u64_max; lia|done].
  - destruct (release_state _ _) as [after|] eqn:Hr; simpl; left; [left; by exists after|right].
    by apply release_state_none in Hr.
  - left. left. by eexists.
  - right. right. split; [done|by left].
Qed.

Lemma demo_pool_u64 a ps n ps' : demo_pool (Allocate a) ps = (Ok n, ps') -> is_u64 n.
Proof.
  cbn [demo_pool]. destruct (take_nonce _) as [m after]. destruct (_ && _) eqn:Hz; bool_simpl; [|done].
  intros [= -> _]. by split.
Qed.

(** Two sends and a background loop, taking turns. *)
Definition demo_fleet : list (io unit * history) * pools :=
  logged_schedule demo_pool (concat (replicate 12 [0; 1; 2]%nat))
    ([(demo_send_task, []); (demo_loop_task, []); (demo_send_task, [])], ∅).

Lemma sends_never_share_nonce_witness :
  all_broadcasts (fst demo_fleet) = [(7, 5); (7, 6)] /\ NoDup (all_broadcasts (fst demo_fleet)) /\
  in_use (v_value (pool_of (snd demo_fleet) 7)) 6.
Proof.
  assert (E : all_broadcasts (fst demo_fleet) = [(7, 5); (7, 6)]) by (vm_compute; reflexivity).
  destruct (sends_never_share_nonce (fun _ => []) (fun _ => "to") (fun _ => "0x") (fun _ => "salt")
    (fun _ => EmptyString) Some ∅ (fst demo_fleet) (snd demo_fleet)) as (Hd & Hu & _).
  - intros a. exact absent_cell_wf.
  - rewrite <- surjective_pairing. apply logged_schedule_reach; [exact demo_pool_step|].
    do 3 (eapply logged_next; [|apply LoggedStart; by constructor]). constructor.
  - split; [exact E|]. split; [exact Hd|]. apply Hu. rewrite E. right. left.
Defined.
