(* ===== verification/Races.v ===== *)
(** * Races: where a nonce is freed although a transaction lives on it

    [Ownership] shows that sends never share a nonce among themselves.  The other broadcasts
    of a wallet (rebroadcasts of stored handles, cancels) go out at the nonce of a stored
    handle, which the send that owns it may still give back.  Two concrete runs over the
    store and the pool together, each a schedule the wallets' tasks allow. *)
From S2P Require Import Prelude Effects Primitives ModelAlloy Errors Ports Nonce NoncePool Signer Signing.
From S2P Require Import TransactionManager Store Facade Session Ownership.

Definition fleet_step {A : Alloy} (c : session * pools) (p : port) (r : resp p) (c' : session * pools) : Prop :=
  session_step any_response (fst c) p r (fst c') /\ pool_answers (snd c) p r (snd c').

(** The healthy world of [Session] at nonce 5, with the pool of [Ownership]. *)
Definition fleet_world (p : port) (c : session * pools) : resp p * (session * pools) :=
  match p return resp p * (session * pools) with
  | TxCount _ => (Ok 5, c)
  | CasNonceState _ _ _ _ => (Err (Backend "offline"), c)
  | Allocate a => let '(r, ps) := demo_pool (Allocate a) (snd c) in (r, (fst c, ps))
  | Release a n => let '(r, ps) := demo_pool (Release a n) (snd c) in (r, (fst c, ps))
  | ResetNonce a n => let '(r, ps) := demo_pool (ResetNonce a n) (snd c) in (r, (fst c, ps))
  | q => let '(r, s) := demo_world q (fst c) in (r, (s, snd c))
  end.

Lemma fleet_world_step p c : fleet_step c p (fst (fleet_world p c)) (snd (fleet_world p c)).
Proof.
  destruct c as [s ps]. pose proof (demo_world_step p s) as [_ Hs]. pose proof (demo_pool_step p ps) as Hp.
  unfold fleet_world. destruct p; try (split; [split; [exact I|exact Hs]|exact Hp]); cbn [fst snd].
  - split; [by split|]. split; [|done]. intros n [= <-]. unfold is_uint, u64_max. lia.
  - destruct (demo_pool (Allocate account) ps) as [r ps'] eqn:E. split; [|exact Hp].
    split; [exact I|]. split; [|done]. simpl. intros n Hn. apply (demo_pool_u64 account ps n ps'). by rewrite E, Hn.
  - destruct (demo_pool (Release account nonce) ps) as [r ps']. split; [|exact Hp]. by split.
Qed.

(** ** A lost acknowledgement *)

(** The first write times out after it took effect. *)
Definition lossy_world (p : port) (c : session * pools) : resp p * (session * pools) :=
  match p return resp p * (session * pools) with
  | PutHandle h =>
      let '(_, s) := demo_world (PutHandle h) (fst c) in
      (if decide (mem_handles (ss_store (fst c)) = ∅) then Err (Backend "timeout") else Ok tt, (s, snd c))
  | q => fleet_world q c
  end.

Lemma lossy_world_step p c : fleet_step c p (fst (lossy_world p c)) (snd (lossy_world p c)).
Proof.
  pose proof (fleet_world_step p c) as H. unfold lossy_world. destruct p; try exact H.
  destruct c as [s ps]. split; [|done]. split; [exact I|]. simpl. case_decide; [right|left]; auto.
Qed.

Definition demo_other_task : io unit :=
  let* _ := wallet_send_with (demo_build demo_builder) (TxIntent_call 1 7 9 0 []) SubmissionOpts_default in Ret tt.
Definition lossy_after (m : io unit) (c : session * pools) : session * pools :=
  snd (fst (run lossy_world m c [])).
Definition demo_lossy : session * pools :=
  lossy_after demo_other_task (lossy_after demo_loop_task (lossy_after demo_send_task (session_new, ∅))).

Lemma lossy_reach m ts c :
  demo_task m -> tasks_reach fleet_step demo_task (session_new, ∅) (ts, c) ->
  tasks_reach fleet_step demo_task (session_new, ∅) (Ret tt :: ts, lossy_after m c).
Proof. intros Hm Hr. unfold lossy_after. by apply tasks_run_start; [apply lossy_world_step|..]. Qed.

(** With a store that may report a failed write that took effect, a nonce given back can
    still reach the network: the send gave up before its broadcast and released nonce 5,
    the next tick rebroadcast its stored bytes, and the next send was handed 5 again. *)
Theorem lost_write_reuses_nonce :
  exists s ps first second,
    tasks_reach fleet_step demo_task (session_new, ∅) ([Ret tt; Ret tt; Ret tt], (s, ps)) /\
    ss_signed s = [second; first] /\ is_who first = is_who second /\
    tx_nonce (is_tx first) = tx_nonce (is_tx second) /\ tx_to (is_tx first) <> tx_to (is_tx second) /\
    ss_sent s = [encoded_2718 (is_tx second) (is_signature second);
                 encoded_2718 (is_tx first) (is_signature first)].
Proof.
  assert (Hr : tasks_reach fleet_step demo_task (session_new, ∅) ([Ret tt; Ret tt; Ret tt], demo_lossy))
    by (repeat apply lossy_reach; by constructor).
  assert (E : exists first second, ss_signed (fst demo_lossy) = [second; first] /\ is_who first = is_who second /\
    tx_nonce (is_tx first) = tx_nonce (is_tx second) /\
    tx_to (is_tx first) = TxKind_Call 8 /\ tx_to (is_tx second) = TxKind_Call 9 /\
    ss_sent (fst demo_lossy) = [encoded_2718 (is_tx second) (is_signature second);
      encoded_2718 (is_tx first) (is_signature first)]).
  { eexists _, _. split; [vm_compute; reflexivity|]. split_and!; vm_compute; reflexivity. }
  destruct E as (first & second & Hs & Hw & Hn & H1 & H2 & Hsent).
  exists (fst demo_lossy), (snd demo_lossy), first, second. rewrite H1, H2. rewrite <- surjective_pairing.
  split_and!; [exact Hr|exact Hs|exact Hw|exact Hn|discriminate|exact Hsent].
Qed.

(** ** A cancel that overtakes its send *)

(** A node that refuses to replace a transaction it already holds. *)
Definition race_world (p : port) (c : session * pools) : resp p * (session * pools) :=
  match p return resp p * (session * pools) with
  | Submit rlp opts =>
      let '(r, c') := fleet_world (Submit rlp opts) c in
      (match ss_sent (fst c) with
       | [] => r
       | _ => Err (Submission_Rpc (RpcError_Call "replacement transaction underpriced" false))
       end, c')
  | q => fleet_world q c
  end.

Lemma race_world_step p c : fleet_step c p (fst (race_world p c)) (snd (race_world p c)).
Proof. pose proof (fleet_world_step p c) as H. unfold race_world. destruct p; exact H. Qed.

Definition overtaken_id : HandleId := HandleId_new (TxIntent_hash demo_wallet_intent) 5.
Definition demo_overtaking_task : io unit :=
  let* _ := wallet_cancel (demo_build demo_builder) overtaken_id in Ret tt.

(** The send writes its handle, the cancel runs to its end, the send's broadcast arrives. *)
Definition demo_overtaken : list (io unit) * (session * pools) :=
  schedule race_world (replicate 7 1%nat ++ replicate 20 0%nat ++ replicate 20 1%nat)
    ([demo_overtaking_task; demo_send_task], (session_new, ∅)).

Lemma overtaken_reach : tasks_reach fleet_step demo_task (session_new, ∅) demo_overtaken.
Proof.
  apply schedule_reach; [apply race_world_step|].
  do 2 (eapply reach_step; [|apply TaskStart; by constructor]). constructor.
Qed.

(** With a healthy store: a cancel sees the handle of a send whose broadcast is still on
    its way, goes out first at its nonce and is accepted; the send's own bytes are then
    refused as underpriced, which the send takes for nothing having been broadcast.  It
    marks the handle failed and gives the nonce back, under the live cancel. *)
Theorem cancel_race_frees_live_nonce :
  exists s ps original cancel,
    tasks_reach fleet_step demo_task (session_new, ∅) ([Ret tt; Ret tt], (s, ps)) /\
    mem_handles (ss_store s) !! overtaken_id = Some original /\ is_terminal (th_status original) = true /\
    mem_handles (ss_store s) !! th_id cancel = Some cancel /\ th_status cancel = Sent /\
    is_self_send (th_intent cancel) = true /\ th_signed cancel ∈ ss_sent s /\
    th_nonce cancel = th_nonce original /\
    ~ in_use (v_value (pool_of ps (th_account cancel))) (th_nonce cancel).
Proof.
  pose proof overtaken_reach as Hr. rewrite (surjective_pairing demo_overtaken), (surjective_pairing (snd _)) in Hr.
  assert (Hfst : fst demo_overtaken = [Ret tt; Ret tt]) by (vm_compute; reflexivity). rewrite Hfst in Hr.
  set (s := fst (snd demo_overtaken)) in *. set (ps := snd (snd demo_overtaken)) in *.
  set (id := HandleId_new (TxIntent_hash (mkIntent 1 7 (TxKind_Call 7) 0 [] None)) 5).
  assert (Ho : exists h, mem_handles (ss_store s) !! overtaken_id = Some h /\ is_terminal (th_status h) = true /\
    th_nonce h = 5) by (eexists; split_and!; vm_compute; reflexivity).
  assert (Hc : exists h, mem_handles (ss_store s) !! id = Some h /\ th_id h = id /\ th_status h = Sent /\
    is_self_send (th_intent h) = true /\ nth_error (ss_sent s) 1 = Some (th_signed h) /\ th_nonce h = 5 /\
    th_account h = 7) by (eexists; split_and!; vm_compute; reflexivity).
  assert (Hn : ns_next (v_value (pool_of ps 7)) = 5) by (vm_compute; reflexivity).
  destruct Ho as (original & ? & ? & E1), Hc as (cancel & Hc & Hid & ? & ? & Hsent & E2 & Ha).
  exists s, ps, original, cancel. rewrite Hid, Ha, E1, E2.
  split_and!; try assumption; [by eapply list_elem_of_In, nth_error_In|].
  intros [Hu _]. rewrite Hn in Hu. lia.
Qed.
