(* ===== verification/Atomicity.v ===== *)
(** * Atomicity: the manager over its store implements the pool

    [Ownership] runs the wallets against a pool that performs each nonce operation in one
    step.  The program has no such pool: [LocalNonceManager] ([src/src/adapters/nonce.rs])
    loads, computes and compare-and-swaps, and every one of those calls interleaves with
    those of the other tasks.  Here the nonce calls of a task are replaced by the manager's
    loops, and every interleaving of the result is shown to be one of [Ownership]'s, with
    each operation taking effect at the compare-and-swap it won. *)
From S2P Require Import Prelude Effects Primitives ModelAlloy Errors Ports Nonce NoncePool Store StoreSpec Facade Session Ownership.

(** ** A task over the store *)

Definition nonce_call (p : port) : option (Address * nonce_op) :=
  match p with
  | Allocate a => Some (a, OpAllocate)
  | Release a n => Some (a, OpRelease n)
  | ResetNonce a c => Some (a, OpReset c)
  | _ => None
  end.

(** What the caller of the manager is told; [None]: the loop is still contending. *)
Definition nonce_answer (p : port) : option (result (option Z) NonceManagerError) -> option (resp p) :=
  match p return option (result (option Z) NonceManagerError) -> option (resp p) with
  | Allocate _ => fun r =>
      match r with Some (Ok (Some n)) => Some (Ok n) | Some (Err e) => Some (Err e) | _ => None end
  | Release _ _ => fun r =>
      match r with Some (Ok None) => Some (Ok tt) | Some (Err e) => Some (Err e) | _ => None end
  | ResetNonce _ _ => fun r =>
      match r with Some (Ok None) => Some (Ok tt) | Some (Err e) => Some (Err e) | _ => None end
  | _ => fun _ => None
  end.

Section Expand.
Context (self : LocalNonceManager) (fuel : nat).

(** The task with the manager's loops in place of its nonce calls.  A loop that needs more
    than [fuel] rounds never comes back, as if its task had been dropped. *)
Fixpoint expand (m : io unit) : io unit :=
  match m with
  | Ret u => Ret u
  | Call p k =>
      match nonce_call p with
      | Some (a, op) =>
          let* r := op_thread self a fuel op in
          match nonce_answer p r with Some x => expand (k x) | None => Ret tt end
      | None => Call p (fun r => expand (k r))
      end
  end.
Definition resume {p} (k : resp p -> io unit) (r : option (result (option Z) NonceManagerError)) : io unit :=
  match nonce_answer p r with Some x => expand (k x) | None => Ret tt end.

Definition valid_count (n : Z) : Prop := 0 <= n < u64_max.

(** How the store and the node answer: a load returns the cell or fails, the pending count
    is one an account can have (EIP-2681), the rest as in [Ownership]. *)
Definition cell_answers (ps : pools) (p : port) : resp p -> pools -> Prop :=
  match p return resp p -> pools -> Prop with
  | LoadNonceState scope => fun r ps' =>
      ps' = ps /\ (r = Ok (pool_of ps (scope_account scope)) \/ is_err r = true)
  | PendingNonce _ => fun r ps' => ps' = ps /\ forall n, r = Ok n -> valid_count n
  | Allocate _ | Release _ _ | ResetNonce _ _ => fun _ ps' => ps' = ps   (* not asked *)
  | q => pool_answers ps q
  end.

(** The exchanges of a task outside the manager. *)
Definition outer_event (e : event resp) : bool :=
  match projT1 e with
  | Allocate _ | Release _ _ | ResetNonce _ _
  | LoadNonceState _ | CasNonceState _ _ _ _ | PendingNonce _ => false
  | _ => true
  end.
Definition outer (tr : history) : history := List.filter outer_event tr.

(** ** The simulation *)

(** What a thread last loaded is not newer than the cell, and is the cell if the version
    says so. *)
Definition seen_cell (seen : option (Versioned NonceState)) (cell : Versioned NonceState) : Prop :=
  match seen with
  | None => True
  | Some v => v_version v <= v_version cell /\ (v_version v = v_version cell -> v = cell)
  end.

(** The task over the store is where the task over the pool is, or inside the nonce call
    the latter is about to make, which has not taken effect yet; or it has ended. *)
Definition prog_sim (ps : pools) (low high : io unit) : Prop :=
  match low with
  | Ret _ => True
  | Call p' k' =>
      (nonce_call p' = None /\ exists k, high = Call p' k /\ forall r, k' r = expand (k r)) \/
      (exists p k a op seen th, high = Call p k /\ nonce_call p = Some (a, op) /\
         pre_commit valid_count a op (Call p' th) seen /\ seen_cell seen (pool_of ps a) /\
         forall r, k' r = bind (th r) (resume k))
  end.
Definition task_sim (ps : pools) (t ht : io unit * history) : Prop :=
  prog_sim ps (fst t) (fst ht) /\ outer (snd t) = outer (snd ht).

Lemma seen_cell_commit seen a b after ps :
  seen_cell seen (pool_of ps a) -> seen_cell seen (pool_of (pool_commit b after ps) a).
Proof using Type.
  destruct seen as [v|]; [|done]. simpl. intros [Hle Heq]. rewrite pool_of_commit.
  case_decide; [|done]. subst. simpl. lia.
Qed.

Lemma prog_sim_commit ps low high b after : prog_sim ps low high -> prog_sim (pool_commit b after ps) low high.
Proof using Type.
  destruct low as [u|p' k']; [done|]. intros [H|(p & k & a & op & seen & th & ? & ? & ? & Hs & ?)]; [by left|].
  right. exists p, k, a, op, seen, th. split_and!; try done. by apply seen_cell_commit.
Qed.

(** Inside a nonce call. *)
Lemma resume_sim ps p k a op seen (th : thread) :
  nonce_call p = Some (a, op) -> pre_commit valid_count a op th seen -> seen_cell seen (pool_of ps a) ->
  (forall x, th <> Ret x) -> prog_sim ps (bind th (resume k)) (Call p k).
Proof using Type.
  intros Hp Hpre Hs Hr. destruct th as [x|p' th]; [by destruct (Hr x)|]. right.
  exists p, k, a, op, seen, th. by split_and!.
Qed.

Lemma expand_sim ps m : prog_sim ps (expand m) m.
Proof using Type.
  destruct m as [u|p k]; [done|]. cbn [expand]. destruct (nonce_call p) as [[a op]|] eqn:Hp.
  - pose proof (op_thread_pre_commit valid_count self a fuel op) as Hpre.
    change (prog_sim ps (bind (op_thread self a fuel op) (resume k)) (Call p k)).
    destruct (op_thread self a fuel op) as [x|p' th] eqn:E.
    + destruct fuel; [|by destruct op]. destruct op; injection E as <-; by destruct p.
    + by apply (resume_sim ps p k a op None).
  - left. split; [done|]. by exists k.
Qed.
(** ** One call of a nonce operation *)

Lemma take_nonce_counts base :
  nonce_wf base -> ns_next base < u64_max -> ns_next (snd (take_nonce base)) <> 0.
Proof using Type.
  intros [H0 Hf _] Hlt. unfold take_nonce. pose proof (min_free_spec (ns_free base)) as Hm.
  destruct (min_free (ns_free base)) as [m|]; simpl.
  - destruct Hm as [Hin _]. specialize (Hf m Hin). lia.
  - rewrite wrapping_add_small; lia.
Qed.

Lemma alloc_no_wrap cell value res :
  cell_wf cell -> ns_next (v_value cell) < u64_max -> op_spec OpAllocate cell value res ->
  (v_version cell = 0 ->
     exists pending, valid_count pending /\ value = snd (take_nonce (set_next pending (v_value cell)))) ->
  ns_next value <> 0.
Proof using Type.
  intros Hwf Hlt (base & n & Hbase & Ht & _) Hpend. destruct (v_version cell =? 0) eqn:Hz; bool_simpl.
  - destruct (Hpend Hz) as (pending & Hp & ->). unfold valid_count in Hp. apply take_nonce_counts; [|simpl; lia].
    rewrite (cw_absent _ Hwf Hz). constructor; simpl; [lia| |]; set_solver.
  - subst base. replace value with (snd (take_nonce (v_value cell))) by (by rewrite Ht).
    apply take_nonce_counts; [apply Hwf|done].
Qed.

(** A nonce call that returns without having written: it gave up, failed, or had nothing
    to do. *)
Lemma return_step ps p a op x seen :
  nonce_call p = Some (a, op) -> pre_commit valid_count a op (Ret x) seen ->
  (forall v, seen = Some v -> v = pool_of ps a \/ op = OpAllocate) ->
  nonce_answer p x = None \/ exists y, nonce_answer p x = Some y /\ pool_answers ps p y ps.
Proof using Type.
  intros Hp Hpre Hseen. destruct x as [[res|e]|]; [|right|left; by destruct p].
  - destruct Hpre as (v & -> & Hnoop). right. destruct (Hseen v eq_refl) as [->| ->]; [|done].
    destruct p; try done; injection Hp as <- <-; simpl in Hnoop; try done.
    destruct Hnoop as [Hn ->]. exists (Ok tt). split; [done|]. left. right. by split.
  - destruct p; try done; exists (Err e); (split; [done|]); simpl; auto.
Qed.

(** A nonce call that wrote the cell. *)
Lemma commit_step ps p a op value res y :
  nonce_call p = Some (a, op) -> op_spec op (pool_of ps a) value res ->
  (op = OpAllocate -> ns_next value <> 0) ->
  nonce_answer p (Some (Ok res)) = Some y \/ (exists e, nonce_answer p (Some (Err e)) = Some y) ->
  pool_answers ps p y (pool_commit a value ps).
Proof using Type.
  intros Hp Hspec Hwrap Hy.
  assert (Hperf : forall r, res = r -> performed op a r ps (pool_commit a value ps)) by (intros r <-; left; eauto).
  destruct p; try done; injection Hp as <- <-; simpl in *.
  - destruct Hspec as (base & n & _ & _ & ->). destruct Hy as [[= <-]|[e [= <-]]]; [by apply Hperf|].
    right. exists n. by apply Hperf.
  - destruct Hspec as [_ ->]. left. by apply Hperf.
  - destruct Hspec as [_ ->]. left. by apply Hperf.
Qed.

(** What a call leaves of the nonce operation [op] of call [p]: it goes on with the cells
    untouched, it gives up with the cells untouched, or it ends, having taken effect then
    and there or not at all. *)
Definition call_outcome (ps ps' : pools) (p : port) (a : Address) (op : nonce_op) (next : thread) : Prop :=
  (ps' = ps /\ exists seen, pre_commit valid_count a op next seen /\ seen_cell seen (pool_of ps a) /\
     forall x, next <> Ret x) \/
  (ps' = ps /\ exists x, next = Ret x /\ nonce_answer p x = None) \/
  (exists x y, next = Ret x /\ nonce_answer p x = Some y /\ pool_answers ps p y ps').

Lemma quiet_outcome ps p a op next seen :
  nonce_call p = Some (a, op) -> pre_commit valid_count a op next seen -> seen_cell seen (pool_of ps a) ->
  (forall v, seen = Some v -> v = pool_of ps a \/ op = OpAllocate) -> call_outcome ps ps p a op next.
Proof using Type.
  intros Hp Hnext Hs Hv. destruct next as [x|q kq]; [right|left; eauto].
  destruct (return_step ps p a op x seen Hp Hnext Hv) as [?|(y & ? & ?)]; [left|right]; eauto 10.
Qed.

Lemma nonce_answer_err p a op e : nonce_call p = Some (a, op) -> exists y, nonce_answer p (Some (Err e)) = Some y.
Proof using Type. destruct p; try done; by eexists. Qed.

Lemma nonce_answer_ok p a op before value res :
  nonce_call p = Some (a, op) -> op_spec op before value res -> exists y, nonce_answer p (Some (Ok res)) = Some y.
Proof using Type.
  intros Hp Hspec. destruct p; try done; injection Hp as <- <-; simpl in Hspec;
    [destruct Hspec as (? & ? & _ & _ & ->)|destruct Hspec as [_ ->]..]; by eexists.
Qed.

(** The compare-and-swap: a won one takes effect, and so may a failed one. *)
Lemma cas_outcome ps p a op scope version value fence (th : resp (CasNonceState scope version value fence) -> thread)
    seen r ps' :
  (forall b, cell_wf (pool_of ps b)) -> (forall b, ns_next (v_value (pool_of ps b)) < u64_max) ->
  nonce_call p = Some (a, op) -> pre_commit valid_count a op (Call _ th) seen ->
  seen_cell seen (pool_of ps a) -> cas_answers (scope_account scope) version value r ps ps' ->
  call_outcome ps ps' p a op (th r).
Proof using Type.
  intros Hwf Hlt Hp (-> & v & -> & -> & (res & Hk & Hspec) & Hpend & Hlost & Herr) [_ Heq] Hans. simpl in Hans.
  assert (Hwritten : v_version v = v_version (pool_of ps a) /\ ns_next value < u64_max /\
    ps' = pool_commit a value ps -> forall y, nonce_answer p (Some (Ok res)) = Some y \/
    (exists e, nonce_answer p (Some (Err e)) = Some y) -> pool_answers ps p y ps').
  { intros (Hv & Hn & ->) y Hy. rewrite (Heq Hv) in *. apply (commit_step ps p a op value res); try done.
    intros ->. by apply (alloc_no_wrap (pool_of ps a) value res); auto. }
  destruct Hans as [[-> Hw]|[(-> & _ & ->)|[He Hw]]].
  - right. right. destruct (nonce_answer_ok p a op v value res Hp Hspec) as [y Hy].
    exists (Some (Ok res)), y. rewrite Hk. auto 10.
  - by apply (quiet_outcome ps p a op _ None).
  - destruct r as [|e]; [done|]. destruct (Herr e) as [e' ->]. destruct Hw as [->|Hw].
    + by apply (quiet_outcome ps p a op _ None).
    + right. right. destruct (nonce_answer_err p a op e' Hp) as [y Hy]. exists (Some (Err e')), y. eauto 10.
Qed.

Lemma inner_step ps p a op p' (th : resp p' -> thread) seen r ps' :
  (forall b, cell_wf (pool_of ps b)) -> (forall b, ns_next (v_value (pool_of ps b)) < u64_max) ->
  nonce_call p = Some (a, op) -> pre_commit valid_count a op (Call p' th) seen ->
  seen_cell seen (pool_of ps a) -> cell_answers ps p' r ps' ->
  call_outcome ps ps' p a op (th r).
Proof using Type.
  intros Hwf Hlt Hp Hpre Hseen Hans. destruct p'; simpl in Hpre; try done.
  - destruct Hpre as [-> Hpre], Hans as [-> Hr]. apply (quiet_outcome ps p a _ _ seen); [done| |done|by auto].
    apply Hpre. intros n Hn. specialize (Hr n Hn). unfold valid_count, is_uint in *. split; [lia|done].
  - destruct Hpre as (-> & Hok & Herr), Hans as [-> Hr]. destruct r as [v|e].
    + destruct Hr as [[= ->]|Hr]; [|done].
      apply (quiet_outcome ps p a _ _ (Some (pool_of ps a))); [done|apply Hok|by split|naive_solver].
    + by apply (quiet_outcome ps p a _ _ None); [|apply Herr|..].
  - by apply (cas_outcome ps p a op _ _ _ _ th seen).
Qed.

(** ** Every interleaving *)

Lemma cell_answers_cases ps p r ps' :
  cell_answers ps p r ps' ->
  ps' = ps \/ exists a after, ns_next after < u64_max /\ ps' = pool_commit a after ps.
Proof using Type.
  destruct p; simpl; try (intros ->; by left); try done; try (intros [? ?]; subst; by left).
  unfold cas_answers. intros [(_ & _ & ? & ?)|[(_ & _ & ?)|[_ [?|(_ & ? & ?)]]]]; eauto.
Qed.

Lemma task_sim_step ps p r ps' t ht : cell_answers ps p r ps' -> task_sim ps t ht -> task_sim ps' t ht.
Proof using Type.
  intros [->|(a & after & _ & ->)]%cell_answers_cases [? ?]; [done|]. split; [by apply prog_sim_commit|done].
Qed.

Lemma bound_step ps p r ps' :
  cell_answers ps p r ps' -> (forall b, ns_next (v_value (pool_of ps b)) < u64_max) ->
  forall b, ns_next (v_value (pool_of ps' b)) < u64_max.
Proof using Type.
  intros [->|(a & after & Hn & ->)]%cell_answers_cases Hlt b; [done|]. rewrite pool_of_commit.
  case_decide; [|done]. by simpl.
Qed.

(** A call of a task over the store is none or one call of the task over the pool. *)
Lemma call_simulates ps p k tr ht r ps' :
  (forall b, cell_wf (pool_of ps b)) -> (forall b, ns_next (v_value (pool_of ps b)) < u64_max) ->
  task_sim ps (Call p k, tr) ht -> cell_answers ps p r ps' ->
  (ps' = ps /\ task_sim ps' (k r, existT p r :: tr) ht) \/
  (exists q kq y, fst ht = Call q kq /\ pool_answers ps q y ps' /\
     task_sim ps' (k r, existT p r :: tr) (kq y, existT q y :: snd ht)).
Proof using Type.
  intros Hwf Hlt [Hsim Hout] Hans. destruct ht as [high htr]. cbn [fst snd] in *.
  destruct Hsim as [(Hnc & kq & -> & Hk)|(q & kq & a & op & seen & th & -> & Hq & Hpre & Hseen & Hk)].
  - right. exists p, kq, r. split; [done|]. split.
    + destruct p; try done; by destruct Hans.
    + split; cbn [fst snd]; [rewrite Hk; apply expand_sim|]. unfold outer in *. simpl. by rewrite Hout.
  - assert (Hin : outer (existT p r :: tr) = outer htr) by (rewrite <- Hout; by destruct p).
    assert (Hhigh : forall y, outer (existT q y :: htr) = outer htr) by (intros y; by destruct q).
    unfold task_sim. cbn [fst snd]. rewrite Hk, Hin.
    destruct (inner_step ps q a op p th seen r ps' Hwf Hlt Hq Hpre Hseen Hans)
      as [(-> & seen' & Hp' & Hs' & Hne)|[(-> & x & -> & Hx)|(x & y & -> & Hy & Hpool)]].
    + left. split_and!; [done| |done]. by apply (resume_sim ps q kq a op seen').
    + left. split_and!; [done| |done]. cbn [bind]. unfold resume. by rewrite Hx.
    + right. exists q, kq, y. rewrite Hhigh. split_and!; [done..| |done].
      cbn [bind]. unfold resume. rewrite Hy. apply expand_sim.
Qed.
End Expand.

(** ** The wallets over the store *)

Section Wallets.
Context {A : Alloy}.
Context (abi_user_nonce : Address -> Bytes).
Context (address_display : Address -> string) (bytes_display : Bytes -> string) (b256_display : B256 -> string).
Context (status_display : Z -> string) (parse_relay_response : string -> option string).
Context (self : LocalNonceManager) (fuel : nat).

Abbreviation any_task :=
  (wallet_task abi_user_nonce address_display bytes_display b256_display status_display parse_relay_response).

(** An operation of a wallet whose nonce manager works on the store. *)
Definition stored_task (m : io unit) : Prop := exists m0, any_task m0 /\ m = expand self fuel m0.

Lemma tasks_simulate ps0 ts ps :
  (forall a, cell_wf (pool_of ps0 a)) -> (forall a, ns_next (v_value (pool_of ps0 a)) < u64_max) ->
  logged_reach cell_answers stored_task ps0 (ts, ps) ->
  (forall a, ns_next (v_value (pool_of ps a)) < u64_max) /\
  exists hts, logged_reach pool_answers any_task ps0 (hts, ps) /\ Forall2 (task_sim self fuel ps) ts hts.
Proof.
  intros Hwf0 Hlt0 Hreach. remember (ts, ps) as c eqn:E. revert ts ps E.
  induction Hreach as [|c c' _ IH Hst]; intros ts ps E.
  { injection E as <- <-. split; [done|]. exists []. by split; constructor. }
  destruct Hst as [m ts1 s1 (m0 & Hm0 & ->)|ts1 p k tr ts2 s1 r s2 Hans]; injection E as <- <-;
    destruct (IH _ _ eq_refl) as (Hlt & hts & Hhigh & Hsim).
  - split; [done|]. exists ((m0, []) :: hts). split; [by eapply logged_next; [|apply LoggedStart]|].
    constructor; [|done]. split; [apply expand_sim|done].
  - split; [by apply (bound_step _ _ _ _ Hans)|].
    apply Forall2_app_inv_l in Hsim as (hts1 & hts' & H1 & Hsim & ->).
    apply Forall2_cons_inv_l in Hsim as ([high htr] & hts2 & Ht & H2 & ->).
    assert (Hothers : forall l l', Forall2 (task_sim self fuel s1) l l' -> Forall2 (task_sim self fuel s2) l l').
    { intros l l' Hl. eapply list.Forall2_impl; [exact Hl|]. intros t ht. by apply (task_sim_step self fuel s1 p r). }
    destruct (ownership_reach _ _ _ _ _ _ _ _ _ Hwf0 Hhigh) as [[Hwf _ _] _].
    destruct (call_simulates self fuel s1 p k tr (high, htr) r s2 Hwf Hlt Ht Hans)
      as [[-> Ht']|(q & kq & y & Eq & Hpool & Ht')]; cbn [fst snd] in *.
    + exists (hts1 ++ (high, htr) :: hts2). split; [done|]. by apply Forall2_app; [|constructor].
    + subst high. exists (hts1 ++ (kq y, existT q y :: htr) :: hts2). split.
      * eapply logged_next; [exact Hhigh|]. by constructor.
      * apply Forall2_app; [by apply Hothers|]. constructor; [done|by apply Hothers].
Qed.

(** C6: the nonce manager's loops over the store are the atomic pool.  Whatever any
    wallets' operations and loops do concurrently, interleaved at every load, pending-count
    read and compare-and-swap, with store calls failing, failed writes taking effect and
    tasks dropped anywhere: there are runs of the same operations against a pool that
    performs each nonce operation in one step, ending with the same cells, in which every
    task made the same exchanges with the node, the policy, the key, the handle store and
    the submission strategy.  So no two of the sends' possibly live broadcasts have the same
    account and nonce, each was of bytes signed at the nonce held, and the store's cells
    count all those nonces as in use. *)
Theorem stored_tasks_refine_pool ps0 ts ps :
  (forall a, cell_wf (pool_of ps0 a)) -> (forall a, ns_next (v_value (pool_of ps0 a)) < u64_max) ->
  logged_reach cell_answers stored_task ps0 (ts, ps) ->
  exists hts, logged_reach pool_answers any_task ps0 (hts, ps) /\
    Forall2 (fun t ht => outer (snd t) = outer (snd ht)) ts hts /\
    NoDup (all_broadcasts hts) /\ Forall (guarded own_guard) (map snd hts) /\
    forall a n, (a, n) ∈ all_broadcasts hts -> in_use (v_value (pool_of ps a)) n.
Proof.
  intros Hwf0 Hlt0 Hreach. destruct (tasks_simulate ps0 ts ps Hwf0 Hlt0 Hreach) as (_ & hts & Hhigh & Hsim).
  destruct (ownership_reach _ _ _ _ _ _ _ _ _ Hwf0 Hhigh) as [Hinv Hg].
  destruct (ownership_broadcasts _ _ Hinv) as [Hd Hu]. exists hts. split_and!; try done.
  eapply list.Forall2_impl; [exact Hsim|]. by intros t ht [_ ?].
Qed.
End Wallets.

(** ** The in-memory store *)

(** The nonce rows of the store, by account. *)
Definition cells (m : InMemoryStateStore) : pools := kmap scope_account (fst <$> mem_nonces m).

#[export] Instance scope_account_inj : Inj (=) (=) scope_account.
Proof. by intros [a] [b] [= ->]. Qed.

Lemma pool_of_cells m scope : pool_of (cells m) (scope_account scope) = cell_of scope m.
Proof. unfold pool_of, cells, cell_of. by rewrite (lookup_kmap scope_account), lookup_fmap. Qed.

(** Its loads and compare-and-swaps are answers of [cell_answers], fencing included. *)
Theorem memory_answers_cells scope version value fence m :
  0 <= v_version (cell_of scope m) < u64_max -> ns_next value < u64_max ->
  cell_answers (cells m) (LoadNonceState scope) (memory_load_nonce_state scope m) (cells m) /\
  let '(r, m') := memory_cas_nonce_state scope version value fence m in
  cell_answers (cells m) (CasNonceState scope version value fence) r (cells m').
Proof.
  intros Hv Hn. split; [split; [done|left]; by rewrite pool_of_cells|].
  unfold memory_cas_nonce_state.
  set (cur := match mem_nonces m !! scope with Some (v, f) => (v_version v, f) | None => _ end).
  assert (Hcur : fst cur = v_version (cell_of scope m)).
  { unfold cur, cell_of. by destruct (mem_nonces m !! scope) as [[v f]|]. }
  destruct cur as [version' fence']. simpl in Hcur. subst version'.
  simpl. unfold cas_answers. rewrite !pool_of_cells. destruct (fence_ltb fence fence'); [auto 10|].
  destruct (v_version (cell_of scope m) =? version) eqn:He; bool_simpl; cbn [negb]; [|auto 10].
  left. subst version. split_and!; [done..|]. unfold cells, pool_commit. simpl.
  rewrite fmap_insert, (kmap_insert scope_account). f_equal. simpl.
  change (kmap scope_account (fst <$> mem_nonces m)) with (cells m). rewrite pool_of_cells.
  f_equal. apply wrapping_add_small. lia.
Qed.

(** ** A concrete race *)

(** The healthy world of [Session] over a store that holds the cells, the node at 5. *)
Definition demo_cells (p : port) (ps : pools) : resp p * pools :=
  match p return resp p * pools with
  | LoadNonceState scope => (Ok (pool_of ps (scope_account scope)), ps)
  | PendingNonce _ => (Ok 5, ps)
  | CasNonceState scope version value _ =>
      let a := scope_account scope in
      if negb (version =? v_version (pool_of ps a)) then (Ok false, ps)
      else if ns_next value <? u64_max then (Ok true, pool_commit a value ps)
      else (Err (Backend "full"), ps)
  | q => (fst (demo_world q session_new), ps)
  end.

Lemma demo_cells_step p ps : cell_answers ps p (fst (demo_cells p ps)) (snd (demo_cells p ps)).
Proof.
  destruct p; try reflexivity; simpl.
  - split; [done|]. intros n [= <-]. unfold valid_count, u64_max. lia.
  - split; [|done]. intros n [= <-]. unfold is_uint, u64_max. lia.
  - by split; [|left].
  - unfold cas_answers. destruct (expected_version =? _) eqn:Hv; bool_simpl; cbn [negb]; [|simpl; auto 10].
    destruct (ns_next state <? u64_max) eqn:Hn; bool_simpl; simpl; auto 10.
Qed.

(** Two sends that load the same cell before either of them writes it. *)
Definition demo_stored : io unit := expand LocalNonceManager_new 3 demo_send_task.
Definition demo_contention : list (io unit * history) * pools :=
  logged_schedule demo_cells (concat (replicate 20 [0; 1]%nat)) ([(demo_stored, []); (demo_stored, [])], ∅).

Lemma stored_tasks_refine_pool_witness :
  map (fun t => cas_losses (snd t)) (fst demo_contention) = [0; 1]%nat /\
  map (fun t => length (submits (snd t))) (fst demo_contention) = [1; 1]%nat /\
  ns_next (v_value (pool_of (snd demo_contention) 7)) = 7 /\
  exists hts, Forall2 (fun t ht => outer (snd t) = outer (snd ht)) (fst demo_contention) hts /\
    NoDup (all_broadcasts hts).
Proof.
  split; [vm_compute; reflexivity|]. split; [vm_compute; reflexivity|]. split; [vm_compute; reflexivity|].
  destruct (stored_tasks_refine_pool (fun _ => []) (fun _ => "to") (fun _ => "0x") (fun _ => "salt")
    (fun _ => EmptyString) Some LocalNonceManager_new 3 ∅ (fst demo_contention) (snd demo_contention))
    as (hts & _ & Hout & Hd & _).
  - intros a. exact absent_cell_wf.
  - intros a. reflexivity.
  - rewrite <- surjective_pairing. apply logged_schedule_reach; [exact demo_cells_step|].
    do 2 (eapply logged_next; [|apply LoggedStart; eexists; split; [by constructor|reflexivity]]). constructor.
  - exists hts. split; [exact Hout|exact Hd].
Defined.
