(* ===== verification/Durable.v ===== *)
(** * Durable: sessions over the durable stores

    [Session], [Ownership] and [Atomicity] run the wallets over the in-memory store and its
    cells.  Here the store behind the port is any [StoreBackend]: a [StateStore] that simulates
    the in-memory one, as redb and Postgres do ([src/src/adapters/store/]).  Every session
    over a backend, with its calls failing and failed writes taking effect, is a session
    over the in-memory store; so what the store gives back and what is broadcast is as
    sound there. *)
From S2P Require Import Prelude Effects Primitives ModelAlloy Errors Ports Lifecycle GasOracle Policy.
From S2P Require Import Signer Signing TransactionManager Executor Nonce NoncePool Store ModelSerde StoreSpec.
From S2P Require Import Facade Session Ownership Atomicity.

(** ** Backends *)

(** What a store promises its clients: its operations, a fresh database, and that it is
    observably the in-memory store for versions and fences that fit, refusing the handles
    it cannot encode. *)
Class StoreBackend (S : Type) : Type := {
  b_ops : StateStore S;
  b_open : S;
  b_fits : Z -> FenceToken -> Prop;
  b_refuses : refusals;
  b_rel : S -> InMemoryStateStore -> Prop;
  b_simulates : simulates b_fits b_refuses b_ops b_rel;
  b_opens : b_rel b_open InMemoryStateStore_default;
}.

#[export] Instance redb_backend {J : Serde} {JL : SerdeLaws J} : StoreBackend RedbStateStore :=
  {| b_simulates := redb_simulates; b_opens := redb_rel_open |}.
#[export] Instance postgres_backend {J : Serde} {JL : SerdeLaws J} : StoreBackend PostgresStateStore :=
  {| b_simulates := postgres_simulates; b_opens := postgres_rel_connect |}.

(** ** A session over a backend *)

Section Durable.
Context {S : Type} {B : StoreBackend S} {A : Alloy}.

(** The database, the handles ever written, and the ghost logs of [Session]. *)
Record durable : Type := mkDurable {
  du_store : S;
  du_written : list TxHandle;
  du_approved : list (principal * SigningRequest * PolicyApproval);
  du_signed : list issued;
  du_sent : list Bytes;
}.
Definition durable_new : durable := mkDurable b_open [] [] [] [].

(** The logs of a session, with an empty store. *)
Definition logs (d : durable) : session :=
  mkSession InMemoryStateStore_default (du_approved d) (du_signed d) (du_sent d).
Definition with_logs (d : durable) (s : session) : durable :=
  mkDurable (du_store d) (du_written d) (ss_approved s) (ss_signed s) (ss_sent s).

(** A handle is written under values of its Rust types, and not over a handle of another
    account: that would take a collision of the intent hash. *)
Definition writable (d : durable) (h : TxHandle) : Prop :=
  handle_valid h /\ forall h', h' ∈ du_written d -> th_id h' = th_id h -> th_account h' = th_account h.

(** The store calls are answered by the backend, whose transactions may fail ([fault]); a
    write that fails may have taken effect all the same, and a call may fail before it
    reaches the database.  Everything else is as in [Session]. *)
Definition durable_answers (d : durable) (p : port) : resp p -> durable -> Prop :=
  match p return resp p -> durable -> Prop with
  | PutHandle h => fun r d' =>
      (is_err r = true /\ d' = d) \/
      writable d h /\ exists fault s', (r, s') = put_handle b_ops fault h (du_store d) /\
        exists s'', (s'' = s' \/ is_err r = true /\ s'' = snd (put_handle b_ops None h (du_store d))) /\
          d' = mkDurable s'' (h :: du_written d) (du_approved d) (du_signed d) (du_sent d)
  | GetHandle id => fun r d' =>
      d' = d /\ (is_err r = true \/ is_u256 id /\ exists fault, r = get_handle b_ops fault id (du_store d))
  | PendingHandles a => fun r d' =>
      d' = d /\ (is_err r = true \/ is_address a /\ exists fault, r = pending_handles b_ops fault a (du_store d))
  | q => fun r d' => exists s', store_answers (logs d) q r s' /\ d' = with_logs d s'
  end.

Context (world : forall p, resp p -> Prop).
Definition durable_step (d : durable) (p : port) (r : resp p) (d' : durable) : Prop :=
  world p r /\ durable_answers d p r d'.

(** ** It is a session over the in-memory store *)

Record durable_rel (d : durable) (s : session) : Prop := {
  dr_store : b_rel (du_store d) (ss_store s);
  dr_written : forall id h, mem_handles (ss_store s) !! id = Some h -> th_id h = id /\ h ∈ du_written d;
  dr_approved : du_approved d = ss_approved s;
  dr_signed : du_signed d = ss_signed s;
  dr_sent : du_sent d = ss_sent s;
}.

Lemma durable_new_rel : durable_rel durable_new session_new.
Proof using Type. constructor; [apply b_opens|done..]. Qed.

Lemma writable_same_account d s h : durable_rel d s -> writable d h -> same_account (ss_store s) h.
Proof using Type. intros Hrel [_ Hw] h' Hh'. destruct (dr_written _ _ Hrel _ _ Hh') as [Hid Hin]. auto. Qed.

Definition put_in (h : TxHandle) (s : session) : session :=
  mkSession (snd (memory_put_handle h (ss_store s))) (ss_approved s) (ss_signed s) (ss_sent s).

(** A write took effect, or not. *)
Lemma durable_rel_put d s h s' :
  durable_rel d s -> writable d h -> b_refuses h = None -> s' = snd (put_handle b_ops None h (du_store d)) ->
  durable_rel (mkDurable s' (h :: du_written d) (du_approved d) (du_signed d) (du_sent d)) (put_in h s).
Proof using Type.
  intros Hrel Hw Href ->. pose proof (writable_same_account d s h Hrel Hw) as Hsame. destruct Hrel as [HR Hin ? ? ?].
  pose proof (sim_put _ _ _ _ b_simulates None h _ _ HR (proj1 Hw) Hsame) as Hsim.
  unfold put_fault in Hsim. rewrite Href in Hsim. destruct Hsim as [_ HR'].
  constructor; simpl; try done. intros id h'. destruct (decide (id = th_id h)) as [->|Hne].
  - rewrite lookup_insert_eq. intros [= <-]. split; [done|constructor].
  - rewrite lookup_insert_ne by done. intros [? ?]%Hin. split; [done|by constructor].
Qed.
Lemma durable_rel_kept d s h :
  durable_rel d s ->
  durable_rel (mkDurable (du_store d) (h :: du_written d) (du_approved d) (du_signed d) (du_sent d)) s.
Proof using Type.
  intros [HR Hin ? ? ?]. constructor; simpl; try done. intros id h' [? ?]%Hin. split; [done|by constructor].
Qed.

Lemma durable_put_step d s h r d' :
  durable_rel d s -> durable_answers d (PutHandle h) r d' ->
  exists s', store_answers s (PutHandle h) r s' /\ durable_rel d' s'.
Proof using Type.
  intros Hrel [[He ->]|(Hw & fault & s1 & Hput & s2 & Hs2 & ->)]; [exists s; split; [right; auto|done]|].
  pose proof (fun f => sim_put _ _ _ _ b_simulates f h _ _ (dr_store _ _ Hrel) (proj1 Hw)
    (writable_same_account _ _ _ Hrel Hw)) as Hsim. unfold put_fault in Hsim.
  destruct (b_refuses h) as [e|] eqn:Href.
  { rewrite (Hsim fault) in Hput. injection Hput as -> ->. exists s. split; [right; by split; [|left]|].
    assert (s2 = du_store d) as -> by (destruct Hs2 as [->|[_ ->]]; [done|by rewrite (Hsim None)]).
    by apply durable_rel_kept. }
  specialize (Hsim fault). destruct fault as [e|].
  - rewrite Hsim in Hput. injection Hput as -> ->. destruct Hs2 as [->|[_ ->]].
    + exists s. split; [right; by split; [|left]|by apply durable_rel_kept].
    + exists (put_in h s). split; [right; by split; [|right]|by apply durable_rel_put].
  - destruct Hsim as [Hok _]. rewrite <- Hput in Hok. simpl in Hok. subst r.
    exists (put_in h s). split; [by left|]. apply durable_rel_put; [done..|].
    destruct Hs2 as [->|[? _]]; [|done]. by rewrite <- Hput.
Qed.

Definition is_handle_call (p : port) : bool :=
  match p with PutHandle _ | GetHandle _ | PendingHandles _ => true | _ => false end.

(** The other calls neither read nor write the store. *)
Lemma store_answers_frame m ap sg sn p r s' :
  is_handle_call p = false -> store_answers (mkSession m ap sg sn) p r s' ->
  ss_store s' = m /\
  forall m', store_answers (mkSession m' ap sg sn) p r (mkSession m' (ss_approved s') (ss_signed s') (ss_sent s')).
Proof using Type.
  intros Hp. destruct p; try done; simpl; repeat case_match; try (intros ->; done); try (intros [? ->]; done).
Qed.

(** Every answer of the backend is an answer of the in-memory store in a related session. *)
Lemma durable_step_session d s p r d' :
  durable_rel d s -> durable_step d p r d' -> exists s', session_step world s p r s' /\ durable_rel d' s'.
Proof using Type.
  intros Hrel [Hw Hans].
  enough (H : exists s', store_answers s p r s' /\ durable_rel d' s').
  { destruct H as (s' & ? & ?). exists s'. by split. }
  destruct (is_handle_call p) eqn:Hp.
  - destruct p; try done; [by apply (durable_put_step d)| |].
    + destruct Hans as [-> [He|(Ha & fault & ->)]]; exists s; (split; [|done]); (split; [done|]); [by right|].
      pose proof (sim_pending _ _ _ _ b_simulates fault account _ _ (dr_store _ _ Hrel) Ha) as Hsim.
      destruct fault as [e|]; [rewrite Hsim; by right|]. destruct Hsim as (l & l' & -> & Hm & Hl). left. by exists l, l'.
    + destruct Hans as [-> [He|(Hi & fault & ->)]]; exists s; (split; [|done]); (split; [done|]); [by right|].
      rewrite (sim_get _ _ _ _ b_simulates fault id _ _ (dr_store _ _ Hrel) Hi). destruct fault; [by right|by left].
  - destruct s as [m ap sg sn], d as [st wr dap dsg dsn], Hrel as [HR Hin Ha Hs Ht]. simpl in *. subst.
    assert (Hq : exists s', store_answers (mkSession InMemoryStateStore_default ap sg sn) p r s' /\
      d' = with_logs (mkDurable st wr ap sg sn) s') by (destruct p; try done; exact Hans).
    destruct Hq as (s' & Hans' & ->). apply store_answers_frame in Hans' as [_ Hm]; [|done].
    eexists. split; [apply Hm|by constructor].
Qed.
End Durable.

(** Whatever tasks do over a backend they may do over the in-memory store. *)
Lemma durable_reach_session {S} {B : StoreBackend S} {A : Alloy} world startable ts (d : durable) :
  tasks_reach (durable_step world) startable durable_new (ts, d) ->
  exists s, tasks_reach (session_step world) startable session_new (ts, s) /\ durable_rel d s.
Proof.
  apply (tasks_reach_simulates _ _ _ durable_rel); [|apply durable_new_rel].
  intros d0 s0 p r d'. apply durable_step_session.
Qed.

Lemma handle_wf_signed {A : Alloy} s s' h : ss_signed s = ss_signed s' -> handle_wf s h -> handle_wf s' h.
Proof. intros E [? ? ? ? ? Hp ?]. constructor; try done. unfold signed_payload in *. by rewrite <- E. Qed.

Section Wallets.
Context {S : Type} {B : StoreBackend S} {A : Alloy}.
Context (abi_user_nonce : Address -> Bytes).
Context (address_display : Address -> string) (bytes_display : Bytes -> string) (b256_display : B256 -> string).
Context (status_display : Z -> string) (parse_relay_response : string -> option string).

Abbreviation wallet_tasks :=
  (native_task abi_user_nonce address_display bytes_display b256_display status_display parse_relay_response).

(** C11: sessions over redb, Postgres or any other backend that simulates the in-memory
    store, under native policies and local keys, of wallets that work for their keys'
    accounts: whatever operations they run concurrently, with transactions failing, failed
    writes taking effect and tasks dropped anywhere, every handle the database gives back,
    by id or as pending, is named by its own intent and nonce and holds bytes a key signed
    for exactly those (or a relay's task).  Its bytes are backed for its intent hash and
    nonce, and so is every byte string ever broadcast for some: a transaction of the signing
    key's own account (or a zero-value self-send, as a cancel of any handle is) that the
    key's rules allowed, within their fee caps. *)
Theorem durable_session_sound (engines : principal -> DefaultPolicyEngine) (keys : principal -> LocalSigner)
    ts (d : durable) :
  tasks_reach (durable_step (native_world engines keys)) (wallet_tasks keys) durable_new (ts, d) ->
  (forall id h, is_u256 id -> get_handle b_ops None id (du_store d) = Ok (Some h) ->
     th_id h = id /\ handle_wf (logs d) h /\
     (th_signed h <> [] -> backed engines keys (th_intent_hash h) (th_nonce h) (th_signed h))) /\
  (forall a l, is_address a -> pending_handles b_ops None a (du_store d) = Ok l ->
     Forall (fun h => is_pending_of a h = true /\ handle_wf (logs d) h /\
       (th_signed h <> [] -> backed engines keys (th_intent_hash h) (th_nonce h) (th_signed h))) l) /\
  (forall rlp, rlp ∈ du_sent d -> some_backed engines keys rlp).
Proof.
  intros (s & Hreach & [HR _ _ Hsg Hsn])%durable_reach_session.
  apply (session_reach_inv _ _ _ _ _ _ (key_owns keys) _ _ _ _ (fun m Hm => Hm)) in Hreach as [Hinv _]. destruct (Hinv) as [Hstore _ _ Hsent].
  assert (Hlog : ss_signed s = ss_signed (logs d)) by (symmetry; exact Hsg). split_and!.
  - intros id h Hid. rewrite (sim_get _ _ _ _ b_simulates None id _ _ HR Hid). intros [= Hh].
    destruct (Hstore id h Hh) as [Heq Hwf]. split_and!; [done|by apply (handle_wf_signed s)|].
    by apply (stored_backed _ _ s id).
  - intros a l Ha. destruct (sim_pending _ _ _ _ b_simulates None a _ _ HR Ha) as (l1 & l2 & -> & Hm & Hp).
    intros [= ->]. rewrite Hp. apply list.Forall_forall. intros h [[id Hh] Hpend]%(memory_pending_elem _ _ _ _ Hm).
    split_and!; [done|apply (handle_wf_signed s); [done|by apply (Hstore id)]|by apply (stored_backed _ _ s id)].
  - intros rlp. rewrite Hsn. intros (g & Hg & ->)%Hsent. do 2 eexists. by eapply signed_ok_backed.
Qed.
End Wallets.

(** ** The cells of a backend *)

(** Under a backend's loads and compare-and-swaps the cells of [Atomicity] are those of the
    in-memory store it simulates. *)
Theorem backend_answers_cells {S} {B : StoreBackend S} scope version value fence fault (s : S) m :
  b_rel s m -> is_address (scope_account scope) -> b_fits version fence ->
  0 <= v_version (cell_of scope m) < u64_max -> ns_next value < u64_max ->
  cell_answers (cells m) (LoadNonceState scope) (load_nonce_state b_ops fault scope s) (cells m) /\
  exists m', b_rel (snd (cas_nonce_state b_ops fault scope version value fence s)) m' /\
    cell_answers (cells m) (CasNonceState scope version value fence)
      (fst (cas_nonce_state b_ops fault scope version value fence s)) (cells m').
Proof.
  intros HR Ha Hf Hv Hn. destruct (memory_answers_cells scope version value fence m Hv Hn) as [Hload Hcas].
  split.
  - rewrite (sim_load _ _ _ _ b_simulates fault scope s m HR Ha). destruct fault; [by split; [|right]|done].
  - pose proof (sim_cas _ _ _ _ b_simulates fault scope version value fence s m HR Ha Hf) as Hsim.
    destruct fault as [e|].
    + rewrite Hsim. exists m. split; [done|]. right. right. by split; [|left].
    + destruct Hsim as [Hr HR']. destruct (memory_cas_nonce_state scope version value fence m) as [r m'].
      exists m'. split; [exact HR'|]. by rewrite Hr.
Qed.

(** ** A concrete session *)

Section Demo.
Context {S : Type} {B : StoreBackend S}.

Definition writableb (d : durable (S:=S)) (h : TxHandle) : bool :=
  ((0 <=? th_id h) && (th_id h <=? u256_max))
  && ((0 <=? th_account h) && (th_account h <=? 2 ^ 160 - 1))
  && forallb (fun h' => negb (th_id h' =? th_id h) || (th_account h' =? th_account h)) (du_written d).

Lemma writableb_sound d h : writableb d h = true -> writable d h.
Proof using Type.
  unfold writableb, writable, handle_valid, is_address, is_uint. intros H. bool_simpl.
  split; [lia|]. intros h' Hin%list_elem_of_In Hid.
  match goal with Hall : forallb _ _ = true |- _ => pose proof (proj1 (forallb_forall _ _) Hall h' Hin) as Hh end.
  apply orb_true_iff in Hh as [Hh|Hh]; bool_simpl; lia.
Qed.

(** The native world of [Session] over the backend's database. *)
Definition durable_world (p : port) (d : durable) : resp p * durable :=
  match p return resp p * durable with
  | PutHandle h =>
      if writableb d h
      then let '(r, s') := put_handle b_ops None h (du_store d) in
           (r, mkDurable s' (h :: du_written d) (du_approved d) (du_signed d) (du_sent d))
      else (Err (Backend "collision"), d)
  | GetHandle id =>
      (if (0 <=? id) && (id <=? u256_max) then get_handle b_ops None id (du_store d) else Err (Backend "id"), d)
  | PendingHandles a =>
      (if (0 <=? a) && (a <=? 2 ^ 160 - 1) then pending_handles b_ops None a (du_store d)
       else Err (Backend "account"), d)
  | q => let '(r, s') := demo_native_world q (logs d) in (r, with_logs d s')
  end.

Lemma durable_world_step p d :
  durable_step (native_world demo_engines demo_keys) d p (fst (durable_world p d)) (snd (durable_world p d)).
Proof using Type.
  destruct (is_handle_call p) eqn:Hp.
  - split; [by destruct p|]. destruct p; try done; simpl.
    + destruct (writableb d handle) eqn:Hw; [|by left]. right. split; [by apply writableb_sound|].
      exists None. destruct (put_handle b_ops None handle (du_store d)) as [r s'] eqn:E.
      exists s'. split; [done|]. exists s'. split; [by left|done].
    + split; [done|]. destruct (_ && _) eqn:Ha; bool_simpl; [right|by left].
      split; [by split|by exists None].
    + split; [done|]. destruct (_ && _) eqn:Ha; bool_simpl; [right|by left].
      split; [by split|by exists None].
  - pose proof (demo_native_step p (logs d)) as [Hw Hs].
    assert (E : durable_world p d = (let '(r, s') := demo_native_world p (logs d) in (r, with_logs d s')))
      by (by destruct p). rewrite E. destruct (demo_native_world p (logs d)) as [r s']. split; [exact Hw|].
    destruct p; try done; by exists s'.
Qed.

Definition durable_sent : durable := snd (fst (run durable_world demo_native_task durable_new [])).

Lemma durable_sent_reach :
  tasks_reach (durable_step (native_world demo_engines demo_keys)) demo_key_task durable_new ([Ret tt], durable_sent).
Proof using Type.
  apply tasks_run_start; [apply durable_world_step|constructor; exact demo_key_wallet_owned|constructor].
Qed.
End Demo.

Definition demo_native_id : HandleId := HandleId_new (TxIntent_hash demo_intent) 11.

Lemma durable_session_sound_witness :
  (exists h, redb_handle None demo_native_id (du_store (durable_sent (S:=RedbStateStore))) = Ok (Some h) /\
     th_status h = Sent /\ backed demo_engines demo_keys (th_intent_hash h) (th_nonce h) (th_signed h)) /\
  (exists h, postgres_handle None demo_native_id (du_store (durable_sent (S:=PostgresStateStore))) = Ok (Some h) /\
     th_status h = Sent /\ backed demo_engines demo_keys (th_intent_hash h) (th_nonce h) (th_signed h)).
Proof.
  assert (Hid : is_u256 demo_native_id) by (vm_compute; split; discriminate). split.
  - destruct (durable_session_sound (fun _ => []) (fun _ => "to") (fun _ => "0x") (fun _ => "salt")
      (fun _ => EmptyString) Some _ _ _ _ (durable_sent_reach (S:=RedbStateStore))) as (Hget & _ & _).
    assert (E : exists h, redb_handle None demo_native_id (du_store (durable_sent (S:=RedbStateStore))) = Ok (Some h)
      /\ th_status h = Sent /\ th_signed h <> []).
    { eexists. split; [vm_compute; reflexivity|]. split; [reflexivity|discriminate]. }
    destruct E as (h & Hh & Hs & Hne). exists h. split; [exact Hh|]. split; [exact Hs|].
    destruct (Hget demo_native_id h Hid Hh) as (_ & _ & Hb). exact (Hb Hne).
  - destruct (durable_session_sound (fun _ => []) (fun _ => "to") (fun _ => "0x") (fun _ => "salt")
      (fun _ => EmptyString) Some _ _ _ _ (durable_sent_reach (S:=PostgresStateStore))) as (Hget & _ & _).
    assert (E : exists h, postgres_handle None demo_native_id (du_store (durable_sent (S:=PostgresStateStore)))
      = Ok (Some h) /\ th_status h = Sent /\ th_signed h <> []).
    { eexists. split; [vm_compute; reflexivity|]. split; [reflexivity|discriminate]. }
    destruct E as (h & Hh & Hs & Hne). exists h. split; [exact Hh|]. split; [exact Hs|].
    destruct (Hget demo_native_id h Hid Hh) as (_ & _ & Hb). exact (Hb Hne).
Defined.
