(* ===== verification/Telemetry.v ===== *)
(** * Telemetry: what the wallet logs

    [src/src/obs.rs] forwards the event macros to [tracing], or to nothing when the
    feature is off; [#[tracing::instrument]] opens spans on the pipeline's functions.
    Here those functions are written with their spans and events, over the ports of
    [Ports] and one more request, [Emit].  Forgetting the records gives back the
    functions of [Signing], [TransactionManager], [Executor], [Facade] and the adapters;
    what an event says happened, the history shows. *)
From S2P Require Import Prelude Effects Primitives ModelAlloy Errors Ports Lifecycle Nonce GasOracle.
From S2P Require Import Policy Signer Signing TransactionManager Executor Submission Store Gelato Facade.

(** ** Records *)

Inductive Level : Type := DEBUG | INFO | WARN | ERROR.
Inductive rec_kind : Type := Span_ | Event_.

(** The value of a field; errors are their messages. *)
Inductive value : Type :=
| V_hash (h : Z)
| V_opt_hash (h : option Z)
| V_int (n : Z)
| V_address (a : Address)
| V_bool (b : bool)
| V_status (s : TxStatus)
| V_relay (relay : ProtectRelay)
| V_str (s : string).

Record record : Type := mkRecord {
  rec_what : rec_kind;
  rec_level : Level;
  rec_name : string;   (* a span's name, an event's message *)
  rec_fields : list (string * value);
}.

Abbreviation span_record := (mkRecord Span_).
Abbreviation event_record := (mkRecord Event_).

(** ** Programs that log *)

Inductive tport : Type :=
| Emit (r : record)
| Port (p : port).
Definition tresp (p : tport) : Type := match p with Emit _ => unit | Port p => resp p end.
Abbreviation tio := (prog tresp).

Definition query (p : port) : tio (resp p) := call (Port p : tport).

(** Code without telemetry of its own. *)
Fixpoint lift {T} (m : io T) : tio T :=
  match m with
  | Ret a => Ret a
  | Call p k => Call (Port p) (fun r : resp p => lift (k r))
  end.

(** Forget the records. *)
Fixpoint erase {T} (m : tio T) : io T :=
  match m with
  | Ret a => Ret a
  | Call p k =>
      match p return (tresp p -> io T) -> io T with
      | Emit _ => fun k => k tt
      | Port p => fun k => Call p k
      end (fun r => erase (k r))
  end.

Definition port_event (e : Effects.event tresp) : option (Effects.event resp) :=
  match e with existT (Port p) r => Some (existT p r) | existT (Emit _) _ => None end.
Definition record_event (e : Effects.event tresp) : option record :=
  match e with existT (Emit r) _ => Some r | existT (Port _) _ => None end.
Definition ports (tr : trace tresp) : history := omap port_event tr.
Definition records (tr : trace tresp) : list record := omap record_event tr.

Lemma erase_bind {T U} (m : tio T) (f : T -> tio U) : erase (bind m f) ≡ bind (erase m) (fun a => erase (f a)).
Proof.
  induction m as [a|[r|p] k IH]; simpl; [reflexivity|apply IH|].
  apply prog_eq_call. intros r. apply IH.
Qed.
Lemma erase_lift {T} (m : io T) : erase (lift m) ≡ m.
Proof. induction m as [a|p k IH]; simpl; [reflexivity|]. apply prog_eq_call. intros r. apply IH. Qed.

(** What was proved of the program without telemetry holds of the program with it. *)
Definition env_of (Env : forall p, resp p -> Prop) (p : tport) : tresp p -> Prop :=
  match p with Emit _ => fun _ => True | Port p => Env p end.
Definition guard_of (G : history -> port -> Prop) (tr : trace tresp) (p : tport) : Prop :=
  match p with Emit _ => True | Port p => G (ports tr) p end.

Lemma triple_erase {T} Env G (m : tio T) tr Q :
  triple Env G (erase m) (ports tr) Q ->
  triple (env_of Env) (guard_of G) m tr (fun tr' a => Q (ports tr') a).
Proof.
  revert tr. induction m as [a|[r|p] k IH]; intros tr; simpl; [done| |].
  - intros H. split; [done|]. intros [] _. by apply IH.
  - intros [HG H]. split; [done|]. intros r Hr. apply IH. by apply H.
Qed.

Section Telemetry.
Context {A : Alloy}.
(** The [tracing] feature. *)
Context (tracing : bool).

(** ** The shim ([obs.rs]) *)

Definition emit (r : record) : tio unit := if tracing then call (Emit r : tport) else Ret tt.
Definition debug (fields : list (string * value)) (message : string) : tio unit :=
  emit (event_record DEBUG message fields).
Definition info (fields : list (string * value)) (message : string) : tio unit :=
  emit (event_record INFO message fields).
Definition warn (fields : list (string * value)) (message : string) : tio unit :=
  emit (event_record WARN message fields).
Definition error (fields : list (string * value)) (message : string) : tio unit :=
  emit (event_record ERROR message fields).

(** [#[tracing::instrument(name, level, skip_all, fields(...))]]. *)
Definition instrument {T} (name : string) (level : Level) (fields : list (string * value)) (body : tio T) : tio T :=
  let* _ := emit (span_record level name fields) in body.

(** ** Signing ([signing.rs]) *)

Definition traced_sign_encode (who : principal) (tx : TxEip1559) (intent_hash : IntentHash)
    (approval : PolicyApproval) (now : Z) : tio (result SignedTx SignerError) :=
  instrument "sign" DEBUG [("intent_hash", V_hash intent_hash)]
    (let? signature := query (SignTransaction who tx intent_hash approval now) in
     Ret (Ok (signed_of tx signature))).

(** ** The transaction manager ([transaction_manager.rs]) *)

Section Manager.
Context (self : TransactionManager).

Definition traced_sign_message (message : Bytes) : tio (result SignatureEnvelope TransactionManagerError) :=
  instrument "sign_message" DEBUG [("payload_hash", V_hash (eip191_hash_message message))]
    (let? approval := lift (tm_authorize self (Message message)) in
     let* now := query NowUnix in
     map_err TM_Signer (query (SignMessage (tm_who self) message approval now))).

Definition traced_sign_typed_data (typed : TypedData) : tio (result SignatureEnvelope TransactionManagerError) :=
  instrument "sign_typed_data" DEBUG
    [("payload_hash", V_opt_hash (match eip712_signing_hash typed with Ok h => Some h | Err _ => None end))]
    (let? approval := lift (tm_authorize self (TypedDataReq typed)) in
     let* now := query NowUnix in
     map_err TM_Signer (query (SignTypedData (tm_who self) typed approval now))).

Definition traced_build_sign_submit (intent : TxIntent) (gas_limit : Z) (fees : Eip1559Estimation)
    (nonce : Z) (approval : PolicyApproval) (opts : SubmissionOpts) (meta : option MetaContext)
  : tio (result TxHandle TransactionManagerError) :=
  let account := ti_account intent in
  let intent_hash := TxIntent_hash intent in
  let* now := query NowUnix in
  let tx := build_tx intent nonce gas_limit fees in
  let* out := traced_sign_encode (tm_who self) tx intent_hash approval now in
  match out with
  | Err e =>
      let* _ := query (Release account nonce) in
      Ret (Err (TM_Signer e))
  | Ok signed =>
      let handle := pending_handle intent nonce approval signed now opts meta in
      let* put := query (PutHandle handle) in
      match put with
      | Err e =>
          let* _ := query (Release account nonce) in
          Ret (Err (TM_Store e))
      | Ok _ =>
          let* submitted := query (Submit (st_rlp signed) opts) in
          match submitted with
          | Ok _ =>
              let handle := set_status Sent handle in
              let* _ := query (PutHandle handle) in
              let* _ := info [("tx_hash", V_hash (st_hash signed)); ("nonce", V_int nonce)]
                          "transaction submitted" in
              Ret (Ok handle)
          | Err e =>
              if is_transient e || is_already_accepted e then
                let handle := set_status Sent handle in
                let* _ := query (PutHandle handle) in
                let* _ := warn [("nonce", V_int nonce)] "submission indeterminate; assuming sent" in
                Ret (Ok handle)
              else
                let handle := set_status (Failed (SubmissionError_to_string e)) handle in
                let* _ := query (PutHandle handle) in
                let* _ := query (Release account nonce) in
                let* _ := error [("error", V_str (SubmissionError_to_string e)); ("nonce", V_int nonce)]
                            "submission rejected; nonce recycled" in
                Ret (Err (TM_Submission e))
          end
      end
  end.

Definition traced_send_with_meta (intent : TxIntent) (opts : SubmissionOpts) (meta : option MetaContext)
  : tio (result TxHandle TransactionManagerError) :=
  instrument "wallet.send" INFO
    [("intent_hash", V_hash (TxIntent_hash intent)); ("account", V_address (ti_account intent));
     ("chain_id", V_int (ti_chain_id intent)); ("gasless", V_bool (bool_decide (is_Some meta)))]
    (if negb (tm_supports_route self (so_route opts)) then Ret (Err (TM_Route RelayNotConfigured))
     else
       let account := ti_account intent in
       let signer := tm_signer_address self in
       if negb (signer =? account) then Ret (Err (TM_AccountMismatch account signer))
       else
         let* estimated := query (EstimateGas (intent_request intent)) in
         match estimated with
         | Err (RpcError_Call message false) => Ret (Err (SimulationRejected message))
         | Err e => Ret (Err (TM_Rpc e))
         | Ok gas =>
             let gas_limit := buffered_gas self gas in
             let? fees := map_err TM_Gas (query GasEstimate) in
             let? decision := map_err TM_Policy (query (Evaluate (tm_who self) (Transaction intent))) in
             match decision with
             | Deny rejection => Ret (Err (Denied rejection))
             | Allow approval =>
                 let? nonce := map_err TM_Nonce (query (Allocate account)) in
                 let* _ := debug [("nonce", V_int nonce)] "nonce allocated" in
                 traced_build_sign_submit intent gas_limit fees nonce approval opts meta
             end
         end).
Definition traced_send (intent : TxIntent) := traced_send_with_meta intent SubmissionOpts_default None.

Definition traced_build_and_sign_forward_request (intent : TxIntent) (forwarder : Address)
    (domain : ForwarderDomain) (deadline_secs : Z) : tio (result SignedRequest WalletKitError) :=
  instrument "wallet.gasless.build" DEBUG
    [("intent_hash", V_hash (TxIntent_hash intent)); ("account", V_address (ti_account intent));
     ("forwarder", V_address forwarder); ("chain_id", V_int (ti_chain_id intent))]
    (let owner := ti_account intent in
     match ti_to intent with
     | TxKind_Create =>
         Ret (Err (WK_Relay (Rejected "contract creation cannot be relayed via ERC-2771")))
     | TxKind_Call target =>
         let? nonce := map_err WK_Relay (lift (forwarder_nonce forwarder owner)) in
         let* estimated := query (EstimateGas (intent_request intent)) in
         match estimated with
         | Err (RpcError_Call message false) => Ret (Err (WK_Simulation message))
         | Err e => Ret (Err (WK_Relay (Relay_Rpc e)))
         | Ok gas =>
             let* now := query NowUnix in
             let deadline := Z.min (saturating_add u64_max now deadline_secs) U48_MAX in
             let request :=
               mkForwardRequest owner target (ti_value intent) gas nonce deadline (ti_input intent) in
             let typed := ForwardRequest_typed_data request forwarder (ti_chain_id intent) domain in
             let? signature := map_err WalletKitError_from_tm (traced_sign_typed_data typed) in
             Ret (Ok (mkSignedRequest request signature forwarder (ti_chain_id intent)))
         end
     end).

Fixpoint traced_cancel_loop (fuel : nat) (target : TxHandle) (intent : TxIntent) (intent_hash : IntentHash)
    (basis : Eip1559Estimation) (approval : PolicyApproval) (now attempts : Z)
  : tio (option (result SignedTx TransactionManagerError)) :=
  match fuel with
  | O => Ret None
  | S fuel' =>
      let* bumped := query (GasBump basis) in
      match bumped with
      | Err e => Ret (Some (Err (TM_Gas e)))
      | Ok fees =>
          let tx := build_tx intent (th_nonce target) CANCEL_GAS_LIMIT fees in
          let* out := traced_sign_encode (tm_who self) tx intent_hash approval now in
          match out with
          | Err e => Ret (Some (Err (TM_Signer e)))
          | Ok signed =>
              let* submitted := query (Submit (st_rlp signed) (th_submission target)) in
              match submitted with
              | Ok _ => Ret (Some (Ok signed))
              | Err e =>
                  if is_already_accepted e then Ret (Some (Ok signed))
                  else if is_underpriced e && (attempts =? 0) then
                    let* found := query (GetHandle (th_id target)) in
                    match found with
                    | Err e => Ret (Some (Err (TM_Store e)))
                    | Ok None => Ret (Some (Err UnknownHandle))
                    | Ok (Some fresh) =>
                        match fee_basis (th_signed fresh) with
                        | Err e => Ret (Some (Err e))
                        | Ok basis' =>
                            let* _ := warn [("nonce", V_int (th_nonce target))]
                                        "cancel underpriced; re-basing over the target" in
                            traced_cancel_loop fuel' target intent intent_hash basis' approval now (attempts + 1)
                        end
                    end
                  else Ret (Some (Err (TM_Submission e)))
              end
          end
      end
  end.

Definition traced_broadcast_cancel_with_repricing (target : TxHandle) (intent : TxIntent)
    (intent_hash : IntentHash) (basis : Eip1559Estimation) (approval : PolicyApproval) (now : Z)
  : tio (result SignedTx TransactionManagerError) :=
  let* r := traced_cancel_loop 2 target intent intent_hash basis approval now 0 in
  Ret match r with Some done => done | None => Err CancelTerminal end.

Definition traced_cancel (id : HandleId) : tio (result TxHandle TransactionManagerError) :=
  instrument "wallet.cancel" INFO [("id", V_hash id)]
    (let? found := map_err TM_Store (query (GetHandle id)) in
     match found with
     | None => Ret (Err UnknownHandle)
     | Some target =>
         if is_terminal (th_status target) then Ret (Err CancelTerminal)
         else
           let intent := cancel_intent target in
           let intent_hash := TxIntent_hash intent in
           let? approval := lift (tm_authorize self (Cancel intent)) in
           let target := set_cancelled true target in
           let? _ := map_err TM_Store (query (PutHandle target)) in
           let* now := query NowUnix in
           match fee_basis (th_signed target) with
           | Err e => Ret (Err e)
           | Ok basis =>
               let* broadcast :=
                 traced_broadcast_cancel_with_repricing target intent intent_hash basis approval now in
               match broadcast with
               | Err e =>
                   let* _ := query (PutHandle (set_cancelled false target)) in
                   Ret (Err e)
               | Ok signed =>
                   let cancel :=
                     mkHandle (HandleId_new intent_hash (th_nonce target)) (th_account target) intent
                       intent_hash (th_nonce target) Sent (pa_gas_envelope approval) (st_rlp signed)
                       [st_hash signed] now false (th_submission target) None in
                   let? _ := map_err TM_Store (query (PutHandle cancel)) in
                   let* _ := info [("nonce", V_int (th_nonce target))] "cancel submitted" in
                   Ret (Ok cancel)
               end
           end
     end).
End Manager.

(** ** The executor ([executor/mod.rs]) *)

Section Executor.
Context (address_display : Address -> string).
Context (self : AccountExecutor).

Definition log_transition (handle : TxHandle) (prev : TxStatus) : tio unit :=
  let fields := [("intent_hash", V_hash (th_intent_hash handle)); ("from", V_status prev);
                 ("to", V_status (th_status handle))] in
  if is_terminal (th_status handle) then info fields "transaction settled" else debug fields "status advanced".

Definition traced_refill_intent (manager : TransactionManager) (handle : TxHandle) : tio unit :=
  let* sent := traced_send manager (th_intent handle) in
  match sent with
  | Ok child => debug [("nonce", V_int (th_nonce child))] "intent refilled after replacement"
  | Err err =>
      warn [("error", V_str (TransactionManagerError_to_string address_display err));
            ("nonce", V_int (th_nonce handle))] "refill failed"
  end.

Definition traced_on_settled (handle : TxHandle) (st : exec_state) : tio exec_state :=
  let st := forget (th_id handle) st in
  match ex_refill self with
  | Some manager =>
      if decide (th_status handle = Replaced)
      then let* _ := traced_refill_intent manager handle in Ret st
      else Ret st
  | None => Ret st
  end.

Definition traced_poll_task (handle : TxHandle) (st : exec_state) : tio exec_state :=
  match ex_relay self, th_meta handle ≫= mc_task with
  | true, Some task =>
      let* r := query (Poll task) in
      match r with
      | Ok (Relay_Included hash) =>
          let handle := set_status Sent (push_broadcast hash handle) in
          let* put := query (PutHandle handle) in
          if is_ok put
          then let* _ := info [("intent_hash", V_hash (th_intent_hash handle))] "relay task included on-chain" in
               Ret st
          else Ret st
      | Ok (Relay_Failed reason) =>
          let handle := set_status (Failed reason) handle in
          let* put := query (PutHandle handle) in
          if is_ok put
          then let* st := traced_on_settled handle st in
               let* _ := info [("intent_hash", V_hash (th_intent_hash handle))] "relay task failed" in
               Ret st
          else Ret st
      | Ok Relay_Pending => Ret st
      | Err err =>
          let* _ := warn [("intent_hash", V_hash (th_intent_hash handle)); ("error", V_str (RelayError_to_string err))]
                      "relay task poll failed; will retry" in
          Ret st
      end
  | _, _ => Ret st
  end.

Definition traced_advance_on_chain (handle : TxHandle) (cycle : Cycle) (st : exec_state) : tio exec_state :=
  let* event := lift (event_for handle (cyc_mined_nonce cycle)) in
  match transition (th_status handle) event (cyc_view cycle) (cyc_finality cycle) with
  | None => Ret st
  | Some next =>
      let prev := th_status handle in
      let handle := set_status (settle_status (th_cancelled handle) next) handle in
      let* _ := log_transition handle prev in
      let* put := query (PutHandle handle) in
      if is_ok put && is_terminal (th_status handle) then traced_on_settled handle st else Ret st
  end.

Definition traced_advance_handle (handle : TxHandle) (cycle : Cycle) (st : exec_state) : tio exec_state :=
  if is_awaiting_relay handle then traced_poll_task handle st else traced_advance_on_chain handle cycle st.

Definition traced_confirm (st : exec_state) : tio (result unit ExecutorError * exec_state) :=
  let* (c, st) := lift (read_cycle self st) in
  match c with
  | Err e => Ret (Err e, st)
  | Ok None => Ret (Ok tt, st)
  | Ok (Some cycle) =>
      let* r := query (ResetNonce (ex_account self) (cyc_mined_nonce cycle)) in
      match r with
      | Err e => Ret (Err (Ex_Nonce e), st)
      | Ok _ =>
          let* handles := query (PendingHandles (ex_account self)) in
          match handles with
          | Err e => Ret (Err (Ex_Store e), st)
          | Ok handles =>
              let* st := for_each handles st (fun handle st => traced_advance_handle handle cycle st) in
              Ret (Ok tt, st)
          end
      end
  end.

(** Whether a bump takes a private transaction public, and after how many cycles. *)
Definition escalates_after (h : TxHandle) : option Z :=
  match so_route (th_submission h) with
  | Private route =>
      match escalation route with
      | PublicAfter cycles => if cycles <=? Z.of_nat (length (th_broadcasts h)) then Some cycles else None
      | StayPrivate => None
      end
  | Public => None
  end.

Definition log_escalation (handle : TxHandle) : tio unit :=
  match escalates_after handle with
  | Some cycles =>
      warn [("intent_hash", V_hash (th_intent_hash handle)); ("cycles", V_int cycles)]
        "escalating stuck private tx to public mempool"
  | None => Ret tt
  end.

Definition traced_bump (handle : TxHandle) (now : Z) (st : exec_state)
  : tio (result unit ExecutorError * exec_state) :=
  let intent_hash := ("intent_hash", V_hash (th_intent_hash handle)) in
  instrument "bump" DEBUG
    [intent_hash; ("nonce", V_int (th_nonce handle)); ("bump_count", V_int (Z.of_nat (length (th_broadcasts handle))))]
    (let* r := query (TxCount (ex_account self)) in
     match r with
     | Err e => Ret (Err (Ex_Rpc e), st)
     | Ok mined =>
         if th_nonce handle <? mined then Ret (Ok tt, st)
         else
           match decode_fees (th_signed handle) with
           | None => Ret (Ok tt, st)
           | Some current =>
               let* r := query (GasBump (sf_fees current)) in
               match r with
               | Err (CeilingExceeded _ _) =>
                   let* _ := warn [intent_hash] "bump halted at gas ceiling" in Ret (Ok tt, st)
               | Err e => Ret (Err (Ex_Gas e), st)
               | Ok bumped =>
                   if negb (admits (th_envelope handle) (max_fee_per_gas bumped)
                              (max_priority_fee_per_gas bumped))
                   then let* _ := warn [intent_hash] "bump halted at approval envelope" in Ret (Ok tt, st)
                   else
                     let* a := lift (bump_approval self handle bumped now st) in
                     match a with
                     | Err e => Ret (Err e, st)
                     | Ok None => Ret (Ok tt, st)
                     | Ok (Some approval) =>
                         let tx := build_tx (th_intent handle) (th_nonce handle) (sf_gas_limit current) bumped in
                         let* s := traced_sign_encode (ex_who self) tx (th_intent_hash handle) approval now in
                         match s with
                         | Err e => Ret (Err (Ex_Signer e), st)
                         | Ok signed =>
                             let* _ := log_escalation handle in
                             let handle := set_submission (escalated_opts handle) handle in
                             let* r := query (Submit (st_rlp signed) (th_submission handle)) in
                             let finish :=
                               let handle :=
                                 set_signed (st_rlp signed) now (push_broadcast (st_hash signed) handle) in
                               let* put := query (PutHandle handle) in
                               match put with
                               | Err e => Ret (Err (Ex_Store e), st)
                               | Ok _ =>
                                   let* _ := warn [intent_hash; ("nonce", V_int (th_nonce handle))]
                                               "bumped fees (RBF)" in
                                   Ret (Ok tt, track (th_id handle) approval st)
                               end in
                             match r with
                             | Ok _ => finish
                             | Err e =>
                                 if is_already_accepted e then finish
                                 else Ret (Err (Ex_Submission e), st)
                             end
                         end
                     end
               end
           end
     end).

Definition traced_escalate (st : exec_state) : tio (result unit ExecutorError * exec_state) :=
  let* now := query NowUnix in
  let* r := query (PendingHandles (ex_account self)) in
  match r with
  | Err e => Ret (Err (Ex_Store e), st)
  | Ok handles =>
      let* st :=
        for_each handles st (fun handle st =>
          if is_stuck (ex_bump_timeout self) now handle
          then let* (_, st) := traced_bump handle now st in Ret st
          else Ret st) in
      Ret (Ok tt, st)
  end.

Definition traced_tick (st : exec_state) : tio (result unit ExecutorError * exec_state) :=
  instrument "wallet.tick" DEBUG []
    (let* r := lift (recover self) in
     match r with
     | Err e => Ret (Err e, st)
     | Ok _ =>
         let* (r, st) := traced_confirm st in
         match r with
         | Err e => Ret (Err e, st)
         | Ok _ => traced_escalate st
         end
     end).
End Executor.

(** ** The wallet ([facade.rs]) *)

Definition traced_wallet_tick (address_display : Address -> string) (w : Wallet) (st : wallet_state)
  : tio (result unit WalletKitError * wallet_state) :=
  instrument "tick" DEBUG []
    (let* (r, user) := traced_tick address_display (w_executor w) (ws_user st) in
     let st := mkWalletState user (ws_relayer st) in
     match r with
     | Err e => Ret (Err (WalletKitError_from_executor e), st)
     | Ok _ =>
         match w_gasless w with
         | Some (Backend_SelfRelay runtime) =>
             let* (r, relayer) := traced_tick address_display (rt_executor runtime) (ws_relayer st) in
             let st := mkWalletState (ws_user st) relayer in
             Ret (map_res_err WalletKitError_from_executor r, st)
         | _ => Ret (Ok tt, st)
         end
     end).

(** ** The adapters *)

(** [adapters/nonce.rs]: one round of a loop, which logs once its compare-and-swap won. *)
Section Nonces.
Context (self : LocalNonceManager).

Definition traced_allocate_body (account : Address) : tio (result (option Z) NonceManagerError) :=
  let scope := eoa account in
  let? loaded := map_err Nonce_Store (query (LoadNonceState scope)) in
  let version := v_version loaded in
  let? value :=
    (if version =? 0
     then let? next := map_err Nonce_Rpc (query (PendingNonce account)) in
          Ret (Ok (set_next next (v_value loaded)))
     else Ret (Ok (v_value loaded))) in
  let '(nonce, value') := take_nonce value in
  let? won := lift (cas self scope version value') in
  if won : bool
  then let* _ := debug [("nonce", V_int nonce)] "nonce assigned" in Ret (Ok (Some nonce))
  else Ret (Ok None).

Definition traced_reset_body (account : Address) (chain_next : Z) : tio (result (option unit) NonceManagerError) :=
  let scope := eoa account in
  let? loaded := map_err Nonce_Store (query (LoadNonceState scope)) in
  let? won := lift (cas self scope (v_version loaded) (reset_state (v_value loaded) chain_next)) in
  if won : bool
  then let* _ := debug [("chain_next", V_int chain_next)] "nonce reconciled to chain" in Ret (Ok (Some tt))
  else Ret (Ok None).
End Nonces.

(** [adapters/gas_oracle.rs]. *)
Definition traced_gas_bump (self : RpcGasOracle) (prev : Eip1559Estimation)
  : tio (result Eip1559Estimation GasOracleError) :=
  let tip := rbf (max_priority_fee_per_gas prev) in
  let rbf_cap := rbf (max_fee_per_gas prev) in
  let? base_fee := map_err Gas_Rpc (query BaseFee) in
  let coverage :=
    saturating_add u128_max (saturating_mul u128_max base_fee BASE_FEE_MULTIPLIER) tip in
  let max_fee := Z.max rbf_cap coverage in
  if ceiling_max_fee self <? max_fee
  then
    let* _ := warn [("needed", V_int max_fee); ("ceiling", V_int (ceiling_max_fee self))]
                "gas bump would exceed ceiling" in
    Ret (Err (CeilingExceeded (ceiling_max_fee self) max_fee))
  else Ret (Ok (mkEstimation max_fee tip)).

(** [adapters/submission/]. *)
Definition traced_public_submit (signed_rlp : Bytes) (opts : SubmissionOpts) : tio (result TxHash SubmissionError) :=
  let* _ := debug [] "broadcasting signed transaction" in
  map_err Submission_Rpc (query (SendRaw signed_rlp)).

Section Private.
Context (parse_response : string -> option JsonRpcResponse) (status_display : Z -> string).
Context (identity_sign : Bytes -> result string string) (transport_url : Url -> result unit string).
Context (request_body : option Z -> option (bool * option (list string)) -> Bytes -> Bytes).

Definition traced_send_flashbots (rlp : Bytes) (route : Flashbots) : tio (result TxHash SubmissionError) :=
  let? max_block_number := lift (private_tx_window route) in
  let preferences := flashbots_preferences route in
  match identity_sign (request_body max_block_number preferences rlp) with
  | Err e => Ret (Err (RelayAuth ("flashbots: " ++ e)%string))
  | Ok _ =>
      let* _ := debug [("relay", V_str "flashbots")] "broadcasting via private relay" in
      let? resp := map_err net_err (query (FlashbotsPost max_block_number preferences rlp)) in
      Ret (classify_flashbots parse_response status_display (http_status resp) (http_body resp))
  end.

Definition traced_private_submit (cache : gset Url) (signed_rlp : Bytes) (opts : SubmissionOpts)
  : tio (result TxHash SubmissionError * gset Url) :=
  match so_route opts with
  | Public => Ret (Err (Submission_Route RelayNotConfigured), cache)
  | Private (Route_Flashbots f) => let* r := traced_send_flashbots signed_rlp f in Ret (r, cache)
  | Private (Route_Protect p) =>
      let* _ := debug [("relay", V_relay (protect_relay p))] "broadcasting via private relay" in
      let '(transport, cache) := protect_transport transport_url (protect_relay p) cache in
      match transport with
      | Err e => Ret (Err e, cache)
      | Ok url =>
          let* r := map_err Submission_Rpc (query (SendRawTo url signed_rlp)) in Ret (r, cache)
      end
  end.
End Private.

(** [adapters/store/]: what the durable stores record once a call answered. *)
Definition traced_redb_cas (scope : NonceScope) (r : result bool StateStoreError) : tio (result bool StateStoreError) :=
  match r with
  | Ok true =>
      let* _ := debug [("account", V_address (scope_account scope))] "redb nonce committed" in Ret r
  | _ => Ret r
  end.
Definition traced_redb_put (r : result unit StateStoreError) : tio (result unit StateStoreError) :=
  match r with
  | Ok _ => let* _ := debug [] "redb handle persisted" in Ret r
  | Err _ => Ret r
  end.
Definition traced_postgres_cas (scope : NonceScope) (r : result bool StateStoreError) : tio (result bool StateStoreError) :=
  match r with
  | Ok true =>
      let* _ := debug [("account", V_address (scope_account scope))] "postgres nonce committed" in Ret r
  | _ => Ret r
  end.
Definition traced_postgres_put (r : result unit StateStoreError) : tio (result unit StateStoreError) :=
  match r with
  | Ok _ => let* _ := debug [] "postgres handle persisted" in Ret r
  | Err _ => Ret r
  end.
End Telemetry.
