(* ===== verification/TelemetrySpec.v ===== *)
(** * TelemetrySpec: what the log says happened did happen

    Of the functions of [Telemetry]: without their records they are the functions the rest
    of the development is about, with the feature off they record nothing, and every event
    that says something happened is borne out by the history, in allow-listed fields. *)
From S2P Require Import Prelude Effects Primitives ModelAlloy Errors Ports Lifecycle Nonce GasOracle.
From S2P Require Import Policy Signer Signing TransactionManager Executor ExecutorSpec NoncePool Submission Store.
From S2P Require Import ModelSerde StoreSpec Gelato Facade.
From S2P Require Import Telemetry.

(** ** Transparency *)

Section Transparent.
Context {A : Alloy} (tracing : bool).

Lemma erase_try_bind {T U E} (m : tio (result T E)) (f : T -> tio (result U E)) :
  erase (try_bind m f) ≡ try_bind (erase m) (fun a => erase (f a)).
Proof using Type.
  unfold try_bind. rewrite erase_bind. f_equiv. intros []; reflexivity.
Qed.
Lemma erase_map_err {T E F} (g : E -> F) (m : tio (result T E)) : erase (map_err g m) ≡ map_err g (erase m).
Proof using Type. unfold map_err. by rewrite erase_bind. Qed.
Lemma erase_for_each {T S} (xs : list T) (s : S) (body : T -> S -> tio S) :
  erase (for_each xs s body) ≡ for_each xs s (fun x s => erase (body x s)).
Proof using Type.
  revert s. induction xs as [|x xs IH]; intros s; simpl; [reflexivity|]. rewrite erase_bind.
  f_equiv. intros s'. apply IH.
Qed.
Lemma for_each_equiv {T S} (xs : list T) (s : S) (f g : T -> S -> io S) :
  (forall x s, f x s ≡ g x s) -> for_each xs s f ≡ for_each xs s g.
Proof using Type. intros H. revert s. induction xs as [|x xs IH]; intros s; simpl; [reflexivity|]. by f_equiv. Qed.
Lemma bind_ret_r {T} (m : io T) : bind m Ret ≡ m.
Proof using Type. induction m as [a|p k IH]; [reflexivity|]. simpl. by apply prog_eq_call. Qed.
Lemma erase_emit r : erase (emit tracing r) ≡ Ret tt.
Proof using Type. unfold emit. by destruct tracing. Qed.
Lemma erase_log_transition handle prev : erase (log_transition tracing handle prev) ≡ Ret tt.
Proof using Type. unfold log_transition, info, debug. destruct (is_terminal _); apply erase_emit. Qed.
Lemma erase_log_escalation handle : erase (log_escalation tracing handle) ≡ Ret tt.
Proof using Type. unfold log_escalation, warn. destruct (escalates_after handle); [apply erase_emit|reflexivity]. Qed.
Lemma erase_instrument {T} name level fields (body : tio T) : erase (instrument tracing name level fields body) ≡ erase body.
Proof using Type. unfold instrument. by rewrite erase_bind, erase_emit. Qed.
End Transparent.

(** Compare a program without its records with the original, call by call. *)
Create HintDb erasure discriminated.
#[export] Hint Resolve erase_lift erase_emit : erasure.
Ltac erasure_step :=
  lazymatch goal with
  | |- ?m ≡ ?m => reflexivity
  | |- Ret _ ≡ Ret _ => reflexivity
  | |- erase (instrument _ _ _ _ _) ≡ _ => rewrite erase_instrument
  | |- Call _ _ ≡ Call _ _ => apply prog_eq_call; intros ?; cbn beta
  | |- bind (Ret _) _ ≡ _ => cbn [bind]
  | |- erase (Ret _) ≡ _ => cbn [erase]
  | |- erase (query _) ≡ _ => reflexivity
  | |- erase (bind (emit _ _) _) ≡ _ => rewrite erase_bind, erase_emit; cbn [bind]
  | |- erase (bind (log_transition _ _ _) _) ≡ _ => rewrite erase_bind, erase_log_transition; cbn [bind]
  | |- erase (bind (log_escalation _ _) _) ≡ _ => rewrite erase_bind, erase_log_escalation; cbn [bind]
  | |- erase (bind _ _) ≡ bind _ _ => rewrite erase_bind; apply bind_proper; [|intros ?; cbn beta]
  | |- erase (try_bind _ _) ≡ try_bind _ _ => unfold try_bind
  | |- erase (map_err _ _) ≡ map_err _ _ => unfold map_err
  | |- erase (for_each _ _ _) ≡ for_each _ _ _ => rewrite erase_for_each; apply for_each_equiv; intros ? ?
  | |- erase (match ?x with _ => _ end) ≡ match ?x with _ => _ end => destruct x eqn:?
  | |- erase (match ?x with _ => _ end) ≡ _ => destruct x eqn:?
  | |- erase ?m ≡ _ => solve [auto with erasure]
  end.
Ltac erasure := repeat erasure_step.

Section Transparent.
Context {A : Alloy} (tracing : bool).

Lemma erase_sign_encode who tx ih ap now :
  erase (traced_sign_encode tracing who tx ih ap now) ≡ sign_encode who tx ih ap now.
Proof using Type. unfold traced_sign_encode, sign_encode. erasure. Qed.
#[local] Hint Resolve erase_sign_encode : erasure.

Lemma erase_sign_message self message : erase (traced_sign_message tracing self message) ≡ tm_sign_message self message.
Proof using Type. unfold traced_sign_message, tm_sign_message. erasure. Qed.
Lemma erase_sign_typed_data self typed :
  erase (traced_sign_typed_data tracing self typed) ≡ tm_sign_typed_data self typed.
Proof using Type. unfold traced_sign_typed_data, tm_sign_typed_data. erasure. Qed.
#[local] Hint Resolve erase_sign_typed_data : erasure.

Lemma erase_build_sign_submit self intent gas fees nonce ap opts meta :
  erase (traced_build_sign_submit tracing self intent gas fees nonce ap opts meta)
    ≡ build_sign_submit self intent gas fees nonce ap opts meta.
Proof using Type. unfold traced_build_sign_submit, build_sign_submit, info, warn, error. erasure. Qed.
#[local] Hint Resolve erase_build_sign_submit : erasure.
Lemma erase_send_with_meta self intent opts meta :
  erase (traced_send_with_meta tracing self intent opts meta) ≡ send_with_meta self intent opts meta.
Proof using Type. unfold traced_send_with_meta, send_with_meta, debug. erasure. Qed.
Lemma erase_send self intent : erase (traced_send tracing self intent) ≡ send self intent.
Proof using Type. apply erase_send_with_meta. Qed.
#[local] Hint Resolve erase_send : erasure.

Lemma erase_forward_request self intent forwarder domain secs :
  erase (traced_build_and_sign_forward_request tracing self intent forwarder domain secs)
    ≡ build_and_sign_forward_request self intent forwarder domain secs.
Proof using Type. unfold traced_build_and_sign_forward_request, build_and_sign_forward_request. erasure. Qed.

Lemma erase_cancel_loop fuel self target intent ih basis ap now attempts :
  erase (traced_cancel_loop tracing self fuel target intent ih basis ap now attempts)
    ≡ cancel_loop self fuel target intent ih basis ap now attempts.
Proof using Type.
  revert basis attempts.
  induction fuel as [|fuel IH]; intros basis attempts; [reflexivity|]. cbn [traced_cancel_loop cancel_loop].
  unfold warn. erasure.
Qed.
#[local] Hint Resolve erase_cancel_loop : erasure.
Lemma erase_broadcast_cancel self target intent ih basis ap now :
  erase (traced_broadcast_cancel_with_repricing tracing self target intent ih basis ap now)
    ≡ broadcast_cancel_with_repricing self target intent ih basis ap now.
Proof using Type. unfold traced_broadcast_cancel_with_repricing, broadcast_cancel_with_repricing. erasure. Qed.
#[local] Hint Resolve erase_broadcast_cancel : erasure.
Lemma erase_cancel self id : erase (traced_cancel tracing self id) ≡ cancel self id.
Proof using Type. unfold traced_cancel, cancel, info. erasure. Qed.

Section Executor.
Context (address_display : Address -> string) (self : AccountExecutor).

Lemma erase_refill manager handle :
  erase (traced_refill_intent tracing address_display manager handle) ≡ refill_intent manager handle.
Proof using Type.
  unfold traced_refill_intent, refill_intent, debug, warn. erasure.
Qed.
#[local] Hint Resolve erase_refill : erasure.
Lemma erase_on_settled handle st :
  erase (traced_on_settled tracing address_display self handle st) ≡ on_settled self handle st.
Proof using Type. unfold traced_on_settled, on_settled. erasure. Qed.
#[local] Hint Resolve erase_on_settled : erasure.
Lemma erase_poll_task handle st :
  erase (traced_poll_task tracing address_display self handle st) ≡ poll_task self handle st.
Proof using Type.
  unfold traced_poll_task, poll_task, info, warn. erasure.
  rewrite erase_bind, erase_on_settled. etransitivity; [|apply bind_ret_r].
  f_equiv. intros st'. by rewrite erase_bind, erase_emit.
Qed.
#[local] Hint Resolve erase_poll_task : erasure.
Lemma erase_advance_on_chain handle cycle st :
  erase (traced_advance_on_chain tracing address_display self handle cycle st) ≡ advance_on_chain self handle cycle st.
Proof using Type. unfold traced_advance_on_chain, advance_on_chain. erasure. Qed.
#[local] Hint Resolve erase_advance_on_chain : erasure.
Lemma erase_advance_handle handle cycle st :
  erase (traced_advance_handle tracing address_display self handle cycle st) ≡ advance_handle self handle cycle st.
Proof using Type. unfold traced_advance_handle, advance_handle. erasure. Qed.
#[local] Hint Resolve erase_advance_handle : erasure.
Lemma erase_confirm st : erase (traced_confirm tracing address_display self st) ≡ confirm self st.
Proof using Type. unfold traced_confirm, confirm. erasure. Qed.
#[local] Hint Resolve erase_confirm : erasure.
Lemma erase_bump handle now st : erase (traced_bump tracing self handle now st) ≡ bump self handle now st.
Proof using Type. unfold traced_bump, bump, warn. cbn zeta. erasure. Qed.
#[local] Hint Resolve erase_bump : erasure.
Lemma erase_escalate st : erase (traced_escalate tracing self st) ≡ escalate self st.
Proof using Type. unfold traced_escalate, escalate. erasure. Qed.
#[local] Hint Resolve erase_escalate : erasure.
Lemma erase_tick st : erase (traced_tick tracing address_display self st) ≡ Executor.tick self st.
Proof using Type. unfold traced_tick, Executor.tick. erasure. Qed.
End Executor.
#[local] Hint Resolve erase_tick : erasure.

Lemma erase_wallet_tick address_display w st :
  erase (traced_wallet_tick tracing address_display w st) ≡ wallet_tick w st.
Proof using Type. unfold traced_wallet_tick, wallet_tick. erasure. Qed.

Lemma erase_allocate_body self account : erase (traced_allocate_body tracing self account) ≡ allocate_body self account.
Proof using Type. unfold traced_allocate_body, allocate_body, debug. erasure. Qed.
Lemma erase_reset_body self account n : erase (traced_reset_body tracing self account n) ≡ reset_body self account n.
Proof using Type. unfold traced_reset_body, reset_body, debug. erasure. Qed.
Lemma erase_gas_bump self prev : erase (traced_gas_bump tracing self prev) ≡ gas_bump self prev.
Proof using Type. unfold traced_gas_bump, gas_bump, warn. erasure. Qed.
Lemma erase_public_submit rlp opts : erase (traced_public_submit tracing rlp opts) ≡ ss_submit PublicMempool rlp opts.
Proof using Type. unfold traced_public_submit, debug. cbn [ss_submit PublicMempool]. erasure. Qed.
Lemma erase_private_submit parse display sign url body cache rlp opts :
  erase (traced_private_submit tracing parse display sign url body cache rlp opts)
    ≡ PrivateMev_submit parse display sign url body cache rlp opts.
Proof using Type.
  unfold traced_private_submit, PrivateMev_submit, traced_send_flashbots, send_flashbots, debug. erasure.
Qed.
End Transparent.

(** ** What a record may say *)

Section Reports.
Context {A : Alloy}.

(** The latest broadcast: of the transaction signed last, for intent [ih] at nonce [n]. *)
Definition latest_broadcast (tr : history) (ih : IntentHash) (n : Z) (hash : TxHash) (rlp : Bytes)
    (r : result TxHash SubmissionError) : Prop :=
  exists tx sig,
    (exists w ap now rest, signed_txs tr = (w, tx, ih, ap, now, Ok sig) :: rest) /\
    tx_nonce tx = n /\ signed_hash tx sig = hash /\ encoded_2718 tx sig = rlp /\
    exists opts rest, submits tr = (rlp, opts, r) :: rest.
Definition latest_put (tr : history) (h : TxHandle) : Prop := exists rest, puts tr = (h, Ok tt) :: rest.

(** The latest compare-and-swap of a nonce state won, writing [value]. *)
Definition ev_cas (e : Effects.event resp) : option (NonceState * result bool StateStoreError) :=
  match e with existT (CasNonceState _ _ value _) r => Some (value, r) | _ => None end.
Definition latest_cas (tr : history) (value : NonceState) : Prop :=
  exists rest, omap ev_cas tr = (value, Ok true) :: rest.

(** A replacement counts as out when it was taken, or known already. *)
Definition taken (r : result TxHash SubmissionError) : bool :=
  match r with Ok _ => true | Err e => is_already_accepted e end.

(** The executors whose log it is, and the handles they are working on. *)
Context (executors : list AccountExecutor).
Definition working_on (tr : history) (h : TxHandle) : Prop :=
  exists self, self ∈ executors /\ in_flight self tr h.
Definition displaced (tr : history) (h : TxHandle) : Prop :=
  (h, Ok tt) ∈ puts tr /\ th_status h = Replaced.

(** The status change of a confirm step, on the evidence of [ExecutorSpec]. *)
Definition status_step (tr : history) (ih : IntentHash) (prev next : TxStatus) : Prop :=
  exists self cycle h0 h, self ∈ executors /\ tracked self tr cycle h0 h /\ status_evidence self tr h /\
    th_intent_hash h = ih /\ th_status h0 = prev /\ th_status h = next.

(** The failure a send ended with is the one its latest call met. *)
Definition ev_base_fee (e : Effects.event resp) : option (result Z RpcError) :=
  match e with existT BaseFee r => Some r | _ => None end.
Definition send_failed (tr : history) (err : TransactionManagerError) : Prop :=
  match err with
  | SimulationRejected m => exists q, head tr = Some (existT (EstimateGas q) (Err (RpcError_Call m false)))
  | TM_Rpc e => exists q, head tr = Some (existT (EstimateGas q) (Err e))
  | TM_Gas e => head tr = Some (existT GasEstimate (Err e))
  | Denied rej => exists w q, head tr = Some (existT (Evaluate w q) (Ok (Deny rej)))
  | TM_Policy e => exists w q, head tr = Some (existT (Evaluate w q) (Err e))
  | TM_Nonce e => exists a, head tr = Some (existT (Allocate a) (Err e))
  | TM_Signer e => exists w tx ih ap now rest, signed_txs tr = (w, tx, ih, ap, now, Err e) :: rest
  | TM_Store e => exists h rest, puts tr = (h, Err e) :: rest
  | TM_Submission e => exists rlp opts rest, submits tr = (rlp, opts, Err e) :: rest /\ maybe_sent (Err e) = false
  | TM_Route _ | TM_AccountMismatch _ _ => True   (* decided without a call *)
  | _ => False
  end.

(** The records of the wallet.  A span opens an operation, and a broadcast is announced; every
    other event says what happened, and the history must show it when it is made. *)
Inductive reports (tr : history) : record -> Prop :=
| rep_sign ih : reports tr (span_record DEBUG "sign" [("intent_hash", V_hash ih)])
| rep_sign_message m :
    reports tr (span_record DEBUG "sign_message" [("payload_hash", V_hash (eip191_hash_message m))])
| rep_sign_typed_data h : reports tr (span_record DEBUG "sign_typed_data" [("payload_hash", V_opt_hash h)])
| rep_send i gasless :
    reports tr (span_record INFO "wallet.send"
      [("intent_hash", V_hash (TxIntent_hash i)); ("account", V_address (ti_account i));
       ("chain_id", V_int (ti_chain_id i)); ("gasless", V_bool gasless)])
| rep_gasless i f :
    reports tr (span_record DEBUG "wallet.gasless.build"
      [("intent_hash", V_hash (TxIntent_hash i)); ("account", V_address (ti_account i));
       ("forwarder", V_address f); ("chain_id", V_int (ti_chain_id i))])
| rep_cancel id : reports tr (span_record INFO "wallet.cancel" [("id", V_hash id)])
| rep_tick : reports tr (span_record DEBUG "tick" [])
| rep_wallet_tick : reports tr (span_record DEBUG "wallet.tick" [])
| rep_bump h :
    working_on tr h ->
    reports tr (span_record DEBUG "bump"
      [("intent_hash", V_hash (th_intent_hash h)); ("nonce", V_int (th_nonce h));
       ("bump_count", V_int (Z.of_nat (length (th_broadcasts h))))])
| rep_allocated n :
    (exists a rest, allocates tr = (a, Ok n) :: rest) ->
    reports tr (event_record DEBUG "nonce allocated" [("nonce", V_int n)])
| rep_submitted ih n hash rlp answer :
    latest_broadcast tr ih n hash rlp (Ok answer) ->
    reports tr (event_record INFO "transaction submitted" [("tx_hash", V_hash hash); ("nonce", V_int n)])
| rep_indeterminate ih n hash rlp e :
    latest_broadcast tr ih n hash rlp (Err e) -> maybe_sent (Err e) = true ->
    reports tr (event_record WARN "submission indeterminate; assuming sent" [("nonce", V_int n)])
| rep_rejected ih n hash rlp e :
    latest_broadcast tr ih n hash rlp (Err e) -> maybe_sent (Err e) = false ->
    (exists a r rest, releases tr = (a, n, r) :: rest) ->
    reports tr (event_record ERROR "submission rejected; nonce recycled"
      [("error", V_str (SubmissionError_to_string e)); ("nonce", V_int n)])
| rep_underpriced ih n hash rlp e :
    latest_broadcast tr ih n hash rlp (Err e) -> is_underpriced e = true ->
    reports tr (event_record WARN "cancel underpriced; re-basing over the target" [("nonce", V_int n)])
| rep_cancelled n h hash r :
    latest_put tr h -> latest_broadcast tr (th_intent_hash h) n hash (th_signed h) r -> taken r = true ->
    th_nonce h = n -> th_status h = Sent -> is_self_send (th_intent h) = true ->
    reports tr (event_record INFO "cancel submitted" [("nonce", V_int n)])
| rep_included ih h task hash :
    (exists rest, polls tr = (task, Ok (Relay_Included hash)) :: rest) -> (th_meta h ≫= mc_task) = Some task ->
    latest_put tr h -> hash ∈ th_broadcasts h -> th_intent_hash h = ih ->
    reports tr (event_record INFO "relay task included on-chain" [("intent_hash", V_hash ih)])
| rep_task_failed ih h task reason :
    (exists rest, polls tr = (task, Ok (Relay_Failed reason)) :: rest) -> (th_meta h ≫= mc_task) = Some task ->
    latest_put tr h -> th_status h = Failed reason -> th_intent_hash h = ih ->
    reports tr (event_record INFO "relay task failed" [("intent_hash", V_hash ih)])
| rep_poll_failed h task e :
    working_on tr h -> (th_meta h ≫= mc_task) = Some task -> (exists rest, polls tr = (task, Err e) :: rest) ->
    reports tr (event_record WARN "relay task poll failed; will retry"
      [("intent_hash", V_hash (th_intent_hash h)); ("error", V_str (RelayError_to_string e))])
| rep_settled ih prev next :
    is_terminal next = true -> status_step tr ih prev next ->
    reports tr (event_record INFO "transaction settled"
      [("intent_hash", V_hash ih); ("from", V_status prev); ("to", V_status next)])
| rep_advanced ih prev next :
    is_terminal next = false -> status_step tr ih prev next ->
    reports tr (event_record DEBUG "status advanced"
      [("intent_hash", V_hash ih); ("from", V_status prev); ("to", V_status next)])
| rep_refilled h n :
    displaced tr h -> (exists a rest, allocates tr = (a, Ok n) :: rest) ->
    reports tr (event_record DEBUG "intent refilled after replacement" [("nonce", V_int n)])
| rep_refill_failed h address_display err :
    displaced tr h -> send_failed tr err ->
    reports tr (event_record WARN "refill failed"
      [("error", V_str (TransactionManagerError_to_string address_display err)); ("nonce", V_int (th_nonce h))])
| rep_ceiling h :
    working_on tr h -> (exists prev c n rest, gas_bumps tr = (prev, Err (CeilingExceeded c n)) :: rest) ->
    reports tr (event_record WARN "bump halted at gas ceiling" [("intent_hash", V_hash (th_intent_hash h))])
| rep_envelope h :
    working_on tr h ->
    (exists prev f rest, gas_bumps tr = (prev, Ok f) :: rest /\
       admits (th_envelope h) (max_fee_per_gas f) (max_priority_fee_per_gas f) = false) ->
    reports tr (event_record WARN "bump halted at approval envelope" [("intent_hash", V_hash (th_intent_hash h))])
| rep_escalating h cycles :
    working_on tr h -> so_route (escalated_opts h) = Public -> so_route (th_submission h) <> Public ->
    cycles <= Z.of_nat (length (th_broadcasts h)) ->
    reports tr (event_record WARN "escalating stuck private tx to public mempool"
      [("intent_hash", V_hash (th_intent_hash h)); ("cycles", V_int cycles)])
| rep_bumped ih n h hash r :
    latest_put tr h -> latest_broadcast tr ih n hash (th_signed h) r -> taken r = true ->
    th_intent_hash h = ih -> th_nonce h = n ->
    reports tr (event_record WARN "bumped fees (RBF)" [("intent_hash", V_hash ih); ("nonce", V_int n)])
| rep_assigned v v' n :
    take_nonce v = (n, v') -> latest_cas tr v' ->
    reports tr (event_record DEBUG "nonce assigned" [("nonce", V_int n)])
| rep_reconciled v n :
    latest_cas tr (reset_state v n) ->
    reports tr (event_record DEBUG "nonce reconciled to chain" [("chain_next", V_int n)])
| rep_would_exceed prev base rest ceiling :
    omap ev_base_fee tr = Ok base :: rest ->
    let needed := Z.max (rbf (max_fee_per_gas prev))
      (saturating_add u128_max (saturating_mul u128_max base BASE_FEE_MULTIPLIER)
         (rbf (max_priority_fee_per_gas prev))) in
    ceiling < needed ->
    reports tr (event_record WARN "gas bump would exceed ceiling"
      [("needed", V_int needed); ("ceiling", V_int ceiling)])
| rep_broadcasting : reports tr (event_record DEBUG "broadcasting signed transaction" [])
| rep_flashbots : reports tr (event_record DEBUG "broadcasting via private relay" [("relay", V_str "flashbots")])
| rep_protect relay : reports tr (event_record DEBUG "broadcasting via private relay" [("relay", V_relay relay)]).

(** The fields telemetry may have, and the kind of value each holds. *)
Definition allowed_field (f : string * value) : bool :=
  let among names := existsb (String.eqb (fst f)) names in
  match snd f with
  | V_hash _ => among ["intent_hash"; "payload_hash"; "tx_hash"; "id"]
  | V_opt_hash _ => among ["payload_hash"]
  | V_int _ => among ["nonce"; "chain_id"; "bump_count"; "cycles"; "chain_next"; "needed"; "ceiling"]
  | V_address _ => among ["account"; "forwarder"]
  | V_bool _ => among ["gasless"]
  | V_status _ => among ["from"; "to"]
  | V_str _ => among ["error"; "relay"]
  | V_relay _ => among ["relay"]
  end.

End Reports.

(** ** Every record is borne out *)

(** Records only with the feature on, and only what the history shows. *)
Definition tele_guard {A : Alloy} (tracing : bool) (executors : list AccountExecutor) (tr : trace tresp) (p : tport) : Prop :=
  match p with
  | Emit r => tracing = true /\ reports executors (ports tr) r /\ forallb allowed_field (rec_fields r) = true
  | Port _ => True
  end.
Abbreviation any_answer := (any_env (R:=tresp)).

(** How a send that got to its broadcast ended is the last record. *)
Definition send_reported (tracing : bool) (tr' : trace tresp) (r : result TxHandle TransactionManagerError) : Prop :=
  match r with
  | Ok h =>
      (exists a rest, allocates (ports tr') = (a, Ok (th_nonce h)) :: rest) /\
      (tracing = true -> exists rest,
         (exists hash, records tr' = event_record INFO "transaction submitted"
             [("tx_hash", V_hash hash); ("nonce", V_int (th_nonce h))] :: rest /\ th_broadcasts h = [hash]) \/
         records tr' = event_record WARN "submission indeterminate; assuming sent"
             [("nonce", V_int (th_nonce h))] :: rest)
  | Err err => send_failed (ports tr') err /\
      match err with
      | TM_Submission e =>
          tracing = true -> exists n rest, records tr' = event_record ERROR "submission rejected; nonce recycled"
            [("error", V_str (SubmissionError_to_string e)); ("nonce", V_int n)] :: rest
      | _ => True
      end
  end.

Abbreviation sound tracing xs := (triple any_answer (tele_guard tracing xs)).

(** What was proved of the program without its records, joined to what its records say. *)
Lemma triple_post {T} (Env Env' : forall p, tresp p -> Prop) G G' (m : tio T) tr Q Q' :
  (forall p r, Env p r -> Env' p r) -> triple Env G m tr Q -> triple Env' G' m tr Q' ->
  triple Env G m tr (fun tr' a => Q tr' a /\ Q' tr' a).
Proof.
  intros HE. revert tr. induction m as [a|p k IH]; intros tr; simpl; [done|].
  intros [HG H] [_ H']. split; [done|]. intros r Hr. apply IH; auto.
Qed.

Lemma erased_post {A : Alloy} {T} tracing xs G (m : tio T) (n : io T) tr Q Q' :
  erase m ≡ n -> triple any_response G n (ports tr) Q' -> sound tracing xs m tr Q ->
  sound tracing xs m tr (fun tr' a => Q tr' a /\ Q' (ports tr') a).
Proof.
  intros E H Hs. eapply (triple_post _ (env_of any_response) _ (guard_of G)); [by intros []|exact Hs|].
  apply triple_erase. by rewrite E.
Qed.

Lemma lift_sound {A : Alloy} {T} tracing xs (m : io T) tr :
  sound tracing xs (lift m) tr (fun tr' _ => records tr' = records tr).
Proof.
  revert tr. induction m as [a|p k IH]; intros tr; simpl; [done|]. split; [done|].
  intros r _. eapply triple_mono; [|apply IH]. by intros ? ? ->.
Qed.

Lemma lift_spec {A : Alloy} {T} tracing xs G (m : io T) tr Q :
  triple any_response G m (ports tr) Q -> sound tracing xs (lift m) tr (fun tr' a => Q (ports tr') a).
Proof.
  intros H. eapply triple_mono; [|eapply erased_post; [apply erase_lift|exact H|apply lift_sound]].
  by intros tr' a [_ ?].
Qed.

Create HintDb telemetry discriminated.
#[export] Hint Extern 1 (reports _ _ _) => eassumption : telemetry.
#[export] Hint Extern 1 (working_on _ _ _) =>
  (match goal with H : ?x ∈ ?xs, W : in_flight ?x _ _ |- _ => exists x; split; [exact H|exact W] end) : telemetry.
#[export] Hint Extern 1 (_ ∈ _ ++ _) => apply elem_of_app; right; constructor : telemetry.

(** One record, by the constructor that allows it. *)
Ltac report :=
  econstructor; unfold latest_broadcast, latest_put, latest_cas;
  try solve [simpl; fill_in; repeat constructor]; simpl; fill_in; try solve [eauto];
  bool_simpl; eauto with telemetry.
Ltac tele_unfold :=
  match goal with |- triple _ (tele_guard ?t _) _ _ _ => destruct t end;
  cbv beta iota delta [instrument emit debug info warn error query traced_sign_encode try_bind map_err call].

Ltac tele_ok := once first [exact I|split; [reflexivity|split; [first [solve [report]|auto with telemetry]|reflexivity]]].

(** Run a program to its ends; [known] steps over the parts that have their own lemma. *)
Ltac step_over lemma := eapply triple_mono; [|apply lemma]; cbn beta; intros ? ? ?.
Ltac tele known :=
  wp_simpl; cbn [is_ok andb];
  lazymatch goal with
  | |- triple _ _ (Call _ _) _ _ => apply triple_call; [solve [tele_ok]|wp_resp; tele known]
  | |- triple _ _ (Ret _) _ _ => cbn [triple]; tele known
  | |- triple _ _ (lift _) _ _ => first [known|step_over @lift_sound]; tele known
  | |- triple _ _ (bind ?m ?f) _ _ =>
      tryif wp_branch (bind m f) then tele known else (apply triple_bind; tele known)
  | |- triple _ _ ?m _ _ => tryif wp_branch m then tele known else (known; tele known)
  | |- _ => idtac
  end.

Lemma send_sound {A : Alloy} tracing xs self intent opts meta tr :
  sound tracing xs (traced_send_with_meta tracing self intent opts meta) tr (send_reported tracing).
Proof.
  unfold traced_send_with_meta, traced_build_sign_submit. tele_unfold; tele ltac:(fail).
  all: unfold send_reported, send_failed; simpl; split; [by repeat eexists|].
  all: try done; intros ?; first [done|eexists; first [left; by eexists|by right|by eexists]].
Qed.

(** Signing for the caller leaves one record, the hash of the payload. *)
Definition only_span (tracing : bool) (tr : trace tresp) (name : string) (hash : value) (tr' : trace tresp) : Prop :=
  records tr' =
    if tracing then span_record DEBUG name [("payload_hash", hash)] :: records tr else records tr.

Lemma sign_message_sound {A : Alloy} tracing xs self message tr :
  sound tracing xs (traced_sign_message tracing self message) tr
    (fun tr' _ => only_span tracing tr "sign_message" (V_hash (eip191_hash_message message)) tr').
Proof. unfold traced_sign_message. tele_unfold; tele ltac:(fail); unfold only_span; simpl in *; congruence. Qed.
Lemma sign_typed_data_sound {A : Alloy} tracing xs self typed tr :
  sound tracing xs (traced_sign_typed_data tracing self typed) tr (fun tr' _ => only_span tracing tr "sign_typed_data"
    (V_opt_hash (match eip712_signing_hash typed with Ok h => Some h | Err _ => None end)) tr').
Proof. unfold traced_sign_typed_data. tele_unfold; tele ltac:(fail); unfold only_span; simpl in *; congruence. Qed.

Lemma forward_request_sound {A : Alloy} tracing xs self intent forwarder domain secs tr :
  sound tracing xs (traced_build_and_sign_forward_request tracing self intent forwarder domain secs) tr (fun _ _ => True).
Proof.
  unfold traced_build_and_sign_forward_request. tele_unfold; tele ltac:(step_over sign_typed_data_sound); done.
Qed.

(** A cancel's loop ends with a broadcast that was taken, or none. *)
Definition cancel_out {A : Alloy} (target : TxHandle) (ih : IntentHash) (tr' : trace tresp)
    (r : option (result SignedTx TransactionManagerError)) : Prop :=
  match r with
  | Some (Ok signed) =>
      exists answer, latest_broadcast (ports tr') ih (th_nonce target) (st_hash signed) (st_rlp signed) answer /\
        taken answer = true
  | _ => True
  end.

Lemma cancel_loop_sound {A : Alloy} tracing xs self fuel target intent ih basis ap now attempts tr :
  sound tracing xs (traced_cancel_loop tracing self fuel target intent ih basis ap now attempts) tr (cancel_out target ih).
Proof.
  revert basis attempts tr. induction fuel as [|fuel IH]; intros basis attempts tr; [done|].
  cbn [traced_cancel_loop]. tele_unfold; tele ltac:(step_over IH).
  all: first [done|unfold cancel_out, latest_broadcast; simpl; fill_in; done].
Qed.

Lemma cancel_reported {A : Alloy} xs target ih tr signed h :
  cancel_out target ih tr (Some (Ok signed)) ->
  th_intent h = cancel_intent target -> th_intent_hash h = ih -> th_nonce h = th_nonce target ->
  th_signed h = st_rlp signed -> th_status h = Sent ->
  reports xs (ports (existT (Port (PutHandle h)) (Ok tt) :: tr))
    (event_record INFO "cancel submitted" [("nonce", V_int (th_nonce target))]).
Proof.
  intros (answer & Hb & Ht) Hi <- Hn Hs Hst. rewrite <- Hs in Hb.
  apply (rep_cancelled _ _ _ h (st_hash signed) answer); try done; [by eexists|].
  rewrite Hi. apply cancel_intent_self_send.
Qed.

#[export] Hint Extern 1 (reports _ _ _) => eapply cancel_reported; [eassumption|reflexivity..] : telemetry.

Lemma cancel_sound {A : Alloy} tracing xs self id tr : sound tracing xs (traced_cancel tracing self id) tr (fun _ _ => True).
Proof.
  unfold traced_cancel, traced_broadcast_cancel_with_repricing.
  tele_unfold; tele ltac:(step_over cancel_loop_sound); try done.
Qed.

(** The executor. *)
Section Executor.
Context {A : Alloy} (address_display : Address -> string) (xs : list AccountExecutor).
Context (self : AccountExecutor) (Hself : self ∈ xs).

Lemma displaced_extend new tr h : displaced tr h -> displaced (new ++ tr) h.
Proof using Type. intros [Hp Hs]. split; [|done]. unfold puts. rewrite omap_app. apply elem_of_app. by right. Qed.

Lemma refill_sound tracing manager handle tr :
  displaced (ports tr) handle ->
  sound tracing xs (traced_refill_intent tracing address_display manager handle) tr (fun _ _ => True).
Proof using Type.
  intros Hd. unfold traced_refill_intent. apply triple_bind.
  eapply triple_mono; [|apply triple_extends, send_sound]. intros tr' r [Hr [new ->]].
  assert (Hd' : displaced (ports (new ++ tr)) handle) by (unfold ports; rewrite omap_app; by apply displaced_extend).
  destruct r as [h|e]; [destruct Hr as [(a & rest & Ha) _]|destruct Hr as [Hr _]]; tele_unfold; tele ltac:(fail); done.
Qed.

Lemma on_settled_sound tracing handle st tr :
  (handle, Ok tt) ∈ puts (ports tr) ->
  sound tracing xs (traced_on_settled tracing address_display self handle st) tr
    (fun tr' _ => th_status handle = Replaced \/ tr' = tr).
Proof using Type.
  intros Hp. unfold traced_on_settled.
  tele ltac:(eapply triple_mono; [|apply refill_sound; by split]; cbn beta; intros ? ? ?); auto.
Qed.

Lemma poll_task_sound tracing handle st tr :
  in_flight self (ports tr) handle ->
  sound tracing xs (traced_poll_task tracing address_display self handle st) tr (fun _ _ => True).
Proof using Hself.
  intros Hin. unfold traced_poll_task.
  tele_unfold; tele ltac:(eapply triple_mono; [|apply on_settled_sound; constructor]; intros ? ? [?| ->]; [done|]); try done.
Qed.

Lemma advance_on_chain_sound tracing handle cycle handles st tr :
  cycle_reads self cycle handles (ports tr) -> handle ∈ handles ->
  sound tracing xs (traced_advance_on_chain tracing address_display self handle cycle st) tr (fun _ _ => True).
Proof using Hself.
  intros Hcyc Hin. unfold traced_advance_on_chain. apply triple_bind.
  eapply triple_mono; [|eapply lift_spec, (event_for_spec any_call); done].
  intros tr' ev (new & E & Hnew & Hev). cbn beta.
  destruct (transition _ ev _ _) as [next|] eqn:Ht; [|done].
  assert (Hcyc' : cycle_reads self cycle handles (new ++ ports tr))
    by (eapply cycle_reads_quietly; [exact Hcyc|by apply chain_reads_quietly]).
  pose proof (transition_evidence self handle ev cycle handles next new (ports tr) Hcyc' Hin Hev Ht) as Hse.
  set (h := set_status _ handle) in *.
  assert (Hst : status_step xs (ports tr') (th_intent_hash h) (th_status handle) (th_status h)).
  { rewrite E. exists self, cycle, handle, h. split_and!; try done. by exists handles. }
  unfold log_transition. destruct (is_terminal (th_status h)) eqn:Hterm;
    [pose proof (rep_settled _ _ _ _ _ Hterm Hst) as Hrep|pose proof (rep_advanced _ _ _ _ _ Hterm Hst) as Hrep];
    clear Hst; clearbody h;
    tele_unfold; tele ltac:(eapply triple_mono; [|apply on_settled_sound; constructor]; cbn beta; intros ? ? ?); done.
Qed.

Lemma advance_handle_sound tracing handle cycle handles st tr :
  cycle_reads self cycle handles (ports tr) -> handle ∈ handles ->
  sound tracing xs (traced_advance_handle tracing address_display self handle cycle st) tr
    (fun tr' _ => cycle_reads self cycle handles (ports tr')).
Proof using Hself.
  intros Hcyc Hin.
  eapply triple_mono; [|eapply erased_post;
    [apply erase_advance_handle|by eapply advance_handle_spec|instantiate (1 := fun _ _ => True)]]; [by intros ? ? [_ ?]|].
  unfold traced_advance_handle. destruct (is_awaiting_relay handle); [|by eapply advance_on_chain_sound].
  apply poll_task_sound. destruct Hcyc as [_ _ _ [rest Hp]]. by exists handles, rest.
Qed.

Lemma confirm_sound tracing st tr :
  sound tracing xs (traced_confirm tracing address_display self st) tr (fun _ _ => True).
Proof using Hself.
  unfold traced_confirm, read_cycle. cbn [lift bind call]. wp_simpl.
  apply triple_call; [done|]. intros [latest|e] _; [|done]. cbn [lift bind call].
  apply triple_call; [done|]. intros [mined|e] _; [|done]. cbn [lift bind call].
  destruct (latest <? es_last_latest st); [done|]. cbn [lift bind call].
  apply triple_call; [done|]. intros [tag|e] _; [|done]. cbn [lift bind call].
  destruct (latest <? default 0 tag); [done|]. cbn [lift bind call]. unfold query. wp_simpl.
  apply triple_call; [done|]. intros [[]|e] _; [|done]. wp_simpl.
  apply triple_call; [done|]. intros [handles|e] _; [|done]. wp_simpl.
  set (cycle := mkExecCycle _ _ _).
  apply triple_bind. eapply triple_mono; [|apply (triple_for_each _ _ _ _ _ _
    (fun tr _ => cycle_reads self cycle handles (ports tr)))].
  - done.
  - constructor; simpl; eauto 10.
  - intros h tr' s' Hin Hc. by apply advance_handle_sound.
Qed.

Lemma escalation_reported tr handle cycles :
  in_flight self tr handle -> escalates_after handle = Some cycles ->
  reports xs tr (event_record WARN "escalating stuck private tx to public mempool"
    [("intent_hash", V_hash (th_intent_hash handle)); ("cycles", V_int cycles)]).
Proof using Hself.
  intros Hin. unfold escalates_after. pose proof (eq_refl (escalated_opts handle)) as Ho.
  unfold escalated_opts in Ho at 2. revert Ho.
  destruct (so_route (th_submission handle)) as [|route] eqn:Hr; [done|]. destruct (escalation route) as [|c]; [done|].
  destruct (c <=? _) eqn:Hc; [|done]. intros Ho [= <-].
  apply rep_escalating; [by exists self|by rewrite Ho|by rewrite Hr|lia].
Qed.
#[local] Hint Extern 1 (reports _ _ _) => (apply escalation_reported; assumption) : telemetry.

Lemma bump_approval_pending handle bumped now st tr :
  triple any_response any_call (bump_approval self handle bumped now st) tr
    (fun tr' _ => pending_reads tr' = pending_reads tr).
Proof using Type. unfold bump_approval. wp_auto ltac:(done); done. Qed.

Lemma bump_sound tracing handle now st tr :
  in_flight self (ports tr) handle ->
  sound tracing xs (traced_bump tracing self handle now st) tr (fun _ _ => True).
Proof using Hself.
  intros Hin. unfold traced_bump, log_escalation.
  tele_unfold; tele ltac:(eapply triple_mono; [|eapply lift_spec, bump_approval_pending]; cbn beta;
    let tr' := fresh "tr'" in let Hp := fresh "Hp" in intros tr' ? Hp;
    assert (in_flight self (ports tr') handle) by (unfold in_flight; rewrite Hp; exact Hin); clear Hin); done.
Qed.

Lemma escalate_sound tracing st tr : sound tracing xs (traced_escalate tracing self st) tr (fun _ _ => True).
Proof using Hself.
  unfold traced_escalate, query. wp_simpl. apply triple_call; [done|]. intros now _. wp_simpl.
  apply triple_call; [done|]. intros [handles|e] _; wp_simpl; [|done].
  set (tr1 := existT (Port (PendingHandles _)) _ :: _).
  apply triple_bind. eapply triple_mono; [|apply (triple_for_each _ _ _ _ _ _
    (fun tr _ => pending_reads (ports tr) = pending_reads (ports tr1)))]; [done|done|].
  intros h tr' s' Hin Htr. destruct (is_stuck _ now h) eqn:Hst; [|done]. apply triple_bind.
  assert (Hfl : in_flight self (ports tr') h) by (unfold in_flight; rewrite Htr; simpl; eauto).
  eapply triple_mono; [|eapply erased_post; [apply erase_bump|eapply bump_spec; [exact Hfl|]|by apply bump_sound]].
  - intros tr'' [r s''] [_ E]. cbn [triple]. by rewrite E, Htr.
  - unfold is_stuck in Hst. by destruct (th_status h).
Qed.

Lemma tick_sound tracing st tr : sound tracing xs (traced_tick tracing address_display self st) tr (fun _ _ => True).
Proof using Hself.
  unfold traced_tick. tele_unfold; tele ltac:(first [step_over confirm_sound|step_over escalate_sound]); done.
Qed.
End Executor.

(** The executors a wallet runs. *)
Definition wallet_executors (w : Wallet) : list AccountExecutor :=
  w_executor w :: match w_gasless w with Some (Backend_SelfRelay rt) => [rt_executor rt] | _ => [] end.

Lemma wallet_tick_sound {A : Alloy} tracing address_display w st tr :
  sound tracing (wallet_executors w) (traced_wallet_tick tracing address_display w st) tr (fun _ _ => True).
Proof.
  unfold traced_wallet_tick, wallet_executors.
  tele_unfold; tele ltac:(eapply triple_mono; [|apply tick_sound; repeat constructor]; cbn beta; intros ? ? ?); done.
Qed.

(** The adapters. *)
Lemma allocate_body_sound {A : Alloy} tracing xs self account tr :
  sound tracing xs (traced_allocate_body tracing self account) tr (fun _ _ => True).
Proof. unfold traced_allocate_body, cas. tele_unfold; cbn [lift bind]; tele ltac:(fail); done. Qed.
Lemma reset_body_sound {A : Alloy} tracing xs self account n tr :
  sound tracing xs (traced_reset_body tracing self account n) tr (fun _ _ => True).
Proof. unfold traced_reset_body, cas. tele_unfold; cbn [lift bind]; tele ltac:(fail); done. Qed.
Lemma gas_bump_sound {A : Alloy} tracing xs self prev tr :
  sound tracing xs (traced_gas_bump tracing self prev) tr (fun _ _ => True).
Proof. unfold traced_gas_bump. tele_unfold; tele ltac:(fail); done. Qed.
Lemma public_submit_sound {A : Alloy} tracing xs rlp opts tr :
  sound tracing xs (traced_public_submit tracing rlp opts) tr (fun _ _ => True).
Proof. unfold traced_public_submit. tele_unfold; tele ltac:(fail); done. Qed.
Lemma private_submit_sound {A : Alloy} tracing xs parse display sign url body cache rlp opts tr :
  sound tracing xs (traced_private_submit tracing parse display sign url body cache rlp opts) tr (fun _ _ => True).
Proof. unfold traced_private_submit, traced_send_flashbots. tele_unfold; tele ltac:(fail); done. Qed.

(** ** The theorems *)

(** A store's "committed" and "persisted" records are made only of writes it gives back. *)
Section Stores.
Context {A : Alloy} {J : Serde} {JL : SerdeLaws J} (tracing : bool).

(** The log of one store call: at most the one record, and only for a write of [kept]. *)
Definition store_log (tr : trace tresp) (r : record) (kept : Prop) (tr' : trace tresp) : Prop :=
  records tr' = records tr \/ (tracing = true /\ records tr' = r :: records tr /\ kept).

Lemma redb_cas_log fault scope version state fence db tr :
  let '(r, db') := redb_cas_nonce_state fault scope version state fence db in
  triple any_answer any_call (traced_redb_cas tracing scope r) tr (fun tr' r' => r' = r /\
    store_log tr (event_record DEBUG "redb nonce committed" [("account", V_address (scope_account scope))])
      (redb_load_nonce_state None scope db' = Ok (mkVersioned state (wrapping_add u64_max version 1))) tr').
Proof using JL.
  unfold store_log, redb_cas_nonce_state, redb_run. destruct fault as [e|]; [by split; [|left]|].
  destruct (match NONCE db !! _ with Some v => _ | None => _ end) as [[cv cf]|e]; [|by split; [|left]].
  destruct (fence_ltb fence cf); [by split; [|left]|]. destruct (negb _); [by split; [|left]|].
  destruct (nonce_roundtrip (wrapping_add u64_max version 1, fence, state)) as (b & -> & Hb).
  unfold traced_redb_cas, debug, emit. destruct tracing; simpl; [|by split; [|left]].
  split; [done|]. intros [] _. split; [done|]. right. split_and!; [done..|].
  unfold redb_load_nonce_state, redb_run. simpl. by rewrite lookup_insert_eq, Hb.
Qed.

Lemma redb_put_log fault h db tr :
  let '(r, db') := redb_put_handle fault h db in
  triple any_answer any_call (traced_redb_put tracing r) tr (fun tr' r' => r' = r /\
    store_log tr (event_record DEBUG "redb handle persisted" [])
      (redb_handle None (th_id h) db' = Ok (Some h)) tr').
Proof using JL.
  unfold store_log, redb_put_handle, redb_run. destruct (handle_roundtrip h) as (b & -> & Hb).
  destruct fault as [e|]; [by split; [|left]|]. unfold traced_redb_put, debug, emit.
  destruct tracing; simpl; [|by split; [|left]].
  split; [done|]. intros [] _. split; [done|]. right. split_and!; [done..|].
  unfold redb_handle, redb_run. simpl. by rewrite lookup_insert_eq, Hb.
Qed.

Lemma postgres_cas_log fault scope version state fence db tr :
  let '(r, db') := postgres_cas_nonce_state fault scope version state fence db in
  triple any_answer any_call (traced_postgres_cas tracing scope r) tr (fun tr' r' => r' = r /\
    store_log tr (event_record DEBUG "postgres nonce committed" [("account", V_address (scope_account scope))])
      (postgres_load_nonce_state None scope db'
         = Ok (mkVersioned state (i64_as_u64 (as_i64 (as_i64 version + 1))))) tr').
Proof using JL.
  unfold store_log, postgres_cas_nonce_state. destruct fault as [e|]; [by split; [|left]|].
  destruct (match nonce_state_table db !! _ with Some r => _ | None => _ end) as [cv cf].
  destruct (_ <? cf); [by split; [|left]|]. destruct (negb _); [by split; [|left]|].
  destruct (state_roundtrip state) as (b & -> & Hb).
  unfold traced_postgres_cas, debug, emit. destruct tracing; simpl; [|by split; [|left]].
  split; [done|]. intros [] _. split; [done|]. right. split_and!; [done..|].
  unfold postgres_load_nonce_state. simpl. rewrite lookup_insert_eq. cbn. by rewrite Hb.
Qed.

Lemma postgres_put_log fault h db tr :
  let '(r, db') := postgres_put_handle fault h db in
  triple any_answer any_call (traced_postgres_put tracing r) tr (fun tr' r' => r' = r /\
    store_log tr (event_record DEBUG "postgres handle persisted" [])
      (postgres_handle None (th_id h) db' = Ok (Some h)) tr').
Proof using JL.
  unfold store_log, postgres_put_handle. destruct (caps_u64 h) eqn:Hc;
    [|destruct (handle_value_wide h Hc) as [e ->]; by split; [|left]].
  destruct (handle_value_roundtrip h Hc) as (b & -> & Hb).
  destruct fault as [e|]; [by split; [|left]|]. unfold traced_postgres_put, debug, emit.
  destruct tracing; simpl; [|by split; [|left]].
  split; [done|]. intros [] _. split; [done|]. right. split_and!; [done..|].
  unfold postgres_handle. simpl. rewrite lookup_insert_eq. cbn. by rewrite Hb.
Qed.
End Stores.


Definition demo_persisted : TxHandle := demo_handle Sent.

(** A custom relay is recorded with its whole URL, path and query included, on every
    broadcast through it. *)
Theorem custom_relay_url_recorded parse display sign url_ok body cache rlp url stay tr :
  triple any_answer any_call
    (traced_private_submit true parse display sign url_ok body cache rlp
       (mkOpts (Private (Route_Protect (custom url stay))))) tr
    (fun tr' _ => event_record DEBUG "broadcasting via private relay" [("relay", V_relay (Custom url))] ∈ records tr').
Proof.
  unfold traced_private_submit. cbv beta iota delta [debug emit map_err query call].
  cbn [so_route protect_relay custom]. wp_auto ltac:(done); simpl; set_solver.
Qed.
