(* ===== verification/MoonPay.v ===== *)
(** * MoonPay: the Open Wallet Standard policy engine

    [src/src/adapters/policy/moonpay.rs]: declarative rules first, then an optional
    sandboxed executable, run by [src/src/adapters/policy/wasm.rs].  serde_json, RFC 3339
    parsing and wasmtime are parameters. *)
From Stdlib Require Import String.
From stdpp Require Import pretty.
From S2P Require Import Prelude Effects Primitives ModelAlloy Errors Ports Policy Signer.

Definition APPROVAL_TTL : Z := 300.

(** A rule of the policy document as serde reads it. *)
Inductive RawRule : Type :=
| Raw_AllowedChains (chain_ids : list string)
| Raw_ExpiresAt (timestamp : string)
| Raw_Other.

Inductive Rule : Type :=
| AllowedChains (chains : gset string)
| ExpiresAtUnix (exp : Z).

(** The decision an executable prints. *)
Record ExecDecision : Type := mkExecDecision {
  ed_allow : bool;
  ed_reason : option string;
}.

(** ** The sandbox ([wasm.rs]) *)

Definition RUN_FUEL : Z := 1000000000.
Definition MAX_MEMORY : Z := Z.shiftl 64 20.
Definition MAX_OUTPUT : Z := Z.shiftl 64 10.

(** How a guest's [_start] ends: it returns, it exits with a code ([I32Exit]), or it traps
    (fuel exhaustion included). *)
Inductive guest_end : Type :=
| Guest_Returned
| Guest_Exit (code : Z)
| Guest_Trap (display : string).

(** wasmtime, as a parameter: each step's failure, and a run of [_start] under the given
    fuel, memory cap, standard input and output cap, with what the guest printed. *)
Class Wasmtime : Type := {
  wasm_module : Type;
  engine_new : result unit string;
  module_new : Bytes -> result wasm_module string;
  add_to_linker : result unit string;
  instantiate_pre : wasm_module -> result unit string;
  set_fuel : Z -> result unit string;
  instantiate : wasm_module -> Z -> result unit string;
  get_start : wasm_module -> result unit string;
  call_start : wasm_module -> Z -> Z -> Bytes -> Z -> guest_end * Bytes;
}.

Record WasmPlugin `{Wasmtime} : Type := mkPlugin { wp_module : wasm_module }.

Section Wasm.
Context `{W : Wasmtime}.

Definition wasm_compile (wasm : Bytes) : result WasmPlugin PolicyEngineError :=
  match engine_new with
  | Err e => Err (Load e)
  | Ok _ =>
      match module_new wasm with
      | Err e => Err (Load e)
      | Ok module =>
          match add_to_linker with
          | Err e => Err (Load e)
          | Ok _ => match instantiate_pre module with Err e => Err (Load e) | Ok _ => Ok (mkPlugin _ module) end
          end
      end
  end.

Definition wasm_run (self : WasmPlugin) (input : Bytes) : result Bytes PolicyEngineError :=
  match set_fuel RUN_FUEL with
  | Err e => Err (Eval_ e)
  | Ok _ =>
      match instantiate (wp_module self) MAX_MEMORY with
      | Err e => Err (Eval_ e)
      | Ok _ =>
          match get_start (wp_module self) with
          | Err e => Err (Eval_ e)
          | Ok _ =>
              let '(ended, stdout) := call_start (wp_module self) RUN_FUEL MAX_MEMORY input MAX_OUTPUT in
              match ended with
              | Guest_Returned => Ok stdout
              | Guest_Exit code =>
                  if (code =? 0)%Z then Ok stdout
                  else Err (Eval_ ("plugin exited with code " ++ pretty code))
              | Guest_Trap display => Err (Eval_ ("plugin trapped: " ++ display))
              end
          end
      end
  end%string.

(** A run that counts: the guest ended by itself, successfully. *)
Definition ran_cleanly (self : WasmPlugin) (input stdout : Bytes) : Prop :=
  exists ended, call_start (wp_module self) RUN_FUEL MAX_MEMORY input MAX_OUTPUT = (ended, stdout) /\
    (ended = Guest_Returned \/ ended = Guest_Exit 0).

Lemma wasm_run_spec self input :
  match wasm_run self input with
  | Ok out => ran_cleanly self input out
  | Err e => exists d, e = Eval_ d
  end.
Proof.
  unfold wasm_run. destruct (set_fuel _); [|eauto]. destruct (instantiate _ _); [|eauto].
  destruct (get_start _); [|eauto]. unfold ran_cleanly.
  destruct (call_start _ _ _ _ _) as [[|code|d] out]; [eauto| |eauto].
  destruct (code =? 0) eqn:Hc; [|eauto]. bool_simpl. subst. eauto.
Qed.
End Wasm.

(** ** The policy context *)

(** [hex]: two lower-case digits per byte. *)
Definition hex (bytes : Bytes) : string := hex_of_bytes bytes.

Record MoonPayPolicyEngine `{Wasmtime} : Type := mkMoonPay {
  mp_rules : list Rule;
  mp_executable : option WasmPlugin;
}.

Definition moonpay_deny (rule : string) (field : option string) (reason : string) : Decision :=
  Deny (mkRejection rule field reason).

Definition caip2 (chain_id : Z) : string := ("eip155:" ++ pretty chain_id)%string.

Section MoonPay.
Context {A : Alloy} `{W : Wasmtime}.
(** serde_json on the policy document, on an executable's output and on the policy
    context, and RFC 3339. *)
Context (parse_doc : string -> result (list RawRule) string).
Context (parse_rfc3339 : string -> result Z string).
Context (parse_decision : Bytes -> result ExecDecision string).
Context (json_to_string : JsonValue -> string).
(** [Debug] of a string. *)
Context (string_debug : string -> string).

(** The OWS [PolicyContext] handed to the executable on stdin. *)
Definition policy_context (intent : TxIntent) (now_unix : Z) : string :=
  let to :=
    match ti_to intent with
    | TxKind_Call a => JString ("0x" ++ hex_of_bytes (Z_to_be 20 a))
    | TxKind_Create => JNull
    end in
  json_to_string (JObject
    [("chain_id", JString (caip2 (ti_chain_id intent)));
     ("transaction", JObject
        [("to", to); ("value", JString (pretty (ti_value intent)));
         ("data", JString ("0x" ++ hex (ti_input intent)))]);
     ("timestamp", JNumber now_unix)])%string.

(** Rules that do not constrain a transaction are dropped; a bad timestamp fails. *)
Fixpoint load_rules (raws : list RawRule) : result (list Rule) PolicyEngineError :=
  match raws with
  | [] => Ok []
  | raw :: raws' =>
      let rest := load_rules raws' in
      match raw with
      | Raw_AllowedChains ids =>
          match rest with Ok rules => Ok (AllowedChains (list_to_set ids) :: rules) | Err e => Err e end
      | Raw_ExpiresAt timestamp =>
          match parse_rfc3339 timestamp with
          | Err e => Err (Load ("invalid expires_at " ++ string_debug timestamp ++ ": " ++ e))
          | Ok ts => match rest with Ok rules => Ok (ExpiresAtUnix ts :: rules) | Err e => Err e end
          end
      | Raw_Other => rest
      end
  end%string.

Definition MoonPayPolicyEngine_new (policy : string) (executable : option Bytes)
  : result MoonPayPolicyEngine PolicyEngineError :=
  match parse_doc policy with
  | Err e => Err (Load ("invalid OWS policy: " ++ e)%string)
  | Ok raws =>
      match load_rules raws with
      | Err e => Err e
      | Ok rules =>
          match executable with
          | None => Ok (mkMoonPay _ rules None)
          | Some wasm =>
              match wasm_compile wasm with
              | Err e => Err e
              | Ok plugin => Ok (mkMoonPay _ rules (Some plugin))
              end
          end
      end
  end.

(** The first violated rule. *)
Fixpoint check_rules (rules : list Rule) (intent : TxIntent) (now : Z) : option Decision :=
  match rules with
  | [] => None
  | AllowedChains chains :: rules' =>
      if decide (caip2 (ti_chain_id intent) ∈ chains) then check_rules rules' intent now
      else Some (moonpay_deny "allowed_chains" (Some "chain_id")
                   ("chain " ++ caip2 (ti_chain_id intent) ++ " not allowed")%string)
  | ExpiresAtUnix exp :: rules' =>
      if exp <? now then Some (moonpay_deny "expires_at" None "authorization expired")
      else check_rules rules' intent now
  end.

(** The intent of a request the engine evaluates. *)
Definition moonpay_intent (request : SigningRequest) : option TxIntent :=
  match request with
  | Transaction i => Some i
  | Cancel i => if is_self_send i then Some i else None
  | _ => None
  end.

Definition moonpay_evaluate (self : MoonPayPolicyEngine) (request : SigningRequest)
  : io (result Decision PolicyEngineError) :=
  match moonpay_intent request with
  | None =>
      Ret (Ok (moonpay_deny "unsupported-payload" None
                 "this engine evaluates transactions and self-send cancels only"))
  | Some intent =>
      let* now := call NowUnix in
      match check_rules (mp_rules self) intent now with
      | Some denial => Ret (Ok denial)
      | None =>
          let allow :=
            let valid_until := wrapping_add u64_max (Z.max now 0) APPROVAL_TTL in
            Ret (Ok (Allow (mint (TxIntent_hash intent) GasEnvelope_DEFAULT valid_until))) in
          match mp_executable self with
          | None => allow
          | Some plugin =>
              let? out := Ret (wasm_run plugin (list_byte_of_string (policy_context intent now))) in
              match parse_decision out with
              | Err e => Ret (Err (Eval_ ("executable returned invalid decision: " ++ e)%string))
              | Ok decision =>
                  if negb (ed_allow decision)
                  then Ret (Ok (moonpay_deny "executable" None (default "denied" (ed_reason decision))))
                  else allow
              end
          end
      end
  end.

(** ** Properties *)

(** A rule the intent satisfies at [now]. *)
Definition rule_holds (intent : TxIntent) (now : Z) (r : Rule) : Prop :=
  match r with
  | AllowedChains chains => caip2 (ti_chain_id intent) ∈ chains
  | ExpiresAtUnix exp => now <= exp
  end.

Lemma check_rules_none rules intent now :
  check_rules rules intent now = None <-> Forall (rule_holds intent now) rules.
Proof.
  induction rules as [|[chains|exp] rules IH]; simpl; [done| |]; rewrite Forall_cons_iff; simpl.
  - case_decide; [rewrite IH; tauto|]. split; [done|tauto].
  - destruct (exp <? now) eqn:H; bool_simpl; [|rewrite IH; intuition lia]. split; [done|lia].
Qed.

Lemma check_rules_deny rules intent now d : check_rules rules intent now = Some d -> exists r, d = Deny r.
Proof.
  induction rules as [|[chains|exp] rules IH]; simpl; [done| |].
  - case_decide; [done|]. intros [= <-]. unfold moonpay_deny. eauto.
  - destruct (exp <? now); [|done]. intros [= <-]. unfold moonpay_deny. eauto.
Qed.

(** The executable, if there is one, allowed: it ended cleanly within its limits and printed
    a decision that allows. *)
Definition executable_allows (self : MoonPayPolicyEngine) (intent : TxIntent) (now : Z) : Prop :=
  forall plugin, mp_executable self = Some plugin ->
  exists out reason, ran_cleanly plugin (list_byte_of_string (policy_context intent now)) out /\
    parse_decision out = Ok (mkExecDecision true reason).

(** C34: when the OWS engine approves, for every clock and executable.  It approves only a
    transaction or a self-send cancel, only if every declarative rule holds at the time it
    read, and only if the executable, when there is one, ended by itself within its fuel
    and memory, with exit code zero, and printed a decision that allows; the approval is
    bound to that request.  A violated rule denies without running the executable, and an
    executable that traps, exits otherwise or prints nonsense is an error, never an
    approval. *)
Theorem moonpay_approves_only_allowed (self : MoonPayPolicyEngine) (request : SigningRequest) (tr : history) :
  triple any_response any_call (moonpay_evaluate self request) tr (fun tr' r =>
    match moonpay_intent request with
    | None => tr' = tr /\ exists rej, r = Ok (Deny rej)
    | Some intent => exists now, tr' = existT NowUnix now :: tr /\
        (~ Forall (rule_holds intent now) (mp_rules self) -> exists rej, r = Ok (Deny rej)) /\
        (forall a, r = Ok (Allow a) ->
           Forall (rule_holds intent now) (mp_rules self) /\ executable_allows self intent now /\
           signing_hash request = Ok (pa_payload_hash a) /\ pa_gas_envelope a = GasEnvelope_DEFAULT) /\
        (forall e, r = Err e -> is_Some (mp_executable self) /\ exists d, e = Eval_ d) /\
        (mp_executable self = None -> Forall (rule_holds intent now) (mp_rules self) ->
           exists a, r = Ok (Allow a))
    end).
Proof.
  assert (Hhash : forall intent, moonpay_intent request = Some intent -> signing_hash request = Ok (TxIntent_hash intent)).
  { destruct request; simpl; intros intent; [by intros [= <-]|done|done|].
    destruct (is_self_send i); [by intros [= <-]|done]. }
  unfold moonpay_evaluate, moonpay_deny, try_bind.
  destruct (moonpay_intent request) as [intent|] eqn:Hi; [|by simpl; eauto].
  specialize (Hhash intent eq_refl). wp_simpl. apply triple_call; [done|]. intros now _. wp_simpl.
  destruct (check_rules (mp_rules self) intent now) as [d|] eqn:Hc.
  { destruct (check_rules_deny _ _ _ _ Hc) as [rej ->]. cbn [triple]. exists now. split_and!; [done|eauto|done|done|].
    intros _ Hf%check_rules_none. congruence. }
  apply check_rules_none in Hc. unfold executable_allows.
  destruct (mp_executable self) as [plugin|] eqn:Hp.
  2: { cbn [triple]. exists now. split_and!; [done|done| |done|eauto]. intros a [= <-]. by split_and!. }
  set (ctx := list_byte_of_string _). pose proof (wasm_run_spec plugin ctx) as Hrun.
  destruct (wasm_run plugin ctx) as [out|e]; cbn [triple].
  2: { exists now. split_and!; try done. intros e' [= <-]. eauto. }
  destruct (parse_decision out) as [[[] reason]|e] eqn:Hd; cbn [triple negb ed_allow ed_reason].
  - exists now. split_and!; [done|done| |done|done]. intros a [= <-]. simpl. split_and!; try done.
    intros plugin' [= <-]. eauto.
  - exists now. split_and!; done.
  - exists now. split_and!; try done. intros e' [= <-]. eauto.
Qed.
End MoonPay.
