(* ===== verification/Accounts.v ===== *)
(** * Accounts: HD derivation paths, prediction and account discovery

    [src/src/core/accounts/primitives.rs] and [src/src/adapters/accounts.rs].  BIP-39 and
    BIP-32 (coins_bip39, coins_bip32), CREATE2 and the secure RNG are parameters.
    Discovery scans the seed in windows of the gap limit, one batched round trip per
    chain; it is proved to find exactly what a one-by-one BIP-44 gap scan would. *)
From stdpp Require Import pretty.
From Stdlib Require Import Sorting.Sorted.
From S2P Require Import Prelude Effects Primitives Errors Ports.

(** ** Paths *)

Inductive PathScheme : Type :=
| Bip44Standard
| LedgerLive
| Custom_path (template : string).

(** [str::replace] of a non-empty pattern: [skip] characters of a match remain. *)
Fixpoint str_replace (skip : nat) (pat rep s : string) : string :=
  match s with
  | EmptyString => EmptyString
  | String c s' =>
      match skip with
      | S skip' => str_replace skip' pat rep s'
      | O =>
          if String.prefix pat s
          then (rep ++ str_replace (String.length pat - 1) pat rep s')%string
          else String c (str_replace 0 pat rep s')
      end
  end.

Definition path_for (self : PathScheme) (index : Z) : result string AccountError :=
  match self with
  | Bip44Standard => Ok ("m/44'/60'/0'/0/" ++ pretty index)
  | LedgerLive => Ok ("m/44'/60'/" ++ pretty index ++ "'/0/0")
  | Custom_path t =>
      if str_contains "{index}" t then Ok (str_replace 0 "{index}" (pretty index) t)
      else Err (InvalidPath ("custom path template missing `{index}`: " ++ t))
  end%string.

Inductive WordCount : Type := W12 | W15 | W18 | W21 | W24.
Definition entropy_len (w : WordCount) : nat :=
  match w with W12 => 16 | W15 => 20 | W18 => 24 | W21 => 28 | W24 => 32 end.

Record Account : Type := mkAccount {
  acc_index : Z;
  acc_path : string;
  acc_address : Address;
  acc_label : option string;
}.

(** ** Counterfactual accounts *)

Record DeployData : Type := mkDeployData {
  dd_factory : Address;
  dd_factory_data : Bytes;
}.
Definition init_code (d : DeployData) : Bytes := Z_to_be 20 (dd_factory d) ++ dd_factory_data d.

Record PredictParams : Type := mkPredictParams {
  pp_factory : Address;
  pp_salt : B256;
  pp_init_code_hash : B256;
  pp_deploy : option DeployData;
}.
Record PredictedAccount : Type := mkPredicted {
  pred_address : Address;
  pred_salt : B256;
  pred_deploy : option DeployData;
  pred_is_deployed : option bool;
}.

Definition safe_salt {A : Alloy} (initializer : Bytes) (salt_nonce : U256) : B256 :=
  keccak256 (Z_to_be 32 (keccak256 initializer) ++ Z_to_be 32 salt_nonce).

Section Predict.
(** [Address::create2]. *)
Context (create2 : Address -> B256 -> B256 -> Address).

Definition predict_address (params : PredictParams) : PredictedAccount :=
  mkPredicted (create2 (pp_factory params) (pp_salt params) (pp_init_code_hash params))
    (pp_salt params) (pp_deploy params) None.
End Predict.

(** ** Discovery options and results *)

Inductive UsedPredicate : Type := NonceOnly | NonceOrBalance.

Record DiscoveryOpts : Type := mkDiscoveryOpts {
  do_schemes : list PathScheme;
  do_gap_limit : Z;
  do_max_index : Z;
  do_used : UsedPredicate;
  do_start_index : Z;
}.
Definition DiscoveryOpts_default : DiscoveryOpts := mkDiscoveryOpts [Bip44Standard] 20 256 NonceOrBalance 0.

Record DiscoveredAccounts : Type := mkDiscovered {
  dis_accounts : list Account;
  dis_scanned_to : Z;
  dis_hit_max_index : bool;
  dis_partial : bool;
}.

Definition is_used (act : AccountActivity) (pred : UsedPredicate) : bool :=
  (0 <? act_nonce act) ||
  (match pred with NonceOrBalance => true | NonceOnly => false end && negb (act_balance act =? 0)).

(** ** The account manager *)

Record AccountManager : Type := mkAccountManager {
  am_phrase : string;
  am_passphrase : option string;
  am_scheme : PathScheme;
  am_labels : gmap Z string;
}.

Definition with_passphrase (passphrase : string) (m : AccountManager) : AccountManager :=
  mkAccountManager (am_phrase m) (Some passphrase) (am_scheme m) (am_labels m).
Definition with_scheme (scheme : PathScheme) (m : AccountManager) : AccountManager :=
  mkAccountManager (am_phrase m) (am_passphrase m) scheme (am_labels m).
Definition set_label (index : Z) (name : string) (m : AccountManager) : AccountManager :=
  mkAccountManager (am_phrase m) (am_passphrase m) (am_scheme m) (<[index := name]> (am_labels m)).

(** One derived entry of a window. *)
Record entry : Type := mkEntry {
  en_index : Z;
  en_path : string;
  en_address : Address;
}.

(** The loop variables of a scan: [found] in address order, [scanned_to] and
    [consecutive_unused]. *)
Record scan_state : Type := mkScan {
  sc_found : list Account;
  sc_scanned_to : Z;
  sc_unused : Z;
}.

(** [found.entry(address).or_insert(account)] on a [BTreeMap] keyed by address. *)
Fixpoint or_insert (a : Account) (found : list Account) : list Account :=
  match found with
  | [] => [a]
  | b :: found' =>
      if acc_address a <? acc_address b then a :: found
      else if acc_address a =? acc_address b then found
      else b :: or_insert a found'
  end.

(** [sort_by_key(|a| a.index)]: stable. *)
Fixpoint insert_by_index (a : Account) (l : list Account) : list Account :=
  match l with
  | [] => [a]
  | b :: l' => if acc_index a <=? acc_index b then a :: l else b :: insert_by_index a l'
  end.
Definition sort_by_index (l : list Account) : list Account := foldr insert_by_index [] l.

(** [used[k] = true] for the entries of one batch that count as used; [None] when the
    batch is longer than the window (an index panic). *)
Fixpoint mark_used (pred : UsedPredicate) (activity : list AccountActivity) (used : list bool)
  : option (list bool) :=
  match activity, used with
  | [], _ => Some used
  | act :: activity', u :: used' =>
      used'' ← mark_used pred activity' used'; Some ((u || is_used act pred) :: used'')
  | act :: activity', [] => if is_used act pred then None else mark_used pred activity' []
  end.

Section Discover.
(** Mnemonic validation and address derivation at a path. *)
Context (mnemonic_valid : string -> bool).
Context (derive_key_address : string -> string -> option string -> result Address string).
Context (self : AccountManager).

Definition address_at_path (path : string) : result Address AccountError :=
  if negb (mnemonic_valid (am_phrase self)) then Err InvalidPhrase
  else map_res_err Derivation (derive_key_address (am_phrase self) path (am_passphrase self)).

Definition account_at_path (path : string) : result Account AccountError :=
  match address_at_path path with
  | Ok address => Ok (mkAccount 0 path address None)
  | Err e => Err e
  end.

Definition account (index : Z) : result Account AccountError :=
  match path_for (am_scheme self) index with
  | Err e => Err e
  | Ok path =>
      match address_at_path path with
      | Err e => Err e
      | Ok address => Ok (mkAccount index path address (am_labels self !! index))
      end
  end.

Definition derive_entry (scheme : PathScheme) (x : Z) : result entry AccountError :=
  let idx := x mod 2 ^ 32 in
  match path_for scheme idx with
  | Err e => Err e
  | Ok path =>
      match address_at_path path with
      | Err e => Err e
      | Ok address => Ok (mkEntry idx path address)
      end
  end.

(** [for x in i..end]: the first derivation error stops it. *)
Fixpoint derive_window (scheme : PathScheme) (xs : list Z) : result (list entry) AccountError :=
  match xs with
  | [] => Ok []
  | x :: xs' =>
      match derive_entry scheme x with
      | Err e => Err e
      | Ok en =>
          match derive_window scheme xs' with
          | Err e => Err e
          | Ok ens => Ok (en :: ens)
          end
      end
  end.

(** One batch per chain: the union of used entries and whether a chain failed. *)
Definition read_window (pred : UsedPredicate) (chains : list nat) (addrs : list Address) (partial : bool)
  : io (option (list bool) * bool) :=
  for_each chains (Some (replicate (length addrs) false), partial) (fun chain '(used, partial) =>
    match used with
    | None => Ret (None, partial)
    | Some used =>
        let* r := call (GetAccountActivity chain addrs) in
        match r with
        | Ok activity => Ret (mark_used pred activity used, partial)
        | Err _ => Ret (Some used, true)
        end
    end).

(** The entries of a window in order; [true] when the gap limit ended the scheme. *)
Fixpoint scan_entries (gap : Z) (ens : list entry) (used : list bool) (s : scan_state)
  : scan_state * bool :=
  match ens, used with
  | en :: ens', u :: used' =>
      let scanned := Z.max (sc_scanned_to s) (en_index en) in
      if (u : bool) then
        let a := mkAccount (en_index en) (en_path en) (en_address en) (am_labels self !! en_index en) in
        scan_entries gap ens' used' (mkScan (or_insert a (sc_found s)) scanned 0)
      else
        let unused := sc_unused s + 1 in
        if gap <=? unused then (mkScan (sc_found s) scanned unused, true)
        else scan_entries gap ens' used' (mkScan (sc_found s) scanned unused)
  | _, _ => (s, false)
  end.

(** [while i < max_index]; the last component says whether the bound ended the scan.
    [None]: a panic (an overlong batch, or [i + window] past [usize]), or [fuel] windows
    were not enough. *)
Fixpoint scan_scheme (fuel : nat) (opts : DiscoveryOpts) (chains : list nat) (scheme : PathScheme)
    (i : Z) (s : scan_state) (partial : bool)
  : io (option (result (scan_state * bool * bool) AccountError)) :=
  match fuel with
  | O => Ret None
  | S fuel' =>
      if i <? do_max_index opts then
        let window := Z.max (do_gap_limit opts) 1 in
        let end_ := Z.min (wrapping_add u64_max i window) (do_max_index opts) in
        if end_ <? i then Ret None
        else
          match derive_window scheme (seqZ i (end_ - i)) with
          | Err e => Ret (Some (Err e))
          | Ok entries =>
              let* (used, partial) := read_window (do_used opts) chains (map en_address entries) partial in
              match used with
              | None => Ret None
              | Some used =>
                  let '(s, stopped) := scan_entries (do_gap_limit opts) entries used s in
                  if stopped then Ret (Some (Ok (s, false, partial)))
                  else if end_ =? do_max_index opts then Ret (Some (Ok (s, true, partial)))
                  else scan_scheme fuel' opts chains scheme end_ s partial
              end
          end
      else Ret (Some (Ok (s, false, partial)))
  end.

(** The schemes in turn; [found], [scanned_to] and the flags persist, the unused counter
    restarts. *)
Fixpoint scan_schemes (opts : DiscoveryOpts) (chains : list nat) (schemes : list PathScheme)
    (s : scan_state) (hit partial : bool)
  : io (option (result (scan_state * bool * bool) AccountError)) :=
  match schemes with
  | [] => Ret (Some (Ok (s, hit, partial)))
  | scheme :: schemes' =>
      let fuel := S (Z.to_nat (do_max_index opts - do_start_index opts)) in
      let* r := scan_scheme fuel opts chains scheme (do_start_index opts)
                  (mkScan (sc_found s) (sc_scanned_to s) 0) partial in
      match r with
      | None => Ret None
      | Some (Err e) => Ret (Some (Err e))
      | Some (Ok (s, hit', partial)) => scan_schemes opts chains schemes' s (hit || hit') partial
      end
  end.

Definition discover (chains : list nat) (opts : DiscoveryOpts)
  : io (option (result DiscoveredAccounts AccountError)) :=
  let* r := scan_schemes opts chains (do_schemes opts) (mkScan [] 0 0) false false in
  Ret match r with
      | None => None
      | Some (Err e) => Some (Err e)
      | Some (Ok (s, hit, partial)) =>
          Some (Ok (mkDiscovered (sort_by_index (sc_found s)) (sc_scanned_to s) hit partial))
      end.
End Discover.

(** ** The gap scan, declaratively *)

(** Index [i] is probed when no full gap of unused indices lies between the start and it. *)
Definition reached (used : Z -> bool) (start gap i : Z) : Prop :=
  forall j, start <= j -> j + Z.max gap 1 <= i -> exists k, j <= k < j + Z.max gap 1 /\ used k = true.

Lemma reached_mono used start gap i i' : reached used start gap i' -> i <= i' -> reached used start gap i.
Proof. intros H ? j ? ?. apply H; lia. Qed.

(** ** Ordered collections *)

Definition by_address (a b : Account) : Prop := acc_address a < acc_address b.
Definition by_index (a b : Account) : Prop := acc_index a <= acc_index b.

Lemma or_insert_elem a b l : b ∈ or_insert a l -> b = a \/ b ∈ l.
Proof.
  induction l as [|c l IH]; simpl; [rewrite list_elem_of_singleton; auto|].
  repeat case_match; rewrite ?elem_of_cons; intuition.
Qed.

Lemma or_insert_keep a b l : b ∈ l -> b ∈ or_insert a l.
Proof.
  induction l as [|c l IH]; simpl; [by intros ?%not_elem_of_nil|].
  repeat case_match; rewrite ?elem_of_cons; intuition.
Qed.

Lemma or_insert_address a l : exists b, b ∈ or_insert a l /\ acc_address b = acc_address a.
Proof.
  induction l as [|c l (b & Hb & ?)]; simpl; [exists a; by rewrite list_elem_of_singleton|].
  repeat case_match; bool_simpl.
  - exists a. by rewrite elem_of_cons; auto.
  - exists c. rewrite elem_of_cons. auto.
  - exists b. rewrite elem_of_cons. auto.
Qed.

Lemma or_insert_sorted a l : StronglySorted by_address l -> StronglySorted by_address (or_insert a l).
Proof.
  induction 1 as [|c l Hl IH Hc]; simpl; [by repeat constructor|].
  repeat case_match; bool_simpl.
  - constructor; [by constructor|]. constructor; [done|].
    eapply list.Forall_impl; [done|]. intros b Hb. unfold by_address in *. lia.
  - by constructor.
  - constructor; [done|]. apply list.Forall_forall. intros b [->|Hb]%or_insert_elem.
    + unfold by_address. lia.
    + by eapply list.Forall_forall in Hc.
Qed.

Lemma by_address_NoDup l : StronglySorted by_address l -> NoDup (map acc_address l).
Proof.
  induction 1 as [|c l Hl IH Hc]; simpl; constructor; [|done].
  intros (b & ? & Hb)%list_elem_of_fmap. eapply list.Forall_forall in Hc; [|done]. unfold by_address in Hc. lia.
Qed.

Lemma insert_by_index_perm a l : insert_by_index a l ≡ₚ a :: l.
Proof.
  induction l as [|b l IH]; simpl; [done|]. case_match; [done|]. rewrite IH. constructor.
Qed.

Lemma sort_by_index_perm l : sort_by_index l ≡ₚ l.
Proof. induction l as [|a l IH]; simpl; [done|]. by rewrite insert_by_index_perm, IH. Qed.

Lemma insert_by_index_sorted a l : StronglySorted by_index l -> StronglySorted by_index (insert_by_index a l).
Proof.
  induction 1 as [|b l Hl IH Hb]; simpl; [by repeat constructor|]. case_match; bool_simpl.
  - constructor; [by constructor|]. constructor; [done|].
    eapply list.Forall_impl; [done|]. intros c Hc. unfold by_index in *. lia.
  - constructor; [done|]. rewrite insert_by_index_perm. constructor; [unfold by_index; lia|done].
Qed.

Lemma sort_by_index_sorted l : StronglySorted by_index (sort_by_index l).
Proof. induction l; simpl; [constructor|]. by apply insert_by_index_sorted. Qed.

(** ** One scheme's scan

    The entries and the used marks are functions of the index: [ent] and [used]. *)
Section Scan.
Context (self : AccountManager) (ent : Z -> entry) (used : Z -> bool).
Context (start gap : Z) (found0 : list Account) (scanned0 : Z).

Definition account_of (i : Z) : Account :=
  mkAccount (en_index (ent i)) (en_path (ent i)) (en_address (ent i)) (am_labels self !! en_index (ent i)).

(** [s] has recorded exactly the used indices of [start, i). *)
Record covers (i : Z) (s : scan_state) : Prop := {
  cov_sorted : StronglySorted by_address (sc_found s);
  cov_sound : forall a, a ∈ sc_found s -> a ∈ found0 \/ exists j, start <= j < i /\ used j = true /\ a = account_of j;
  cov_keep : forall a, a ∈ found0 -> a ∈ sc_found s;
  cov_complete : forall j, start <= j < i -> used j = true ->
    exists a, a ∈ sc_found s /\ acc_address a = en_address (ent j);
}.

(** Still scanning at [i]: no gap so far, and the counter is the current run of unused. *)
Record scanning (i : Z) (s : scan_state) : Prop := {
  scan_covers : covers i s;
  scan_reached : reached used start gap i;
  scan_run : 0 <= sc_unused s /\ start <= i - sc_unused s;
  scan_run_unused : forall k, i - sc_unused s <= k < i -> used k = false;
  scan_run_start : i - sc_unused s = start \/ used (i - sc_unused s - 1) = true;
}.

(** Ended by the gap just before [e]: nothing from [e] on is reached. *)
Record gap_ended (e : Z) (s : scan_state) : Prop := {
  ended_covers : covers e s;
  ended_reached : reached used start gap (e - 1);
  ended_run : start <= e - Z.max gap 1;
  ended_run_unused : forall k, e - Z.max gap 1 <= k < e -> used k = false;
}.

Lemma covers_used i s scanned :
  covers i s -> start <= i -> used i = true ->
  covers (i + 1) (mkScan (or_insert (account_of i) (sc_found s)) scanned 0).
Proof.
  intros [Hs Ha Hk Hc] Hi Hu. split; simpl.
  - by apply or_insert_sorted.
  - intros a [->|Hin]%or_insert_elem; [right; exists i; split_and!; done || lia|].
    destruct (Ha a Hin) as [?|(j & ? & ? & ?)]; [by left|right; exists j; split_and!; done || lia].
  - intros a ?. by apply or_insert_keep, Hk.
  - intros j Hj Huj. destruct (decide (j = i)) as [->|].
    + apply or_insert_address.
    + destruct (Hc j) as (a & ? & ?); [lia|done|]. exists a. split; [by apply or_insert_keep|done].
Qed.

Lemma covers_unused i s scanned unused :
  covers i s -> used i = false -> covers (i + 1) (mkScan (sc_found s) scanned unused).
Proof.
  intros [Hs Ha Hk Hc] Hu. split; simpl; [done| |done|].
  - intros a Hin. destruct (Ha a Hin) as [?|(j & ? & ? & ?)]; [by left|right; exists j; split_and!; done || lia].
  - intros j Hj Huj. apply Hc; [|done]. destruct (decide (j = i)) as [->|]; [congruence|lia].
Qed.

(** A run shorter than the gap keeps the next index reached. *)
Lemma reached_step i r :
  reached used start gap i -> (i - r = start \/ used (i - r - 1) = true) -> 0 <= r -> r + 1 < Z.max gap 1 ->
  reached used start gap (i + 1).
Proof.
  intros Hr Hst H0 Hlt j Hj Hle.
  destruct (decide (j + Z.max gap 1 <= i)) as [?|?]; [by apply Hr|].
  destruct Hst as [Hst|Hst]; [lia|]. exists (i - r - 1). split; [lia|done].
Qed.

Lemma scanning_used i s scanned :
  scanning i s -> start <= i -> used i = true ->
  scanning (i + 1) (mkScan (or_insert (account_of i) (sc_found s)) scanned 0).
Proof.
  intros [Hc Hr Hrun Hun Hst] Hi Hu. split; simpl; [by apply covers_used| |lia|lia|].
  - intros j Hj Hle. destruct (decide (j + Z.max gap 1 <= i)); [by apply Hr|].
    exists i. split; [lia|done].
  - right. by replace (i + 1 - 0 - 1) with i by lia.
Qed.

Lemma scanning_unused i s scanned :
  scanning i s -> start <= i -> used i = false -> sc_unused s + 1 < gap ->
  scanning (i + 1) (mkScan (sc_found s) scanned (sc_unused s + 1)).
Proof.
  intros [Hc Hr Hrun Hun Hst] Hi Hu Hlt. split; simpl; [by apply covers_unused| |lia| |].
  - apply (reached_step i (sc_unused s)); try done; lia.
  - intros k Hk. destruct (decide (k = i)) as [->|]; [done|apply Hun; lia].
  - replace (i + 1 - (sc_unused s + 1)) with (i - sc_unused s) by lia. done.
Qed.

Lemma scanning_gap i s scanned :
  scanning i s -> start <= i -> used i = false -> gap <= sc_unused s + 1 ->
  gap_ended (i + 1) (mkScan (sc_found s) scanned (sc_unused s + 1)).
Proof.
  intros [Hc Hr Hrun Hun Hst] Hi Hu Hle.
  split; simpl; [by apply covers_unused| |lia|].
  - by replace (i + 1 - 1) with i by lia.
  - intros k Hk. destruct (decide (k = i)) as [->|]; [done|apply Hun; lia].
Qed.

Lemma scan_entries_spec n i s :
  scanning i s -> start <= i ->
  let '(s', stopped) := scan_entries self gap (map ent (seqZ i (Z.of_nat n))) (map used (seqZ i (Z.of_nat n))) s in
  if stopped then exists e, i < e <= i + Z.of_nat n /\ gap_ended e s' else scanning (i + Z.of_nat n) s'.
Proof.
  revert i s. induction n as [|n IH]; intros i s Hs Hi.
  { rewrite Z.add_0_r. done. }
  rewrite seqZ_cons by lia. replace (Z.pred (Z.of_nat (S n))) with (Z.of_nat n) by lia.
  replace (Z.succ i) with (i + 1) by lia. cbn [map scan_entries].
  destruct (used i) eqn:Hu.
  - specialize (IH (i + 1) _ (scanning_used i s (Z.max (sc_scanned_to s) (en_index (ent i))) Hs Hi Hu) ltac:(lia)).
    unfold account_of in IH. destruct (scan_entries _ _ _ _ _) as [s' []].
    + destruct IH as (e & ? & ?). exists e. split; [lia|done].
    + by replace (i + Z.of_nat (S n)) with (i + 1 + Z.of_nat n) by lia.
  - destruct (gap <=? sc_unused s + 1) eqn:Hg; bool_simpl.
    + exists (i + 1). split; [lia|]. by apply scanning_gap.
    + specialize (IH (i + 1) _ (scanning_unused i s (Z.max (sc_scanned_to s) (en_index (ent i))) Hs Hi Hu ltac:(lia)) ltac:(lia)).
      destruct (scan_entries _ _ _ _ _) as [s' []].
      * destruct IH as (e & ? & ?). exists e. split; [lia|done].
      * by replace (i + Z.of_nat (S n)) with (i + 1 + Z.of_nat n) by lia.
Qed.
End Scan.

(** ** Discovery against chains that answer *)

(** What a chain's batch answers: aligned one to one with the accounts asked for, or an
    error from a chain that is down; an empty batch makes no round trip. *)
Definition activity_env (live : nat -> bool) (act : nat -> Address -> AccountActivity) (p : port)
  : resp p -> Prop :=
  match p return resp p -> Prop with
  | GetAccountActivity chain accounts => fun r =>
      if live chain || bool_decide (accounts = []) then r = Ok (map (act chain) accounts)
      else is_err r = true
  | _ => fun _ => True
  end.

Section Discovery.
Context (mnemonic_valid : string -> bool).
Context (derive_key_address : string -> string -> option string -> result Address string).
Context (self : AccountManager) (opts : DiscoveryOpts) (chains : list nat).
Context (live : nat -> bool) (act : nat -> Address -> AccountActivity).
Context (ent : PathScheme -> Z -> entry).

Abbreviation start := (do_start_index opts).
Abbreviation max_index := (do_max_index opts).
Abbreviation gap := (do_gap_limit opts).

(** An address is used when some live chain shows activity. *)
Definition used_address (a : Address) : bool :=
  existsb (fun chain => live chain && is_used (act chain a) (do_used opts)) chains.
Definition used_index (scheme : PathScheme) (i : Z) : bool := used_address (en_address (ent scheme i)).
Definition some_chain_down : bool := existsb (fun chain => negb (live chain)) chains.

Lemma mark_used_map {T} (f : T -> AccountActivity) (g : T -> bool) (xs : list T) :
  mark_used (do_used opts) (map f xs) (map g xs) = Some (map (fun x => g x || is_used (f x) (do_used opts)) xs).
Proof. induction xs as [|x xs IH]; simpl; [done|]. by rewrite IH. Qed.

Lemma read_window_spec (addrs : list Address) (partial : bool) tr :
  addrs <> [] ->
  triple (activity_env live act) any_call (read_window (do_used opts) chains addrs partial) tr
    (fun _ r => r = (Some (map used_address addrs), partial || some_chain_down)).
Proof.
  intros Hne. unfold read_window, used_address, some_chain_down.
  replace (replicate (length addrs) false) with (map (fun _ : Address => false) addrs)
    by (clear Hne; induction addrs; simpl; congruence).
  assert (Hgen : forall cs (u : Address -> bool) partial tr,
    triple (activity_env live act) any_call
      (for_each cs (Some (map u addrs), partial) (fun chain '(used, partial) =>
        match used with
        | None => Ret (None, partial)
        | Some used =>
            let* r := call (GetAccountActivity chain addrs) in
            match r with
            | Ok activity => Ret (mark_used (do_used opts) activity used, partial)
            | Err _ => Ret (Some used, true)
            end
        end)) tr
      (fun _ r => r = (Some (map (fun a => u a || existsb (fun c => live c && is_used (act c a) (do_used opts)) cs) addrs),
                       partial || existsb (fun c => negb (live c)) cs))).
  { induction cs as [|c cs IH]; intros u partial' tr'; cbn [for_each existsb].
    - cbn [triple]. f_equal; [f_equal; apply map_ext; intros; by rewrite orb_false_r|by rewrite orb_false_r].
    - wp_simpl. apply triple_call; [done|]. intros r Hr. simpl in Hr.
      rewrite (bool_decide_false _ Hne), orb_false_r in Hr. destruct (live c) eqn:Hl.
      + subst r. wp_simpl. rewrite mark_used_map. cbn [bind].
        eapply triple_mono; [|apply IH]. intros tr'' r ->. f_equal. f_equal. apply map_ext.
        intros a. cbn [negb andb]. by rewrite orb_assoc.
      + destruct r as [|e]; [done|]. wp_simpl.
        eapply triple_mono; [|apply IH]. intros tr'' r ->. simpl. by rewrite orb_true_r. }
  eapply triple_mono; [|apply Hgen]. intros tr' r ->. done.
Qed.

(** Every index of the range derives, and window ends fit [usize]. *)
Context (Hderive : forall scheme x, scheme ∈ do_schemes opts -> start <= x < max_index ->
  derive_entry mnemonic_valid derive_key_address self scheme x = Ok (ent scheme x)).
Context (Hstart : 0 <= start) (Hgap : 0 <= gap) (Hwide : max_index + Z.max gap 1 <= u64_max).

Lemma derive_window_spec scheme xs :
  scheme ∈ do_schemes opts -> (forall x, x ∈ xs -> start <= x < max_index) ->
  derive_window mnemonic_valid derive_key_address self scheme xs = Ok (map (ent scheme) xs).
Proof using Hderive.
  intros Hin. induction xs as [|x xs IH]; intros Hxs; simpl; [done|].
  rewrite Hderive; [|done|apply Hxs; constructor]. rewrite IH; [done|].
  intros y Hy. apply Hxs. by constructor.
Qed.

(** The outcome of one scheme's scan: it ended at some [e], having recorded exactly the
    used indices before it, and the indices before [e] are those a gap scan reaches. *)
Definition scheme_done (scheme : PathScheme) (found0 : list Account) (s : scan_state) (hit : bool) : Prop :=
  exists e, covers self (ent scheme) (used_index scheme) start found0 e s /\
    (forall i, start <= i < max_index -> reached (used_index scheme) start gap i <-> i < e) /\
    (forall i, i < e -> start <= i -> i < max_index) /\
    (hit = true <-> start < max_index /\ reached (used_index scheme) start gap max_index).

Lemma gap_ended_done scheme found0 e s :
  start < e <= max_index ->
  gap_ended self (ent scheme) (used_index scheme) start gap found0 e s ->
  scheme_done scheme found0 s false.
Proof.
  intros He [Hc Hr Hrun Hun]. exists e.
  assert (Hnot : forall i, e <= i -> ~ reached (used_index scheme) start gap i).
  { intros i Hi H. destruct (H (e - Z.max gap 1)) as (k & Hk & Hu); [lia..|].
    rewrite Hun in Hu; [done|lia]. }
  split_and!; [done| |lia|].
  - intros i Hi. split.
    + intros H. destruct (decide (i < e)); [done|]. exfalso. apply (Hnot i); [lia|done].
    + intros Hlt. eapply reached_mono; [done|lia].
  - split; [done|]. intros [_ H]. exfalso. apply (Hnot max_index); [lia|done].
Qed.

Lemma scanning_done scheme found0 s :
  start < max_index ->
  scanning self (ent scheme) (used_index scheme) start gap found0 max_index s ->
  scheme_done scheme found0 s true.
Proof.
  intros Hlt [Hc Hr _ _ _]. exists max_index. split_and!; [done| |lia|done].
  intros i Hi. split; [lia|]. intros _. eapply reached_mono; [done|lia].
Qed.

Lemma scan_scheme_spec fuel scheme found0 i s partial tr :
  scheme ∈ do_schemes opts ->
  scanning self (ent scheme) (used_index scheme) start gap found0 i s ->
  start <= i -> i < max_index \/ i = start -> Z.max 0 (max_index - i) < Z.of_nat fuel ->
  triple (activity_env live act) any_call
    (scan_scheme mnemonic_valid derive_key_address self fuel opts chains scheme i s partial) tr
    (fun _ r => exists s' hit, scheme_done scheme found0 s' hit /\
       r = Some (Ok (s', hit, partial || (some_chain_down && (i <? max_index))))).
Proof.
  intros Hin. revert i s partial tr.
  induction fuel as [|fuel IH]; intros i s partial tr Hs Hi Hor Hfuel; [lia|cbn [scan_scheme]].
  destruct (i <? max_index) eqn:Hlt; bool_simpl.
  2: { cbn [triple]. exists s, false. rewrite andb_false_r, orb_false_r. split; [|done].
    exists i. destruct Hor as [?| ->]; [lia|]. destruct Hs as [Hc Hr _ _ _].
    split_and!; [done|lia|lia|split; [done|lia]]. }
  rewrite andb_true_r. unfold wrapping_add. rewrite Z.mod_small by lia.
  set (e := Z.min _ _). assert (He : i < e <= max_index) by lia.
  assert (Hei : (e <? i) = false) by (apply Z.ltb_ge; lia). rewrite Hei.
  rewrite derive_window_spec; [|done|intros x Hx%elem_of_seqZ; lia].
  apply triple_bind. eapply triple_mono; [|apply read_window_spec].
  2: { destruct (Z.to_nat (e - i)) eqn:Hn; [lia|]. unfold seqZ. by rewrite Hn. }
  intros tr' r ->. rewrite !map_map.
  pose proof (scan_entries_spec self (ent scheme) (used_index scheme) start gap found0 (Z.to_nat (e - i)) i s Hs Hi) as Hscan.
  rewrite Z2Nat.id in Hscan by lia. replace (i + (e - i)) with e in Hscan by lia.
  change (map (fun x => used_address (en_address (ent scheme x)))) with (map (used_index scheme)).
  destruct (scan_entries _ _ _ _ _) as [s' []].
  - destruct Hscan as (e' & He' & Hend). cbn [triple]. exists s', false. split; [|done].
    apply (gap_ended_done _ _ e'); [lia|done].
  - destruct (e =? max_index) eqn:Hmax; bool_simpl.
    + cbn [triple]. exists s', true. split; [|done]. apply scanning_done; [lia|]. by rewrite <- Hmax.
    + eapply triple_mono; [|apply IH; [done|lia|left; lia|lia]].
      intros tr'' r (s'' & hit & Hdone & ->). exists s'', hit. split; [done|].
      assert (Hl : (e <? max_index) = true) by (apply Z.ltb_lt; lia). rewrite Hl, andb_true_r.
      by destruct partial, some_chain_down.
Qed.

(** A used index a gap scan of the scheme reaches. *)
Definition discoverable (scheme : PathScheme) (i : Z) : Prop :=
  start <= i < max_index /\ reached (used_index scheme) start gap i /\ used_index scheme i = true.

(** What scanning a list of schemes adds to [found0]. *)
Record schemes_done (schemes : list PathScheme) (found0 found : list Account) : Prop := {
  sd_sorted : StronglySorted by_address found;
  sd_sound : forall a, a ∈ found -> a ∈ found0 \/
    exists scheme i, scheme ∈ schemes /\ discoverable scheme i /\ a = account_of self (ent scheme) i;
  sd_keep : forall a, a ∈ found0 -> a ∈ found;
  sd_complete : forall scheme i, scheme ∈ schemes -> discoverable scheme i ->
    exists a, a ∈ found /\ acc_address a = en_address (ent scheme i);
}.

Lemma schemes_done_cons scheme schemes found0 s hit found :
  scheme_done scheme found0 s hit -> schemes_done schemes (sc_found s) found ->
  schemes_done (scheme :: schemes) found0 found.
Proof.
  intros (e & [_ Ha Hk Hc] & He & Hin & _) [Hs Ha' Hk' Hc']. split; [done| |auto|].
  - intros a [Hf|(sc & i & ? & ? & ?)]%Ha'; [|right; exists sc, i; by rewrite elem_of_cons; auto].
    destruct (Ha a Hf) as [?|(j & Hj & Hu & ->)]; [by left|]. right. exists scheme, j.
    rewrite elem_of_cons. split_and!; [auto| |done].
    assert (j < max_index) by (apply Hin; lia). split_and!; try done; try lia. apply He; lia.
  - intros sc i [->|Hsc]%elem_of_cons [Hi [Hr Hu]]; [|by apply (Hc' sc)].
    destruct (Hc i) as (a & ? & ?); [|done|eauto]. split; [lia|]. by apply He.
Qed.

Lemma scan_schemes_spec schemes s hit partial tr :
  (forall scheme, scheme ∈ schemes -> scheme ∈ do_schemes opts) ->
  StronglySorted by_address (sc_found s) ->
  triple (activity_env live act) any_call
    (scan_schemes mnemonic_valid derive_key_address self opts chains schemes s hit partial) tr
    (fun _ r => exists s' hit', schemes_done schemes (sc_found s) (sc_found s') /\
       (hit' = true <-> hit = true \/ exists scheme, scheme ∈ schemes /\ start < max_index /\
          reached (used_index scheme) start gap max_index) /\
       r = Some (Ok (s', hit', partial ||
             (some_chain_down && (start <? max_index) && negb (bool_decide (schemes = [])))))).
Proof.
  revert s hit partial tr.
  induction schemes as [|scheme schemes IH]; intros s hit partial tr Hsub Hs; cbn [scan_schemes].
  { cbn [triple]. exists s, hit. split_and!.
    - split; [done|auto|auto|]. by intros ? ? ?%not_elem_of_nil.
    - split; [auto|]. intros [?|(? & ?%not_elem_of_nil & _)]; done.
    - by rewrite andb_false_r, orb_false_r. }
  apply triple_bind. eapply triple_mono; [|apply (scan_scheme_spec _ _ (sc_found s))].
  - intros tr' r (s1 & hit1 & Hdone & ->). pose proof Hdone as (e & [Hs1 _ _ _] & _ & _ & Hhit).
    eapply triple_mono; [|apply IH; [|done]].
    2: { intros sc ?. apply Hsub. by constructor. }
    intros tr'' r (s2 & hit2 & Hall & Hhit2 & ->). exists s2, hit2. split_and!.
    + by eapply schemes_done_cons.
    + rewrite Hhit2, orb_true_iff, Hhit. setoid_rewrite elem_of_cons. naive_solver.
    + do 3 f_equal. destruct schemes; cbn [bool_decide negb]; destruct partial, some_chain_down, (start <? max_index); done.
  - apply Hsub. constructor.
  - split; [|intros j ? ?; lia|simpl; lia|simpl; lia|simpl; left; lia].
    split; simpl; [done|auto|auto|lia].
  - lia.
  - by right.
  - lia.
Qed.

(** What a one-by-one gap scan of each scheme reports: exactly the accounts at used
    indices no full gap precedes, once per address, in index order; [hit_max_index] says
    that some scheme's scan reached the bound; [partial] that a chain was down and asked. *)
Definition gap_scan_result (d : DiscoveredAccounts) : Prop :=
  (forall a, a ∈ dis_accounts d ->
     exists scheme i, scheme ∈ do_schemes opts /\ discoverable scheme i /\ a = account_of self (ent scheme) i) /\
  (forall scheme i, scheme ∈ do_schemes opts -> discoverable scheme i ->
     exists a, a ∈ dis_accounts d /\ acc_address a = en_address (ent scheme i)) /\
  NoDup (map acc_address (dis_accounts d)) /\ StronglySorted by_index (dis_accounts d) /\
  (dis_hit_max_index d = true <-> exists scheme, scheme ∈ do_schemes opts /\ start < max_index /\
     reached (used_index scheme) start gap max_index) /\
  (dis_partial d = true <-> some_chain_down = true /\ start < max_index /\ do_schemes opts <> []).

(** Windowed discovery finds exactly what the gap scan would, over chains whose batches
    align with the accounts asked for (or fail): it terminates without panicking. *)
Lemma discover_is_gap_scan (tr : history) :
  triple (activity_env live act) any_call (discover mnemonic_valid derive_key_address self chains opts) tr
    (fun _ r => exists d, r = Some (Ok d) /\ gap_scan_result d).
Proof using Hderive Hgap Hstart Hwide.
  unfold discover. apply triple_bind. eapply triple_mono; [|apply scan_schemes_spec; [done|constructor]].
  intros tr' r (s & hit & [Hs Ha _ Hc] & Hhit & ->). cbn [triple]. eexists. split; [reflexivity|]. unfold gap_scan_result.
  cbn [dis_accounts dis_hit_max_index dis_partial]. split_and!.
  - intros a. rewrite sort_by_index_perm. intros [?%not_elem_of_nil|?]%Ha; done.
  - intros scheme i ? ?. destruct (Hc scheme i) as (a & ? & ?); [done..|]. exists a. by rewrite sort_by_index_perm.
  - rewrite sort_by_index_perm. by apply by_address_NoDup.
  - apply sort_by_index_sorted.
  - rewrite Hhit. naive_solver.
  - rewrite orb_false_l, !andb_true_iff, Z.ltb_lt, negb_true_iff, bool_decide_eq_false. tauto.
Qed.
End Discovery.

(** Keys at indices 0 and 2 used, gap limit 2, one chain: the scan stops after index 4. *)
Definition demo_manager : AccountManager := mkAccountManager "phrase" None Bip44Standard (<[2 := "savings"]> ∅).
Definition demo_derive (_ path : string) (_ : option string) : result Address string :=
  Ok (Zpos (encode path)).
Definition demo_entry (scheme : PathScheme) (x : Z) : entry :=
  match derive_entry (fun _ => true) demo_derive demo_manager scheme x with
  | Ok en => en
  | Err _ => mkEntry 0 EmptyString 0
  end.
Definition demo_activity (_ : nat) (a : Address) : AccountActivity :=
  mkActivity (if existsb (fun i => a =? en_address (demo_entry Bip44Standard i)) [0; 2; 9] then 1 else 0) 0.
Definition demo_discovery : DiscoveryOpts := mkDiscoveryOpts [Bip44Standard] 2 256 NonceOrBalance 0.
