(* ===== verification/Transport.v ===== *)
(** * Transport: the [Rpc] adapter over an alloy provider

    [src/src/adapters/transport/mod.rs].  alloy's provider is a parameter: its JSON-RPC
    requests are calls of a second signature, which may answer anything of their type.
    Each method of the [Rpc] port is a program over those calls; [transport_impl] puts
    them together, so that programs over ports run over the node. *)
From S2P Require Import Prelude Effects Primitives ModelAlloy Errors Ports Signer TransactionManager Accounts.

(** alloy's [RpcError<TransportErrorKind>], with what the adapter asks of a value: its
    [Display], the revert data of an error response, [is_retry_err] of a transport kind. *)
Inductive TransportError : Type :=
| TE_ErrorResp (display : string) (revert_data : option Bytes)
| TE_Transport (display : string) (is_retry_err : bool)
| TE_Local (display : string).

#[export] Instance TransportError_eq_dec : EqDecision TransportError.
Proof. solve_decision. Defined.

Definition TransportError_to_string (e : TransportError) : string :=
  match e with TE_ErrorResp d _ | TE_Transport d _ | TE_Local d => d end.
(** [e.as_error_resp().and_then(|resp| resp.as_revert_data())]. *)
Definition revert_data_of (e : TransportError) : option Bytes :=
  match e with TE_ErrorResp _ data => data | _ => None end.

(** The header fields the adapter reads. *)
Record Block : Type := mkBlock {
  blk_number : Z;
  blk_hash : B256;
  blk_base_fee_per_gas : option Z;
}.

Inductive BlockTag : Type :=
| Tag_Latest
| Tag_Pending
| Tag_Finalized
| Tag_Number (number : Z).

(** ** The provider *)

Inductive provider : Type :=
| GetTransactionCount (account : Address) (tag : BlockTag)
| GetBlockNumber
| GetBlock (id : BlockTag)
| EstimateEip1559Fees
| ProviderEstimateGas (request : TransactionRequest)
| ProviderCall (request : TransactionRequest)
| ProviderCreateAccessList (request : TransactionRequest)
| SendRawTransaction (rlp : Bytes)
| GetTransactionReceipt (tx : TxHash)
(* BatchRequest: add a call, send the batch, await the answer to one of its calls *)
| BatchAdd (method : string) (account : Address)
| BatchSend
| BatchAwait (method : string) (account : Address).

Definition provider_resp (c : provider) : Type :=
  match c with
  | GetTransactionCount _ _ | GetBlockNumber | ProviderEstimateGas _ => result Z TransportError
  | GetBlock _ => result (option Block) TransportError
  | EstimateEip1559Fees => result Eip1559Estimation TransportError
  | ProviderCall _ => result Bytes TransportError
  | ProviderCreateAccessList _ => result AccessList TransportError
  | SendRawTransaction _ => result TxHash TransportError
  | GetTransactionReceipt _ => result (option TransactionReceipt) TransportError
  | BatchAdd _ _ | BatchSend => result unit TransportError
  | BatchAwait _ _ => result U256 TransportError
  end.

(** A call of the provider of one chain, or of a port the transport does not serve. *)
Inductive wire_call : Type :=
| OnChain (chain : nat) (c : provider)
| OffChain (p : port).
Definition wire_resp (w : wire_call) : Type :=
  match w with OnChain _ c => provider_resp c | OffChain p => resp p end.
Abbreviation net := (prog wire_resp).
Abbreviation net_history := (trace wire_resp).

(** ** The adapter *)

(** Only a transport-level failure alloy would retry is transient. *)
Definition rpc_err (e : TransportError) : RpcError :=
  RpcError_Call (TransportError_to_string e) (match e with TE_Transport _ retry => retry | _ => false end).

(** The future a batched call resolves: the answer to its own request. *)
Record Waiter : Type := mkWaiter { wt_method : string; wt_account : Address }.

Section Transport.
Context (chain : nat).

Definition ask (c : provider) : net (provider_resp c) := call (R:=wire_resp) (OnChain chain c).

Definition transport_pending_nonce (account : Address) : net (result Z RpcError) :=
  map_err rpc_err (ask (GetTransactionCount account Tag_Pending)).
Definition transport_tx_count (account : Address) : net (result Z RpcError) :=
  map_err rpc_err (ask (GetTransactionCount account Tag_Latest)).
Definition transport_block_number : net (result Z RpcError) := map_err rpc_err (ask GetBlockNumber).
Definition transport_finalized_block : net (result (option Z) RpcError) :=
  let? block := map_err rpc_err (ask (GetBlock Tag_Finalized)) in Ret (Ok (blk_number <$> block)).
Definition transport_block_hash (number : Z) : net (result (option B256) RpcError) :=
  let? block := map_err rpc_err (ask (GetBlock (Tag_Number number))) in Ret (Ok (blk_hash <$> block)).
Definition transport_estimate_fees : net (result Eip1559Estimation RpcError) :=
  map_err rpc_err (ask EstimateEip1559Fees).
Definition transport_base_fee : net (result Z RpcError) :=
  let? block := map_err rpc_err (ask (GetBlock Tag_Latest)) in
  Ret match block with
      | None => Err (RpcError_Call "latest block unavailable" true)
      | Some block => Ok (default 0 (blk_base_fee_per_gas block))
      end.
Definition transport_estimate_gas (request : TransactionRequest) : net (result Z RpcError) :=
  map_err rpc_err (ask (ProviderEstimateGas request)).
Definition transport_call (request : TransactionRequest) : net (result Simulated RpcError) :=
  let* r := ask (ProviderCall request) in
  Ret match r with
      | Ok data => Ok (Returned data)
      | Err e => match revert_data_of e with Some revert => Ok (Reverted_ revert) | None => Err (rpc_err e) end
      end.
Definition transport_create_access_list (request : TransactionRequest) : net (result AccessList RpcError) :=
  map_err rpc_err (ask (ProviderCreateAccessList request)).
Definition transport_send_raw (rlp : Bytes) : net (result TxHash RpcError) :=
  map_err rpc_err (ask (SendRawTransaction rlp)).
Definition transport_receipt (tx : TxHash) : net (result (option TransactionReceipt) RpcError) :=
  map_err rpc_err (ask (GetTransactionReceipt tx)).

Definition add_call (method : string) (account : Address) : net (result Waiter RpcError) :=
  let? _ := map_err rpc_err (ask (BatchAdd method account)) in Ret (Ok (mkWaiter method account)).
Definition await_waiter (w : Waiter) : net (result U256 RpcError) :=
  map_err rpc_err (ask (BatchAwait (wt_method w) (wt_account w))).

(** [for &account in accounts]: two calls per account join the batch. *)
Fixpoint batch_add (accounts : list Address) : net (result (list (Waiter * Waiter)) RpcError) :=
  match accounts with
  | [] => Ret (Ok [])
  | account :: rest =>
      let? nonce := add_call "eth_getTransactionCount" account in
      let? balance := add_call "eth_getBalance" account in
      let? waiters := batch_add rest in
      Ret (Ok ((nonce, balance) :: waiters))
  end.

(** [for (nonce, balance) in waiters]: await both answers. *)
Fixpoint batch_await (waiters : list (Waiter * Waiter)) : net (result (list AccountActivity) RpcError) :=
  match waiters with
  | [] => Ret (Ok [])
  | (nonce, balance) :: rest =>
      let? n := await_waiter nonce in
      let? b := await_waiter balance in
      let? out := batch_await rest in
      Ret (Ok (mkActivity (saturating_to u64_max n) b :: out))
  end.

Definition transport_account_activity (accounts : list Address) : net (result (list AccountActivity) RpcError) :=
  match accounts with
  | [] => Ret (Ok [])
  | _ =>
      let? waiters := batch_add accounts in
      let? _ := map_err rpc_err (ask BatchSend) in
      batch_await waiters
  end.
End Transport.

(** The [Rpc] port served by a transport: chain 0 is the wallet's own. *)
Definition transport_impl (p : port) : net (resp p) :=
  match p return net (resp p) with
  | PendingNonce account => transport_pending_nonce 0 account
  | TxCount account => transport_tx_count 0 account
  | BlockNumber => transport_block_number 0
  | FinalizedBlock => transport_finalized_block 0
  | BlockHash number => transport_block_hash 0 number
  | EstimateFees => transport_estimate_fees 0
  | BaseFee => transport_base_fee 0
  | EstimateGas request => transport_estimate_gas 0 request
  | EthCall request => transport_call 0 request
  | CreateAccessList request => transport_create_access_list 0 request
  | SendRaw rlp => transport_send_raw 0 rlp
  | Receipt tx => transport_receipt 0 tx
  | GetAccountActivity chain accounts => transport_account_activity chain accounts
  | q => call (R:=wire_resp) (OffChain q)
  end.

(** ** Error classification *)

(** The error a port answer carries, for the ports a transport serves. *)
Definition rpc_error_of (p : port) : resp p -> option RpcError :=
  match p return resp p -> option RpcError with
  | PendingNonce _ | TxCount _ | BlockNumber | BaseFee | EstimateGas _ =>
      fun r => match r with Err e => Some e | Ok _ => None end
  | FinalizedBlock => fun r => match r with Err e => Some e | Ok _ => None end
  | BlockHash _ => fun r => match r with Err e => Some e | Ok _ => None end
  | EstimateFees => fun r => match r with Err e => Some e | Ok _ => None end
  | EthCall _ => fun r => match r with Err e => Some e | Ok _ => None end
  | CreateAccessList _ => fun r => match r with Err e => Some e | Ok _ => None end
  | SendRaw _ => fun r => match r with Err e => Some e | Ok _ => None end
  | Receipt _ => fun r => match r with Err e => Some e | Ok _ => None end
  | GetAccountActivity _ _ => fun r => match r with Err e => Some e | Ok _ => None end
  | _ => fun _ => None
  end.

(** The error a provider answer carries. *)
Definition provider_error (e : event wire_resp) : option TransportError :=
  match e with
  | existT (OnChain _ (GetTransactionCount _ _ | GetBlockNumber | ProviderEstimateGas _)) (Err e) => Some e
  | existT (OnChain _ (GetBlock _)) (Err e) => Some e
  | existT (OnChain _ EstimateEip1559Fees) (Err e) => Some e
  | existT (OnChain _ (ProviderCall _)) (Err e) => Some e
  | existT (OnChain _ (ProviderCreateAccessList _)) (Err e) => Some e
  | existT (OnChain _ (SendRawTransaction _)) (Err e) => Some e
  | existT (OnChain _ (GetTransactionReceipt _)) (Err e) => Some e
  | existT (OnChain _ (BatchAdd _ _ | BatchSend)) (Err e) => Some e
  | existT (OnChain _ (BatchAwait _ _)) (Err e) => Some e
  | _ => None
  end.

(** Why a transport call failed: the last provider answer was an error, mapped by
    [rpc_err]; or the provider answered that it has no latest block. *)
Definition no_latest_block (tr : net_history) : Prop :=
  exists chain, head tr = Some (existT (OnChain chain (GetBlock Tag_Latest)) (Ok None)).
Definition failure_cause (p : port) (tr : net_history) (e : RpcError) : Prop :=
  (exists te, head tr ≫= provider_error = Some te /\ e = rpc_err te /\
     (forall q, p = EthCall q -> revert_data_of te = None)) \/
  (p = BaseFee /\ no_latest_block tr /\ e = RpcError_Call "latest block unavailable" true).

Lemma rpc_err_kind te :
  rpc_kind (rpc_err te) = match te with TE_Transport _ true => Retryable | _ => Terminal end.
Proof. by destruct te as [| ? []|]. Qed.

(** The last provider answer was the error [e] was mapped from. *)
Definition provider_failed (tr : net_history) (e : RpcError) : Prop :=
  exists te, head tr ≫= provider_error = Some te /\ e = rpc_err te.

(** The calls a batch makes for a list of accounts. *)
Definition waiters_of (accounts : list Address) : list (Waiter * Waiter) :=
  map (fun a => (mkWaiter "eth_getTransactionCount" a, mkWaiter "eth_getBalance" a)) accounts.

Ltac transport_unfold := unfold add_call, await_waiter, ask, map_err, try_bind.

Lemma batch_add_spec chain accounts tr :
  triple any_env any_call (batch_add chain accounts) tr (fun tr' r =>
    match r with Ok ws => ws = waiters_of accounts | Err e => provider_failed tr' e end).
Proof.
  revert tr. induction accounts as [|a accounts IH]; intros tr; cbn [batch_add]; [done|].
  transport_unfold. wp_simpl.
  apply triple_call; [done|]. intros [[]|te] _; wp_simpl; [|by exists te].
  apply triple_call; [done|]. intros [[]|te] _; wp_simpl; [|by exists te].
  apply triple_bind. eapply triple_mono; [|apply IH]. intros tr' [ws|e] H; [by subst|done].
Qed.

Lemma batch_await_spec chain waiters tr :
  triple any_env any_call (batch_await chain waiters) tr (fun tr' r =>
    match r with Ok out => length out = length waiters | Err e => provider_failed tr' e end).
Proof.
  revert tr. induction waiters as [|[n b] waiters IH]; intros tr; cbn [batch_await]; [done|].
  transport_unfold. wp_simpl.
  apply triple_call; [done|]. intros [r1|te] _; wp_simpl; [|by exists te].
  apply triple_call; [done|]. intros [r2|te] _; wp_simpl; [|by exists te].
  apply triple_bind. eapply triple_mono; [|apply IH]. intros tr' [out|e] H; [simpl; by rewrite H|done].
Qed.

Lemma account_activity_spec chain accounts tr :
  triple any_env any_call (transport_account_activity chain accounts) tr (fun tr' r =>
    match r with Ok out => length out = length accounts | Err e => provider_failed tr' e end).
Proof.
  destruct accounts as [|a accounts]; [done|]. unfold transport_account_activity, try_bind at 1.
  apply triple_bind. eapply triple_mono; [|apply batch_add_spec].
  intros tr1 [ws|e] H; [subst ws|done]. transport_unfold. wp_simpl.
  apply triple_call; [done|]. intros [[]|te] _; wp_simpl; [|by exists te].
  eapply triple_mono; [|apply batch_await_spec]. intros tr2 [out|e] H; [|done].
  rewrite H. unfold waiters_of. by rewrite length_map.
Qed.

(** A failure of [p] and how it is classified. *)
Definition failure_classified (p : port) (tr : net_history) (e : RpcError) : Prop :=
  failure_cause p tr e /\
  (rpc_kind e = Retryable <->
   (p = BaseFee /\ no_latest_block tr) \/
   exists d, head tr ≫= provider_error = Some (TE_Transport d true)).

Lemma failure_from_provider p tr te :
  head tr ≫= provider_error = Some te -> (forall q, p = EthCall q -> revert_data_of te = None) ->
  failure_classified p tr (rpc_err te).
Proof.
  intros Hte Hrev. split; [left; by exists te|]. rewrite rpc_err_kind, Hte. split.
  - destruct te as [| d []|]; try done. eauto.
  - intros [[_ [chain E]]|[d [= ->]]]; [|done]. by rewrite E in Hte.
Qed.

(** C33: every failure the transport reports has one of two causes: the provider's last
    answer was an error, kept in its message and classified retryable exactly when it is a
    transport fault alloy would retry (a JSON-RPC error is terminal, and one with revert
    data never fails a simulation); or the base fee was asked for and the provider answered
    the latest block with none, which is retryable. *)
Theorem transport_failures_classified (p : port) (tr : net_history) :
  triple any_env any_call (transport_impl p) tr
    (fun tr' r => forall e, rpc_error_of p r = Some e -> failure_classified p tr' e).
Proof.
  assert (Hfail : forall tr' e, provider_failed tr' e -> (forall q, p <> EthCall q) ->
    failure_classified p tr' e).
  { intros tr' e (te & Hte & ->) Hp. apply failure_from_provider; [done|]. intros q ->. by destruct (Hp q). }
  destruct p; cbn [transport_impl]; try (eapply triple_mono; [|apply triple_any]; done).
  all: try (unfold transport_pending_nonce, transport_tx_count, transport_block_number,
    transport_finalized_block, transport_block_hash, transport_estimate_fees, transport_estimate_gas,
    transport_create_access_list, transport_send_raw, transport_receipt; transport_unfold;
    wp_auto ltac:(done); intros e0 [= <-]; apply Hfail; [by eexists|done]).
  - unfold transport_base_fee. transport_unfold. wp_simpl. apply triple_call; [done|].
    intros [[b|]|te] _; simpl; intros e [= <-].
    + split; [right; split_and!; [done|by eexists|done]|].
      simpl. split; [intros _; left; split; [done|by eexists]|done].
    + apply Hfail; [by eexists|done].
  - unfold transport_call. transport_unfold. wp_simpl. apply triple_call; [done|].
    intros [data|te] _; simpl; [done|]. destruct (revert_data_of te) eqn:Hr; [done|].
    intros e [= <-]. by apply failure_from_provider.
  - eapply triple_mono; [|apply account_activity_spec]. intros tr' [out|e] H; [done|].
    intros e' [= <-]. by apply Hfail.
Qed.

(** ** Discovery over the transport *)

(** Providers that answer each batched call for the account it names; a chain that is down
    fails the round trip. *)
Definition provider_env (live : nat -> bool) (count balance : nat -> Address -> U256) (w : wire_call)
  : wire_resp w -> Prop :=
  match w return wire_resp w -> Prop with
  | OnChain _ (BatchAdd _ _) => fun r => r = Ok tt
  | OnChain chain BatchSend => fun r => if live chain then r = Ok tt else is_err r = true
  | OnChain chain (BatchAwait method account) => fun r =>
      r = Ok (if String.eqb method "eth_getTransactionCount" then count chain account else balance chain account)
  | _ => fun _ => True
  end.

Section Activity.
Context (live : nat -> bool) (count balance : nat -> Address -> U256).

Definition activity_of (chain : nat) (account : Address) : AccountActivity :=
  mkActivity (saturating_to u64_max (count chain account)) (balance chain account).

Lemma batch_add_ok chain accounts tr :
  triple (provider_env live count balance) any_call (batch_add chain accounts) tr
    (fun _ r => r = Ok (waiters_of accounts)).
Proof.
  revert tr. induction accounts as [|a accounts IH]; intros tr; cbn [batch_add]; [done|].
  transport_unfold. wp_simpl. apply triple_call; [done|]. intros r ->. wp_simpl.
  apply triple_call; [done|]. intros r ->. wp_simpl. apply triple_bind.
  eapply triple_mono; [|apply IH]. by intros tr' r ->.
Qed.

Lemma batch_await_ok chain accounts tr :
  triple (provider_env live count balance) any_call (batch_await chain (waiters_of accounts)) tr
    (fun _ r => r = Ok (map (activity_of chain) accounts)).
Proof.
  revert tr. induction accounts as [|a accounts IH]; intros tr; [done|].
  change (waiters_of (a :: accounts)) with
    ((mkWaiter "eth_getTransactionCount" a, mkWaiter "eth_getBalance" a) :: waiters_of accounts).
  cbn [batch_await]. transport_unfold. wp_simpl.
  apply triple_call; [done|]. intros r ->. wp_simpl.
  apply triple_call; [done|]. intros r ->. wp_simpl. apply triple_bind.
  eapply triple_mono; [|apply IH]. by intros tr' r ->.
Qed.

(** The transport meets what discovery assumes of a chain. *)
Lemma transport_meets_activity p trl :
  triple (provider_env live count balance) any_call (transport_impl p) trl
    (fun _ r => activity_env live activity_of p r).
Proof.
  destruct p; try (eapply triple_mono; [|eapply triple_env_mono; [|apply triple_any]]; done).
  cbn [transport_impl activity_env]. destruct accounts as [|a accounts].
  { rewrite bool_decide_true by done. rewrite orb_true_r. done. }
  rewrite bool_decide_false by done. rewrite orb_false_r.
  unfold transport_account_activity, try_bind at 1. apply triple_bind.
  eapply triple_mono; [|apply batch_add_ok]. intros tr1 r ->. transport_unfold. wp_simpl.
  apply triple_call; [done|]. intros r Hr. simpl in Hr. destruct (live chain).
  - subst r. wp_simpl. apply batch_await_ok.
  - by destruct r.
Qed.
End Activity.

(** C32: discovery over the real transport finds exactly what a one-by-one gap scan of each
    scheme would.  Each window is one batch whose answers are matched with the accounts
    asked for; over providers that answer batched calls for the account they name (or
    whose round trip fails) it terminates without panicking and reports exactly the
    accounts at used indices no full gap precedes, once per address, in index order;
    [hit_max_index] says that some scheme's scan reached the bound, and [partial] is set
    exactly when a chain was down and asked. *)
Theorem wired_discover_is_gap_scan (mnemonic_valid : string -> bool)
    (derive_key_address : string -> string -> option string -> result Address string)
    (self : AccountManager) (opts : DiscoveryOpts) (chains : list nat)
    (live : nat -> bool) (count balance : nat -> Address -> U256)
    (ent : PathScheme -> Z -> entry) (trl : net_history) :
  (forall scheme x, scheme ∈ do_schemes opts -> do_start_index opts <= x < do_max_index opts ->
     derive_entry mnemonic_valid derive_key_address self scheme x = Ok (ent scheme x)) ->
  0 <= do_start_index opts -> 0 <= do_gap_limit opts ->
  do_max_index opts + Z.max (do_gap_limit opts) 1 <= u64_max ->
  triple (provider_env live count balance) any_call
    (interp transport_impl (discover mnemonic_valid derive_key_address self chains opts) []) trl
    (fun _ x => exists d, fst x = Some (Ok d) /\
       gap_scan_result self opts chains live (activity_of count balance) ent d).
Proof.
  intros Hd Hs Hg Hw.
  apply (interp_sound transport_impl (activity_env live (activity_of count balance)) _ any_call _ []
    (fun _ r => exists d, r = Some (Ok d) /\
       gap_scan_result self opts chains live (activity_of count balance) ent d)).
  - intros p tr. apply transport_meets_activity.
  - by apply (discover_is_gap_scan mnemonic_valid derive_key_address).
Qed.

(** One chain on which the demo entries 0, 2 and 9 have sent a transaction. *)
Definition demo_provider (w : wire_call) : wire_resp w :=
  match w return wire_resp w with
  | OnChain c (BatchAwait m a) =>
      Ok (if String.eqb m "eth_getTransactionCount" then act_nonce (demo_activity c a) else 0)
  | OnChain _ (BatchAdd _ _) => Ok tt
  | OnChain _ BatchSend => Ok tt
  | OnChain _ (GetTransactionCount _ _ | GetBlockNumber | ProviderEstimateGas _) => Err (TE_Local "offline")
  | OnChain _ (GetBlock _) => Err (TE_Local "offline")
  | OnChain _ EstimateEip1559Fees => Err (TE_Local "offline")
  | OnChain _ (ProviderCall _) => Err (TE_Local "offline")
  | OnChain _ (ProviderCreateAccessList _) => Err (TE_Local "offline")
  | OnChain _ (SendRawTransaction _) => Err (TE_Local "offline")
  | OnChain _ (GetTransactionReceipt _) => Err (TE_Local "offline")
  | OffChain p => offline p
  end.
Definition run_net {T} (h : forall w, wire_resp w) (m : net T) : T :=
  fst (fst (run (fun w (s : unit) => (h w, s)) m tt [])).
Definition demo_wired : net (option (result DiscoveredAccounts AccountError) * history) :=
  interp transport_impl (discover (fun _ => true) demo_derive demo_manager [0%nat] demo_discovery) [].

Lemma wired_discover_is_gap_scan_witness :
  exists d, fst (run_net demo_provider demo_wired) = Some (Ok d) /\
    map acc_index (dis_accounts d) = [0; 2] /\ map acc_label (dis_accounts d) = [None; Some "savings"] /\
    dis_scanned_to d = 4 /\ NoDup (map acc_address (dis_accounts d)).
Proof.
  assert (Hd : forall scheme x, scheme ∈ do_schemes demo_discovery -> (0 <= x < 256)%Z ->
    derive_entry (fun _ => true) demo_derive demo_manager scheme x = Ok (demo_entry scheme x)).
  { intros scheme x ->%list_elem_of_singleton _. reflexivity. }
  assert (H0 : (0 <= 0)%Z) by lia. assert (H2 : (0 <= 2)%Z) by lia.
  assert (Hw : (256 + Z.max 2 1 <= u64_max)%Z) by (vm_compute; discriminate).
  assert (He : forall w (s : unit), provider_env (fun _ => true) (fun c a => act_nonce (demo_activity c a))
    (fun _ _ => 0) w (fst (demo_provider w, s))) by (by intros [? []|?] ?).
  pose proof (triple_run (fun w (s : unit) => (demo_provider w, s)) _ _ _ tt [] _ He I
    (wired_discover_is_gap_scan (fun _ => true) demo_derive demo_manager demo_discovery [0%nat] (fun _ => true)
       (fun c a => act_nonce (demo_activity c a)) (fun _ _ => 0) demo_entry [] Hd H0 H2 Hw)) as H.
  assert (Hx : exists d', fst (run_net demo_provider demo_wired) = Some (Ok d') /\
    map acc_index (dis_accounts d') = [0; 2] /\ map acc_label (dis_accounts d') = [None; Some "savings"] /\
    dis_scanned_to d' = 4) by (eexists; split_and!; vm_compute; reflexivity).
  destruct Hx as (d' & Hx0 & ? & ? & ?). pose proof Hx0 as Hx. unfold run_net, demo_wired in Hx.
  destruct (run _ _ _ _) as [[a s] tr']. destruct H as [(d & Hd' & _ & _ & Hnd & _) _].
  exists d'. simpl in Hx. rewrite Hx in Hd'. injection Hd' as <-. split_and!; assumption.
Defined.
