(* ===== verification/TransportBuild.v ===== *)
(** * TransportBuild: assembling a transport

    [src/src/adapters/transport/build.rs] (the builder, the declarative config) and
    [src/src/adapters/transport/chains.rs] (the registry of public endpoints, vendor
    URLs).  reqwest's client, its header types, [Url::parse] and serde_json are
    parameters; a built transport is the stack of layers the builder hands to alloy. *)
From Stdlib Require Import Ascii.
From stdpp Require Import pretty.
From S2P Require Import Prelude Effects Primitives Errors Ports.

Definition DEFAULT_RETRY_MAX : Z := 5.
Definition DEFAULT_RETRY_BACKOFF_MS : Z := 200.
Definition RETRY_CUPS : Z := 100000.
Definition UNLIMITED_RPS : Z := 1000000.

Inductive TransportBuildError : Type :=
| NoEndpoints
| UnknownChain (chain_id : Z)
| HttpClient (error : string).

Record TransportBuilder : Type := mkTransportBuilder {
  tb_primary : Url;
  tb_fallbacks : list Url;
  tb_retry_max : Z;
  tb_retry_backoff_ms : Z;
  tb_hedge : Z;
  tb_timeout_ms : option Z;
  tb_rate_limit_rps : option Z;
  tb_headers : gmap string string;
}.

(** The layers of a built client, outermost first: throttle, retry, then either one HTTP
    endpoint or a fallback over several with [active] of them raced. *)
Inductive Stack : Type :=
| Single (url : Url)
| Fallback (active : Z) (urls : list Url).
Record BuiltTransport : Type := mkBuilt {
  bt_throttle_rps : Z;
  bt_retry : Z * Z * Z;
  bt_headers : gmap string string;
  bt_timeout_ms : option Z;
  bt_stack : Stack;
}.
Definition endpoints_of (t : BuiltTransport) : list Url :=
  match bt_stack t with Single url => [url] | Fallback _ urls => urls end.
Definition active_of (t : BuiltTransport) : Z :=
  match bt_stack t with Single _ => 1 | Fallback active _ => active end.

Definition TransportBuilder_new (primary : Url) : TransportBuilder :=
  mkTransportBuilder primary [] DEFAULT_RETRY_MAX DEFAULT_RETRY_BACKOFF_MS 1 None None ∅.
Definition tb_fallback (url : Url) (b : TransportBuilder) : TransportBuilder :=
  mkTransportBuilder (tb_primary b) (tb_fallbacks b ++ [url]) (tb_retry_max b) (tb_retry_backoff_ms b)
    (tb_hedge b) (tb_timeout_ms b) (tb_rate_limit_rps b) (tb_headers b).
Definition tb_fallbacks_extend (urls : list Url) (b : TransportBuilder) : TransportBuilder :=
  mkTransportBuilder (tb_primary b) (tb_fallbacks b ++ urls) (tb_retry_max b) (tb_retry_backoff_ms b)
    (tb_hedge b) (tb_timeout_ms b) (tb_rate_limit_rps b) (tb_headers b).
Definition tb_retry (max_attempts backoff_ms : Z) (b : TransportBuilder) : TransportBuilder :=
  mkTransportBuilder (tb_primary b) (tb_fallbacks b) max_attempts backoff_ms
    (tb_hedge b) (tb_timeout_ms b) (tb_rate_limit_rps b) (tb_headers b).
Definition tb_set_hedge (n : Z) (b : TransportBuilder) : TransportBuilder :=
  mkTransportBuilder (tb_primary b) (tb_fallbacks b) (tb_retry_max b) (tb_retry_backoff_ms b)
    (Z.max n 1) (tb_timeout_ms b) (tb_rate_limit_rps b) (tb_headers b).
Definition tb_timeout (ms : Z) (b : TransportBuilder) : TransportBuilder :=
  mkTransportBuilder (tb_primary b) (tb_fallbacks b) (tb_retry_max b) (tb_retry_backoff_ms b)
    (tb_hedge b) (Some ms) (tb_rate_limit_rps b) (tb_headers b).
Definition tb_rate_limit (requests_per_second : Z) (b : TransportBuilder) : TransportBuilder :=
  mkTransportBuilder (tb_primary b) (tb_fallbacks b) (tb_retry_max b) (tb_retry_backoff_ms b)
    (tb_hedge b) (tb_timeout_ms b) (Some requests_per_second) (tb_headers b).
Definition tb_set_headers (headers : gmap string string) (b : TransportBuilder) : TransportBuilder :=
  mkTransportBuilder (tb_primary b) (tb_fallbacks b) (tb_retry_max b) (tb_retry_backoff_ms b)
    (tb_hedge b) (tb_timeout_ms b) (tb_rate_limit_rps b) headers.

Record TransportConfig : Type := mkTransportConfig {
  tc_endpoints : list Url;
  tc_retry_max : Z;
  tc_retry_backoff_ms : Z;
  tc_hedge : Z;
  tc_timeout_ms : option Z;
  tc_rate_limit_rps : option Z;
  tc_bearer : option string;
}.
(** The serde defaults of the optional fields. *)
Definition default_retry_max : Z := DEFAULT_RETRY_MAX.
Definition default_retry_backoff_ms : Z := DEFAULT_RETRY_BACKOFF_MS.
Definition default_hedge : Z := 1.

Section Build.
(** Parameters: [HeaderName::try_from] (which lower-cases), [HeaderValue::try_from], and
    building reqwest's client. *)
Context (HeaderName_try_from HeaderValue_try_from : string -> option string).
Context (client_build : gmap string string -> option Z -> result unit string).

Definition tb_header (name value : string) (b : TransportBuilder) : TransportBuilder :=
  match HeaderName_try_from name, HeaderValue_try_from value with
  | Some n, Some v => tb_set_headers (<[n := v]> (tb_headers b)) b
  | _, _ => b
  end.
Definition tb_bearer (token : string) (b : TransportBuilder) : TransportBuilder :=
  tb_header "authorization" ("Bearer " +:+ token) b.

Definition tb_build (b : TransportBuilder) : result BuiltTransport TransportBuildError :=
  match client_build (tb_headers b) (tb_timeout_ms b) with
  | Err e => Err (HttpClient e)
  | Ok _ =>
      let stack :=
        match tb_fallbacks b with
        | [] => Single (tb_primary b)
        | fallbacks =>
            let transports := tb_primary b :: fallbacks in
            let active := Z.min (tb_hedge b) (Z.of_nat (length transports)) in
            Fallback (if active =? 0 then 1 else active) transports
        end in
      Ok (mkBuilt (default UNLIMITED_RPS (tb_rate_limit_rps b))
            (tb_retry_max b, tb_retry_backoff_ms b, RETRY_CUPS) (tb_headers b) (tb_timeout_ms b) stack)
  end.

Definition Transport_url (url : Url) : result BuiltTransport TransportBuildError :=
  tb_build (TransportBuilder_new url).

Definition from_config (cfg : TransportConfig) : result BuiltTransport TransportBuildError :=
  match tc_endpoints cfg with
  | [] => Err NoEndpoints
  | primary :: endpoints =>
      let b := tb_fallbacks_extend endpoints
        (tb_set_hedge (tc_hedge cfg)
          (tb_retry (tc_retry_max cfg) (tc_retry_backoff_ms cfg) (TransportBuilder_new primary))) in
      let b := match tc_timeout_ms cfg with Some ms => tb_timeout ms b | None => b end in
      let b := match tc_rate_limit_rps cfg with Some rps => tb_rate_limit rps b | None => b end in
      let b := match tc_bearer cfg with Some token => tb_bearer token b | None => b end in
      tb_build b
  end.
End Build.

(** ** Public endpoints ([chains.rs]) *)

Definition EVM_PUBLIC_ENDPOINTS_URL : string := "https://evm-public-endpoints.erpc.cloud".
Definition MAX_DEFAULT_ENDPOINTS : nat := 5.

(** [u64::from_str]: an optional plus sign and at least one digit, without overflow. *)
Definition digit_value (c : ascii) : option Z :=
  let n := Z.of_nat (nat_of_ascii c) in if (48 <=? n) && (n <=? 57) then Some (n - 48) else None.
Fixpoint parse_digits (s : string) (acc : Z) : option Z :=
  match s with
  | EmptyString => Some acc
  | String c s' =>
      match digit_value c with
      | Some d => if acc * 10 + d <=? u64_max then parse_digits s' (acc * 10 + d) else None
      | None => None
      end
  end.
Definition parse_u64 (s : string) : option Z :=
  match s with
  | EmptyString => None
  | String c s' =>
      if Ascii.eqb c "+" then match s' with EmptyString => None | _ => parse_digits s' 0 end
      else parse_digits s 0
  end.

Abbreviation registry := (gmap Z (list Url)).

Section Registry.
(** Parameters: a JSON object's entries in the hash map's order, the [Entry] a value
    deserializes to (its endpoints), and [Url::parse]. *)
Context {Value : Type}.
Context (json_object : string -> option (list (string * Value))) (json_entry : Value -> option (list string)).
Context (Url_parse : string -> option Url).

Definition catalog_entry (kv : string * Value) : option (Z * list Url) :=
  match parse_u64 (fst kv), json_entry (snd kv) with
  | Some id, Some endpoints => Some (id, omap Url_parse endpoints)
  | _, _ => None
  end.
Definition parse_catalog (json : string) : registry :=
  collect_map (omap catalog_entry (default [] (json_object json))).

Definition public_rpcs (r : registry) (chain_id : Z) : list Url := default [] (r !! chain_id).

(** [error_for_status]: 4xx and 5xx. *)
Definition is_error_status (status : Z) : bool := (400 <=? status) && (status <? 600).

(** Parameter: reqwest's message for an error status. *)
Context (status_error : Z -> string).

Definition refresh_err (e : string) : RpcError := RpcError_Call ("refresh public endpoints: " +:+ e) true.

Definition refresh_public_endpoints (r : registry) : io (result Z RpcError * registry) :=
  let* answer := call (HttpGet EVM_PUBLIC_ENDPOINTS_URL) in
  match answer with
  | Err e => Ret (Err (refresh_err e), r)
  | Ok response =>
      if is_error_status (http_status response)
      then Ret (Err (refresh_err (status_error (http_status response))), r)
      else
        let fresh := parse_catalog (http_body response) in
        if decide (fresh = ∅)
        then Ret (Err (RpcError_Call "public endpoints response had no chains" true), r)
        else Ret (Ok (Z.of_nat (size fresh)), fresh)
  end.
End Registry.

(** ** Vendors *)

Inductive Vendor : Type := Alchemy | Infura | Drpc | Ankr | Tenderly | Thirdweb.

#[export] Instance Vendor_eq_dec : EqDecision Vendor.
Proof. solve_decision. Defined.

Definition vendor_map (vendor : Vendor) : list (Z * string) :=
  match vendor with
  | Alchemy =>
      [(1, "eth-mainnet"); (11155111, "eth-sepolia"); (8453, "base-mainnet"); (84532, "base-sepolia");
       (10, "opt-mainnet"); (11155420, "opt-sepolia"); (42161, "arb-mainnet"); (421614, "arb-sepolia");
       (137, "polygon-mainnet")]
  | Infura =>
      [(1, "mainnet"); (11155111, "sepolia"); (17000, "holesky"); (8453, "base-mainnet");
       (84532, "base-sepolia"); (10, "optimism-mainnet"); (11155420, "optimism-sepolia");
       (42161, "arbitrum-mainnet"); (421614, "arbitrum-sepolia"); (137, "polygon-mainnet")]
  | Drpc =>
      [(1, "ethereum"); (11155111, "sepolia"); (8453, "base"); (10, "optimism"); (42161, "arbitrum");
       (137, "polygon"); (56, "bsc"); (100, "gnosis")]
  | Ankr =>
      [(1, "eth"); (11155111, "eth_sepolia"); (17000, "eth_holesky"); (8453, "base");
       (84532, "base_sepolia"); (10, "optimism"); (11155420, "optimism_sepolia"); (42161, "arbitrum");
       (421614, "arbitrum_sepolia"); (137, "polygon"); (56, "bsc"); (43114, "avalanche"); (100, "gnosis")]
  | Tenderly =>
      [(1, "mainnet"); (11155111, "sepolia"); (17000, "holesky"); (8453, "base"); (84532, "base-sepolia");
       (10, "optimism"); (11155420, "optimism-sepolia"); (42161, "arbitrum"); (421614, "arbitrum-sepolia");
       (137, "polygon")]
  | Thirdweb => []
  end.
Definition vendor_slug (vendor : Vendor) (chain_id : Z) : option string :=
  snd <$> List.find (fun e => fst e =? chain_id) (vendor_map vendor).

(** The text handed to [Url::parse]. *)
Definition vendor_raw (vendor : Vendor) (api_key : string) (chain_id : Z) : option string :=
  match vendor with
  | Thirdweb => Some ("https://" +:+ pretty chain_id +:+ ".rpc.thirdweb.com/" +:+ api_key)
  | _ =>
      match vendor_slug vendor chain_id with
      | None => None
      | Some slug =>
          Some match vendor with
               | Alchemy => "https://" +:+ slug +:+ ".g.alchemy.com/v2/" +:+ api_key
               | Infura => "https://" +:+ slug +:+ ".infura.io/v3/" +:+ api_key
               | Drpc => "https://lb.drpc.org/ogrpc?network=" +:+ slug +:+ "&dkey=" +:+ api_key
               | Ankr => "https://rpc.ankr.com/" +:+ slug +:+ "/" +:+ api_key
               | Tenderly | Thirdweb => "https://" +:+ slug +:+ ".gateway.tenderly.co/" +:+ api_key
               end
      end
  end.

Section Chains.
Context (Url_parse : string -> option Url).
Context (client_build : gmap string string -> option Z -> result unit string).

Definition vendor_url (vendor : Vendor) (api_key : string) (chain_id : Z) : option Url :=
  match vendor_raw vendor api_key chain_id with Some raw => Url_parse raw | None => None end.

Definition builder_for_chain (r : registry) (chain_id : Z) : option TransportBuilder :=
  match take MAX_DEFAULT_ENDPOINTS (public_rpcs r chain_id) with
  | [] => None
  | primary :: rest => Some (tb_fallbacks_extend rest (TransportBuilder_new primary))
  end.
Definition for_chain (r : registry) (chain_id : Z) : result BuiltTransport TransportBuildError :=
  match builder_for_chain r chain_id with
  | None => Err (UnknownChain chain_id)
  | Some b => tb_build client_build b
  end.
Definition Transport_vendor (vendor : Vendor) (api_key : string) (chain_id : Z)
  : result BuiltTransport TransportBuildError :=
  match vendor_url vendor api_key chain_id with
  | None => Err (UnknownChain chain_id)
  | Some url => Transport_url client_build url
  end.
End Chains.

Example vendor_raw_alchemy : vendor_raw Alchemy "KEY" 1 = Some "https://eth-mainnet.g.alchemy.com/v2/KEY".
Proof. reflexivity. Qed.
Example vendor_raw_thirdweb : vendor_raw Thirdweb "CID" 7777777 = Some "https://7777777.rpc.thirdweb.com/CID".
Proof. reflexivity. Qed.
Example parse_u64_edges :
  map parse_u64 ["metadata"; EmptyString; "+"; "+7"; "01"; "18446744073709551615"; "18446744073709551616"; "-1"]
  = [None; None; None; Some 7; Some 1; Some u64_max; None; None].
Proof. reflexivity. Qed.

(** ** Properties *)

(** The declarative config is what gets built.  No endpoints is an error of its own;
    otherwise the stack talks to exactly the configured endpoints in order, races at least
    one and never more of them than there are, whatever [hedge] says, and carries the
    configured retries, timeout, throttle (practically unlimited by default) and token. *)
Theorem from_config_faithful (name_ok value_ok : string -> option string)
    (client_build : gmap string string -> option Z -> result unit string) (cfg : TransportConfig) :
  match from_config name_ok value_ok client_build cfg with
  | Err NoEndpoints => tc_endpoints cfg = []
  | Err (UnknownChain _) => False
  | Err (HttpClient e) => tc_endpoints cfg <> [] /\
      exists headers, client_build headers (tc_timeout_ms cfg) = Err e
  | Ok t =>
      endpoints_of t = tc_endpoints cfg /\
      1 <= active_of t <= Z.of_nat (length (tc_endpoints cfg)) /\
      active_of t = Z.max 1 (Z.min (tc_hedge cfg) (Z.of_nat (length (tc_endpoints cfg)))) /\
      bt_retry t = (tc_retry_max cfg, tc_retry_backoff_ms cfg, RETRY_CUPS) /\
      bt_throttle_rps t = default UNLIMITED_RPS (tc_rate_limit_rps cfg) /\
      bt_timeout_ms t = tc_timeout_ms cfg /\
      bt_headers t =
        match tc_bearer cfg with
        | Some token =>
            match name_ok "authorization", value_ok ("Bearer " +:+ token) with
            | Some n, Some v => {[n := v]}
            | _, _ => ∅
            end
        | None => ∅
        end
  end.
Proof.
  unfold from_config. destruct (tc_endpoints cfg) as [|primary rest] eqn:He; [done|].
  set (b := match tc_bearer cfg with Some _ => _ | None => _ end).
  assert (Hb : tb_primary b = primary /\ tb_fallbacks b = rest /\ tb_hedge b = Z.max (tc_hedge cfg) 1 /\
    tb_retry_max b = tc_retry_max cfg /\ tb_retry_backoff_ms b = tc_retry_backoff_ms cfg /\
    tb_rate_limit_rps b = tc_rate_limit_rps cfg /\ tb_timeout_ms b = tc_timeout_ms cfg).
  { unfold b, tb_bearer, tb_header. by repeat case_match. }
  assert (Hh : tb_headers b = match tc_bearer cfg with
    | Some token => match name_ok "authorization", value_ok ("Bearer " +:+ token) with
        | Some n, Some v => {[n := v]} | _, _ => ∅ end | None => ∅ end).
  { unfold b, tb_bearer, tb_header. by repeat case_match. }
  clearbody b. destruct Hb as (Hp & Hf & Hg & Hr & Hrb & Hl & Ht). unfold tb_build.
  rewrite Hp, Hf, Hg, Hr, Hrb, Hl, Ht, Hh.
  destruct (client_build _ _) as [[]|e] eqn:Hc; [|split; [done|by eexists]].
  destruct rest as [|u rest]; unfold endpoints_of, active_of; cbn [bt_stack bt_retry bt_throttle_rps bt_headers bt_timeout_ms].
  - split_and!; try done; simpl length; lia.
  - destruct (_ =? 0) eqn:Hz; bool_simpl; cbn [length] in *; split_and!; try done; try lia.
Qed.

Lemma digit_value_pretty (x : N) :
  (x < 10)%N -> digit_value (pretty_N_char x) = Some (Z.of_N x).
Proof.
  intros Hx. assert (Hc : (x = 0 \/ x = 1 \/ x = 2 \/ x = 3 \/ x = 4 \/ x = 5 \/ x = 6 \/ x = 7 \/ x = 8 \/ x = 9)%N)
    by lia. by destruct_or! Hc; subst.
Qed.

(** A number printed in front of [s] is read back before [s]. *)
Lemma parse_digits_pretty (x : N) (s : string) :
  Z.of_N x <= u64_max -> parse_digits (pretty_N_go x s) 0 = parse_digits s (Z.of_N x).
Proof.
  revert s. induction (N.lt_wf_0 x) as [x _ IH]. intros s Hx.
  destruct (decide (x = 0%N)) as [->|Hne]; [by rewrite pretty_N_go_0|].
  rewrite pretty_N_go_step by lia.
  assert (Hlt : (x `div` 10 < x)%N) by (apply N.div_lt; lia).
  rewrite IH; [|done|lia]. cbn [parse_digits].
  rewrite digit_value_pretty by (apply N.mod_lt; lia).
  assert (E : Z.of_N (x `div` 10) * 10 + Z.of_N (x `mod` 10) = Z.of_N x).
  { pose proof (N.div_mod x 10). lia. }
  rewrite E. destruct (_ <=? u64_max) eqn:Hm; [done|]. bool_simpl. lia.
Qed.

Lemma pretty_N_go_head (x : N) (s : string) :
  (0 < x)%N -> exists c t, pretty_N_go x s = String c t /\ digit_value c <> None.
Proof.
  revert s. induction (N.lt_wf_0 x) as [x _ IH]. intros s Hx. rewrite pretty_N_go_step by done.
  destruct (decide (x `div` 10 = 0)%N) as [E|Hne].
  - rewrite E, pretty_N_go_0. eexists _, _. split; [reflexivity|].
    rewrite digit_value_pretty by (apply N.mod_lt; lia). done.
  - apply IH; [apply N.div_lt; lia|]. apply N.neq_0_lt_0. exact Hne.
Qed.

(** A chain id printed as a key is read back. *)
Lemma parse_u64_pretty (x : N) : Z.of_N x <= u64_max -> parse_u64 (pretty x) = Some (Z.of_N x).
Proof.
  intros Hx. unfold pretty, pretty_N. case_decide as E; [by subst|].
  destruct (pretty_N_go_head x EmptyString) as (c & t & Hg & Hc); [lia|].
  pose proof (parse_digits_pretty x EmptyString Hx) as Hp. rewrite Hg in Hp |- *. cbn [parse_u64].
  destruct (Ascii.eqb_spec c "+") as [->|_]; [done|]. by rewrite Hp.
Qed.

(** ** The registry *)

Section RegistrySpec.
Context {Value : Type}.
Context (json_object : string -> option (list (string * Value))) (json_entry : Value -> option (list string)).
Context (Url_parse : string -> option Url) (status_error : Z -> string).

Abbreviation parse := (parse_catalog json_object json_entry Url_parse).

Lemma catalog_entry_Some kv id urls :
  catalog_entry json_entry Url_parse kv = Some (id, urls) <->
  exists endpoints, parse_u64 (fst kv) = Some id /\ json_entry (snd kv) = Some endpoints /\
    urls = omap Url_parse endpoints.
Proof.
  unfold catalog_entry. destruct (parse_u64 _), (json_entry _); naive_solver.
Qed.

(** What the registry holds for a chain comes from an entry of the catalog whose key reads
    as that chain's id; endpoints that are no URL are dropped, the order is kept. *)
Lemma parse_catalog_sound json id urls :
  parse json !! id = Some urls ->
  exists raw k v endpoints, json_object json = Some raw /\ (k, v) ∈ raw /\ parse_u64 k = Some id /\
    json_entry v = Some endpoints /\ urls = omap Url_parse endpoints.
Proof.
  unfold parse_catalog. intros H%collect_map_elem. apply list_elem_of_omap in H as ([k v] & Hin & He).
  apply catalog_entry_Some in He as (endpoints & Hk & Hv & ->).
  destruct (json_object json) as [raw|]; simpl in Hin; [|by apply not_elem_of_nil in Hin].
  exists raw, k, v, endpoints. done.
Qed.

(** A chain listed under its decimal id, and under no other spelling of it, is found. *)
Lemma parse_catalog_complete json raw (id : N) v endpoints :
  json_object json = Some raw -> Z.of_N id <= u64_max -> (pretty id, v) ∈ raw ->
  json_entry v = Some endpoints ->
  (forall k' v', (k', v') ∈ raw -> parse_u64 k' = Some (Z.of_N id) -> v' = v) ->
  parse json !! Z.of_N id = Some (omap Url_parse endpoints).
Proof.
  intros Hraw Hid Hin Hv Hu. unfold parse_catalog. rewrite Hraw. simpl. apply collect_map_unique.
  - apply list_elem_of_omap. exists (pretty id, v). split; [done|]. apply catalog_entry_Some.
    exists endpoints. cbn [fst snd]. by rewrite parse_u64_pretty.
  - intros urls H. apply list_elem_of_omap in H as ([k' v'] & Hin' & He).
    apply catalog_entry_Some in He as (endpoints' & Hk & Hv' & ->). simpl in Hk, Hv'.
    rewrite (Hu k' v' Hin' Hk) in Hv'. congruence.
Qed.

(** Refreshing the registry of public endpoints is all or nothing.  Every failure (no
    answer, an error status, a body without chains) is retryable and leaves the registry
    as it was; a success replaces it by what the catalog in the answer lists, counts its
    chains, and is never empty. *)
Theorem refresh_all_or_nothing (r : registry) (tr : history) :
  triple any_response any_call
    (refresh_public_endpoints json_object json_entry Url_parse status_error r) tr
    (fun tr' x => exists answer, tr' = existT (HttpGet EVM_PUBLIC_ENDPOINTS_URL) answer :: tr /\
       match fst x with
       | Err e => snd x = r /\ rpc_kind e = Retryable
       | Ok n => exists response, answer = Ok response /\ is_error_status (http_status response) = false /\
           snd x = parse (http_body response) /\ snd x <> ∅ /\ n = Z.of_nat (size (snd x)) /\ 0 < n /\
           forall id urls, snd x !! id = Some urls -> exists raw k v endpoints,
             json_object (http_body response) = Some raw /\ (k, v) ∈ raw /\ parse_u64 k = Some id /\
             json_entry v = Some endpoints /\ urls = omap Url_parse endpoints
       end).
Proof.
  unfold refresh_public_endpoints. wp_simpl. apply triple_call; [done|].
  intros [response|e] _; [|by eexists]. destruct (is_error_status _) eqn:Hs; [by eexists|].
  case_decide as He; [by eexists|]. eexists. split; [reflexivity|]. cbn [fst snd].
  exists response. split_and!; try done.
  - assert (size (parse (http_body response)) <> 0%nat) by (by rewrite map_size_empty_iff). lia.
  - intros id urls. apply parse_catalog_sound.
Qed.
End RegistrySpec.

(** A transport for a known chain talks to the first public endpoints listed for it,
    five at most, in order and without hedging; a chain without endpoints is refused
    before any client is built. *)
Theorem for_chain_endpoints (client_build : gmap string string -> option Z -> result unit string)
    (r : registry) (chain_id : Z) :
  match for_chain client_build r chain_id with
  | Err (UnknownChain id) => id = chain_id /\ public_rpcs r chain_id = []
  | Err NoEndpoints => False
  | Err (HttpClient e) => client_build ∅ None = Err e
  | Ok t => endpoints_of t = take 5 (public_rpcs r chain_id) /\ endpoints_of t <> [] /\ active_of t = 1
  end.
Proof.
  unfold for_chain, builder_for_chain, MAX_DEFAULT_ENDPOINTS.
  destruct (take 5 (public_rpcs r chain_id)) as [|primary rest] eqn:Ht.
  - split; [done|]. by destruct (public_rpcs r chain_id).
  - unfold tb_build. simpl. destruct (client_build ∅ None) as [[]|e]; [|done].
    destruct rest as [|u rest]; unfold endpoints_of, active_of; simpl; [done|].
    split_and!; try done. destruct (_ =? 0) eqn:Hz; bool_simpl; lia.
Qed.

(** ** Vendor URLs *)

Lemma vendor_slug_elem vendor chain_id slug :
  vendor_slug vendor chain_id = Some slug -> (chain_id, slug) ∈ vendor_map vendor.
Proof.
  unfold vendor_slug. destruct (List.find _ _) as [[id s]|] eqn:Hf; [|done]. intros [= <-].
  apply find_some in Hf as [Hin Heq]. simpl in Heq. apply Z.eqb_eq in Heq as <-. by apply list_elem_of_In.
Qed.

(** No vendor names two chains alike. *)
Lemma vendor_slug_inj vendor c1 c2 slug :
  vendor_slug vendor c1 = Some slug -> vendor_slug vendor c2 = Some slug -> c1 = c2.
Proof.
  intros H1%vendor_slug_elem H2%vendor_slug_elem.
  assert (Hn : NoDup (snd <$> vendor_map vendor)) by (destruct vendor; apply (bool_decide_unpack _); reflexivity).
  apply list_elem_of_lookup in H1 as [i Hi], H2 as [j Hj].
  assert (i = j); [|congruence].
  apply (NoDup_lookup _ _ _ slug Hn); by rewrite list_lookup_fmap, ?Hi, ?Hj.
Qed.

(** A vendor's endpoint is never another chain's: with one key, two chains have
    different URLs, whichever vendor and however the key looks. *)
Theorem vendor_url_separates_chains (vendor : Vendor) (api_key : string) (c1 c2 : Z) (raw : string) :
  vendor_raw vendor api_key c1 = Some raw -> vendor_raw vendor api_key c2 = Some raw -> c1 = c2.
Proof.
  intros H1 H2. destruct (decide (vendor = Thirdweb)) as [->|Hv].
  - simpl in H1, H2. rewrite <- H2 in H1. injection H1 as H1. apply (inj pretty).
    by eapply string_app_inv_tail.
  - destruct (vendor_slug vendor c1) as [s1|] eqn:E1, (vendor_slug vendor c2) as [s2|] eqn:E2;
      try (destruct vendor; unfold vendor_raw in H1, H2; rewrite ?E1, ?E2 in *; done).
    assert (s1 = s2); [|subst; by eapply vendor_slug_inj].
    unfold vendor_raw in H1, H2. rewrite E1 in H1. rewrite E2 in H2. rewrite <- H2 in H1.
    destruct vendor; try done; injection H1 as H1; by eapply string_app_inv_tail.
Qed.
