(* ===== verification/Connect.v ===== *)
(** * Connect: a wallet over an HTTP transport

    The convenience constructors of [src/src/facade.rs] ([connect_http],
    [connect_http_dev]), [Transport::connect] and [SystemClock]; and the wallet composed
    down to the provider: policy, key, gas oracle, router and transport. *)
From S2P Require Import Prelude Effects Primitives ModelAlloy Errors Ports Policy Signer Submission Gelato Facade.
From S2P Require Import Transport TransportBuild.

Open Scope string_scope.

(** ** Constructors *)

Definition TransportBuildError_to_string (u64_display : Z -> string) (e : TransportBuildError) : string :=
  match e with
  | NoEndpoints => "transport config has no endpoints"
  | UnknownChain chain_id => "no known endpoint for chain " ++ u64_display chain_id
  | HttpClient error => "http client build failed: " ++ error
  end.

(** [SystemTime::now().duration_since(UNIX_EPOCH)] in seconds, or a clock before 1970. *)
Definition system_now_unix (since_epoch : result Z string) : Z := default 0 (result_ok since_epoch).

(** [Transport::connect]: alloy's client builder picks the transport by URL scheme. *)
Definition Transport_connect {Client} (client_connect : string -> result Client TransportError) (url : string)
  : result Client RpcError := map_res_err rpc_err (client_connect url).

Section Connect.
Context {A : Alloy}.
Context (u64_display : Z -> string) (Url_parse : string -> result Url string).
Context (client_build : gmap string string -> option Z -> result unit string).
Context (parse_response : string -> option JsonRpcResponse) (status_display : Z -> string).
Context (transport_url : Url -> result unit string).
Context (request_body : option Z -> option (bool * option (list string)) -> Bytes -> Bytes).

(** The wallet, with the transport that serves its [Rpc] port. *)
Definition connect_http (url : string) (signer : SignerOps) (policy : PolicyEngine)
  : result (BuiltTransport * Wallet) WalletKitError :=
  match Url_parse url with
  | Err e => Err (WK_Connect e)
  | Ok parsed =>
      match Transport_url client_build parsed with
      | Err e => Err (WK_Connect (TransportBuildError_to_string u64_display e))
      | Ok transport =>
          Ok (transport, build parse_response status_display transport_url request_body (builder signer policy))
      end
  end.

Definition connect_http_dev (url : string) (signer : SignerOps) : result (BuiltTransport * Wallet) WalletKitError :=
  connect_http url signer (DefaultPolicyEngine_ops (DefaultPolicyEngine_new [Box mkAllowAll])).

(** A connected wallet is the default build, over one endpoint, the one it was given;
    nothing but a bad URL or client can fail, and such a failure is terminal. *)
Lemma connect_http_spec url signer policy :
  match connect_http url signer policy with
  | Ok (t, w) =>
      w = build parse_response status_display transport_url request_body (builder signer policy) /\
      exists parsed, Url_parse url = Ok parsed /\ endpoints_of t = [parsed] /\ active_of t = 1
  | Err e => kind e = Terminal /\
      (is_err (Url_parse url) = true \/ is_err (client_build ∅ None) = true)
  end.
Proof using Type.
  unfold connect_http, Transport_url, tb_build. simpl.
  destruct (Url_parse url) as [parsed|]; simpl; [|by auto].
  destruct (client_build ∅ None); simpl; [|by auto]. split; [done|]. by exists parsed.
Qed.
End Connect.

(** ** Down to the provider *)

(** What may leave the process: raw transactions to the node and to relays. *)
Definition net_egress {A : Alloy} (engine : DefaultPolicyEngine) (key : LocalSigner) (intent : TxIntent)
    (opts : SubmissionOpts) (_ : net_history) (w : wire_call) : Prop :=
  match w with
  | OnChain chain (SendRawTransaction rlp) =>
      chain = 0%nat /\ so_route opts = Public /\ authorized engine key intent rlp
  | OnChain _ _ => True
  | OffChain p => egress_guard engine key intent opts [] p
  end.

Section Composed.
Context {A : Alloy}.
Context (parse_response : string -> option JsonRpcResponse) (status_display : Z -> string).
Context (transport_url : Url -> result unit string).
Context (request_body : option Z -> option (bool * option (list string)) -> Bytes -> Bytes).
Context (parse_status_envelope : string -> option TaskStatus) (parse_tx_hash : string -> option TxHash).

Abbreviation build' := (build parse_response status_display transport_url request_body).
Abbreviation wire' :=
  (wire parse_response status_display transport_url request_body parse_status_envelope parse_tx_hash).

(** The batched reads send nothing. *)
Lemma batch_calls_free chain accounts (G : net_history -> wire_call -> Prop) trl :
  (forall tr c, (forall rlp, c <> SendRawTransaction rlp) -> G tr (OnChain chain c)) ->
  triple any_env G (transport_account_activity chain accounts) trl (fun _ _ => True).
Proof using Type.
  intros HG. unfold transport_account_activity. destruct accounts as [|a0 rest0]; [done|].
  unfold try_bind. apply triple_bind. revert trl.
  assert (Hadd : forall accounts trl, triple any_env G (batch_add chain accounts) trl (fun _ _ => True)).
  { clear a0 rest0. induction accounts as [|a rest IH]; intros trl; cbn [batch_add]; [done|].
    transport_unfold. wp_simpl. apply triple_call; [by apply HG|]. intros [[]|] _; wp_simpl; [|done].
    apply triple_call; [by apply HG|]. intros [[]|] _; wp_simpl; [|done].
    apply triple_bind. eapply triple_mono; [|apply IH]. by intros ? [] _. }
  assert (Hawait : forall ws trl, triple any_env G (batch_await chain ws) trl (fun _ _ => True)).
  { induction ws as [|[n b] rest IH]; intros trl; cbn [batch_await]; [done|].
    transport_unfold. wp_simpl. apply triple_call; [by apply HG|]. intros [|] _; wp_simpl; [|done].
    apply triple_call; [by apply HG|]. intros [|] _; wp_simpl; [|done].
    apply triple_bind. eapply triple_mono; [|apply IH]. by intros ? [] _. }
  intros trl. eapply triple_mono; [|apply Hadd]. intros tr' [ws|e] _; [|done].
  transport_unfold. wp_simpl. apply triple_call; [by apply HG|]. intros [[]|] _; wp_simpl; [apply Hawait|done].
Qed.

(** The transport sends only what the wallet asked it to send. *)
Lemma transport_egress engine key intent opts p tr trl :
  egress_guard engine key intent opts tr p ->
  triple any_env (net_egress engine key intent opts) (transport_impl p) trl (fun _ _ => True).
Proof using Type.
  destruct p; cbn [egress_guard transport_impl]; try done; intros Hp;
    try (apply batch_calls_free; intros ? [] Hc; try done; by edestruct Hc);
    unfold transport_pending_nonce, transport_tx_count, transport_block_number, transport_finalized_block,
      transport_block_hash, transport_estimate_fees, transport_base_fee, transport_estimate_gas, transport_call,
      transport_create_access_list, transport_send_raw, transport_receipt, ask, map_err, try_bind;
    wp_simpl; (apply triple_call; [done|]); intros r _; wp_simpl; try done; by destruct r.
Qed.

(** C8: everything a connected wallet lets out is authorized.  Composed from the native
    policy engine, a local key, the gas oracle, the router and the transport, for every
    answer of the node, the relays, the store and the clock: each raw transaction handed to
    a provider or a relay is a transaction for this very intent that the policy's rules
    allow, within its fee caps, signed by the account's own key in low-s form; it goes to
    the wallet's own chain on a public send and to a relay on a private one; and without a
    relay identity a private send makes no call at all. *)
Theorem connected_send_authorized (b : WalletBuilder) (cache : gset Url) (engine : DefaultPolicyEngine)
    (key : LocalSigner) (intent : TxIntent) (opts : SubmissionOpts) (tr trp : history) (trl : net_history) :
  native_builder b engine key ->
  triple any_env (net_egress engine key intent opts)
    (interp transport_impl (interp (wire' b cache) (wallet_send_with (build' b) intent opts) tr) trp) trl
    (fun _ x =>
       (forall h, fst (fst x) = Ok h -> th_intent h = intent /\ authorized engine key intent (th_signed h)) /\
       (wb_relay_identity b = None -> so_route opts <> Public ->
          snd (fst x) = tr /\ fst (fst x) = Err (WK_Route RelayNotConfigured))).
Proof using Type.
  intros Hb.
  apply (interp_guarded transport_impl any_response _ (egress_guard engine key intent opts) _ _ _
    (fun _ (x : result TxHandle WalletKitError * history) =>
       (forall h, fst x = Ok h -> th_intent h = intent /\ authorized engine key intent (th_signed h)) /\
       (wb_relay_identity b = None -> so_route opts <> Public ->
          snd x = tr /\ fst x = Err (WK_Route RelayNotConfigured)))).
  - intros p tr' trl' Hp. eapply triple_mono; [|by eapply transport_egress]. done.
  - by apply wired_send_authorized.
Qed.
End Composed.

(** A node that accepts raw transactions, an allocated nonce and a healthy store. *)
Definition demo_net (w : wire_call) : wire_resp w :=
  match w return wire_resp w with
  | OnChain _ (ProviderEstimateGas _) => Ok 21000
  | OnChain _ EstimateEip1559Fees => Ok (mkEstimation 200 10)
  | OnChain _ (SendRawTransaction _) => Ok 5
  | OffChain NowUnix => 1000
  | OffChain (Allocate _) => Ok 11
  | OffChain (PutHandle _) => Ok tt
  | OffChain p => offline p
  | OnChain c q => demo_provider (OnChain c q)
  end.
Definition demo_connected : net (result TxHandle WalletKitError * history * history) :=
  interp transport_impl
    (interp (wire (fun _ => None) (fun _ => EmptyString) (fun _ => Ok tt) (fun _ _ _ => []) (fun _ => None)
               (fun _ => None) demo_builder ∅)
       (wallet_send_with (demo_build demo_builder) demo_intent SubmissionOpts_default) []) [].

Lemma connected_send_authorized_witness :
  exists h, fst (fst (run_net demo_net demo_connected)) = Ok h /\
    authorized demo_engine demo_key demo_intent (th_signed h).
Proof.
  pose proof (triple_run (fun w (s : unit) => (demo_net w, s)) any_env _ _ tt [] _ (fun _ _ => I) I
    (connected_send_authorized (fun _ => None) (fun _ => EmptyString) (fun _ => Ok tt) (fun _ _ _ => [])
       (fun _ => None) (fun _ => None) demo_builder ∅ demo_engine demo_key demo_intent SubmissionOpts_default
       [] [] [] (Build_native_builder demo_builder demo_engine demo_key eq_refl eq_refl))) as H.
  assert (Hx : exists h, fst (fst (run_net demo_net demo_connected)) = Ok h) by (eexists; vm_compute; reflexivity).
  destruct Hx as [h Hh]. exists h. split; [exact Hh|]. unfold run_net, demo_connected, demo_build in Hh.
  destruct (run _ _ _ _) as [[x s] tr']. destruct H as [[H _] _]. by apply H.
Defined.
