(* ===== verification/Read.v ===== *)
(** * Read: typed chain reads and Multicall3 batches

    [src/src/adapters/multicall.rs] (the batch builder), [src/src/adapters/read.rs] (the
    [ReadClient] adapter) and the data of [src/src/core/deps/read.rs].  alloy's provider
    and the [sol!] bindings are a signature of calls; ABI encoding and decoding are
    parameters.  [String::from_utf8_lossy] is the standard library's, written out. *)
From S2P Require Import Prelude Effects Primitives Errors Ports Transport.

(** alloy's contract error, with what the adapters ask of it. *)
Inductive ContractError : Type :=
| CE_Transport (e : TransportError)
| CE_Other (display : string).

(** A transport failure keeps its classification; anything else is terminal. *)
Definition contract_error (e : ContractError) : RpcError :=
  match e with
  | CE_Transport te => rpc_err te
  | CE_Other display => RpcError_Call display false
  end.

(** ** The provider's reads *)

(** [IMulticall3::Call3] and its [Result]. *)
Record Call3 : Type := mkCall3 {
  c3_target : Address;
  c3_allow_failure : bool;
  c3_call_data : Bytes;
}.
Record MulticallResult : Type := mkMulticallResult {
  mr_success : bool;
  mr_return_data : Bytes;
}.

(** One decoded [latestRoundData]. *)
Record RoundData : Type := mkRoundData {
  rd_round_id : Z;
  rd_answer : Z;
  rd_started_at : U256;
  rd_updated_at : U256;
  rd_answered_in_round : Z;
}.

(** alloy-ens's error. *)
Inductive AlloyEnsError : Type :=
| Ens_Resolver (e : ContractError)
| Ens_RevRegistrar (e : ContractError)
| Ens_Lookup (e : ContractError)
| Ens_Resolve (e : ContractError)
| Ens_ResolveTxtRecord (e : ContractError)
| Ens_ResolverNotFound (name : string)
| Ens_ReverseRegistrarNotFound
| Ens_OtherError (display : string).

Inductive view : Type :=
| GetChainId
| GetCodeAt (address : Address)
| GetBalance (account : Address)
(* sol! contract instances: ERC-20, ERC-721, ERC-1155 *)
| Erc20BalanceOf (token owner : Address)
| Erc20Allowance (token owner spender : Address)
| Erc721OwnerOf (token : Address) (token_id : U256)
| Erc721BalanceOf (token owner : Address)
| Erc1155BalanceOf (token account : Address) (id : U256)
| Aggregate3 (address : Address) (calls : list Call3)
(* Chainlink aggregators and the clock their age is measured by *)
| FeedDecimals (feed : Address)
| LatestRoundData (feed : Address)
| ViewNow
(* alloy-ens *)
| EnsResolveName (name : string)
| EnsLookupAddress (address : Address)
| EnsLookupTxt (name key : string).

Definition view_resp (v : view) : Type :=
  match v with
  | GetChainId => result Z TransportError
  | GetCodeAt _ => result Bytes TransportError
  | GetBalance _ => result U256 TransportError
  | Erc20BalanceOf _ _ | Erc20Allowance _ _ _ | Erc721BalanceOf _ _ | Erc1155BalanceOf _ _ _ =>
      result U256 ContractError
  | Erc721OwnerOf _ _ => result Address ContractError
  | Aggregate3 _ _ => result (list MulticallResult) ContractError
  | FeedDecimals _ => result Z ContractError
  | LatestRoundData _ => result RoundData ContractError
  | ViewNow => Z
  | EnsResolveName _ => result Address AlloyEnsError
  | EnsLookupAddress _ | EnsLookupTxt _ _ => result string AlloyEnsError
  end.
Abbreviation views := (prog view_resp).
Abbreviation view_history := (trace view_resp).
Definition look (v : view) : views (view_resp v) := call (R:=view_resp) v.

(** ** Multicall ([multicall.rs]) *)

Definition MULTICALL3_ADDRESS : Address := 0xcA11bde05977b3631167028862bE2a173976CA11.
Definition MAX_CALLS_PER_BATCH : nat := 400.

Record Multicall : Type := mkMulticall {
  mc_address : Address;
  mc_calls : list Call3;
}.
Definition Multicall_new : Multicall := mkMulticall MULTICALL3_ADDRESS [].
Definition mc_push (target : Address) (call_data : Bytes) (m : Multicall) : Multicall :=
  mkMulticall (mc_address m) (mc_calls m ++ [mkCall3 target true call_data]).

(** [for chunk in self.calls.chunks(MAX_CALLS_PER_BATCH)]. *)
Fixpoint multicall_chunks (address : Address) (cs : list (list Call3)) (out : list MulticallResult)
  : views (result (list MulticallResult) RpcError) :=
  match cs with
  | [] => Ret (Ok out)
  | chunk :: cs' =>
      let? results := map_err contract_error (look (Aggregate3 address chunk)) in
      multicall_chunks address cs' (out ++ results)
  end.
Definition multicall_call (m : Multicall) : views (result (list MulticallResult) RpcError) :=
  multicall_chunks (mc_address m) (chunks MAX_CALLS_PER_BATCH (mc_calls m)) [].

(** ** UTF-8 *)

(** Byte ranges, inclusive. *)
Definition in_range (lo hi : Z) (b : byte) : bool := (lo <=? byte_to_Z b) && (byte_to_Z b <=? hi).
Definition continuation : byte -> bool := in_range 0x80 0xbf.

(** The continuation ranges a first byte calls for; [None] for a byte that starts no
    sequence. *)
Definition utf8_rest (b : byte) : option (list (byte -> bool)) :=
  let n := byte_to_Z b in
  if n <=? 0x7f then Some []
  else if (0xc2 <=? n) && (n <=? 0xdf) then Some [continuation]
  else if n =? 0xe0 then Some [in_range 0xa0 0xbf; continuation]
  else if n =? 0xed then Some [in_range 0x80 0x9f; continuation]
  else if (0xe1 <=? n) && (n <=? 0xef) then Some [continuation; continuation]
  else if n =? 0xf0 then Some [in_range 0x90 0xbf; continuation; continuation]
  else if (0xf1 <=? n) && (n <=? 0xf3) then Some [continuation; continuation; continuation]
  else if n =? 0xf4 then Some [in_range 0x80 0x8f; continuation; continuation]
  else None.

(** How many of the following bytes fit the ranges, and whether all ranges were met. *)
Fixpoint utf8_fit (ranges : list (byte -> bool)) (bs : Bytes) : nat * bool :=
  match ranges, bs with
  | [], _ => (0%nat, true)
  | r :: ranges', b :: bs' =>
      if r b then let '(n, ok) := utf8_fit ranges' bs' in (S n, ok) else (0%nat, false)
  | _ :: _, [] => (0%nat, false)
  end.

Definition REPLACEMENT : Bytes := [byte_of_Z 0xef; byte_of_Z 0xbf; byte_of_Z 0xbd].

(** [String::from_utf8_lossy]: each maximal ill-formed prefix becomes U+FFFD. *)
Fixpoint utf8_lossy_fuel (fuel : nat) (bs : Bytes) : Bytes :=
  match fuel, bs with
  | S fuel', b :: rest =>
      match utf8_rest b with
      | Some ranges =>
          let '(n, ok) := utf8_fit ranges rest in
          (if ok then b :: take n rest else REPLACEMENT) ++ utf8_lossy_fuel fuel' (drop n rest)
      | None => REPLACEMENT ++ utf8_lossy_fuel fuel' rest
      end
  | _, _ => []
  end.
Definition utf8_lossy (bs : Bytes) : Bytes := utf8_lossy_fuel (length bs) bs.

(** Well-formed UTF-8. *)
Inductive valid_utf8 : Bytes -> Prop :=
| utf8_nil : valid_utf8 []
| utf8_cons b ranges rest n :
    utf8_rest b = Some ranges -> utf8_fit ranges rest = (n, true) ->
    valid_utf8 (drop n rest) -> valid_utf8 (b :: rest).

(** ** The read client ([read.rs]) *)

Record Erc20Metadata : Type := mkErc20Metadata {
  md_name : Bytes;
  md_symbol : Bytes;
  md_decimals : Z;
}.
Record TokenBalance : Type := mkTokenBalance {
  tbal_token : Address;
  tbal_balance : result U256 ReadError;
}.
Record AccountBalances : Type := mkAccountBalances {
  ab_native : U256;
  ab_tokens : list TokenBalance;
}.

(** [take_while(|b| *b != 0)]. *)
Fixpoint take_while_nonzero (bs : Bytes) : Bytes :=
  match bs with
  | [] => []
  | b :: bs' => if byte_to_Z b =? 0 then [] else b :: take_while_nonzero bs'
  end.

Section Read.
(** Parameters: the [sol!] encoders of the batched calls, and ABI decoding. *)
Context (abi_balance_of : Address -> Bytes) (abi_get_eth_balance : Address -> Bytes).
Context (abi_name abi_symbol abi_decimals : Bytes).
Context (abi_decode_u256 : Bytes -> option U256) (abi_decode_string : Bytes -> option Bytes).

Definition read_transport (e : TransportError) : ReadError := Read_Rpc (rpc_err e).
Definition read_contract (e : ContractError) : ReadError := Read_Rpc (contract_error e).

Definition decode_u256 (r : MulticallResult) : option U256 :=
  if mr_success r then abi_decode_u256 (mr_return_data r) else None.
Definition decode_string (r : MulticallResult) : option Bytes :=
  if mr_success r then abi_decode_string (mr_return_data r) else None.

Definition decode_metadata_string (r : MulticallResult) (context : string) : result Bytes ReadError :=
  if negb (mr_success r) then Err (Decode context)
  else
    match decode_string r with
    | Some s => Ok s
    | None =>
        match take_while_nonzero (take 32 (mr_return_data r)) with
        | [] => Err (Decode context)
        | bytes32 => Ok (utf8_lossy bytes32)
        end
    end.

Definition chain_id : views (result Z ReadError) := map_err read_transport (look GetChainId).
Definition read_code (address : Address) : views (result Bytes ReadError) :=
  map_err read_transport (look (GetCodeAt address)).
Definition is_contract (address : Address) : views (result bool ReadError) :=
  let? code := read_code address in Ret (Ok (negb (bool_decide (code = [])))).
Definition native_balance (account : Address) : views (result U256 ReadError) :=
  map_err read_transport (look (GetBalance account)).
Definition erc20_balance (token account : Address) : views (result U256 ReadError) :=
  map_err read_contract (look (Erc20BalanceOf token account)).
Definition erc20_allowance (token owner spender : Address) : views (result U256 ReadError) :=
  map_err read_contract (look (Erc20Allowance token owner spender)).
Definition erc721_owner_of (token : Address) (token_id : U256) : views (result Address ReadError) :=
  map_err read_contract (look (Erc721OwnerOf token token_id)).
Definition erc721_balance (token account : Address) : views (result U256 ReadError) :=
  map_err read_contract (look (Erc721BalanceOf token account)).
Definition erc1155_balance (token account : Address) (id : U256) : views (result U256 ReadError) :=
  map_err read_contract (look (Erc1155BalanceOf token account id)).

Definition decode_decimals (r : MulticallResult) : result Z ReadError :=
  match decode_u256 r with
  | Some v => if v <=? u8_max then Ok v else Err (Decode "erc20 decimals")
  | None => Err (Decode "erc20 decimals")
  end.

Definition erc20_metadata (token : Address) : views (result Erc20Metadata ReadError) :=
  let mc := mc_push token abi_decimals (mc_push token abi_symbol (mc_push token abi_name Multicall_new)) in
  let? results := map_err Read_Rpc (multicall_call mc) in
  Ret match results with
      | [name; symbol; decimals] =>
          match decode_metadata_string name "erc20 name" with
          | Err e => Err e
          | Ok name =>
              match decode_metadata_string symbol "erc20 symbol" with
              | Err e => Err e
              | Ok symbol =>
                  match decode_decimals decimals with
                  | Err e => Err e
                  | Ok decimals => Ok (mkErc20Metadata name symbol decimals)
                  end
              end
          end
      | _ => Err (Decode "erc20 metadata")
      end.

(** [mc.add_eth_balance(account)] and one [balanceOf] per token. *)
Definition balances_batch (account : Address) (tokens : list Address) : Multicall :=
  fold_left (fun m token => mc_push token (abi_balance_of account) m) tokens
    (mc_push MULTICALL3_ADDRESS (abi_get_eth_balance account) Multicall_new).

Definition token_balance (token : Address) (r : MulticallResult) : TokenBalance :=
  mkTokenBalance token (ok_or (decode_u256 r) (Decode "erc20 balance")).

Definition balances (account : Address) (tokens : list Address) : views (result AccountBalances ReadError) :=
  let? results := map_err Read_Rpc (multicall_call (balances_batch account tokens)) in
  Ret match results with
      | [] => Err (Decode "empty multicall")
      | native :: token_results =>
          if negb (length token_results =? length tokens)%nat then Err (Decode "multicall result length")
          else
            match decode_u256 native with
            | None => Err (Decode "native balance")
            | Some native => Ok (mkAccountBalances native (zip_with token_balance tokens token_results))
            end
      end.
End Read.

(** ** UTF-8 properties *)

Lemma utf8_fit_ok ranges bs n :
  utf8_fit ranges bs = (n, true) ->
  (n <= length bs)%nat /\ forall tail, utf8_fit ranges (take n bs ++ tail) = (n, true).
Proof.
  revert bs n. induction ranges as [|r ranges IH]; intros bs n; simpl.
  - intros [= <-]. split; [lia|]. done.
  - destruct bs as [|b bs]; [done|]. destruct (r b) eqn:Hr; [|done].
    destruct (utf8_fit ranges bs) as [m ok] eqn:Hf. intros [= <- ->].
    destruct (IH bs m Hf) as [Hm Ht]. split; [simpl; lia|]. intros tail. simpl. by rewrite Hr, Ht.
Qed.

Lemma utf8_seq_valid b ranges rest n tail :
  utf8_rest b = Some ranges -> utf8_fit ranges rest = (n, true) -> valid_utf8 tail ->
  valid_utf8 (b :: take n rest ++ tail).
Proof.
  intros Hb Hf Ht. destruct (utf8_fit_ok _ _ _ Hf) as [Hn Hf']. econstructor; [exact Hb|apply Hf'|].
  rewrite drop_app_length'; [done|]. rewrite length_take. lia.
Qed.

Lemma replacement_valid tail : valid_utf8 tail -> valid_utf8 (REPLACEMENT ++ tail).
Proof.
  intros Ht. change (REPLACEMENT ++ tail)
    with (byte_of_Z 0xef :: take 2 [byte_of_Z 0xbf; byte_of_Z 0xbd] ++ tail).
  by eapply utf8_seq_valid.
Qed.

Lemma utf8_lossy_fuel_valid fuel bs : valid_utf8 (utf8_lossy_fuel fuel bs).
Proof.
  revert bs. induction fuel as [|fuel IH]; intros [|b rest]; simpl; try constructor.
  destruct (utf8_rest b) as [ranges|] eqn:Hb; [|by apply replacement_valid].
  destruct (utf8_fit ranges rest) as [n []] eqn:Hf; [|by apply replacement_valid].
  by eapply utf8_seq_valid.
Qed.

Lemma utf8_lossy_fuel_id fuel bs : valid_utf8 bs -> (length bs <= fuel)%nat -> utf8_lossy_fuel fuel bs = bs.
Proof.
  intros Hv. revert fuel. induction Hv as [|b ranges rest n Hb Hf _ IH]; intros [|fuel] Hl; simpl in *; try done; try lia.
  rewrite Hb, Hf. rewrite IH by (rewrite length_drop; lia). simpl. by rewrite take_drop.
Qed.

(** The lossy conversion yields well-formed UTF-8, and leaves well-formed text alone. *)
Lemma utf8_lossy_spec bs :
  valid_utf8 (utf8_lossy bs) /\ (valid_utf8 bs -> utf8_lossy bs = bs).
Proof. split; [apply utf8_lossy_fuel_valid|]. intros Hv. by apply utf8_lossy_fuel_id. Qed.

Example utf8_lossy_bad :
  utf8_lossy (map byte_of_Z [0x4d; 0xe2; 0x82; 0x41; 0xff]) = map byte_of_Z [0x4d; 0xef; 0xbf; 0xbd; 0x41; 0xef; 0xbf; 0xbd].
Proof. reflexivity. Qed.

(** ** Batches *)

(** A batch executed in one go. *)
Definition exec_env (exec : Call3 -> MulticallResult) (v : view) : view_resp v -> Prop :=
  match v return view_resp v -> Prop with
  | Aggregate3 _ calls => fun r => r = Ok (map exec calls)
  | _ => fun _ => True
  end.

Definition ev_aggregate (e : event view_resp) : option (list Call3 * result (list MulticallResult) ContractError) :=
  match e with existT (Aggregate3 _ calls) r => Some (calls, r) | _ => None end.
Definition aggregates (tr : view_history) := omap ev_aggregate tr.

(** Every round trip carries between one and 400 calls, to Multicall3 alone. *)
Definition batch_guard (address : Address) (_ : view_history) (v : view) : Prop :=
  match v with
  | Aggregate3 a calls => a = address /\ calls <> [] /\ (length calls <= MAX_CALLS_PER_BATCH)%nat
  | _ => False
  end.

Lemma multicall_chunks_exec exec address cs out tr :
  Forall (fun c => c <> [] /\ (length c <= MAX_CALLS_PER_BATCH)%nat) cs ->
  triple (exec_env exec) (batch_guard address) (multicall_chunks address cs out) tr
    (fun tr' r => r = Ok (out ++ map exec (concat cs)) /\
       length (aggregates tr') = (length cs + length (aggregates tr))%nat).
Proof.
  revert out tr. induction cs as [|c cs IH]; intros out tr Hcs; cbn [multicall_chunks].
  - simpl. by rewrite app_nil_r.
  - inversion Hcs as [|? ? [Hne Hle] Hcs']; subst. unfold look, map_err, try_bind. wp_simpl.
    apply triple_call; [done|]. intros r Hr. simpl in Hr. subst r. wp_simpl.
    eapply triple_mono; [|by apply IH]. intros tr' r [-> Hn]. simpl in Hn. split; [|simpl; lia].
    simpl. by rewrite map_app, app_assoc.
Qed.

(** C37: chunking a batch changes nothing but the number of round trips.  However many
    calls were queued, the results are those of one unchunked batch, in call order; they
    take as many round trips as runs of 400 need, none empty or larger; and no call at all
    when nothing was queued. *)
Theorem multicall_is_unchunked (exec : Call3 -> MulticallResult) (m : Multicall) (tr : view_history) :
  triple (exec_env exec) (batch_guard (mc_address m)) (multicall_call m) tr
    (fun tr' r => r = Ok (map exec (mc_calls m)) /\
       Z.of_nat (length (aggregates tr'))
         = div_ceil (Z.of_nat (length (mc_calls m))) 400 + Z.of_nat (length (aggregates tr))).
Proof.
  unfold multicall_call. destruct (chunks_spec MAX_CALLS_PER_BATCH (mc_calls m)) as (Hc & Hb & Hk);
    [unfold MAX_CALLS_PER_BATCH; lia|].
  eapply triple_mono; [|by apply multicall_chunks_exec]. intros tr' r [-> Hn]. rewrite Hc.
  split; [done|]. rewrite Hn, Nat2Z.inj_add, Hk. done.
Qed.

(** ** Balances *)

Section Balances.
Context (abi_balance_of : Address -> Bytes) (abi_get_eth_balance : Address -> Bytes).
Context (abi_decode_u256 : Bytes -> option U256).

Abbreviation decode := (decode_u256 abi_decode_u256).
Definition native_call (account : Address) : Call3 :=
  mkCall3 MULTICALL3_ADDRESS true (abi_get_eth_balance account).
Definition token_call (account token : Address) : Call3 := mkCall3 token true (abi_balance_of account).

Lemma balances_batch_calls account tokens :
  mc_calls (balances_batch abi_balance_of abi_get_eth_balance account tokens)
    = native_call account :: map (token_call account) tokens /\
  mc_address (balances_batch abi_balance_of abi_get_eth_balance account tokens) = MULTICALL3_ADDRESS.
Proof.
  assert (Hg : forall m, let m' := fold_left (fun m token => mc_push token (abi_balance_of account) m) tokens m in
    mc_calls m' = mc_calls m ++ map (token_call account) tokens /\ mc_address m' = mc_address m).
  { induction tokens as [|t tokens IH]; intros m; simpl; [by rewrite app_nil_r|].
    destruct (IH (mc_push t (abi_balance_of account) m)) as [-> ->]. simpl. by rewrite <- app_assoc. }
  apply Hg.
Qed.

Lemma zip_with_map_r {A B C} (f : A -> B -> C) (g : A -> B) (l : list A) :
  zip_with f l (map g l) = map (fun x => f x (g x)) l.
Proof. induction l as [|x l IH]; simpl; [done|]. by rewrite IH. Qed.

Lemma balances_honest exec account tokens tr :
  triple (exec_env exec) (batch_guard MULTICALL3_ADDRESS)
    (balances abi_balance_of abi_get_eth_balance abi_decode_u256 account tokens) tr
    (fun _ r => r =
       match decode (exec (native_call account)) with
       | None => Err (Decode "native balance")
       | Some native =>
           Ok (mkAccountBalances native
             (map (fun t => token_balance abi_decode_u256 t (exec (token_call account t))) tokens))
       end).
Proof.
  destruct (balances_batch_calls account tokens) as [Hc Ha].
  destruct (chunks_spec MAX_CALLS_PER_BATCH (native_call account :: map (token_call account) tokens))
    as (Hcc & Hb & _); [unfold MAX_CALLS_PER_BATCH; lia|].
  unfold balances, multicall_call, map_err, try_bind. rewrite Hc, Ha.
  apply triple_bind, triple_bind. eapply triple_mono; [|by apply multicall_chunks_exec].
  intros tr' r [-> _]. rewrite Hcc. simpl. rewrite !length_map, Nat.eqb_refl. simpl.
  destruct (decode _); [|done]. by rewrite map_map, zip_with_map_r.
Qed.

Lemma zip_with_tokens rs tokens :
  length rs = length tokens ->
  map tbal_token (zip_with (token_balance abi_decode_u256) tokens rs) = tokens.
Proof.
  revert rs. induction tokens as [|t tokens IH]; intros [|r rs] Hl; simpl in *; try done.
  by rewrite IH by lia.
Qed.

(** The results of the batches answered, in call order. *)
Definition ev_results (e : event view_resp) : option (list MulticallResult) :=
  match e with existT (Aggregate3 _ _) (Ok rs) => Some rs | _ => None end.
Definition gathered (new : view_history) : list MulticallResult := concat (rev (omap ev_results new)).
(** The latest call was a batch that failed with [ce]. *)
Definition batch_failed (new : view_history) (ce : ContractError) : Prop :=
  exists address calls, head new = Some (existT (Aggregate3 address calls) (Err ce)).

Lemma multicall_chunks_any address cs out done tr :
  out = gathered done ->
  triple any_env any_call (multicall_chunks address cs out) (done ++ tr) (fun tr' r => exists new, tr' = new ++ tr /\
    match r with
    | Ok rs => rs = gathered new
    | Err e => exists ce, batch_failed new ce /\ e = contract_error ce
    end).
Proof.
  revert out done. induction cs as [|c cs IH]; intros out done ->; cbn [multicall_chunks]; [by exists done|].
  unfold look, map_err, try_bind. wp_simpl. apply triple_call; [done|]. intros [rs|ce] _; wp_simpl.
  - apply (IH _ (existT (Aggregate3 address c) (Ok rs) :: done)). unfold gathered. cbn [omap list_omap ev_results rev].
    rewrite concat_app. cbn. by rewrite app_nil_r.
  - exists (existT (Aggregate3 address c) (Err ce) :: done). split; [done|]. exists ce. split; [by eexists _, _|done].
Qed.

(** How a scan ends, read off the batches [new] it made. *)
Definition scan_outcome (tokens : list Address) (new : view_history) (r : result AccountBalances ReadError) : Prop :=
  match r with
  | Ok b => exists native rs, gathered new = native :: rs /\ length rs = length tokens /\
      decode native = Some (ab_native b) /\ map tbal_token (ab_tokens b) = tokens /\
      ab_tokens b = zip_with (token_balance abi_decode_u256) tokens rs
  | Err (Read_Rpc e) => exists ce, batch_failed new ce /\ e = contract_error ce
  | Err (Decode d) =>
      (gathered new = [] /\ d = "empty multicall") \/
      exists native rs, gathered new = native :: rs /\
        ((length rs <> length tokens /\ d = "multicall result length") \/
         (length rs = length tokens /\ decode native = None /\ d = "native balance"))
  end.

Lemma balances_any account tokens tr :
  triple any_env any_call
    (balances abi_balance_of abi_get_eth_balance abi_decode_u256 account tokens) tr
    (fun tr' r => exists new, tr' = new ++ tr /\ scan_outcome tokens new r).
Proof.
  unfold balances, map_err at 1, try_bind at 1. apply triple_bind, triple_bind. unfold multicall_call.
  eapply triple_mono; [|by apply (multicall_chunks_any _ _ [] [] tr)].
  intros tr' [results|e] (new & -> & H); simpl; exists new; (split; [done|]); [|done].
  subst results. destruct (gathered new) as [|native rs] eqn:Hg; [left; auto|].
  destruct (length rs =? length tokens)%nat eqn:Hl; simpl.
  - apply Nat.eqb_eq in Hl. destruct (decode native) as [n|] eqn:Hd; unfold scan_outcome; rewrite Hg.
    + exists native, rs. split_and!; try done. by apply zip_with_tokens.
    + right. exists native, rs. split; [done|]. right. auto.
  - apply Nat.eqb_neq in Hl. unfold scan_outcome. rewrite Hg. right. exists native, rs. split; [done|]. by left.
Qed.

(** C38: a balance scan is aligned with the tokens asked for and isolates bad tokens.
    Whatever the node answers, a result lists exactly the requested tokens in order, each
    with its own sub-result; and the scan fails only because a batch did (with that error), or
    the node gave no results, or not one for each token and the native balance, or an
    undecodable native balance.  When the batches execute as Multicall3 does, each token's
    entry depends on that token's own sub-call alone (a reverting or malformed one is an error
    of its entry), and only an undecodable native balance fails the scan. *)
Theorem balances_aligned_isolated (exec : Call3 -> MulticallResult) (account : Address)
    (tokens : list Address) (tr : view_history) :
  let scan := balances abi_balance_of abi_get_eth_balance abi_decode_u256 account tokens in
  triple any_env any_call scan tr
    (fun tr' r => exists new, tr' = new ++ tr /\ scan_outcome tokens new r) /\
  triple (exec_env exec) (batch_guard MULTICALL3_ADDRESS) scan tr
    (fun _ r => r =
       match decode (exec (native_call account)) with
       | None => Err (Decode "native balance")
       | Some native =>
           Ok (mkAccountBalances native
             (map (fun t => token_balance abi_decode_u256 t (exec (token_call account t))) tokens))
       end).
Proof. split; [apply balances_any|apply balances_honest]. Qed.
End Balances.

(** ** Metadata *)

Lemma take_while_nonzero_padded text pad :
  Forall (fun b => byte_to_Z b <> 0) text -> take_while_nonzero (text ++ replicate pad Byte.x00) = text.
Proof.
  intros Ht. induction Ht as [|b text Hb _ IH]; simpl; [by destruct pad|].
  destruct (byte_to_Z b =? 0) eqn:E; [by apply Z.eqb_eq in E|]. by rewrite IH.
Qed.

(** Legacy tokens whose [name()] is a null-padded [bytes32] read as their text.  An
    ABI string takes precedence; a failed sub-call or an empty name is an error naming the
    field; and whatever bytes the token returned, the fallback yields well-formed UTF-8,
    exactly the text when it was well-formed. *)
Theorem metadata_string_bytes32 (abi_decode_string : Bytes -> option Bytes) (r : MulticallResult)
    (context : string) :
  match decode_metadata_string abi_decode_string r context with
  | Err e => e = Decode context /\
      (mr_success r = false \/
       (abi_decode_string (mr_return_data r) = None /\ take_while_nonzero (take 32 (mr_return_data r)) = []))
  | Ok s => mr_success r = true /\
      (abi_decode_string (mr_return_data r) = Some s \/
       (abi_decode_string (mr_return_data r) = None /\ valid_utf8 s /\
        forall text pad, text <> [] -> Forall (fun b => byte_to_Z b <> 0) text -> valid_utf8 text ->
          mr_return_data r = text ++ replicate pad Byte.x00 -> (length text + pad)%nat = 32%nat -> s = text))
  end.
Proof.
  unfold decode_metadata_string, decode_string. destruct (mr_success r) eqn:Hs; [|by split; [|left]].
  simpl. destruct (abi_decode_string (mr_return_data r)) as [s|] eqn:Hd; [by split; [|left]|].
  destruct (take_while_nonzero (take 32 (mr_return_data r))) as [|b bs] eqn:Ht; [by split; [|right]|].
  split; [done|]. right. split_and!; [done|apply utf8_lossy_spec|].
  intros text pad Hne Hnz Hv Hr Hlen. rewrite Hr in Ht.
  rewrite take_ge in Ht by (rewrite length_app, length_replicate; lia).
  rewrite take_while_nonzero_padded in Ht by done. rewrite <- Ht. by apply utf8_lossy_spec.
Qed.

Lemma metadata_string_err abi_decode_string r context e :
  decode_metadata_string abi_decode_string r context = Err e -> e = Decode context.
Proof. unfold decode_metadata_string. repeat case_match; congruence. Qed.

(** [erc20_metadata] reads the three fields in one batch of three calls to the token, and
    its decimals fit a byte. *)
Theorem erc20_metadata_spec (abi_name abi_symbol abi_decimals : Bytes)
    (abi_decode_u256 : Bytes -> option U256) (abi_decode_string : Bytes -> option Bytes)
    (exec : Call3 -> MulticallResult) (token : Address) (tr : view_history) :
  let at_token data := exec (mkCall3 token true data) in
  triple (exec_env exec) (batch_guard MULTICALL3_ADDRESS)
    (erc20_metadata abi_name abi_symbol abi_decimals abi_decode_u256 abi_decode_string token) tr
    (fun tr' r => length (aggregates tr') = S (length (aggregates tr)) /\
       match r with
       | Ok md =>
           decode_metadata_string abi_decode_string (at_token abi_name) "erc20 name" = Ok (md_name md) /\
           decode_metadata_string abi_decode_string (at_token abi_symbol) "erc20 symbol" = Ok (md_symbol md) /\
           decode_u256 abi_decode_u256 (at_token abi_decimals) = Some (md_decimals md) /\ md_decimals md <= u8_max
       | Err e => exists c, e = Decode c
       end).
Proof.
  intros at_token. unfold erc20_metadata, multicall_call, map_err, try_bind. apply triple_bind, triple_bind.
  eapply triple_mono; [|apply multicall_chunks_exec; apply chunks_spec; unfold MAX_CALLS_PER_BATCH; lia].
  intros tr' r [-> Hn]. simpl. split; [exact Hn|]. unfold at_token.
  destruct (decode_metadata_string _ _ "erc20 name") as [n|e] eqn:E1; [|eauto using metadata_string_err].
  destruct (decode_metadata_string _ _ "erc20 symbol") as [y|e] eqn:E2; [|eauto using metadata_string_err].
  unfold decode_decimals. destruct (decode_u256 _ _) as [v|] eqn:E3; [|eauto].
  destruct (v <=? u8_max) eqn:Hv; [|eauto]. bool_simpl. done.
Qed.
