(* ===== verification/Keys.v ===== *)
(** * Keys: where signers come from, and what a watch-only service can see

    The key loaders of [src/src/adapters/signers.rs], the seed-owning half of
    [src/src/adapters/accounts.rs] (generation, restoration, labels, signers and the
    extended public key) and the keyless half of [src/src/core/accounts/primitives.rs]
    ([derive_address], [predict_address_checked]).  BIP-39, BIP-32, keystore encryption
    and the key type are the classes [Bip39], [Bip32] and [KeyLoading], with the laws the
    standards document; the theorems are about what walletkit builds from them: a phrase
    that was generated restores the same manager, a signer has the address of its account,
    and a watch-only service derives the addresses the seed derives. *)
From stdpp Require Import pretty.
From S2P Require Import Prelude Effects Primitives Errors Ports Signer Accounts TransportBuild Read.

(** ** The third-party crates *)

(** coins_bip39: mnemonics, their entropy and their text. *)
Class Bip39 : Type := {
  Mnemonic : Type;
  Entropy : Type;
  entropy_from_slice : Bytes -> result Entropy string;
  new_from_entropy : Entropy -> Mnemonic;
  to_phrase : Mnemonic -> string;
  new_from_phrase : string -> result Mnemonic string;
}.

(** [phrase.split(' ').count()]. *)
Fixpoint split_count (phrase : string) : nat :=
  match phrase with
  | EmptyString => 1
  | String c rest => if Ascii.eqb c (Ascii.ascii_of_nat 32) then S (split_count rest) else split_count rest
  end.

(** BIP-39: entropy has 128, 160, 192, 224 or 256 bits; with a checksum bit for every 32 of
    them the phrase has a word for every 11 bits; and a printed phrase reads back. *)
Class Bip39Laws `{Bip39} : Prop := {
  entropy_sizes : forall bytes,
    is_ok (entropy_from_slice bytes) = true <-> length bytes ∈ [16; 20; 24; 28; 32]%nat;
  phrase_length : forall bytes ent, entropy_from_slice bytes = Ok ent ->
    (11 * split_count (to_phrase (new_from_entropy ent)) = 8 * length bytes + length bytes / 4)%nat;
  phrase_reads_back : forall m, new_from_phrase (to_phrase m) = Ok m;
}.

(** coins_bip32: extended keys.  [derive_key] is [Mnemonic::derive_key] at a textual path. *)
Class Bip32 `{Bip39} : Type := {
  XPriv : Type;
  XPub : Type;
  derive_key : Mnemonic -> string -> option string -> result XPriv string;
  verify_key : XPriv -> XPub;
  xpriv_child : XPriv -> Z -> result XPriv string;
  xpub_child : XPub -> Z -> result XPub string;
  xpub_derive_path : XPub -> list Z -> result XPub string;
  public_key_to_address : XPub -> Address;
}.

(** Indices from here on are hardened. *)
Definition HARDENED : Z := 2 ^ 31.

(** The standard: a longer path derives the child of the shorter one, a path is derived
    step by step, a normal child's public key is the public child, and a hardened child
    has none. *)
Class Bip32Laws `{Bip32} : Prop := {
  derive_key_extend : forall m path pw x i, 0 <= i < HARDENED ->
    derive_key m path pw = Ok x ->
    match xpriv_child x i with
    | Ok y => derive_key m (path ++ "/" ++ pretty i)%string pw = Ok y
    | Err _ => is_ok (derive_key m (path ++ "/" ++ pretty i)%string pw) = false
    end;
  xpub_path_nil : forall x, xpub_derive_path x [] = Ok x;
  xpub_path_cons : forall x i l,
    xpub_derive_path x (i :: l) =
      match xpub_child x i with Ok y => xpub_derive_path y l | Err e => Err e end;
  neuter_child : forall x i, 0 <= i < HARDENED ->
    match xpriv_child x i with
    | Ok y => xpub_child (verify_key x) i = Ok (verify_key y)
    | Err _ => is_ok (xpub_child (verify_key x) i) = false
    end;
  hardened_child : forall x i, HARDENED <= i -> is_ok (xpub_child x i) = false;
  derive_needs_prefix : forall m path pw i, 0 <= i < HARDENED ->
    is_ok (derive_key m path pw) = false ->
    is_ok (derive_key m (path ++ "/" ++ pretty i)%string pw) = false;
}.

(** alloy's loaders: [PrivateKeySigner] from hex and from a keystore file, and
    [MnemonicBuilder].  [Fs] is the state of the file system. *)
Class KeyLoading : Type := {
  Fs : Type;
  DerivationPath : Type;
  parse_private_key : string -> result LocalSigner string;
  to_bytes : LocalSigner -> Bytes;
  decrypt_keystore : Fs -> string -> string -> result LocalSigner string;
  encrypt_keystore : Fs -> string -> Bytes -> Bytes -> string -> Fs * result string string;
  builder_index : Z -> result DerivationPath string;
  builder_derivation_path : string -> result DerivationPath string;
  builder_build : string -> DerivationPath -> option string -> result LocalSigner string;
}.

(** ** Loading a [LocalSigner] *)

Section Loaders.
Context `{KeyLoading}.

Definition load {T} (r : result T string) : result T SignerError := map_res_err Signer_Load r.

Definition from_private_key (hex : string) : result LocalSigner SignerError :=
  load (parse_private_key hex).

(** [env] is [std::env::var]. *)
Definition from_env (env : string -> result string string) (var : string)
  : result LocalSigner SignerError :=
  match env var with
  | Err e => Err (Signer_Load ("env `" ++ var ++ "`: " ++ e))
  | Ok secret => from_private_key secret
  end.

Definition from_keystore (fs : Fs) (path password : string) : result LocalSigner SignerError :=
  load (decrypt_keystore fs path password).

(** [Path::join] on Unix paths. *)
Definition path_join (dir name : string) : string :=
  if String.prefix "/" name then name
  else if bool_decide (dir = EmptyString) then name
  else if bool_decide (String.substring (String.length dir - 1) 1 dir = "/") then dir ++ name
  else dir ++ "/" ++ name.

(** [rng] is what the OS generator yields to the encryption. *)
Definition export_keystore (fs : Fs) (rng : Bytes) (self : LocalSigner) (dir password : string)
  : Fs * result string SignerError :=
  let key := to_bytes self in
  let (fs', r) := encrypt_keystore fs dir rng key password in
  (fs', match load r with Err e => Err e | Ok name => Ok (path_join dir name) end).

Definition from_mnemonic (phrase : string) (index : Z) : result LocalSigner SignerError :=
  match load (builder_index index) with
  | Err e => Err e
  | Ok path => load (builder_build phrase path None)
  end.

Definition from_mnemonic_path (phrase path : string) (password : option string)
  : result LocalSigner SignerError :=
  match load (builder_derivation_path path) with
  | Err e => Err e
  | Ok path => load (builder_build phrase path password)
  end.
End Loaders.

(** ** The account manager's seed *)

Section Seed.
Context `{Bip32} `{KeyLoading}.

Definition manager_new (phrase : string) : AccountManager :=
  mkAccountManager phrase None Bip44Standard ∅.

(** [try_fill] is the generator's [try_fill_bytes] on a buffer of the given length. *)
Definition generate_with (words : WordCount) (try_fill : nat -> result Bytes string)
  : result AccountManager AccountError :=
  match try_fill (entropy_len words) with
  | Err e => Err (Rng e)
  | Ok entropy =>
      match entropy_from_slice entropy with
      | Err e => Err (Rng e)
      | Ok ent => Ok (manager_new (to_phrase (new_from_entropy ent)))
      end
  end.

(** [OsRng] is the generator of the process. *)
Definition generate (OsRng : nat -> result Bytes string) (words : WordCount)
  : result AccountManager AccountError := generate_with words OsRng.

Definition from_phrase (phrase : string) : result AccountManager AccountError :=
  match new_from_phrase phrase with
  | Err _ => Err InvalidPhrase
  | Ok _ => Ok (manager_new phrase)
  end.

Definition password (self : AccountManager) : option string := am_passphrase self.

(** The two parameters of address derivation in [Accounts], from the mnemonic crate. *)
Definition mnemonic_valid (phrase : string) : bool := is_ok (new_from_phrase phrase).
Definition derive_key_address (phrase path : string) (pw : option string) : result Address string :=
  match new_from_phrase phrase with
  | Err e => Err e
  | Ok m =>
      match derive_key m path pw with
      | Err e => Err e
      | Ok x => Ok (public_key_to_address (verify_key x))
      end
  end.

Definition seed_account_at_path := account_at_path mnemonic_valid derive_key_address.
Definition seed_account := account mnemonic_valid derive_key_address.

(** The iteration order of [labels] is unspecified: [iter] lists the entries in some order. *)
Definition account_by_label (iter : gmap Z string -> list (Z * string)) (self : AccountManager)
    (name : string) : option Account :=
  match list_find (fun kv => kv.2 = name) (iter (am_labels self)) with
  | Some (_, (i, _)) => result_ok (seed_account self i)
  | None => None
  end.

Definition signer_at_path (self : AccountManager) (path : string) : result LocalSigner AccountError :=
  map_res_err (fun e => Derivation (SignerError_to_string e)) (from_mnemonic_path (am_phrase self) path (password self)).

Definition signer (self : AccountManager) (index : Z) : result LocalSigner AccountError :=
  match path_for (am_scheme self) index with
  | Err e => Err e
  | Ok path => signer_at_path self path
  end.

Definition account_path (account : Z) : string := "m/44'/60'/" ++ pretty account ++ "'".

Definition account_xpub (self : AccountManager) (account : Z) : result XPub AccountError :=
  match new_from_phrase (am_phrase self) with
  | Err _ => Err InvalidPhrase
  | Ok mnemonic =>
      match derive_key mnemonic (account_path account) (password self) with
      | Err e => Err (Derivation e)
      | Ok xpriv => Ok (verify_key xpriv)
      end
  end.

Definition derive_address (xpub : XPub) (index : Z) : result Address AccountError :=
  match xpub_derive_path xpub [0; index] with
  | Err e => Err (Derivation e)
  | Ok child => Ok (public_key_to_address child)
  end.
End Seed.

Definition predict_address_checked (create2 : Address -> B256 -> B256 -> Address) (params : PredictParams)
  : views (result PredictedAccount AccountError) :=
  let acct := predict_address create2 params in
  let? deployed := map_err Account_Read (is_contract (pred_address acct)) in
  Ret (Ok (mkPredicted (pred_address acct) (pred_salt acct) (pred_deploy acct) (Some deployed))).

(** ** What the loaders promise *)

(** [MnemonicBuilder] loads the key BIP-32 derives: the index shortcut is the default
    Ethereum path, and a built signer has the address of the derived key. *)
Class KeyLoadingLaws `{Bip32} `{KeyLoading} : Prop := {
  index_is_default_path : forall i,
    builder_index i = builder_derivation_path ("m/44'/60'/0'/0/" ++ pretty i);
  builder_refuses_bad_path : forall path m pw,
    is_ok (builder_derivation_path path) = false -> is_ok (derive_key m path pw) = false;
  builder_builds_derived_key : forall phrase path dp pw,
    builder_derivation_path path = Ok dp ->
    ls_address <$> result_ok (builder_build phrase dp pw) =
      result_ok (derive_key_address phrase path pw);
}.

(** A keystore written under [dir] decrypts to the key it was given. *)
Class KeystoreLaws `{KeyLoading} : Prop := {
  keystore_reads_back : forall fs dir rng key pw fs' name,
    encrypt_keystore fs dir rng key pw = (fs', Ok name) ->
    exists s, decrypt_keystore fs' (path_join dir name) pw = Ok s /\ to_bytes s = key;
}.

Section Derivation.
Context `{HB : Bip39} `{!Bip39Laws} `{HD : !Bip32} `{!Bip32Laws} `{HL : KeyLoading} `{!KeyLoadingLaws}.

Lemma result_ok_map_err {T E F} (f : E -> F) (r : result T E) : result_ok (map_res_err f r) = result_ok r.
Proof. by destruct r. Qed.

Lemma address_at_path_ok self path :
  result_ok (address_at_path mnemonic_valid derive_key_address self path) =
  result_ok (derive_key_address (am_phrase self) path (am_passphrase self)).
Proof.
  unfold address_at_path, mnemonic_valid, derive_key_address.
  destruct (new_from_phrase (am_phrase self)) as [m|]; [|done]. simpl. by rewrite result_ok_map_err.
Qed.

Lemma account_at_path_address self path :
  acc_address <$> result_ok (seed_account_at_path self path) =
  result_ok (derive_key_address (am_phrase self) path (am_passphrase self)).
Proof.
  rewrite <-address_at_path_ok. unfold seed_account_at_path, account_at_path. by case_match.
Qed.

Lemma account_address self i :
  acc_address <$> result_ok (seed_account self i) =
  match path_for (am_scheme self) i with
  | Ok path => result_ok (derive_key_address (am_phrase self) path (am_passphrase self))
  | Err _ => None
  end.
Proof.
  unfold seed_account, account. destruct (path_for _ i) as [path|]; [|done].
  rewrite <-address_at_path_ok. by case_match.
Qed.

Lemma from_mnemonic_path_address phrase path pw :
  ls_address <$> result_ok (from_mnemonic_path phrase path pw) =
  result_ok (derive_key_address phrase path pw).
Proof.
  unfold from_mnemonic_path, load. destruct (builder_derivation_path path) as [dp|] eqn:E; simpl.
  - rewrite result_ok_map_err. by apply builder_builds_derived_key.
  - unfold derive_key_address. destruct (new_from_phrase phrase) as [m|]; [|done].
    pose proof (builder_refuses_bad_path path m pw) as Hbad. rewrite E in Hbad.
    specialize (Hbad eq_refl). by destruct (derive_key m path pw).
Qed.

Lemma signer_at_path_address self path :
  ls_address <$> result_ok (signer_at_path self path) =
  result_ok (derive_key_address (am_phrase self) path (am_passphrase self)).
Proof. unfold signer_at_path. rewrite result_ok_map_err. apply from_mnemonic_path_address. Qed.

(** One public step follows one private step. *)
Lemma derive_key_step m path pw x i :
  0 <= i < HARDENED -> derive_key m path pw = Ok x ->
  verify_key <$> result_ok (derive_key m (path ++ "/" ++ pretty i) pw) = result_ok (xpub_child (verify_key x) i).
Proof.
  intros Hi Hx. pose proof (derive_key_extend m path pw x i Hi Hx) as He.
  pose proof (neuter_child x i Hi) as Hn.
  destruct (xpriv_child x i) as [y|]; [by rewrite He, Hn|].
  destruct (derive_key m (path ++ "/" ++ pretty i) pw), (xpub_child (verify_key x) i); done.
Qed.

(** ... and so along every path of normal steps. *)
Definition extend_path (path : string) (l : list Z) : string :=
  foldl (fun p i => p ++ "/" ++ pretty i)%string path l.

Lemma derive_key_fails m path pw l :
  Forall (fun i => 0 <= i < HARDENED) l -> is_ok (derive_key m path pw) = false ->
  result_ok (derive_key m (extend_path path l) pw) = None.
Proof.
  intros Hl. revert path. induction Hl as [|i l Hi Hl IH]; intros path Hf; simpl.
  - by destruct (derive_key m path pw).
  - apply IH. by apply derive_needs_prefix.
Qed.

Lemma derive_key_path m pw l path x :
  Forall (fun i => 0 <= i < HARDENED) l -> derive_key m path pw = Ok x ->
  verify_key <$> result_ok (derive_key m (extend_path path l) pw) =
  result_ok (xpub_derive_path (verify_key x) l).
Proof.
  intros Hl. revert path x. induction Hl as [|i l Hi Hl IH]; intros path x Hx; simpl.
  - by rewrite Hx, xpub_path_nil.
  - rewrite xpub_path_cons. pose proof (derive_key_step m path pw x i Hi Hx) as Hs.
    destruct (derive_key m (path ++ "/" ++ pretty i) pw) as [y|] eqn:Hy; simpl in Hs.
    + destruct (xpub_child (verify_key x) i) as [z|]; simplify_eq/=. by apply IH.
    + destruct (xpub_child (verify_key x) i) as [z|]; simplify_eq/=.
      rewrite derive_key_fails; [done..|]. by rewrite Hy.
Qed.

Lemma derive_address_ok m pw path x i :
  0 <= i < HARDENED -> derive_key m path pw = Ok x ->
  result_ok (derive_address (verify_key x) i) =
  (fun y => public_key_to_address (verify_key y)) <$>
    result_ok (derive_key m (path ++ "/0/" ++ pretty i) pw).
Proof.
  intros Hi Hx. unfold derive_address.
  assert (Hl : Forall (fun j => 0 <= j < HARDENED) [0; i]) by (repeat constructor; unfold HARDENED in *; lia).
  pose proof (derive_key_path m pw [0; i] path x Hl Hx) as Hp. simpl in Hp.
  rewrite !string_app_assoc in Hp.
  change ("/" ++ pretty 0 ++ "/" ++ pretty i)%string with ("/0/" ++ pretty i)%string in Hp.
  destruct (derive_key m (path ++ "/0/" ++ pretty i) pw), (xpub_derive_path (verify_key x) [0; i]);
    simplify_eq/=; congruence.
Qed.

(** A signer for an index (or a path) exists exactly when the account does, and it
    signs for that account's address; the bare loader [from_mnemonic] is the signer of the
    default scheme without a passphrase. *)
Theorem signer_is_for_its_account self index path :
  ls_address <$> result_ok (signer self index) = acc_address <$> result_ok (seed_account self index) /\
  ls_address <$> result_ok (signer_at_path self path) =
    acc_address <$> result_ok (seed_account_at_path self path) /\
  ls_address <$> result_ok (from_mnemonic (am_phrase self) index) =
    acc_address <$> result_ok (seed_account (manager_new (am_phrase self)) index).
Proof.
  rewrite !account_address, account_at_path_address. split_and!.
  - unfold signer. destruct (path_for _ index); [|done]. apply signer_at_path_address.
  - apply signer_at_path_address.
  - simpl. rewrite <-from_mnemonic_path_address. unfold from_mnemonic, from_mnemonic_path.
    by rewrite index_is_default_path.
Qed.

(** C35: What the account's extended public key shows a watch-only service is what the
    seed derives: at every normal index the address of the full path (so the standard
    scheme's accounts under account 0, the Ledger Live scheme's at index 0), failing
    together; and no address at a hardened index. *)
Theorem watch_only_matches_seed self acct xpub :
  account_xpub self acct = Ok xpub ->
  (forall i, 0 <= i < HARDENED ->
    result_ok (derive_address xpub i) =
      acc_address <$> result_ok (seed_account_at_path self (account_path acct ++ "/0/" ++ pretty i)) /\
    (acct = 0 -> result_ok (derive_address xpub i) =
      acc_address <$> result_ok (seed_account (with_scheme Bip44Standard self) i)) /\
    (i = 0 -> result_ok (derive_address xpub i) =
      acc_address <$> result_ok (seed_account (with_scheme LedgerLive self) acct))) /\
  (forall i, HARDENED <= i -> result_ok (derive_address xpub i) = None).
Proof.
  intros Hx. unfold account_xpub in Hx.
  destruct (new_from_phrase (am_phrase self)) as [m|] eqn:Hm; [|done].
  destruct (derive_key m (account_path acct) (password self)) as [x|] eqn:Hd; [|done]. simplify_eq/=.
  assert (Hi : forall i, 0 <= i < HARDENED -> result_ok (derive_address (verify_key x) i) =
    result_ok (derive_key_address (am_phrase self) (account_path acct ++ "/0/" ++ pretty i) (am_passphrase self))).
  { intros i Hi. rewrite (derive_address_ok m (password self) _ x i Hi Hd).
    unfold derive_key_address, password. rewrite Hm. by destruct (derive_key m (account_path acct ++ "/0/" ++ pretty i) (am_passphrase self)). }
  split.
  - intros i Hr. rewrite (Hi i Hr), account_at_path_address, !account_address. split_and!; [done|..].
    + intros ->. reflexivity.
    + intros ->. unfold account_path. rewrite !string_app_assoc. reflexivity.
  - intros i Hr. unfold derive_address. rewrite xpub_path_cons.
    destruct (xpub_child (verify_key x) 0) as [y|]; [|done].
    rewrite xpub_path_cons. pose proof (hardened_child y i Hr). by destruct (xpub_child y i).
Qed.

(** The words a caller asks for ([WordCount]'s documentation). *)
Definition words_asked (w : WordCount) : nat :=
  match w with W12 => 12 | W15 => 15 | W18 => 18 | W21 => 21 | W24 => 24 end.


(** A label leads to an account that carries it; when the accounts derive and the label is
    given to one index only, to that index's. *)
Lemma account_by_label_spec iter self name :
  (forall m, iter m ≡ₚ map_to_list m) ->
  match account_by_label iter self name with
  | Some a => acc_label a = Some name /\ exists i, seed_account self i = Ok a
  | None => forall i, am_labels self !! i = Some name ->
      exists j, am_labels self !! j = Some name /\ result_ok (seed_account self j) = None
  end.
Proof.
  intros Hiter. unfold account_by_label.
  assert (Hin : forall i v, (i, v) ∈ iter (am_labels self) <-> am_labels self !! i = Some v).
  { intros i v. rewrite (Hiter (am_labels self)). apply elem_of_map_to_list. }
  destruct (list_find _ _) as [[n [i v]]|] eqn:E.
  - apply list_find_Some in E as (Hn & Hv & _). simpl in Hv. subst v.
    apply list_elem_of_lookup_2, Hin in Hn.
    unfold seed_account, account in *. destruct (path_for _ i) as [p|] eqn:Hp; [|by intros k _; exists i; rewrite Hp].
    destruct (address_at_path _ _ _ p) as [ad|] eqn:Ha; simpl.
    + split; [done|]. exists i. by rewrite Hp, Ha.
    + intros k _. exists i. by rewrite Hp, Ha.
  - apply list_find_None in E. intros i Hi. apply Hin in Hi.
    rewrite list.Forall_forall in E. by destruct (E _ Hi).
Qed.
End Derivation.

(** The path [export_keystore] returns is where [from_keystore] finds the same key. *)
Lemma keystore_roundtrip `{KeystoreLaws} fs rng self dir pw fs' path :
  export_keystore fs rng self dir pw = (fs', Ok path) ->
  exists s, from_keystore fs' path pw = Ok s /\ to_bytes s = to_bytes self.
Proof.
  unfold export_keystore, from_keystore, load.
  destruct (encrypt_keystore fs dir rng (to_bytes self) pw) as [fs1 [name|]] eqn:E; simpl; [|done].
  intros [= -> <-]. apply keystore_reads_back in E as (s & -> & Hs). by exists s.
Qed.

(** ** The derivation schemes *)

(** A decimal has no quote in it. *)
Lemma decimal_no_quote j t : 0 <= j < 2 ^ 32 -> pretty j <> ("0'" ++ t)%string.
Proof.
  intros Hj E. pose proof (parse_u64_pretty (Z.to_N j)) as Hp.
  assert (Ep : pretty (Z.to_N j) = pretty j) by (by destruct j).
  rewrite Ep, E in Hp. cbn in Hp. assert (Hle : Z.of_N (Z.to_N j) <= u64_max) by (unfold u64_max; lia).
  by specialize (Hp Hle).
Qed.

Lemma decimal_before_quote j t :
  0 <= j < 2 ^ 32 -> ("0'/0/" ++ t)%string = (pretty j ++ "'/0/0")%string -> j = 0 /\ t = "0".
Proof.
  intros Hj H. pose proof (decimal_no_quote j) as Hq.
  destruct (pretty j) as [|c p] eqn:Ep; [done|].
  injection H as <- H. destruct p as [|c' p].
  - split; [by apply (inj pretty)|by injection H].
  - injection H as <- H. by destruct (Hq p).
Qed.

(** The two standard schemes name the same path at index 0 and nowhere else: past it
    they are two disjoint path sets of one seed, and neither repeats a path. *)
Theorem schemes_agree_only_at_zero i j :
  0 <= i < 2 ^ 32 -> 0 <= j < 2 ^ 32 ->
  (path_for Bip44Standard i = path_for LedgerLive j <-> i = 0 /\ j = 0) /\
  (forall s, s = Bip44Standard \/ s = LedgerLive -> path_for s i = path_for s j -> i = j).
Proof.
  intros Hi Hj. split; [split; [|by intros [-> ->]]|].
  - simpl. intros [= H].
    apply (decimal_before_quote j (pretty i)) in H as [Hj0 Hi0]; [|lia].
    split; [by apply (inj pretty)|done].
  - intros s [-> | ->]; simpl; intros [= H]; [by apply (inj pretty)|].
    change (pretty i +:+ "'/0/0" = pretty j +:+ "'/0/0") in H.
    apply string_app_inv_tail in H. by apply (inj pretty).
Qed.

(** ** The laws can hold *)

(** A toy derivation: a mnemonic is a text, a phrase its text behind a marker character, and an
    extended key the path it was derived at. *)
Definition text_address (s : string) : Address :=
  foldl (fun acc c => (acc * 256 + Z.of_N (Ascii.N_of_ascii c)) mod (2 ^ 160 - 47)) 1 (String.list_ascii_of_string s).

Definition starts_m (path : string) : bool :=
  match path with String c _ => Ascii.eqb c (Ascii.ascii_of_nat 109) | EmptyString => false end.

Fixpoint toy_words (n : nat) : string :=
  match n with O => EmptyString | S n' => (" w" ++ toy_words n')%string end.
Lemma toy_words_count n : split_count ("~" ++ toy_words n) = S n.
Proof.
  change (split_count (toy_words n) = S n). induction n as [|n IH]; [reflexivity|].
  change (S (split_count (toy_words n)) = S (S n)). by rewrite IH.
Qed.

#[local] Instance toy_bip39 : Bip39 := {|
  Mnemonic := string;
  Entropy := Bytes;
  entropy_from_slice b :=
    if bool_decide (length b ∈ [16; 20; 24; 28; 32]%nat) then Ok b else Err "entropy length";
  new_from_entropy b := toy_words (3 * length b / 4 - 1);
  to_phrase m := ("~" ++ m)%string;
  new_from_phrase p := match p with EmptyString => Err "word count" | String _ m => Ok m end;
|}.

#[local] Instance toy_bip32 : Bip32 := {|
  XPriv := string;
  XPub := string;
  derive_key m path pw :=
    if starts_m path
    then Ok (m ++ "|" ++ default EmptyString pw ++ "|" ++ path)%string else Err "path";
  verify_key x := x;
  xpriv_child x i := Ok (x ++ "/" ++ pretty i)%string;
  xpub_child x i := if HARDENED <=? i then Err "hardened" else Ok (x ++ "/" ++ pretty i)%string;
  xpub_derive_path := fix go x l :=
    match l with
    | [] => Ok x
    | i :: l' => if HARDENED <=? i then Err "hardened" else go (x ++ "/" ++ pretty i)%string l'
    end;
  public_key_to_address := text_address;
|}.

#[local] Instance toy_loading : KeyLoading := {|
  Fs := unit;
  DerivationPath := string;
  parse_private_key _ := Err "hex";
  to_bytes s := [];
  decrypt_keystore fs path pw := Err "absent";
  encrypt_keystore fs dir rng key pw := (fs, Err "read-only");
  builder_index i := Ok ("m/44'/60'/0'/0/" ++ pretty i)%string;
  builder_derivation_path path := if starts_m path then Ok path else Err "path";
  builder_build phrase path pw :=
    match derive_key_address phrase path pw with
    | Ok a => Ok (mkLocalSigner a (fun _ => Err "toy"))
    | Err e => Err e
    end;
|}.

#[local] Instance toy_bip39_laws : Bip39Laws.
Proof.
  split; cbn [entropy_from_slice new_from_entropy to_phrase new_from_phrase toy_bip39]; [|intros bytes ent|done].
  - intros bytes. case_bool_decide; simpl; split; done.
  - case_bool_decide as Hb; [|done]. intros [= <-].
    pose proof (toy_words_count (3 * length bytes / 4 - 1)) as Hc. rewrite Hc.
    revert Hb. generalize (length bytes). intros n Hn. repeat (apply elem_of_cons in Hn as [->|Hn]; [reflexivity|]).
    by apply not_elem_of_nil in Hn.
Qed.

Lemma toy_prefix_extend path t : starts_m path = true -> starts_m (path ++ t) = true.
Proof. destruct path; [done|]. intros H. exact H. Qed.
Lemma toy_prefix_extend_inv path (i : Z) :
  starts_m path = false -> starts_m (path ++ "/" ++ pretty i) = false.
Proof. destruct path; [reflexivity|]. intros H. exact H. Qed.

#[local] Instance toy_bip32_laws : Bip32Laws.
Proof.
  split; simpl.
  - intros m path pw x i Hi. destruct (starts_m path) eqn:E; [|done]. intros [= <-].
    rewrite toy_prefix_extend by done. by rewrite !string_app_assoc.
  - done.
  - intros x i l. by destruct (HARDENED <=? i).
  - intros x i Hi. destruct (HARDENED <=? i) eqn:E; [bool_simpl; lia|done].
  - intros x i Hi. destruct (HARDENED <=? i) eqn:E; [done|bool_simpl; lia].
  - intros m path pw i Hi. destruct (starts_m path) eqn:E; [done|].
    by rewrite toy_prefix_extend_inv.
Qed.

#[local] Instance toy_loading_laws : KeyLoadingLaws.
Proof.
  split; simpl.
  - done.
  - intros path m pw. by destruct (starts_m path).
  - intros phrase path dp pw. destruct (starts_m path); [|done]. intros [= <-].
    by destruct (derive_key_address phrase path pw).
Qed.

Definition toy_seed : AccountManager := manager_new "~toy".

Lemma signer_is_for_its_account_witness :
  ls_address <$> result_ok (signer toy_seed 7) = acc_address <$> result_ok (seed_account toy_seed 7) /\
  is_Some (result_ok (signer toy_seed 7)).
Proof.
  split; [exact (proj1 (signer_is_for_its_account toy_seed 7 EmptyString))|vm_compute; eauto].
Defined.

Lemma watch_only_matches_seed_witness :
  exists xpub, account_xpub toy_seed 3 = Ok xpub /\ is_Some (result_ok (derive_address xpub 5)) /\
    result_ok (derive_address xpub 5) =
      acc_address <$> result_ok (seed_account_at_path toy_seed (account_path 3 ++ "/0/" ++ pretty 5)).
Proof.
  eexists. split; [reflexivity|]. split; [vm_compute; eauto|].
  refine (proj1 (proj1 (watch_only_matches_seed toy_seed 3 _ eq_refl) 5 _)). by vm_compute.
Defined.


Lemma schemes_agree_only_at_zero_witness :
  path_for Bip44Standard 1 <> path_for LedgerLive 1 /\ path_for Bip44Standard 0 = path_for LedgerLive 0.
Proof.
  split; [|by apply (proj1 (schemes_agree_only_at_zero 0 0 ltac:(lia) ltac:(lia)))].
  intros E. apply (proj1 (schemes_agree_only_at_zero 1 1 ltac:(lia) ltac:(lia))) in E. lia.
Defined.
