(* ===== verification/Ens.v ===== *)
(** * Ens: name resolution

    [src/src/adapters/ens.rs] over alloy-ens (a signature of calls), and the default method
    of [src/src/core/deps/ens.rs].  Reverse records are set by anyone, so a claimed name
    counts only if it resolves back. *)
From S2P Require Import Prelude Effects Primitives Errors Transport Read.

(** EIP-3668's [OffchainLookup] selector. *)
Definition OFFCHAIN_LOOKUP : Bytes := map byte_of_Z [0x55; 0x6f; 0x18; 0x30].

(** The 4-byte revert selector of a contract error, if it reverted with data. *)
Definition revert_selector (e : ContractError) : option Bytes :=
  match e with
  | CE_Transport te =>
      match revert_data_of te with
      | Some data => if (4 <=? length data)%nat then Some (take 4 data) else None
      | None => None
      end
  | CE_Other _ => None
  end.

(** The contract error an alloy-ens error wraps. *)
Definition ens_contract_error (e : AlloyEnsError) : option ContractError :=
  match e with
  | Ens_Resolver c | Ens_RevRegistrar c | Ens_Lookup c | Ens_Resolve c | Ens_ResolveTxtRecord c => Some c
  | Ens_ResolverNotFound _ | Ens_ReverseRegistrarNotFound | Ens_OtherError _ => None
  end.

Definition none_or_err {T} (e : AlloyEnsError) : result (option T) EnsError :=
  match e with
  | Ens_ResolverNotFound _ | Ens_ReverseRegistrarNotFound => Ok None
  | Ens_OtherError display => Err (Resolution display)
  | Ens_Resolver contract | Ens_RevRegistrar contract | Ens_Lookup contract | Ens_Resolve contract
  | Ens_ResolveTxtRecord contract =>
      match revert_selector contract with
      | Some selector => if decide (selector = OFFCHAIN_LOOKUP) then Err OffchainLookupRequired else Ok None
      | None =>
          match contract with
          | CE_Transport te => Err (Ens_Rpc (rpc_err te))
          | CE_Other display => Err (Resolution display)
          end
      end
  end.

Definition resolve_name (name : string) : views (result (option Address) EnsError) :=
  let* r := look (EnsResolveName name) in
  Ret match r with
      | Ok addr => if negb (addr =? 0) then Ok (Some addr) else Ok None
      | Err e => none_or_err e
      end.

Definition reverse_lookup (address : Address) : views (result (option string) EnsError) :=
  let* r := look (EnsLookupAddress address) in
  match r with
  | Err e => Ret (none_or_err e)
  | Ok name =>
      let* r := look (EnsResolveName name) in
      Ret match r with
          | Ok forward => if forward =? address then Ok (Some name) else Ok None
          | Err e => none_or_err e
          end
  end.

Definition text_record (name key : string) : views (result (option string) EnsError) :=
  let* r := look (EnsLookupTxt name key) in
  Ret match r with
      | Ok value => if decide (value = EmptyString) then Ok None else Ok (Some value)
      | Err e => none_or_err e
      end.

Definition avatar (name : string) : views (result (option string) EnsError) := text_record name "avatar".

(** ** Properties *)

(** The failures that mean there is no record: the registry knows no resolver or reverse
    registrar, or the resolution reverted on chain other than to send the client off chain. *)
Definition no_record (e : AlloyEnsError) : Prop :=
  (exists n, e = Ens_ResolverNotFound n) \/ e = Ens_ReverseRegistrarNotFound \/
  exists c sel, ens_contract_error e = Some c /\ revert_selector c = Some sel /\ sel <> OFFCHAIN_LOOKUP.

(** The error each other failure is. *)
Definition lookup_error (e : AlloyEnsError) (err : EnsError) : Prop :=
  match err with
  | OffchainLookupRequired => exists c, ens_contract_error e = Some c /\ revert_selector c = Some OFFCHAIN_LOOKUP
  | Ens_Rpc r => exists te, ens_contract_error e = Some (CE_Transport te) /\
      revert_selector (CE_Transport te) = None /\ r = rpc_err te
  | Resolution d => e = Ens_OtherError d \/ ens_contract_error e = Some (CE_Other d)
  end.

(** A failed lookup is an empty result exactly when there is no record, and an error with its
    cause otherwise. *)
Lemma none_or_err_spec {T} (e : AlloyEnsError) :
  (none_or_err (T:=T) e = Ok None /\ no_record e) \/
  (exists err, none_or_err (T:=T) e = Err err /\ lookup_error e err).
Proof.
  assert (H : forall c, ens_contract_error e = Some c ->
    let r : result (option T) EnsError :=
      match revert_selector c with
      | Some selector => if decide (selector = OFFCHAIN_LOOKUP) then Err OffchainLookupRequired else Ok None
      | None => match c with CE_Transport te => Err (Ens_Rpc (rpc_err te)) | CE_Other d => Err (Resolution d) end
      end in (r = Ok None /\ no_record e) \/ (exists err, r = Err err /\ lookup_error e err)).
  { intros c Hc. destruct (revert_selector c) as [sel|] eqn:Hs; cbn zeta.
    - case_decide as Hsel; [subst sel; right; eexists; split; [done|]; by exists c|].
      left. split; [done|]. right. right. by exists c, sel.
    - right. destruct c as [te|d]; eexists; (split; [done|]); simpl; [by exists te|by right]. }
  destruct e as [c|c|c|c|c|n| |d]; try apply (H c eq_refl).
  - left. split; [done|]. left. by exists n.
  - left. split; [done|]. right. by left.
  - right. eexists. split; [done|]. by left.
Qed.

(** How a lookup ends, the failed one being [e]. *)
Definition lookup_failed {T} (e : AlloyEnsError) (r : result (option T) EnsError) : Prop :=
  match r with Ok None => no_record e | Ok (Some _) => False | Err err => lookup_error e err end.

Lemma none_or_err_failed {T} e : lookup_failed e (none_or_err (T:=T) e).
Proof. by destruct (none_or_err_spec (T:=T) e) as [[-> ?]|(err & -> & ?)]. Qed.

(** C40: a reverse lookup is never spoofed, and an empty answer never hides a failure.  For
    every answer of the node: a name is reported exactly when the reverse record named it and
    the node then resolved that very name to the queried address; the result is empty exactly
    when it resolved to another address, or a lookup failed for want of a record (no resolver
    or registrar, or an on-chain revert); and an offchain name, a transport failure (with its
    retryability) and any other failure are errors of their own.  A forward lookup reports
    exactly the non-zero address the node gave, is empty for the zero address, and fails the
    same way.  (The node gives an unset record as the zero address, so for the zero address
    itself a name without a record passes the check: [reverse_zero_unverified].) *)
Theorem ens_reverse_verified (address : Address) (name : string) (tr : view_history) :
  triple any_env any_call (reverse_lookup address) tr
    (fun tr' r =>
       (exists e, tr' = existT (EnsLookupAddress address) (Err e) :: tr /\ lookup_failed e r) \/
       exists n, (exists forward,
          tr' = existT (EnsResolveName n) (Ok forward) :: existT (EnsLookupAddress address) (Ok n) :: tr /\
          r = if decide (forward = address) then Ok (Some n) else Ok None) \/
         (exists e, tr' = existT (EnsResolveName n) (Err e) :: existT (EnsLookupAddress address) (Ok n) :: tr /\
            lookup_failed e r)) /\
  triple any_env any_call (resolve_name name) tr
    (fun tr' r =>
       (exists a, tr' = existT (EnsResolveName name) (Ok a) :: tr /\ r = if decide (a = 0) then Ok None else Ok (Some a)) \/
       (exists e, tr' = existT (EnsResolveName name) (Err e) :: tr /\ lookup_failed e r)).
Proof.
  split.
  - unfold reverse_lookup, look. wp_simpl. apply triple_call; [done|]. intros [n|e] _; wp_simpl.
    + apply triple_call; [done|]. intros [forward|e] _; cbn [triple]; right; exists n.
      * left. exists forward. split; [done|]. by destruct (Z.eqb_spec forward address), (decide (forward = address)).
      * right. exists e. split; [done|apply none_or_err_failed].
    + cbn [triple]. left. exists e. split; [done|apply none_or_err_failed].
  - unfold resolve_name, look. wp_simpl. apply triple_call; [done|]. intros [a|e] _; cbn [triple].
    + left. exists a. split; [done|]. by destruct (Z.eqb_spec a 0), (decide (a = 0)).
    + right. exists e. split; [done|apply none_or_err_failed].
Qed.

(** The zero address is the one hole in forward verification: a name that resolves to
    nothing counts as verified for it, although the same name resolves to no address. *)
Theorem reverse_zero_unverified (name : string) (tr : view_history) :
  let env v : view_resp v -> Prop :=
    match v return view_resp v -> Prop with
    | EnsLookupAddress _ => fun r => r = Ok name
    | EnsResolveName _ => fun r => r = Ok 0
    | _ => fun _ => True
    end in
  triple env any_call (reverse_lookup 0) tr (fun _ r => r = Ok (Some name)) /\
  triple env any_call (resolve_name name) tr (fun _ r => r = Ok None).
Proof.
  intros env. split.
  - unfold reverse_lookup, look. wp_simpl. apply triple_call; [done|]. intros r ->. wp_simpl.
    apply triple_call; [done|]. by intros r ->.
  - unfold resolve_name, look. wp_simpl. apply triple_call; [done|]. by intros r ->.
Qed.
