(* ===== verification/Pricing.v ===== *)
(** * Pricing: Chainlink feeds and token lists

    [src/src/adapters/pricing/chainlink.rs], [src/src/adapters/pricing/token_list.rs] and
    the data of [src/src/core/deps/pricing.rs].  serde_json is a parameter. *)
From S2P Require Import Prelude Effects Primitives Errors Transport Read.

(** ** Data ([core/deps/pricing.rs]) *)

Record Price : Type := mkPrice {
  pr_value : U256;
  pr_decimals : Z;
  pr_updated_at : Z;
}.
Inductive Currency : Type := Usd.

Inductive PricingError : Type :=
| Pricing_Rpc (e : RpcError)
| Pricing_List (detail : string)
| Pricing_Feed (detail : string)
| Pricing_Stale (age_secs : Z).

(** ** Chainlink *)

Record FeedConfig : Type := mkFeed {
  feed_address : Address;
  feed_heartbeat_secs : Z;
}.
Record ChainlinkPrice : Type := mkChainlink {
  cl_feeds : gmap (Z * Address) FeedConfig;
  cl_grace_secs : Z;
}.
Record Round : Type := mkRound {
  round_id : Z;
  round_answer : Z;
  round_updated_at : Z;
}.

Definition to_price (round : Round) (decimals now max_age_secs : Z) : result Price PricingError :=
  if (round_id round =? 0) || (round_updated_at round =? 0) || (now <? round_updated_at round)
  then Err (Pricing_Feed "invalid round")
  else if round_answer round <=? 0 then Err (Pricing_Feed "non-positive price")
  else
    let age := now - round_updated_at round in
    if max_age_secs <? age then Err (Pricing_Stale age)
    else if round_answer round <? 0 then Err (Pricing_Feed "price overflow")
    else Ok (mkPrice (round_answer round) decimals (round_updated_at round)).

Definition price_err (e : ContractError) : PricingError := Pricing_Rpc (contract_error e).

Definition price (self : ChainlinkPrice) (chain_id : Z) (token : Address) (vs : Currency)
  : views (result (option Price) PricingError) :=
  match vs with
  | Usd =>
      match cl_feeds self !! (chain_id, token) with
      | None => Ret (Ok None)
      | Some feed =>
          let? decimals := map_err price_err (look (FeedDecimals (feed_address feed))) in
          let? data := map_err price_err (look (LatestRoundData (feed_address feed))) in
          let round :=
            mkRound (rd_round_id data) (rd_answer data) (saturating_to u64_max (rd_updated_at data)) in
          let max_age := saturating_add u64_max (feed_heartbeat_secs feed) (cl_grace_secs self) in
          let* now := look ViewNow in
          Ret match to_price round decimals now max_age with Ok p => Ok (Some p) | Err e => Err e end
      end
  end.

(** ** Token lists *)

Record TokenListEntry : Type := mkTokenListEntry {
  tl_chain_id : Z;
  tl_address : Address;
  tl_name : Bytes;
  tl_symbol : Bytes;
  tl_decimals : Z;
}.
Record TokenListSource : Type := mkTokenList {
  ts_tokens : gmap (Z * Address) Erc20Metadata;
  ts_fallback : bool;   (* a read client is wired *)
}.

Section TokenList.
(** Parameters: [serde_json::from_slice] of a token list, and the fallback's ABI. *)
Context (list_from_slice : Bytes -> result (list TokenListEntry) string).
Context (read_metadata : Address -> views (result Erc20Metadata ReadError)).

Definition entry_pair (t : TokenListEntry) : (Z * Address) * Erc20Metadata :=
  ((tl_chain_id t, tl_address t), mkErc20Metadata (tl_name t) (tl_symbol t) (tl_decimals t)).

Definition from_json (bytes : Bytes) : result TokenListSource PricingError :=
  match list_from_slice bytes with
  | Err e => Err (Pricing_List e)
  | Ok tokens => Ok (mkTokenList (collect_map (map entry_pair tokens)) false)
  end.
Definition with_fallback (s : TokenListSource) : TokenListSource := mkTokenList (ts_tokens s) true.
Definition token_lookup (s : TokenListSource) (chain_id : Z) (token : Address) : option Erc20Metadata :=
  ts_tokens s !! (chain_id, token).

Definition metadata (s : TokenListSource) (chain_id : Z) (token : Address)
  : views (result (option Erc20Metadata) PricingError) :=
  match token_lookup s chain_id token with
  | Some md => Ret (Ok (Some md))
  | None =>
      if ts_fallback s then
        let* r := read_metadata token in
        Ret match r with
            | Ok md => Ok (Some md)
            | Err (Read_Rpc e) => Err (Pricing_Rpc e)
            | Err _ => Ok None
            end
      else Ret (Ok None)
  end.
End TokenList.

(** ** Properties *)

(** A round becomes a price exactly when it is complete, not from the future, positive and
    no older than allowed; the overflow error is never reached. *)
Lemma to_price_spec round decimals now max_age :
  match to_price round decimals now max_age with
  | Ok p => round_id round <> 0 /\ round_updated_at round <> 0 /\
      0 < round_answer round /\ 0 <= now - round_updated_at round <= max_age /\
      p = mkPrice (round_answer round) decimals (round_updated_at round)
  | Err (Pricing_Stale age) => age = now - round_updated_at round /\ max_age < age /\ 0 < round_answer round /\
      round_id round <> 0 /\ round_updated_at round <> 0 /\ round_updated_at round <= now
  | Err (Pricing_Feed d) => (d = "invalid round" /\ (round_id round = 0 \/ round_updated_at round = 0 \/
       now < round_updated_at round)) \/
      (d = "non-positive price" /\ round_id round <> 0 /\ round_updated_at round <> 0 /\
       round_updated_at round <= now /\ round_answer round <= 0)
  | Err _ => False
  end.
Proof.
  unfold to_price. destruct (round_id round =? 0) eqn:H1; simpl; [bool_simpl; auto|].
  destruct (round_updated_at round =? 0) eqn:H2; simpl; [bool_simpl; auto|].
  destruct (now <? round_updated_at round) eqn:H3; [bool_simpl; auto|].
  destruct (round_answer round <=? 0) eqn:H4; [bool_simpl; right; split_and!; try done; lia|].
  destruct (max_age <? _) eqn:H5; bool_simpl; [split_and!; try done; lia|].
  destruct (round_answer round <? 0) eqn:H6; bool_simpl; [lia|]. split_and!; try done; lia.
Qed.

(** What a feed's answers make of a round, at [now]. *)
Definition round_outcome (feed : FeedConfig) (grace : Z) (data : RoundData) (decimals now : Z)
    (r : result (option Price) PricingError) : Prop :=
  let max_age := Z.min u64_max (feed_heartbeat_secs feed + grace) in
  let updated_at := Z.min u64_max (rd_updated_at data) in
  let complete := rd_round_id data <> 0 /\ updated_at <> 0 /\ updated_at <= now in
  match r with
  | Ok None | Err (Pricing_Rpc _) | Err (Pricing_List _) => False
  | Ok (Some p) => p = mkPrice (rd_answer data) decimals updated_at /\ complete /\
      0 < pr_value p /\ now <= pr_updated_at p + max_age
  | Err (Pricing_Stale age) => complete /\ 0 < rd_answer data /\ age = now - updated_at /\ max_age < age
  | Err (Pricing_Feed d) =>
      (d = "invalid round" /\ ~ complete) \/ (d = "non-positive price" /\ complete /\ rd_answer data <= 0)
  end.

(** C39: a price is never stale, invented or unpositive, and every failure has its cause.  For
    every answer of the node and clock, a reported price is the answer the configured feed's
    latest round gave, in the feed's own decimals, positive, published no later than now and
    within the feed's heartbeat plus the grace (without overflow).  A token without a feed has
    no price and causes no call.  An RPC error is the one a read of the feed failed with; a
    round is invalid exactly when it lacks its id or time or is from the future, a price
    non-positive when the feed answered so, and a complete positive round is stale, with its
    full age, exactly when that exceeds the tolerance. *)
Theorem chainlink_price_fresh (self : ChainlinkPrice) (chain_id : Z) (token : Address) (tr : view_history) :
  triple any_env any_call (price self chain_id token Usd) tr (fun tr' r =>
    match cl_feeds self !! (chain_id, token) with
    | None => r = Ok None /\ tr' = tr
    | Some feed =>
        (exists now data decimals,
           tr' = existT ViewNow now :: existT (LatestRoundData (feed_address feed)) (Ok data)
                 :: existT (FeedDecimals (feed_address feed)) (Ok decimals) :: tr /\
           round_outcome feed (cl_grace_secs self) data decimals now r) \/
        (exists ce, r = Err (Pricing_Rpc (contract_error ce)) /\
           (tr' = existT (FeedDecimals (feed_address feed)) (Err ce) :: tr \/
            exists decimals, tr' = existT (LatestRoundData (feed_address feed)) (Err ce)
              :: existT (FeedDecimals (feed_address feed)) (Ok decimals) :: tr))
    end).
Proof.
  unfold price. destruct (cl_feeds self !! (chain_id, token)) as [feed|]; [|done].
  unfold look, map_err, try_bind. wp_simpl.
  apply triple_call; [done|]. intros [decimals|ce] _; wp_simpl; [|right; exists ce; by split; [|left]].
  apply triple_call; [done|]. intros [data|ce] _; wp_simpl; [|right; exists ce; by split; [|right; exists decimals]].
  apply triple_call; [done|]. intros now _. cbn [triple]. left. exists now, data, decimals. split; [done|].
  pose proof (to_price_spec (mkRound (rd_round_id data) (rd_answer data) (saturating_to u64_max (rd_updated_at data)))
    decimals now (saturating_add u64_max (feed_heartbeat_secs feed) (cl_grace_secs self))) as H.
  unfold saturating_add, saturating_to in H |- *. unfold round_outcome.
  destruct (to_price _ _ _ _) as [p|[e|d|d|age]]; simpl in H; try done.
  - destruct H as (? & ? & Ha & Hage & ->). split_and!; simpl; try done; lia.
  - destruct H as [[-> H]|(-> & ? & ? & ? & ?)]; [left; split; [done|lia]|right; split_and!; try done; lia].
  - destruct H as (-> & ? & ? & ? & ? & ?). split_and!; try done; lia.
Qed.

(** The metadata an entry lists for a token of a chain. *)
Definition lists (chain_id : Z) (token : Address) (t : TokenListEntry) : option Erc20Metadata :=
  if decide ((tl_chain_id t, tl_address t) = (chain_id, token))
  then Some (mkErc20Metadata (tl_name t) (tl_symbol t) (tl_decimals t)) else None.

Lemma from_json_lookup list_from_slice bytes tokens s chain_id token :
  list_from_slice bytes = Ok tokens -> from_json list_from_slice bytes = Ok s ->
  token_lookup s chain_id token = find_map (lists chain_id token) (rev tokens).
Proof.
  intros Hl. unfold from_json. rewrite Hl. intros [= <-]. unfold token_lookup. simpl.
  rewrite collect_map_lookup, <- map_rev. induction (rev tokens) as [|t ts IH]; simpl; [done|].
  unfold lists at 1. simpl. case_decide; [done|apply IH].
Qed.

(** Token metadata comes from the list first: the last entry for the token and chain,
    without a call.  A miss is answered by the fallback when one is wired (its transport
    failure is an error, a token it cannot decode has no metadata), else by nothing. *)
Theorem token_metadata_list_first (list_from_slice : Bytes -> result (list TokenListEntry) string)
    (read_metadata : Address -> views (result Erc20Metadata ReadError)) (bytes : Bytes)
    (tokens : list TokenListEntry) (s : TokenListSource) (chain_id : Z) (token : Address) (wired : bool) :
  list_from_slice bytes = Ok tokens -> from_json list_from_slice bytes = Ok s ->
  metadata read_metadata (if wired then with_fallback s else s) chain_id token =
    match find_map (lists chain_id token) (rev tokens) with
    | Some md => Ret (Ok (Some md))
    | None =>
        if wired then
          let* r := read_metadata token in
          Ret match r with
              | Ok md => Ok (Some md)
              | Err (Read_Rpc e) => Err (Pricing_Rpc e)
              | Err (Decode _) => Ok None
              end
        else Ret (Ok None)
    end.
Proof.
  intros Hl Hs. unfold metadata.
  assert (Ht : token_lookup (if wired then with_fallback s else s) chain_id token
    = find_map (lists chain_id token) (rev tokens)).
  { rewrite <- (from_json_lookup _ _ _ _ _ _ Hl Hs). by destruct wired. }
  rewrite Ht. destruct (find_map _ _); [done|].
  unfold from_json in Hs. rewrite Hl in Hs. injection Hs as <-. by destruct wired.
Qed.

(** The fallback reads one chain: a miss on any chain is answered with the metadata of the
    token at that address on the read client's chain. *)
Theorem fallback_ignores_chain (read_metadata : Address -> views (result Erc20Metadata ReadError))
    (s : TokenListSource) (c1 c2 : Z) (token : Address) :
  token_lookup s c1 token = None -> token_lookup s c2 token = None ->
  metadata read_metadata (with_fallback s) c1 token = metadata read_metadata (with_fallback s) c2 token.
Proof.
  unfold metadata. intros H1 H2. unfold token_lookup in *. simpl. by rewrite H1, H2.
Qed.
