(* ===== verification/Wire.v ===== *)
(** * Wire: what is rendered to the outside

    The Flashbots request and its authentication header
    ([src/src/adapters/submission/private_mev.rs]), and the redacting [Debug] renderings of
    the secret-bearing types ([core/deps/relay.rs], [adapters/relay/gelato.rs],
    [adapters/accounts.rs], [core/accounts/primitives.rs]).  serde_json, alloy's text forms
    and the identity key are parameters.  The signed message determines the whole request,
    and no rendering depends on a secret. *)
From S2P Require Import Prelude Effects Primitives Errors Ports Submission Gelato Facade Accounts.

Open Scope string_scope.
Open Scope Z_scope.

(** ** Hexadecimal integers *)

(** [{:x}]: lower-case digits without leading zeros; sixteen digits hold a [u64]. *)
Fixpoint lower_hex_go (fuel : nat) (n : Z) (acc : string) : string :=
  match fuel with
  | O => acc
  | S fuel' =>
      if n =? 0 then acc else lower_hex_go fuel' (n / 16) (String (hex_digit (n mod 16)) acc)
  end.
Definition lower_hex (n : Z) : string := if n =? 0 then "0" else lower_hex_go 16 n EmptyString.

(** ** The Flashbots request *)

Record PrivateTx : Type := mkPrivateTx {
  pt_tx : string;
  pt_max_block_number : option string;
  pt_preferences : option (bool * option (list string));
}.

(** serde's [skip_serializing_if = "Option::is_none"]. *)
Definition skip_none (name : string) (v : option JsonValue) : list (string * JsonValue) :=
  match v with Some v => [(name, v)] | None => [] end.

Definition Preferences_json (p : bool * option (list string)) : JsonValue :=
  JObject (("fast", JBool (fst p)) ::
    skip_none "privacy" ((fun hints => JObject [("hints", JArray (map JString hints))]) <$> snd p)).

Definition PrivateTx_json (t : PrivateTx) : JsonValue :=
  JObject (("tx", JString (pt_tx t)) ::
    skip_none "maxBlockNumber" (JString <$> pt_max_block_number t) ++
    skip_none "preferences" (Preferences_json <$> pt_preferences t))%list.

Definition JsonRpc_new (method : string) (param : JsonValue) : JsonValue :=
  JObject [("jsonrpc", JString "2.0"); ("id", JNumber 1); ("method", JString method); ("params", JArray [param])].

Section Flashbots.
Context {A : Alloy}.
(** [serde_json::to_vec], and the text forms of bytes and addresses. *)
Context (to_vec : JsonValue -> Bytes) (bytes_display : Bytes -> string) (address_display : Address -> string).

(** [private_tx], given the block number bound it read. *)
Definition private_tx (max_block_number : option Z) (preferences : option (bool * option (list string)))
    (rlp : Bytes) : PrivateTx :=
  mkPrivateTx (bytes_display rlp) ((fun n => "0x" ++ lower_hex n) <$> max_block_number) preferences.

Definition flashbots_body (max_block_number : option Z) (preferences : option (bool * option (list string)))
    (rlp : Bytes) : Bytes :=
  to_vec (JsonRpc_new "eth_sendPrivateTransaction" (PrivateTx_json (private_tx max_block_number preferences rlp))).

(** The message under the header's signature. *)
Definition flashbots_message (body : Bytes) : string := "0x" ++ hex_of_bytes (Z_to_be 32 (keccak256 body)).

(** [identity_sign] is the identity key's [sign_message], as signature bytes. *)
Definition flashbots_signature (identity : Address) (identity_sign : Bytes -> result Bytes string) (body : Bytes)
  : result string string :=
  match identity_sign (String.list_byte_of_string (flashbots_message body)) with
  | Err e => Err e
  | Ok sig => Ok (address_display identity ++ ":" ++ "0x" ++ hex_of_bytes sig)
  end.
End Flashbots.

(** ** Debug *)

(** [Formatter::debug_struct]: the named fields with their renderings. *)
Definition debug_struct (name : string) (fields : list (string * string)) : string :=
  name ++ " { " ++ String.concat ", " (map (fun f => fst f ++ ": " ++ snd f) fields) ++ " }".

Section Debug.
(** [Debug] of a string and of an address. *)
Context (str_debug : string -> string) (address_debug : Address -> string).

Definition FeeScheme_debug (fee : FeeScheme) : string :=
  match fee with
  | Sponsored _ => debug_struct "Sponsored" [("api_key", str_debug "<redacted>")]
  | SyncFee fee_token => debug_struct "SyncFee" [("fee_token", address_debug fee_token)]
  end.

Definition NonceScheme_debug (n : NonceScheme) : string :=
  match n with Sequential => "Sequential" | Concurrent => "Concurrent" end.

Definition Gelato_debug (g : Gelato) : string :=
  debug_struct "Gelato" [("fee", FeeScheme_debug (gelato_fee g)); ("nonce", NonceScheme_debug (gelato_nonce g))].

Definition GelatoRelay_debug (r : GelatoRelay) : string :=
  debug_struct "GelatoRelay"
    [("fee", FeeScheme_debug (gr_fee r)); ("nonce", NonceScheme_debug (gr_nonce r));
     ("base_url", str_debug (gr_base_url r))].

(** [Debug] of an [Option<&str>]. *)
Definition option_str_debug (o : option string) : string :=
  match o with Some s => "Some(" ++ str_debug s ++ ")" | None => "None" end.

Definition PathScheme_debug (s : PathScheme) : string :=
  match s with
  | Bip44Standard => "Bip44Standard"
  | LedgerLive => "LedgerLive"
  | Custom_path t => "Custom(" ++ str_debug t ++ ")"
  end.

Definition AccountManager_debug (m : AccountManager) : string :=
  debug_struct "AccountManager"
    [("phrase", str_debug "<redacted>");
     ("passphrase", option_str_debug ((fun _ => "<redacted>") <$> am_passphrase m));
     ("scheme", PathScheme_debug (am_scheme m))].

(** [XPub] is coins_bip32's extended public key. *)
Definition AccountXpub_debug {XPub : Type} (_ : XPub) : string := "AccountXpub(..)".
End Debug.

(** ** The header binds the request *)

Definition hex_value (c : Ascii.ascii) : Z :=
  let k := Z.of_nat (Ascii.nat_of_ascii c) in if k <? 58 then k - 48 else k - 87.
Fixpoint hex_parse (s : string) (acc : Z) : Z :=
  match s with
  | EmptyString => acc
  | String c s' => hex_parse s' (acc * 16 + hex_value c)
  end.

Lemma hex_value_digit d : 0 <= d < 16 -> hex_value (hex_digit d) = d.
Proof.
  intros Hd. assert (Hin : d ∈ seqZ 0 16) by (apply elem_of_seqZ; lia).
  clear Hd. revert d Hin. apply list.Forall_forall. repeat constructor.
Qed.

Lemma hex_parse_go fuel n s :
  0 <= n < 16 ^ Z.of_nat fuel -> hex_parse (lower_hex_go fuel n s) 0 = hex_parse s n.
Proof.
  revert n s. induction fuel as [|fuel IH]; intros n s Hn; simpl.
  - simpl in Hn. by replace n with 0 by lia.
  - destruct (n =? 0) eqn:E; bool_simpl; [by subst|].
    rewrite Nat2Z.inj_succ, Z.pow_succ_r in Hn by lia.
    pose proof (Z.mod_pos_bound n 16). pose proof (Z.div_mod n 16).
    rewrite IH by (split; [apply Z.div_pos|apply Z.div_lt_upper_bound]; lia). simpl.
    rewrite hex_value_digit by lia. f_equal. lia.
Qed.

Lemma lower_hex_parse n : 0 <= n <= u64_max -> hex_parse (lower_hex n) 0 = n.
Proof.
  intros Hn. unfold lower_hex. destruct (n =? 0) eqn:E; bool_simpl; [by subst|].
  rewrite hex_parse_go; [done|]. unfold u64_max in Hn. change (16 ^ Z.of_nat 16) with (2 ^ 64). lia.
Qed.

Lemma map_JString_inj h k : map JString h = map JString k -> h = k.
Proof. revert k. induction h as [|x h IH]; intros [|y k] H; simplify_eq/=; [done|]. f_equal. auto. Qed.

Lemma Preferences_json_inj p q : Preferences_json p = Preferences_json q -> p = q.
Proof.
  destruct p as [f [h|]], q as [g [k|]]; intros H; simplify_eq/=; try done.
  do 2 f_equal. by apply map_JString_inj.
Qed.

Lemma PrivateTx_json_inj t u : PrivateTx_json t = PrivateTx_json u -> t = u.
Proof.
  destruct t as [x [m|] [p|]], u as [y [n|] [q|]]; unfold PrivateTx_json; cbn [fmap option_fmap option_map
    skip_none app pt_tx pt_max_block_number pt_preferences]; intros H; try done; injection H as H; simplify_eq;
    try done; (rewrite (Preferences_json_inj p q); [done|]); unfold Preferences_json; congruence.
Qed.

Lemma prefixed_inj s t : "0x" ++ s = "0x" ++ t -> s = t.
Proof. by intros [= H]. Qed.
Lemma JsonRpc_new_inj method v w : JsonRpc_new method v = JsonRpc_new method w -> v = w.
Proof. by intros [= H]. Qed.

(** A block bound in the range of a [u64]. *)
Definition window_ok (max_block_number : option Z) : Prop :=
  forall n, max_block_number = Some n -> 0 <= n <= u64_max.

Lemma window_text_inj m n :
  window_ok m -> window_ok n ->
  (fun k => "0x" ++ lower_hex k) <$> m = (fun k => "0x" ++ lower_hex k) <$> n -> m = n.
Proof.
  intros Hm Hn. destruct m as [m|], n as [n|]; simpl; try done.
  intros H. apply (inj Some), prefixed_inj, (f_equal (fun s => hex_parse s 0)) in H.
  rewrite !lower_hex_parse in H; [by subst|by apply Hn|by apply Hm].
Qed.

(** The message a Flashbots header signs determines the request: the raw transaction, the
    block bound and the preferences.  A header therefore authorizes no other request than
    the one posted with it, collisions of the hash aside. *)
Theorem flashbots_header_binds_request {A : Alloy} (to_vec : JsonValue -> Bytes)
    (bytes_display : Bytes -> string) m p r m' p' r' :
  Inj (=) (=) to_vec -> Inj (=) (=) bytes_display -> window_ok m -> window_ok m' ->
  let body := flashbots_body to_vec bytes_display m p r in
  let body' := flashbots_body to_vec bytes_display m' p' r' in
  (0 <= keccak256 body < 2 ^ 256 /\ 0 <= keccak256 body' < 2 ^ 256) ->
  (keccak256 body = keccak256 body' -> body = body') ->
  flashbots_message body = flashbots_message body' -> m = m' /\ p = p' /\ r = r'.
Proof.
  intros Hv Hd Hm Hm' body body' [Hk Hk'] Hc H.
  apply prefixed_inj, hex_of_bytes_inj, Z_to_be_inj in H;
    [|change (256 ^ Z.of_nat 32) with (2 ^ 256); done..].
  apply Hc, Hv, JsonRpc_new_inj, PrivateTx_json_inj in H.
  injection H as H1 H2 H3. split_and!; [by apply window_text_inj|done|by apply Hd].
Qed.

(** ** Nothing secret is rendered *)

(** The [Debug] text of a relay configuration does not depend on the sponsor key, that of
    an account manager on neither its phrase, its passphrase's value nor its labels. *)
Lemma debug_hides_secrets (str_debug : string -> string) (address_debug : Address -> string)
    (key key' : string) (nonce : NonceScheme) (url phrase phrase' pw pw' : string) (scheme : PathScheme)
    (labels labels' : gmap Z string) :
  Gelato_debug str_debug address_debug (mkGelato (Sponsored key) nonce) =
    Gelato_debug str_debug address_debug (mkGelato (Sponsored key') nonce) /\
  GelatoRelay_debug str_debug address_debug (mkGelatoRelay (Sponsored key) nonce url) =
    GelatoRelay_debug str_debug address_debug (mkGelatoRelay (Sponsored key') nonce url) /\
  AccountManager_debug str_debug (mkAccountManager phrase (Some pw) scheme labels) =
    AccountManager_debug str_debug (mkAccountManager phrase' (Some pw') scheme labels').
Proof. done. Qed.
