(* ===== verification/Mocks.v ===== *)
(** * Mocks: the repository's test doubles and fixtures

    [src/src/testutils.rs].  One configurable mock per port and the [Harness] that wires
    them.  A mock's methods are functions of its state; [serve] is the environment the
    wired mocks are, so that a program of the pipeline runs on them with [run].  A call
    log is a reference into [h_logs], shared by the mocks that were given the same one.
    The real [LocalNonceManager], [DefaultPolicyEngine], [LocalSigner],
    [InMemoryStateStore] and [RedbStateStore] can stand in a mock's place, as the tests
    wire them. *)
From S2P Require Import Prelude Effects Primitives ModelAlloy Errors Ports Nonce GasOracle Policy.
From S2P Require Import Signer Signing TransactionManager Executor Store ModelSerde.

Open Scope string_scope.
Open Scope Z_scope.

(** ** Fixtures *)

(** [B256::repeat_byte], [Address::from([b; 20])]. *)
Definition repeat_byte (n : nat) (b : Byte.byte) : Z := be_to_Z (replicate n b).

Definition estimation (max_fee max_priority : Z) : Eip1559Estimation := mkEstimation max_fee max_priority.
Definition u256_word (v : Z) : Bytes := Z_to_be 32 v.

Definition intent : TxIntent :=
  mkIntent 1 Address_ZERO (TxKind_Call (repeat_byte 20 Byte.xaa)) 0 [] None.

(** [Signature::new(U256::from(1), U256::from(1), false)]. *)
Definition mock_signature : Signature := mkSignature 1 1 false.

Section Fixtures.
Context {A : Alloy}.

Definition signed_tx (nonce : Z) : Bytes :=
  encoded_2718 (mkTx 1 nonce 21000 100 1 TxKind_Create 0 []) mock_signature.
Definition signed_legacy (nonce : Z) : Bytes :=
  encoded_legacy (mkLegacy (Some 1) nonce 100 21000 TxKind_Create 0 []) mock_signature.

Definition handle (nonce : Z) (status : TxStatus) : TxHandle :=
  let intent_hash := TxIntent_hash intent in
  mkHandle (HandleId_new intent_hash nonce) Address_ZERO intent intent_hash nonce status
    GasEnvelope_DEFAULT (signed_tx nonce) [0] 0 false SubmissionOpts_default None.

(** [h.account = account]. *)
Definition set_account (account : Address) (h : TxHandle) : TxHandle :=
  mkHandle (th_id h) account (th_intent h) (th_intent_hash h) (th_nonce h) (th_status h)
    (th_envelope h) (th_signed h) (th_broadcasts h) (th_last_broadcast_at h) (th_cancelled h)
    (th_submission h) (th_meta h).
Definition handle_for (account : Address) (nonce : Z) (status : TxStatus) : TxHandle :=
  set_account account (handle nonce status).
End Fixtures.

Definition receipt (success : bool) (block : Z) (block_hash : B256) : TransactionReceipt :=
  mkReceipt (Some block) (Some block_hash) success [].
Definition receipt_unanchored : TransactionReceipt := mkReceipt None None true [].

(** ** Call logs *)

(** [Arc<Mutex<Vec<&'static str>>>]: a reference; equal references are one log. *)
Abbreviation CallLog := nat.
Abbreviation Logs := (gmap CallLog (list string)).

Definition note (log : CallLog) (ev : string) (logs : Logs) : Logs :=
  <[log := (default [] (logs !! log) ++ [ev])%list]> logs.
(** [log.lock()]. *)
Definition read_log (log : CallLog) (logs : Logs) : list string := default [] (logs !! log).

(** ** Rpc *)

Record MockRpc : Type := mkMockRpc {
  mr_pending_nonce : Z;
  mr_tx_count : Z;
  mr_block_number : Z;
  mr_block_numbers : list Z;
  mr_finalized : option Z;
  mr_base_fee : Z;
  mr_receipt : option TransactionReceipt;
  mr_receipts : gmap TxHash TransactionReceipt;
  mr_receipt_err : bool;
  mr_canonical : option B256;
  mr_gas_reverts : bool;
  mr_call_returns : option Bytes;
  mr_call_reverts : bool;
  mr_log : CallLog;
}.
Definition MockRpc_default : MockRpc :=
  mkMockRpc 0 0 0 [] None 0 None ∅ false None false None false 1%nat.

(** [pop_front] of the FIFO of heads, else the fixed head. *)
Definition MockRpc_block_number (m : MockRpc) : result Z RpcError * MockRpc :=
  match mr_block_numbers m with
  | n :: rest =>
      (Ok n, mkMockRpc (mr_pending_nonce m) (mr_tx_count m) (mr_block_number m) rest (mr_finalized m)
               (mr_base_fee m) (mr_receipt m) (mr_receipts m) (mr_receipt_err m) (mr_canonical m)
               (mr_gas_reverts m) (mr_call_returns m) (mr_call_reverts m) (mr_log m))
  | [] => (Ok (mr_block_number m), m)
  end.
Definition MockRpc_estimate_gas (m : MockRpc) (logs : Logs) : result Z RpcError * Logs :=
  (if mr_gas_reverts m then Err (RpcError_Call "execution reverted" false) else Ok 21000,
   note (mr_log m) "estimate_gas" logs).
Definition MockRpc_call (m : MockRpc) : result Simulated RpcError :=
  if mr_call_reverts m then Ok (Reverted_ []) else Ok (Returned (default [] (mr_call_returns m))).
Definition MockRpc_receipt (m : MockRpc) (hash : TxHash) : result (option TransactionReceipt) RpcError :=
  if mr_receipt_err m then Err (RpcError_Call "receipt read failed" true)
  else match mr_receipts m !! hash with
       | Some r => Ok (Some r)
       | None => Ok (mr_receipt m)
       end.
Definition MockRpc_account_activity (m : MockRpc) (accounts : list Address)
  : result (list AccountActivity) RpcError :=
  Ok (map (fun _ => mkActivity (mr_tx_count m) 0) accounts).

(** ** GasOracle *)

Record MockGas : Type := mkMockGas {
  mg_estimate : Eip1559Estimation;
  mg_bump : option Eip1559Estimation;
  mg_log : CallLog;
}.
Definition MockGas_default : MockGas := mkMockGas (estimation 100 1) None 2%nat.
Definition MockGas_estimate (m : MockGas) (logs : Logs) : result Eip1559Estimation GasOracleError * Logs :=
  (Ok (mg_estimate m), note (mg_log m) "fees" logs).
Definition MockGas_bump (m : MockGas) : result Eip1559Estimation GasOracleError :=
  ok_or (mg_bump m) (CeilingExceeded 0 1).

(** ** PolicyEngine *)

Record MockPolicy : Type := mkMockPolicy {
  mp_allow : bool;
  mp_calls : Z;
  mp_envelope : GasEnvelope;
  mp_valid_until : Z;
  mp_log : CallLog;
}.
Definition MockPolicy_default : MockPolicy := mkMockPolicy true 0 GasEnvelope_DEFAULT u64_max 3%nat.
Definition MockPolicy_evaluate {A : Alloy} (request : SigningRequest) (m : MockPolicy) (logs : Logs)
  : result Decision PolicyEngineError * MockPolicy * Logs :=
  (Ok (if mp_allow m
       then Allow (mint (match signing_hash request with Ok h => h | Err _ => 0 end)
                     (mp_envelope m) (mp_valid_until m))
       else Deny (mkRejection "test" None "blocked")),
   mkMockPolicy (mp_allow m) (mp_calls m + 1) (mp_envelope m) (mp_valid_until m) (mp_log m),
   note (mp_log m) "policy" logs).

(** ** NonceManager *)

Record MockNonce : Type := mkMockNonce { mn_next : Z; mn_log : CallLog }.
Definition MockNonce_default : MockNonce := mkMockNonce 0 4%nat.
Definition MockNonce_allocate (m : MockNonce) (logs : Logs) : result Z NonceManagerError * Logs :=
  (Ok (mn_next m), note (mn_log m) "allocate" logs).
Definition MockNonce_release (m : MockNonce) (logs : Logs) : result unit NonceManagerError * Logs :=
  (Ok tt, note (mn_log m) "release" logs).
Definition MockNonce_reset (m : MockNonce) (logs : Logs) : result unit NonceManagerError * Logs :=
  (Ok tt, note (mn_log m) "reset" logs).

(** ** Signer *)

Record MockSigner : Type := mkMockSigner { ms_address : Address; ms_ok : bool; ms_log : CallLog }.
Definition MockSigner_default : MockSigner := mkMockSigner Address_ZERO true 5%nat.
Definition MockSigner_sign_transaction (m : MockSigner) (logs : Logs) : result Signature SignerError * Logs :=
  (if ms_ok m then Ok mock_signature else Err (Signer_Backend "boom"), note (ms_log m) "sign" logs).
Definition MockSigner_envelope (m : MockSigner) : result SignatureEnvelope SignerError :=
  if ms_ok m then Ok (SignatureEnvelope_secp256k1 (ms_address m) mock_signature)
  else Err (Signer_Backend "boom").
(** [sign_message] and [sign_typed_data] have one body. *)
Definition MockSigner_sign_envelope (m : MockSigner) (logs : Logs)
  : result SignatureEnvelope SignerError * Logs :=
  (MockSigner_envelope m, note (ms_log m) "sign" logs).

(** ** SubmissionStrategy *)

(** [enum Submit]. *)
Inductive SubmitOutcome : Type :=
| Submit_Ok
| Submit_Transient
| Submit_AlreadyKnown
| Submit_Deterministic.

Record MockSubmit : Type := mkMockSubmit {
  mu_outcome : SubmitOutcome;
  mu_seen : list Bytes;
  mu_routes : list SubmissionRoute;
  mu_log : CallLog;
}.
Definition MockSubmit_default : MockSubmit := mkMockSubmit Submit_Ok [] [] 6%nat.
Definition MockSubmit_submit (rlp : Bytes) (opts : SubmissionOpts) (m : MockSubmit) (logs : Logs)
  : result TxHash SubmissionError * MockSubmit * Logs :=
  (match mu_outcome m with
   | Submit_Ok => Ok 0
   | Submit_Transient => Err (Submission_Rpc (RpcError_Call "timeout" true))
   | Submit_AlreadyKnown => Err (Submission_Rpc (RpcError_Call "already known" false))
   | Submit_Deterministic => Err (Submission_Rpc (RpcError_Call "invalid" false))
   end,
   mkMockSubmit (mu_outcome m) (mu_seen m ++ [rlp])%list (mu_routes m ++ [so_route opts])%list (mu_log m),
   note (mu_log m) "submit" logs).

(** ** StateStore *)

(** [all()] is [mt_handles]. *)
Record MockStore : Type := mkMockStore { mt_handles : list TxHandle; mt_log : CallLog }.
Definition MockStore_default : MockStore := mkMockStore [] 7%nat.
Definition MockStore_logged (log : CallLog) : MockStore := mkMockStore [] log.

(** Overwrite the first handle with this id, or push. *)
Fixpoint upsert (handle : TxHandle) (handles : list TxHandle) : list TxHandle :=
  match handles with
  | [] => [handle]
  | h :: rest => if th_id h =? th_id handle then handle :: rest else h :: upsert handle rest
  end.
Definition MockStore_put_handle (handle : TxHandle) (m : MockStore) (logs : Logs) : MockStore * Logs :=
  (mkMockStore (upsert handle (mt_handles m)) (mt_log m), note (mt_log m) "persist" logs).
Definition MockStore_pending_handles (account : Address) (m : MockStore) : list TxHandle :=
  List.filter (is_pending_of account) (mt_handles m).
Definition MockStore_handle (id : HandleId) (m : MockStore) : option TxHandle :=
  List.find (fun h => th_id h =? id) (mt_handles m).

(** The nonce operations of [MockStore] panic; nothing that runs on it calls them. *)
Definition mock_unreachable : StateStoreError :=
  Backend "nonce state is exercised via the real InMemoryStateStore".

(** ** Harness *)

(** What may be wired behind each [Arc<dyn _>]. *)
Inductive PolicyPort : Type :=
| Policy_Mock (m : MockPolicy)
| Policy_Native (engine : DefaultPolicyEngine) (clock : Z).
Inductive NoncePort : Type :=
| Nonce_Mock (m : MockNonce)
| Nonce_Local (m : LocalNonceManager).
Inductive SignerPort : Type :=
| Signer_Mock (m : MockSigner)
| Signer_Local (key : LocalSigner).
Inductive StorePort : Type :=
| Store_Mock (m : MockStore)
| Store_Memory (m : InMemoryStateStore)
| Store_Redb (db : RedbStateStore).

(** The wired ports with their state, the relayer's signer, the canned relay status of
    [MockRelay], the executor's knobs and the call logs. *)
Record Harness : Type := mkHarness {
  h_rpc : MockRpc;
  h_gas : MockGas;
  h_policy : PolicyPort;
  h_nonce : NoncePort;
  h_signer : SignerPort;
  h_relayer : SignerPort;
  h_submit : MockSubmit;
  h_store : StorePort;
  h_clock : Z;
  h_relay : option RelayStatus;
  h_confirmations : Z;
  h_bump_timeout : Z;
  h_logs : Logs;
}.
Definition Harness_default : Harness :=
  mkHarness MockRpc_default MockGas_default (Policy_Mock MockPolicy_default)
    (Nonce_Mock MockNonce_default) (Signer_Mock MockSigner_default) (Signer_Mock MockSigner_default)
    MockSubmit_default (Store_Mock MockStore_default) 0 None 12 30 ∅.

Definition Harness_rpc (v : MockRpc) (h : Harness) : Harness :=
  mkHarness v (h_gas h) (h_policy h) (h_nonce h) (h_signer h) (h_relayer h) (h_submit h) (h_store h)
    (h_clock h) (h_relay h) (h_confirmations h) (h_bump_timeout h) (h_logs h).
Definition Harness_gas (v : MockGas) (h : Harness) : Harness :=
  mkHarness (h_rpc h) v (h_policy h) (h_nonce h) (h_signer h) (h_relayer h) (h_submit h) (h_store h)
    (h_clock h) (h_relay h) (h_confirmations h) (h_bump_timeout h) (h_logs h).
Definition Harness_policy (v : PolicyPort) (h : Harness) : Harness :=
  mkHarness (h_rpc h) (h_gas h) v (h_nonce h) (h_signer h) (h_relayer h) (h_submit h) (h_store h)
    (h_clock h) (h_relay h) (h_confirmations h) (h_bump_timeout h) (h_logs h).
Definition Harness_nonce (v : NoncePort) (h : Harness) : Harness :=
  mkHarness (h_rpc h) (h_gas h) (h_policy h) v (h_signer h) (h_relayer h) (h_submit h) (h_store h)
    (h_clock h) (h_relay h) (h_confirmations h) (h_bump_timeout h) (h_logs h).
Definition Harness_signer (v : SignerPort) (h : Harness) : Harness :=
  mkHarness (h_rpc h) (h_gas h) (h_policy h) (h_nonce h) v (h_relayer h) (h_submit h) (h_store h)
    (h_clock h) (h_relay h) (h_confirmations h) (h_bump_timeout h) (h_logs h).
Definition Harness_relayer (v : SignerPort) (h : Harness) : Harness :=
  mkHarness (h_rpc h) (h_gas h) (h_policy h) (h_nonce h) (h_signer h) v (h_submit h) (h_store h)
    (h_clock h) (h_relay h) (h_confirmations h) (h_bump_timeout h) (h_logs h).
Definition Harness_submit (v : MockSubmit) (h : Harness) : Harness :=
  mkHarness (h_rpc h) (h_gas h) (h_policy h) (h_nonce h) (h_signer h) (h_relayer h) v (h_store h)
    (h_clock h) (h_relay h) (h_confirmations h) (h_bump_timeout h) (h_logs h).
Definition Harness_store (v : StorePort) (h : Harness) : Harness :=
  mkHarness (h_rpc h) (h_gas h) (h_policy h) (h_nonce h) (h_signer h) (h_relayer h) (h_submit h) v
    (h_clock h) (h_relay h) (h_confirmations h) (h_bump_timeout h) (h_logs h).
Definition Harness_clock (v : Z) (h : Harness) : Harness :=
  mkHarness (h_rpc h) (h_gas h) (h_policy h) (h_nonce h) (h_signer h) (h_relayer h) (h_submit h) (h_store h)
    v (h_relay h) (h_confirmations h) (h_bump_timeout h) (h_logs h).
(** [MockRelay(status)] behind [AccountExecutor::with_relay]. *)
Definition Harness_relay (v : RelayStatus) (h : Harness) : Harness :=
  mkHarness (h_rpc h) (h_gas h) (h_policy h) (h_nonce h) (h_signer h) (h_relayer h) (h_submit h) (h_store h)
    (h_clock h) (Some v) (h_confirmations h) (h_bump_timeout h) (h_logs h).
Definition Harness_confirmations (n : Z) (h : Harness) : Harness :=
  mkHarness (h_rpc h) (h_gas h) (h_policy h) (h_nonce h) (h_signer h) (h_relayer h) (h_submit h) (h_store h)
    (h_clock h) (h_relay h) n (h_bump_timeout h) (h_logs h).
Definition Harness_bump_timeout (n : Z) (h : Harness) : Harness :=
  mkHarness (h_rpc h) (h_gas h) (h_policy h) (h_nonce h) (h_signer h) (h_relayer h) (h_submit h) (h_store h)
    (h_clock h) (h_relay h) (h_confirmations h) n (h_logs h).
Definition Harness_logs (v : Logs) (h : Harness) : Harness :=
  mkHarness (h_rpc h) (h_gas h) (h_policy h) (h_nonce h) (h_signer h) (h_relayer h) (h_submit h) (h_store h)
    (h_clock h) (h_relay h) (h_confirmations h) (h_bump_timeout h) v.

Definition signer_address (s : SignerPort) : Address :=
  match s with Signer_Mock m => ms_address m | Signer_Local key => ls_address key end.

(** [Harness::executor]; a relay is wired when the harness has one. *)
Definition Harness_executor (h : Harness) : AccountExecutor :=
  let e := with_bump_timeout (h_bump_timeout h)
             (with_confirmations (h_confirmations h) (AccountExecutor_new User Address_ZERO)) in
  match h_relay h with Some _ => with_relay e | None => e end.
(** [Harness::manager]: [MockSubmit] keeps the default [supports_route]. *)
Definition Harness_manager (h : Harness) : TransactionManager :=
  TransactionManager_new User (signer_address (h_signer h)) (fun _ => true).

(** ** The mocks as an environment *)

Section Serve.
Context {A : Alloy} {J : Serde}.

Definition serve_policy (request : SigningRequest) (h : Harness)
  : result Decision PolicyEngineError * Harness :=
  match h_policy h with
  | Policy_Mock m =>
      let '(r, m', logs) := MockPolicy_evaluate request m (h_logs h) in
      (r, Harness_logs logs (Harness_policy (Policy_Mock m') h))
  | Policy_Native engine clock =>
      (fst (run_env (fun p => match p return resp p with NowUnix => clock | q => offline q end)
              (evaluate engine request)), h)
  end.

Definition outcome_of_decision (d : Decision) : PolicyOutcome :=
  match d with Allow _ => WouldAllow | Deny r => WouldDeny r end.

Definition serve_validate (request : SigningRequest) (h : Harness)
  : result PolicyOutcome PolicyEngineError * Harness :=
  match h_policy h with
  | Policy_Mock _ =>
      let '(r, h') := serve_policy request h in
      (match r with Ok d => Ok (outcome_of_decision d) | Err e => Err e end, h')
  | Policy_Native engine _ => (Ok (decide_outcome engine request), h)
  end.

Definition port_signer (who : principal) (h : Harness) : SignerPort :=
  match who with User => h_signer h | Relayer => h_relayer h end.

Definition serve_sign_transaction (who : principal) (tx : TxEip1559) (ih : IntentHash)
    (approval : PolicyApproval) (now : Z) (h : Harness) : result Signature SignerError * Harness :=
  match port_signer who h with
  | Signer_Mock m =>
      let '(r, logs) := MockSigner_sign_transaction m (h_logs h) in (r, Harness_logs logs h)
  | Signer_Local key => (sign_transaction key tx ih approval now, h)
  end.
Definition serve_sign (who : principal) (local : LocalSigner -> result SignatureEnvelope SignerError)
    (h : Harness) : result SignatureEnvelope SignerError * Harness :=
  match port_signer who h with
  | Signer_Mock m =>
      let '(r, logs) := MockSigner_sign_envelope m (h_logs h) in (r, Harness_logs logs h)
  | Signer_Local key => (local key, h)
  end.

Definition serve_put (handle : TxHandle) (h : Harness) : result unit StateStoreError * Harness :=
  match h_store h with
  | Store_Mock m =>
      let '(m', logs) := MockStore_put_handle handle m (h_logs h) in
      (Ok tt, Harness_logs logs (Harness_store (Store_Mock m') h))
  | Store_Memory m =>
      let '(r, m') := memory_put_handle handle m in (r, Harness_store (Store_Memory m') h)
  | Store_Redb db =>
      let '(r, db') := redb_put_handle None handle db in (r, Harness_store (Store_Redb db') h)
  end.

(** Every port but the nonce manager. *)
Definition serve_base (p : port) (h : Harness) : resp p * Harness :=
  match p return resp p * Harness with
  | PendingNonce _ => (Ok (mr_pending_nonce (h_rpc h)), h)
  | TxCount _ => (Ok (mr_tx_count (h_rpc h)), h)
  | BlockNumber => let '(r, m) := MockRpc_block_number (h_rpc h) in (r, Harness_rpc m h)
  | FinalizedBlock => (Ok (mr_finalized (h_rpc h)), h)
  | BlockHash _ => (Ok (mr_canonical (h_rpc h)), h)
  | EstimateFees => (Ok (estimation 0 0), h)
  | BaseFee => (Ok (mr_base_fee (h_rpc h)), h)
  | EstimateGas _ =>
      let '(r, logs) := MockRpc_estimate_gas (h_rpc h) (h_logs h) in (r, Harness_logs logs h)
  | EthCall _ => (MockRpc_call (h_rpc h), h)
  | CreateAccessList _ => (Ok [], h)
  | SendRaw _ => (Ok 0, h)
  | Receipt hash => (MockRpc_receipt (h_rpc h) hash, h)
  | GetAccountActivity _ accounts => (MockRpc_account_activity (h_rpc h) accounts, h)
  | GasEstimate => let '(r, logs) := MockGas_estimate (h_gas h) (h_logs h) in (r, Harness_logs logs h)
  | GasBump _ => (MockGas_bump (h_gas h), h)
  | Evaluate _ request => serve_policy request h
  | Validate _ request => serve_validate request h
  | SignTransaction who tx ih approval now => serve_sign_transaction who tx ih approval now h
  | SignMessage who m approval now => serve_sign who (fun key => sign_message key m approval now) h
  | SignTypedData who td approval now => serve_sign who (fun key => sign_typed_data key td approval now) h
  | Submit rlp opts =>
      let '(r, m, logs) := MockSubmit_submit rlp opts (h_submit h) (h_logs h) in
      (r, Harness_logs logs (Harness_submit m h))
  | LoadNonceState scope =>
      match h_store h with
      | Store_Mock _ => (Err mock_unreachable, h)
      | Store_Memory m => (memory_load_nonce_state scope m, h)
      | Store_Redb db => (redb_load_nonce_state None scope db, h)
      end
  | CasNonceState scope version state fence =>
      match h_store h with
      | Store_Mock _ => (Err mock_unreachable, h)
      | Store_Memory m =>
          let '(r, m') := memory_cas_nonce_state scope version state fence m in
          (r, Harness_store (Store_Memory m') h)
      | Store_Redb db =>
          let '(r, db') := redb_cas_nonce_state None scope version state fence db in
          (r, Harness_store (Store_Redb db') h)
      end
  | PutHandle handle => serve_put handle h
  | PendingHandles account =>
      (match h_store h with
       | Store_Mock m => Ok (MockStore_pending_handles account m)
       | Store_Memory m => memory_pending_handles account m
       | Store_Redb db => redb_pending_handles None account db
       end, h)
  | GetHandle id =>
      (match h_store h with
       | Store_Mock m => Ok (MockStore_handle id m)
       | Store_Memory m => memory_handle id m
       | Store_Redb db => redb_handle None id db
       end, h)
  | NowUnix => (h_clock h, h)
  | Poll task => (match h_relay h with Some s => Ok s | None => offline (Poll task) end, h)
  | q => (offline q, h)
  end.

(** A real manager runs its loop against the other ports; nothing else writes in
    between, so its first round commits. *)
Definition serve_local {T} (h : Harness) (m : io (option (result T NonceManagerError)))
  : result T NonceManagerError * Harness :=
  let '(r, h', _) := run serve_base m h [] in
  (match r with Some r => r | None => Err (Nonce_Rpc offline_rpc) end, h').

Definition serve_nonce {T} (h : Harness) (mock : MockNonce -> Logs -> result T NonceManagerError * Logs)
    (local : LocalNonceManager -> io (option (result T NonceManagerError)))
  : result T NonceManagerError * Harness :=
  match h_nonce h with
  | Nonce_Mock m => let '(r, logs) := mock m (h_logs h) in (r, Harness_logs logs h)
  | Nonce_Local m => serve_local h (local m)
  end.

Definition serve (p : port) (h : Harness) : resp p * Harness :=
  match p return resp p * Harness with
  | Allocate account => serve_nonce h MockNonce_allocate (fun m => allocate m 1 account)
  | Release account nonce => serve_nonce h MockNonce_release (fun m => release m 1 account nonce)
  | ResetNonce account next => serve_nonce h MockNonce_reset (fun m => reset m 1 account next)
  | q => serve_base q h
  end.

(** Run a program on the harness: its result and the harness after it. *)
Definition on {T} (h : Harness) (m : io T) : T * Harness :=
  let '(a, h', _) := run serve m h [] in (a, h').

(** [store.put_handle(&h).await.unwrap()] before a run. *)
Definition seed (handles : list TxHandle) (h : Harness) : Harness :=
  fold_left (fun h x => snd (serve_put x h)) handles h.
End Serve.

(** [store.all()], of a [MockStore]; the other stores have no such method. *)
Definition all (h : Harness) : list TxHandle :=
  match h_store h with
  | Store_Mock m => mt_handles m
  | _ => []
  end.
(** [*policy.calls.lock()]. *)
Definition policy_calls (h : Harness) : Z :=
  match h_policy h with Policy_Mock m => mp_calls m | Policy_Native _ _ => 0 end.

(** ** Assertions *)

Definition assert_eq {T} `{EqDecision T} (x y : T) : bool := bool_decide (x = y).
Definition assert_all (checks : list bool) : bool := forallb id checks.
Definition contains (log : list string) (ev : string) : bool := existsb (String.eqb ev) log.
