(* ===== verification/ExecutorTests.v ===== *)
(** * ExecutorTests: the executor's and the lifecycle's unit tests, run on the model

    The [#[cfg(test)]] modules of [src/src/core/wallet/executor/mod.rs] and
    [lifecycle.rs].  Each Rust test is a boolean: the same mocks are wired, the same
    calls are made on the model, and the same assertions are evaluated.  A model that
    disagreed with the code on what a test pins would fail here. *)
From S2P Require Import Prelude Effects Primitives ModelAlloy Errors Ports Lifecycle GasOracle Policy.
From S2P Require Import Signer Signing TransactionManager Executor Store ModelSerde Mocks.

Open Scope string_scope.
Open Scope Z_scope.

(** ** Lifecycle *)

Module LifecycleTests.
Definition HASH : B256 := 0.
Definition depth (required : Z) : FinalityConfig := mkFinality Depth required.
Definition finalized : FinalityConfig := mkFinality Finalized 0.
Definition view_at (latest finalized : Z) : ChainView := mkView latest finalized.
Definition mined (block : Z) (outcome : Outcome) : ChainEvent := Ev_Mined block HASH outcome.

Definition unknown_never_transitions : bool :=
  forallb (fun state => assert_eq (transition state Ev_Unknown (view_at 100 100) (depth 1)) None)
    [Sent; Mined 8 HASH; Replacing 8].

Definition terminal_states_are_never_revised : bool :=
  forallb (fun state =>
      assert_eq (transition state (mined 8 Reverted) (view_at 100 100) (depth 1)) None
      && assert_eq (transition state Ev_Pending (view_at 100 100) (depth 1)) None)
    [Confirmed 8; Failed "x"; Replaced].

Definition pending_reorgs_tentative_states_back_to_sent : bool :=
  let cfg := depth 2 in
  let v := view_at 10 0 in
  assert_all
    [assert_eq (transition (Mined 8 HASH) Ev_Pending v cfg) (Some Sent);
     assert_eq (transition (Replacing 8) Ev_Pending v cfg) (Some Sent);
     assert_eq (transition Sent Ev_Pending v cfg) None].

Definition mined_confirms_and_fails_only_at_depth : bool :=
  let cfg := depth 2 in
  assert_all
    [assert_eq (transition Sent (mined 8 Executed) (view_at 8 0) cfg) (Some (Mined 8 HASH));
     assert_eq (transition Sent (mined 8 Executed) (view_at 9 0) cfg) (Some (Confirmed 8));
     match transition Sent (mined 8 Reverted) (view_at 9 0) cfg with Some (Failed _) => true | _ => false end].

Definition mined_at_same_block_is_a_no_op : bool :=
  assert_eq (transition (Mined 8 HASH) (mined 8 Executed) (view_at 9 0) (depth 5)) None.

Definition depth_clamps_when_latest_lags_behind_the_block : bool :=
  assert_all
    [assert_eq (transition Sent (mined 10 Executed) (view_at 8 0) (depth 1)) (Some (Confirmed 10));
     assert_eq (transition Sent (mined 10 Executed) (view_at 8 0) (depth 2)) (Some (Mined 10 HASH))].

Definition depth_counts_skipped_blocks : bool :=
  assert_eq (transition Sent (mined 8 Executed) (view_at 13 0) (depth 3)) (Some (Confirmed 8)).

Definition finalized_mode_gates_on_the_finalized_head : bool :=
  assert_all
    [assert_eq (transition Sent (mined 8 Executed) (view_at 100 7) finalized) (Some (Mined 8 HASH));
     assert_eq (transition Sent (mined 8 Executed) (view_at 100 8) finalized) (Some (Confirmed 8))].

Definition replaced_is_tentative_until_depth_then_final : bool :=
  let cfg := depth 3 in
  assert_all
    [assert_eq (transition Sent Ev_Replaced (view_at 10 0) cfg) (Some (Replacing 10));
     assert_eq (transition (Replacing 10) Ev_Replaced (view_at 11 0) cfg) None;
     assert_eq (transition (Replacing 10) Ev_Replaced (view_at 12 0) cfg) (Some Replaced)].

Definition replaced_after_mined_restarts_the_depth_clock : bool :=
  assert_eq (transition (Mined 8 HASH) Ev_Replaced (view_at 10 0) (depth 3)) (Some (Replacing 10)).

Definition zero_required_depth_confirms_at_the_inclusion_block : bool :=
  assert_eq (transition Sent (mined 8 Executed) (view_at 8 0) (depth 0)) (Some (Confirmed 8)).

Definition replacing_is_reclaimed_by_our_own_mined_tx : bool :=
  let cfg := depth 2 in
  assert_all
    [assert_eq (transition (Replacing 5) (mined 8 Executed) (view_at 8 0) cfg) (Some (Mined 8 HASH));
     assert_eq (transition (Replacing 5) (mined 8 Executed) (view_at 9 0) cfg) (Some (Confirmed 8))].

Definition remine_into_a_different_block_updates_the_anchor : bool :=
  let hash_a := repeat_byte 32 Byte.x0a in
  let hash_b := repeat_byte 32 Byte.x0b in
  assert_eq (transition (Mined 8 hash_a) (Ev_Mined 12 hash_b Executed) (view_at 12 0) (depth 4))
    (Some (Mined 12 hash_b)).

Definition suite : list bool :=
  [unknown_never_transitions; terminal_states_are_never_revised;
   pending_reorgs_tentative_states_back_to_sent; mined_confirms_and_fails_only_at_depth;
   mined_at_same_block_is_a_no_op; depth_clamps_when_latest_lags_behind_the_block;
   depth_counts_skipped_blocks; finalized_mode_gates_on_the_finalized_head;
   replaced_is_tentative_until_depth_then_final; replaced_after_mined_restarts_the_depth_clock;
   zero_required_depth_confirms_at_the_inclusion_block; replacing_is_reclaimed_by_our_own_mined_tx;
   remine_into_a_different_block_updates_the_anchor].
End LifecycleTests.

(** Every lifecycle test of the repository passes on the model. *)
Theorem lifecycle_tests_pass : assert_all LifecycleTests.suite = true.
Proof. vm_compute. reflexivity. Qed.

(** ** Executor *)

Module ExecutorTests.

(** Record updates [{ field: v, ..Default::default() }] of the mocks the tests use. *)
Definition rpc_at (tx_count block_number : Z) (finalized : option Z) (r : option TransactionReceipt)
    (canonical : option B256) : MockRpc :=
  mkMockRpc 0 tx_count block_number [] finalized 0 r ∅ false canonical false None false 1%nat.
Definition rpc_receipts (tx_count block_number : Z) (rs : gmap TxHash TransactionReceipt)
    (canonical : option B256) : MockRpc :=
  mkMockRpc 0 tx_count block_number [] None 0 None rs false canonical false None false 1%nat.
Definition rpc_receipt_err (tx_count block_number : Z) : MockRpc :=
  mkMockRpc 0 tx_count block_number [] None 0 None ∅ true None false None false 1%nat.
Definition rpc_heads (tx_count : Z) (heads : list Z) : MockRpc :=
  mkMockRpc 0 tx_count 0 heads None 0 None ∅ false None false None false 1%nat.
Definition gas_bumping (bump : option Eip1559Estimation) : MockGas := mkMockGas (estimation 100 1) bump 2%nat.
Definition submitting (outcome : SubmitOutcome) : MockSubmit := mkMockSubmit outcome [] [] 6%nat.

(** [.await.unwrap()] of an executor method: its memory and the harness after it. *)
Definition unwrap {T E} (x : result unit E * T * Harness) : option (T * Harness) :=
  match x with (Ok _, t, h) => Some (t, h) | (Err _, _, _) => None end.
Definition holds {T} (x : option T) (test : T -> bool) : bool :=
  match x with Some t => test t | None => false end.

Definition do_recover (h : Harness) : option Harness :=
  match on h (recover (Harness_executor h)) with (Ok _, h') => Some h' | (Err _, _) => None end.
Definition do_confirm (x : exec_state * Harness) : option (exec_state * Harness) :=
  unwrap (on (snd x) (confirm (Harness_executor (snd x)) (fst x))).
Definition do_escalate (x : exec_state * Harness) : option (exec_state * Harness) :=
  unwrap (on (snd x) (escalate (Harness_executor (snd x)) (fst x))).
Definition fresh (h : Harness) : exec_state * Harness := (exec_state_new, h).

(** The status, the handle and its number of broadcasts of [store.all()[0]]. *)
Definition first_is (x : exec_state * Harness) (test : TxHandle -> bool) : bool :=
  match all (snd x) with h :: _ => test h | [] => false end.
Definition first_status (s : TxStatus) (x : exec_state * Harness) : bool :=
  first_is x (fun h => assert_eq (th_status h) s).
Definition first_broadcasts (n : nat) (x : exec_state * Harness) : bool :=
  first_is x (fun h => assert_eq (length (th_broadcasts h)) n).
Definition calls_are (n : Z) (x : exec_state * Harness) : bool := policy_calls (snd x) =? n.

(** [exec.track(h.id, PolicyApproval::mint(h.intent_hash, envelope, valid_until))]. *)
Definition track_minted (h : TxHandle) (envelope : GasEnvelope) (valid_until : Z) (st : exec_state)
  : exec_state := track (th_id h) (mint (th_intent_hash h) envelope valid_until) st.
Definition tracked (h : TxHandle) : exec_state :=
  track_minted h GasEnvelope_DEFAULT u64_max exec_state_new.

(** *** Private routing *)

Definition private_bump_harness : Harness :=
  Harness_bump_timeout 0 (Harness_clock 1000
    (Harness_gas (gas_bumping (Some (estimation 200 1)))
      (Harness_rpc (rpc_at 4 0 None None None) Harness_default))).

Definition bumped_route (h : TxHandle) : option (exec_state * Harness) :=
  let x := seed [h] private_bump_harness in
  unwrap (on x (bump (Harness_executor x) h 1000 (tracked h))).

Definition bump_stays_on_the_private_route : bool :=
  let opts := opts_of_protect (mev_blocker StayPrivate) in
  let h := set_submission opts (handle 4 Sent) in
  holds (bumped_route h) (fun x =>
    assert_eq (mu_routes (h_submit (snd x))) [so_route opts]
    && first_is x (fun h' => assert_eq (so_route (th_submission h')) (so_route opts))).

Definition bump_escalates_private_to_public_at_threshold : bool :=
  let h := set_submission (opts_of_flashbots (Flashbots_new (PublicAfter 1))) (handle 4 Sent) in
  holds (bumped_route h) (fun x =>
    assert_eq (mu_routes (h_submit (snd x))) [Public]
    && first_is x (fun h' => assert_eq (so_route (th_submission h')) Public)).

(** *** Recover and confirm *)

Definition contains_bytes (seen : list Bytes) (b : Bytes) : bool := existsb (fun x => assert_eq x b) seen.
Definition seen_by (h : Harness) : list Bytes := mu_seen (h_submit h).

Definition recover_rebroadcasts_persisted_inflight_after_restart : bool :=
  let h := handle 4 Sent in
  holds (do_recover (seed [h] Harness_default)) (fun x => assert_eq (seen_by x) [th_signed h]).

Definition recover_rebroadcasts_only_pending_and_sent_across_multiple_inflight_handles : bool :=
  let h4 := handle 4 Sent in
  let h5 := handle 5 Pending in
  let x := seed [h4; h5; handle 6 (Mined 8 (repeat_byte 32 Byte.x01)); handle 7 (Replacing 8)]
             Harness_default in
  holds (do_recover x) (fun x =>
    assert_all [assert_eq (length (seen_by x)) 2%nat; contains_bytes (seen_by x) (th_signed h4);
                contains_bytes (seen_by x) (th_signed h5)]).

Definition recover_swallows_a_per_handle_submit_failure_and_still_attempts_later_handles : bool :=
  let h4 := handle 4 Sent in
  let h5 := handle 5 Sent in
  let x := seed [h4; h5] (Harness_submit (submitting Submit_Deterministic) Harness_default) in
  holds (do_recover x) (fun x =>
    assert_all [assert_eq (length (seen_by x)) 2%nat; contains_bytes (seen_by x) (th_signed h4);
                contains_bytes (seen_by x) (th_signed h5)]).

Definition terminal_handles_are_readable_after_restart_but_not_rebroadcast : bool :=
  let live := handle 7 Sent in
  let x := seed [handle 4 (Confirmed 8); handle 5 (Failed "x"); handle 6 Replaced; live] Harness_default in
  holds (do_recover x) (fun x => assert_eq (seen_by x) [th_signed live]).

(** One confirm cycle over [store] against a fixed chain view; the store after it. *)
Definition run_confirm (store : StorePort) (tx_count head : Z) (r : option TransactionReceipt)
    (canonical : option B256) (confirmations : Z) : option (exec_state * Harness) :=
  do_confirm (fresh (Harness_confirmations confirmations (Harness_store store
    (Harness_rpc (rpc_at tx_count head None r canonical) Harness_default)))).
Definition store_of (handles : list TxHandle) : StorePort := h_store (seed handles Harness_default).
Definition h1 : B256 := repeat_byte 32 Byte.x01.

Definition confirm_advances_on_anchored_receipt_at_required_depth : bool :=
  holds (run_confirm (store_of [handle 4 Sent]) 5 10 (Some (receipt true 8 h1)) (Some h1) 2)
    (first_status (Confirmed 8)).

Definition reverted_receipt_fails_only_at_depth : bool :=
  holds (run_confirm (store_of [handle 4 Sent]) 5 10 (Some (receipt false 8 h1)) (Some h1) 2)
    (fun x => first_is x (fun h => match th_status h with Failed _ => true | _ => false end)).

(** [h.meta = meta]. *)
Definition set_meta (meta : option MetaContext) (h : TxHandle) : TxHandle :=
  mkHandle (th_id h) (th_account h) (th_intent h) (th_intent_hash h) (th_nonce h) (th_status h)
    (th_envelope h) (th_signed h) (th_broadcasts h) (th_last_broadcast_at h) (th_cancelled h)
    (th_submission h) meta.

Definition gasless_outer_success_does_not_confirm_a_reverted_inner_call : bool :=
  let mined_ok := receipt true 8 0 in
  let plain := handle 4 Sent in
  let meta := set_meta (Some (mkMeta 0 0 0 None)) plain in
  assert_all
    [assert_eq (outcome_of mined_ok plain) Executed; assert_eq (outcome_of mined_ok meta) Reverted;
     assert_eq (outcome_of (receipt false 8 0) plain) Reverted].

Definition gelato_task_handle_trusts_the_relay_verdict_not_the_oz_event : bool :=
  let gelato := set_meta (Some (for_gelato_task 0 0 0 (mkTaskId "t1"))) (handle 4 Sent) in
  assert_all
    [assert_eq (outcome_of (receipt true 8 0) gelato) Executed;
     assert_eq (outcome_of (receipt false 8 0) gelato) Reverted].

Definition task_handle : TxHandle :=
  let h := handle 0 Sent in
  mkHandle (th_id h) (th_account h) (th_intent h) (th_intent_hash h) (th_nonce h) (th_status h)
    (th_envelope h) [] [] (th_last_broadcast_at h) (th_cancelled h) (th_submission h)
    (Some (for_gelato_task 0 (th_account h) 0 (mkTaskId "task-1"))).
Definition confirm_with_relay (status : RelayStatus) : option (exec_state * Harness) :=
  do_confirm (fresh (Harness_relay status
    (seed [task_handle] (Harness_rpc (rpc_at 0 10 None None None) Harness_default)))).

Definition task_handle_records_the_hash_on_relay_inclusion : bool :=
  let hash := repeat_byte 32 Byte.x09 in
  holds (confirm_with_relay (Relay_Included hash)) (fun x =>
    first_is x (fun got => assert_eq (th_broadcasts got) [hash] && assert_eq (th_status got) Sent)).

Definition task_handle_settles_failed_on_relay_drop : bool :=
  holds (confirm_with_relay (Relay_Failed "cancelled")) (fun x =>
    first_is x (fun h => match th_status h with Failed _ => true | _ => false end)).

Definition stale_receipt_from_a_reorged_block_holds_the_state : bool :=
  holds (run_confirm (store_of [handle 4 (Mined 8 h1)]) 5 10
           (Some (receipt true 8 (repeat_byte 32 Byte.x02))) (Some h1) 2)
    (first_status (Mined 8 h1)).

Definition freed_nonce_un_mines_a_tentative_handle : bool :=
  holds (run_confirm (store_of [handle 4 (Mined 8 h1)]) 4 10 None None 12) (first_status Sent).

Definition replacement_is_tentative_until_depth_then_final : bool :=
  holds (run_confirm (store_of [handle 4 Sent]) 5 10 None None 3) (fun x =>
    first_status (Replacing 10) x
    && holds (run_confirm (h_store (snd x)) 5 13 None None 3) (first_status Replaced)).

Definition replacement_reorg_frees_the_nonce_and_recovers_to_sent : bool :=
  holds (run_confirm (store_of [handle 4 (Replacing 5)]) 4 10 None None 12) (first_status Sent).

Definition confirm_with_finalized (store : StorePort) (finalized : Z) : option (exec_state * Harness) :=
  do_confirm (fresh (Harness_store store
    (Harness_rpc (rpc_at 5 100 (Some finalized) (Some (receipt true 8 h1)) (Some h1)) Harness_default))).
Definition finalized_tag_gates_terminality : bool :=
  holds (confirm_with_finalized (store_of [handle 4 Sent]) 7) (fun x =>
    first_status (Mined 8 h1) x
    && holds (confirm_with_finalized (h_store (snd x)) 8) (first_status (Confirmed 8))).

Definition regressed_head_between_cycles_skips_confirm_and_makes_no_transition : bool :=
  let log := 0%nat in
  let x := fresh (seed [handle 4 Sent] (Harness_confirmations 2
             (Harness_nonce (Nonce_Mock (mkMockNonce 0 log))
               (Harness_rpc (rpc_heads 4 [100; 90; 95]) Harness_default)))) in
  holds ((do_confirm x ≫= do_confirm) ≫= do_confirm) (fun x =>
    first_status Sent x
    && assert_eq (length (List.filter (String.eqb "reset") (read_log log (h_logs (snd x))))) 1%nat).

Definition inconsistent_view_skips_the_cycle : bool :=
  holds (confirm_with_finalized (store_of [handle 4 Sent]) 200) (first_status Sent).

(** *** Send and bump *)

Definition stuck_harness (policy : MockPolicy) (tx_count : Z) (next : option Eip1559Estimation)
    (outcome : SubmitOutcome) : Harness :=
  Harness_bump_timeout 0 (Harness_clock 1000 (Harness_submit (submitting outcome)
    (Harness_policy (Policy_Mock policy) (Harness_gas (gas_bumping next)
      (Harness_rpc (rpc_at tx_count 0 None None None) Harness_default))))).

Definition send_setup (next : option Eip1559Estimation) : Harness :=
  stuck_harness MockPolicy_default 4 next Submit_Ok.

(** [h.envelope = envelope]. *)
Definition set_envelope (envelope : GasEnvelope) (h : TxHandle) : TxHandle :=
  mkHandle (th_id h) (th_account h) (th_intent h) (th_intent_hash h) (th_nonce h) (th_status h)
    envelope (th_signed h) (th_broadcasts h) (th_last_broadcast_at h) (th_cancelled h)
    (th_submission h) (th_meta h).
Definition seed_and_track (h : Harness) (envelope : GasEnvelope) : exec_state * Harness :=
  let x := set_envelope envelope (handle 4 Sent) in
  (track_minted x envelope u64_max exec_state_new, seed [x] h).

Definition escalate_with_fresh_policy (policy : MockPolicy) : option (exec_state * Harness) :=
  do_escalate (fresh (seed [handle 4 Sent] (stuck_harness policy 4 (Some (estimation 200 1)) Submit_Ok))).

(** [h.signed = signed], its broadcast time untouched. *)
Definition with_signed (signed : Bytes) (h : TxHandle) : TxHandle :=
  set_signed signed (th_last_broadcast_at h) h.
Definition escalate_with_signed (signed : Bytes) : option (exec_state * Harness) :=
  do_escalate (fresh (seed [with_signed signed (handle 4 Sent)]
    (stuck_harness MockPolicy_default 4 (Some (estimation 200 1)) Submit_Ok))).

Definition escalates (x : exec_state * Harness) (broadcasts : nat) (calls : Z) : bool :=
  holds (do_escalate x) (fun x => first_broadcasts broadcasts x && calls_are calls x).

Definition bump_within_envelope_reuses_approval : bool :=
  escalates (seed_and_track (send_setup (Some (estimation 200 1))) GasEnvelope_DEFAULT) 2 0.
Definition bump_beyond_approved_envelope_stops : bool :=
  escalates (seed_and_track (send_setup (Some (estimation 200 1))) (mkEnvelope 150 150)) 1 0.
Definition bump_refreshes_expired_approval_within_envelope : bool :=
  let h := handle 4 Sent in
  escalates (track_minted h GasEnvelope_DEFAULT 0 exec_state_new,
             seed [h] (send_setup (Some (estimation 200 1)))) 2 1.
Definition bump_stops_at_gas_ceiling : bool :=
  escalates (seed_and_track (send_setup None) GasEnvelope_DEFAULT) 1 0.

Definition bump_records_broadcast_when_already_known_and_persists_new_hash : bool :=
  let h := handle 4 Sent in
  let x := seed [h] (stuck_harness MockPolicy_default 4 (Some (estimation 200 1)) Submit_AlreadyKnown) in
  holds (do_escalate (tracked h, x)) (fun x =>
    first_broadcasts 2 x
    && first_is x (fun h' => assert_eq (sf_fees <$> decode_fees (th_signed h')) (Some (estimation 200 1)))).

Definition bump_aborts_if_nonce_already_mined : bool :=
  let h := handle 4 Sent in
  let x := seed [h] (stuck_harness MockPolicy_default 5 (Some (estimation 200 1)) Submit_Ok) in
  holds (do_escalate (tracked h, x)) (first_broadcasts 1).

Definition bump_denied_by_fresh_policy_leaves_the_tx : bool :=
  holds (escalate_with_fresh_policy (mkMockPolicy false 0 GasEnvelope_DEFAULT u64_max 3%nat)) (fun x =>
    assert_all [first_broadcasts 1 x; first_status Sent x; calls_are 1 x]).
Definition bump_denied_when_refreshed_envelope_no_longer_admits_the_bump : bool :=
  holds (escalate_with_fresh_policy (mkMockPolicy true 0 (mkEnvelope 150 150) u64_max 3%nat)) (fun x =>
    assert_all [first_broadcasts 1 x; first_status Sent x; calls_are 1 x]).
Definition bump_exactly_at_envelope_ceiling_is_admitted : bool :=
  escalates (seed_and_track (send_setup (Some (estimation 200 1))) (mkEnvelope 200 1)) 2 0.

(** The handle is left as it was, and the policy never asked. *)
Definition leaves_signed (signed : Bytes) : bool :=
  holds (escalate_with_signed signed) (fun x =>
    assert_all [first_broadcasts 1 x; first_is x (fun h => assert_eq (th_signed h) signed);
                first_status Sent x; calls_are 0 x]).
Definition decode_fees_leaves_a_non_1559_signed_tx_unbumped : bool := leaves_signed (signed_legacy 4).
Definition decode_fees_leaves_a_handle_with_undecodable_signed_bytes : bool :=
  leaves_signed [Byte.xff; Byte.x00; Byte.x01].

Definition bump_transient_submit_error_aborts_without_advancing_broadcasts : bool :=
  let h := handle 4 Sent in
  let x := seed [h] (stuck_harness MockPolicy_default 4 (Some (estimation 200 1)) Submit_Transient) in
  match on x (bump (Harness_executor x) h 1000 (tracked h)) with
  | (Err (Ex_Submission _), st, x') =>
      assert_all [assert_eq (length (seen_by x')) 1%nat; first_broadcasts 1 (st, x');
                  first_is (st, x') (fun h' => assert_eq (th_signed h') (th_signed h))]
  | _ => false
  end.

Definition repeated_bumps_across_ticks_append_broadcasts_at_the_same_nonce : bool :=
  let x := seed_and_track (send_setup (Some (estimation 200 1))) GasEnvelope_DEFAULT in
  holds ((do_escalate x ≫= do_escalate) ≫= do_escalate) (fun x =>
    assert_all [first_broadcasts 4 x;
      first_is x (fun h => (th_nonce h =? 4) && (th_id h =? th_id (handle 4 Sent)));
      first_status Sent x; calls_are 0 x]).

(** [h.broadcasts = broadcasts]. *)
Definition set_broadcasts (broadcasts : list TxHash) (h : TxHandle) : TxHandle :=
  mkHandle (th_id h) (th_account h) (th_intent h) (th_intent_hash h) (th_nonce h) (th_status h)
    (th_envelope h) (th_signed h) broadcasts (th_last_broadcast_at h) (th_cancelled h)
    (th_submission h) (th_meta h).
Definition h_old : TxHash := repeat_byte 32 Byte.x11.
Definition h_new : TxHash := repeat_byte 32 Byte.x22.
Definition canonical_88 : B256 := repeat_byte 32 Byte.x88.
Definition confirm_receipts (head : Z) (rs : list (TxHash * TransactionReceipt))
  : option (exec_state * Harness) :=
  do_confirm (fresh (Harness_confirmations 2
    (seed [set_broadcasts [h_old; h_new] (handle 4 Sent)]
      (Harness_rpc (rpc_receipts 5 head (list_to_map rs) (Some canonical_88)) Harness_default)))).

Definition newest_broadcast_receipt_wins_over_stale_older_hash : bool :=
  holds (confirm_receipts 20 [(h_old, receipt true 6 (repeat_byte 32 Byte.x66));
                              (h_new, receipt true 8 canonical_88)]) (first_status (Confirmed 8))
  && holds (confirm_receipts 20 [(h_new, receipt true 8 canonical_88)]) (first_status (Confirmed 8)).
Definition bump_then_original_mines_bump_receipt_is_ignored_original_wins : bool :=
  holds (confirm_receipts 10 [(h_old, receipt true 8 canonical_88)]) (first_status (Confirmed 8)).

Definition receipt_read_error_yields_unknown_holds_state : bool :=
  let mined := Mined 8 h1 in
  holds (do_confirm (fresh (Harness_confirmations 2
           (seed [handle 4 mined] (Harness_rpc (rpc_receipt_err 5 20) Harness_default))))) (first_status mined)
  && holds (run_confirm (store_of [handle 4 mined]) 5 20 None None 2) (first_status (Replacing 20)).

(** [now] is what [SystemClock] reads. *)
Definition stuck_cancel_bumps_via_cancel_request (now : Z) : bool :=
  let account := Address_ZERO in
  let self_send := mkIntent 1 account (TxKind_Call account) 0 [] None in
  let intent_hash := TxIntent_hash self_send in
  let b := handle 4 Sent in
  let h := mkHandle (HandleId_new intent_hash 4) (th_account b) self_send intent_hash (th_nonce b)
             (th_status b) (th_envelope b) (th_signed b) (th_broadcasts b) (th_last_broadcast_at b)
             (th_cancelled b) (th_submission b) (th_meta b) in
  let x := Harness_bump_timeout 0 (Harness_policy (Policy_Native (DefaultPolicyEngine_new []) now)
             (Harness_gas (gas_bumping (Some (estimation 200 1)))
               (Harness_rpc (rpc_at 4 0 None None None) Harness_default))) in
  holds (do_escalate (fresh (seed [h] x))) (first_broadcasts 2).

Definition receipt_missing_block_anchor_yields_unknown : bool :=
  let half := mkReceipt (Some 8) None true [] in
  forallb (fun r => holds (run_confirm (store_of [handle 4 Sent]) 4 20 (Some r) (Some h1) 2)
                      (first_status Sent))
    [receipt_unanchored; half].

Definition suite (now : Z) : list bool :=
  [bump_stays_on_the_private_route; bump_escalates_private_to_public_at_threshold;
   recover_rebroadcasts_persisted_inflight_after_restart;
   recover_rebroadcasts_only_pending_and_sent_across_multiple_inflight_handles;
   recover_swallows_a_per_handle_submit_failure_and_still_attempts_later_handles;
   terminal_handles_are_readable_after_restart_but_not_rebroadcast;
   confirm_advances_on_anchored_receipt_at_required_depth; reverted_receipt_fails_only_at_depth;
   gasless_outer_success_does_not_confirm_a_reverted_inner_call;
   gelato_task_handle_trusts_the_relay_verdict_not_the_oz_event;
   task_handle_records_the_hash_on_relay_inclusion; task_handle_settles_failed_on_relay_drop;
   stale_receipt_from_a_reorged_block_holds_the_state; freed_nonce_un_mines_a_tentative_handle;
   replacement_is_tentative_until_depth_then_final;
   replacement_reorg_frees_the_nonce_and_recovers_to_sent; finalized_tag_gates_terminality;
   regressed_head_between_cycles_skips_confirm_and_makes_no_transition; inconsistent_view_skips_the_cycle;
   bump_within_envelope_reuses_approval; bump_beyond_approved_envelope_stops;
   bump_refreshes_expired_approval_within_envelope; bump_stops_at_gas_ceiling;
   bump_records_broadcast_when_already_known_and_persists_new_hash; bump_aborts_if_nonce_already_mined;
   bump_denied_by_fresh_policy_leaves_the_tx;
   bump_denied_when_refreshed_envelope_no_longer_admits_the_bump;
   bump_exactly_at_envelope_ceiling_is_admitted; decode_fees_leaves_a_non_1559_signed_tx_unbumped;
   decode_fees_leaves_a_handle_with_undecodable_signed_bytes;
   bump_transient_submit_error_aborts_without_advancing_broadcasts;
   repeated_bumps_across_ticks_append_broadcasts_at_the_same_nonce;
   newest_broadcast_receipt_wins_over_stale_older_hash;
   bump_then_original_mines_bump_receipt_is_ignored_original_wins;
   receipt_read_error_yields_unknown_holds_state; stuck_cancel_bumps_via_cancel_request now;
   receipt_missing_block_anchor_yields_unknown].
End ExecutorTests.

(** Every executor test of the repository passes on the model, whatever the system clock. *)
Theorem executor_tests_pass (now : Z) : assert_all (ExecutorTests.suite now) = true.
Proof. vm_compute. reflexivity. Qed.
