(* ===== verification/Conformance.v ===== *)
(** * Conformance: the contracts the repository's suites hold every backend to

    [state_store_conformance] and [nonce_manager_conformance] of
    [src/src/testutils.rs], as programs over any [StateStore].  The suites are evaluated
    once, on the in-memory store; that they pass on redb and Postgres follows from the
    simulation of [StoreSpec], without running them there.  The concurrency section of the
    nonce suite is proved for every number of tasks and every interleaving. *)
From S2P Require Import Prelude Effects Primitives ModelAlloy Errors Ports Nonce NoncePool Store.
From S2P Require Import ModelSerde StoreSpec Mocks.

Open Scope string_scope.
Open Scope Z_scope.

(** ** The store contract *)

(** [FenceToken::for_test]. *)
Definition for_test (n : Z) : FenceToken := mkFence n.

Section StoreSuite.
Definition suite_account : Address := repeat_byte 20 Byte.x11.
Definition suite_scope : NonceScope := eoa suite_account.
Definition suite_state : NonceState := mkNonceState 5 ∅.
Definition suite_sent : TxHandle := handle_for suite_account 5 Sent.
Definition suite_done : TxHandle := handle_for suite_account 6 (Confirmed 9).
Definition fence_scope : NonceScope := eoa (repeat_byte 20 Byte.x33).

(** The calls of the suite, in order. *)
Definition store_suite_ops : list store_op :=
  [S_Load suite_scope;
   S_Cas suite_scope 0 suite_state SINGLE_WRITER;
   S_Cas suite_scope 0 suite_state SINGLE_WRITER;
   S_Load suite_scope;
   S_Put suite_sent;
   S_Put suite_done;
   S_Get (th_id suite_sent);
   S_Get (th_id suite_done);
   S_Get (th_id (handle_for suite_account 99 Sent));
   S_Pending suite_account;
   S_Put (set_status (Confirmed 12) suite_sent);
   S_Pending suite_account;
   S_Cas fence_scope 0 NonceState_default SINGLE_WRITER;
   S_Cas fence_scope 1 NonceState_default (for_test 1);
   S_Cas fence_scope 2 NonceState_default SINGLE_WRITER].

(** None of them fails. *)
Definition store_suite_calls : list (option StateStoreError * store_op) :=
  map (pair None) store_suite_ops.

(** The suite's assertions on the answers. *)
Definition store_suite_asserts (answers : list store_res) : bool :=
  match answers with
  | [R_Load (Ok v0); R_Cas (Ok c1); R_Cas (Ok c2); R_Load (Ok v1); R_Put (Ok _); R_Put (Ok _);
     R_Get (Ok (Some sent)); R_Get (Ok (Some done)); R_Get (Ok missing); R_Pending (Ok pending);
     R_Put (Ok _); R_Pending (Ok settled); R_Cas (Ok f1); R_Cas (Ok f2); R_Cas (Err fenced)] =>
      assert_all
        [v_version v0 =? 0; c1; negb c2; v_version v1 =? 1; ns_next (v_value v1) =? 5;
         th_nonce sent =? 5; assert_eq (th_status done) (Confirmed 9);
         match missing with None => true | Some _ => false end;
         match pending with [h] => th_nonce h =? 5 | _ => false end;
         match settled with [] => true | _ => false end;
         f1; f2; match fenced with Fenced => true | _ => false end]
  | _ => false
  end.

Definition state_store_conformance {S} (ops : StateStore S) (s : S) : bool :=
  store_suite_asserts (store_run ops store_suite_calls s).
End StoreSuite.

(** ** A program on a store *)

(** The store ports answered by a backend, the node's pending count by [pending]; a
    [None] answer: the program asked for something else. *)
Definition serve_store {S} (ops : StateStore S) (pending : Z) (p : port) (s : S) : resp p * S :=
  match p return resp p * S with
  | LoadNonceState scope => (load_nonce_state ops None scope s, s)
  | CasNonceState scope version state fence => cas_nonce_state ops None scope version state fence s
  | PutHandle h => put_handle ops None h s
  | PendingHandles account => (pending_handles ops None account s, s)
  | GetHandle id => (get_handle ops None id s, s)
  | PendingNonce _ => (Ok pending, s)
  | q => (offline q, s)
  end.

(** The calls of the nonce manager on addresses, with integers the backend holds. *)
Definition nonce_call_ok (fits : Z -> FenceToken -> Prop) (p : port) : Prop :=
  match p with
  | LoadNonceState scope => is_address (scope_account scope)
  | CasNonceState scope version _ fence => is_address (scope_account scope) /\ fits version fence
  | PendingNonce _ => True
  | _ => False
  end.

(** Every call of a run satisfies [ok]. *)
Fixpoint calls_within {S T} (h : forall p, S -> resp p * S) (ok : port -> bool) (m : io T) (s : S) : bool :=
  match m with
  | Ret _ => true
  | Call p k => ok p && (let '(r, s') := h p s in calls_within h ok (k r) s')
  end.

(** A program that makes only such calls runs on a simulating backend as it runs on the
    in-memory store: same result, related states. *)
Theorem simulates_program {S T} fits refuses (ops : StateStore S) R ok pending (m : io T) s mem tr :
  simulates fits refuses ops R -> (forall p, ok p = true -> nonce_call_ok fits p) -> R s mem ->
  calls_within (serve_store memory_store pending) ok m mem = true ->
  let '(a, s', tr') := run (serve_store ops pending) m s tr in
  let '(a0, mem', tr0) := run (serve_store memory_store pending) m mem tr in
  a = a0 /\ R s' mem' /\ tr' = tr0.
Proof.
  intros Hsim Hok. revert s mem tr. induction m as [a|p k IH]; intros s mem tr HR; simpl; [done|].
  intros [Hp Hrest]%andb_true_iff. apply Hok in Hp. destruct p; simpl in Hp; try done; simpl in *.
  - by apply IH.
  - rewrite (sim_load _ _ _ _ Hsim None scope s mem HR Hp). by apply IH.
  - destruct Hp as [Ha Hf].
    destruct (sim_cas _ _ _ _ Hsim None scope expected_version state fence s mem HR Ha Hf) as [Hr HR'].
    destruct (cas_nonce_state ops None scope expected_version state fence s) as [r s'].
    destruct (memory_cas_nonce_state scope expected_version state fence mem) as [r' mem'].
    simpl in *. subst r'. by apply IH.
Qed.

(** ** The nonce manager's contract *)

(** [m.allocate(a).await.unwrap()] and its likes; with no one else writing, the first
    round of each loop commits. *)
Definition manager : LocalNonceManager := LocalNonceManager_new.
Definition unwrap_nonce {T} (r : option (result T NonceManagerError)) : option T :=
  match r with Some (Ok n) => Some n | _ => None end.
Definition allocates_to (a : Address) (n : Z) : io bool :=
  let* r := allocate manager 1 a in Ret (assert_eq (unwrap_nonce r) (Some n)).
Definition releases_ok (a : Address) (n : Z) : io bool :=
  let* r := release manager 1 a n in Ret (assert_eq (unwrap_nonce r) (Some tt)).
Definition resets_ok (a : Address) (n : Z) : io bool :=
  let* r := reset manager 1 a n in Ret (assert_eq (unwrap_nonce r) (Some tt)).
(** [for _ in 0..3 { m.allocate(a).await.unwrap(); }] *)
Definition allocate_some (a : Address) : io bool :=
  let* r := allocate manager 1 a in Ret (match unwrap_nonce r with Some _ => true | None => false end).

(** Run the steps in order; every one must hold. *)
Fixpoint steps (ms : list (io bool)) : io bool :=
  match ms with
  | [] => Ret true
  | m :: ms' => let* b := m in let* bs := steps ms' in Ret (b && bs)
  end.

Definition scenario_gapless : io bool :=
  let a := repeat_byte 20 Byte.x40 in
  steps [allocates_to a 5; allocates_to a 6; allocates_to a 7].
Definition scenario_release_top : io bool :=
  let a := repeat_byte 20 Byte.x41 in
  steps [allocate_some a; allocate_some a; allocate_some a; releases_ok a 6; releases_ok a 7;
         allocates_to a 6].
Definition scenario_release_gap : io bool :=
  let a := repeat_byte 20 Byte.x42 in
  steps [allocate_some a; allocate_some a; allocate_some a; releases_ok a 6; allocates_to a 6;
         allocates_to a 8].
Definition scenario_reset_forward : io bool :=
  let a := repeat_byte 20 Byte.x43 in
  steps [allocate_some a; allocate_some a; allocate_some a; resets_ok a 10; allocates_to a 10;
         resets_ok a 3; allocates_to a 11].
Definition scenario_reset_boundary : io bool :=
  let a := repeat_byte 20 Byte.x44 in
  let scope := eoa a in
  let seeded := mkNonceState 100 {[74; 75; 150]} in
  let* seed := call (CasNonceState scope 0 seeded SINGLE_WRITER) in
  let* reset := resets_ok a 75 in
  let* after := call (LoadNonceState scope) in
  let* rest := steps [allocates_to a 75; allocates_to a 150; allocates_to a 100; allocates_to a 101] in
  Ret (assert_all
    [match seed with Ok b => b | Err _ => false end; reset;
     match after with
     | Ok v => (ns_next (v_value v) =? 100) && bool_decide (ns_free (v_value v) = {[75; 150]})
     | Err _ => false
     end; rest]).
(** The tasks awaited one after the other; every other schedule is covered at the end of
    this file. *)
Definition scenario_concurrent : io bool :=
  let a := repeat_byte 20 Byte.x45 in
  steps (map (fun n => allocates_to a (Z.of_nat n)) (seq 5 50)).

(** Each scenario with the pending count its manager's node reports, on one store. *)
Definition nonce_suite : list (Z * io bool) :=
  [(5, scenario_gapless); (5, scenario_release_top); (5, scenario_release_gap);
   (5, scenario_reset_forward); (0, scenario_reset_boundary); (5, scenario_concurrent)].
Fixpoint run_suite {S} (ops : StateStore S) (suite : list (Z * io bool)) (s : S) : bool :=
  match suite with
  | [] => true
  | (pending, m) :: suite' =>
      let '(b, s', _) := run (serve_store ops pending) m s [] in b && run_suite ops suite' s'
  end.
Definition nonce_manager_conformance {S} (ops : StateStore S) (s : S) : bool :=
  run_suite ops nonce_suite s.

(** Every call of the suite on the in-memory store satisfies [ok]. *)
Fixpoint suite_within (ok : port -> bool) (suite : list (Z * io bool)) (mem : InMemoryStateStore) : bool :=
  match suite with
  | [] => true
  | (pending, m) :: suite' =>
      let '(_, mem', _) := run (serve_store memory_store pending) m mem [] in
      calls_within (serve_store memory_store pending) ok m mem && suite_within ok suite' mem'
  end.

Lemma simulates_suite {S} fits refuses (ops : StateStore S) R ok suite s mem :
  simulates fits refuses ops R -> (forall p, ok p = true -> nonce_call_ok fits p) -> R s mem ->
  suite_within ok suite mem = true -> run_suite ops suite s = run_suite memory_store suite mem.
Proof.
  intros Hsim Hok. revert s mem. induction suite as [|[pending m] suite IH]; intros s mem HR; [done|].
  cbn [suite_within run_suite].
  pose proof (simulates_program fits refuses ops R ok pending m s mem [] Hsim Hok HR) as Hm.
  destruct (run (serve_store ops pending) m s []) as [[b s'] tr'].
  destruct (run (serve_store memory_store pending) m mem []) as [[b0 mem'] tr0].
  intros [Hc Hrest]%andb_true_iff. destruct (Hm Hc) as (-> & HR' & _). f_equal. by apply IH.
Qed.

(** ** Both suites pass on every backend *)

(** A decidable form of the calls a [BIGINT] backend can hold. *)
Definition small_call (p : port) : bool :=
  match p with
  | LoadNonceState scope => (0 <=? scope_account scope) && (scope_account scope <=? 2 ^ 160 - 1)
  | CasNonceState scope version _ fence =>
      ((0 <=? scope_account scope) && (scope_account scope <=? 2 ^ 160 - 1))
      && ((0 <=? version) && (version <? 2 ^ 63 - 1))
      && ((0 <=? fence_u64 fence) && (fence_u64 fence <? 2 ^ 63))
  | PendingNonce _ => true
  | _ => false
  end.

Lemma small_call_ok p : small_call p = true -> nonce_call_ok i64_fits p.
Proof.
  unfold small_call, nonce_call_ok, i64_fits, is_address, is_uint. destruct p; try done; intros H;
    bool_simpl; lia.
Qed.

Lemma nonce_suite_small : suite_within small_call nonce_suite InMemoryStateStore_default = true.
Proof. vm_compute. reflexivity. Qed.

(** Answers with at most one pending handle have no other order. *)
Definition pending_short (r : store_res) : bool :=
  match r with R_Pending (Ok l) => (length l <=? 1)%nat | _ => true end.

Lemma res_equiv_short r r' : res_equiv r r' -> pending_short r' = true -> r = r'.
Proof.
  destruct r as [| | |[l|e]|], r' as [| | |[l'|e']|]; simpl; try done. intros Hp Hs.
  destruct l' as [|x [|y l']]; simpl in Hs; [| |done].
  - by apply Permutation_nil_r in Hp as ->.
  - by apply Permutation_singleton_r in Hp as ->.
Qed.

Lemma res_equiv_all_short l l' : Forall2 res_equiv l l' -> forallb pending_short l' = true -> l = l'.
Proof.
  induction 1 as [|r r' l l' Hr _ IH]; simpl; [done|]. intros [Hs Hrest]%andb_true_iff.
  f_equal; [by apply res_equiv_short|auto].
Qed.

Definition small_op (op : store_op) : bool :=
  let address (a : Z) := (0 <=? a) && (a <=? 2 ^ 160 - 1) in
  let word (x : Z) := (0 <=? x) && (x <=? u256_max) in
  match op with
  | S_Load scope => address (scope_account scope)
  | S_Cas scope version _ fence =>
      address (scope_account scope) && ((0 <=? version) && (version <? 2 ^ 63 - 1))
      && ((0 <=? fence_u64 fence) && (fence_u64 fence <? 2 ^ 63))
  | S_Put h => caps_u64 h && word (th_id h) && (th_account h =? suite_account)
  | S_Pending a => address a
  | S_Get id => word id
  end.

Lemma small_op_valid op : small_op op = true -> op_valid i64_fits op.
Proof.
  unfold op_valid, i64_fits, handle_valid, is_address, is_uint.
  destruct op; cbn [small_op]; intros H; bool_simpl; try lia.
  split; [lia|]. replace (th_account h) with suite_account by lia. vm_compute. split; discriminate.
Qed.

Lemma store_suite_small : forallb small_op store_suite_ops = true.
Proof. vm_compute. reflexivity. Qed.

Lemma store_suite_agree f h f' h' :
  (f, S_Put h) ∈ store_suite_calls -> (f', S_Put h') ∈ store_suite_calls ->
  th_id h' = th_id h -> th_account h' = th_account h.
Proof.
  assert (Hacc : forall f h, (f, S_Put h) ∈ store_suite_calls ->
    th_account h = suite_account).
  { intros f0 h0 (op & [= -> <-] & Hop%list_elem_of_In)%list_elem_of_fmap.
    pose proof (proj1 (forallb_forall _ _) store_suite_small _ Hop) as Hs. cbn [small_op] in Hs.
    apply andb_true_iff in Hs as [_ Hs]. by apply Z.eqb_eq. }
  intros H H' _. by rewrite (Hacc f h H), (Hacc f' h' H').
Qed.

Section Conform.
Context {S : Type} (fits : Z -> FenceToken -> Prop) (refuses : refusals).
Context (ops : StateStore S) (R : S -> InMemoryStateStore -> Prop).
Context (Hsim : simulates fits refuses ops R) (Hfits : forall v f, i64_fits v f -> fits v f).
Context (Hcaps : forall h, caps_u64 h = true -> refuses h = None).

Lemma store_suite_held : map (refuse refuses) store_suite_calls = store_suite_calls.
Proof using Hcaps.
  rewrite <- (map_id store_suite_calls) at 2. apply map_ext_in.
  intros c (op & <- & Hop)%in_map_iff. pose proof (proj1 (forallb_forall _ _) store_suite_small op Hop) as Hs.
  destruct op as [| |h| |]; try done. cbn [small_op] in Hs. bool_simpl. cbn [refuse]. unfold put_fault.
  by rewrite Hcaps.
Qed.

Lemma op_valid_mono op : op_valid i64_fits op -> op_valid fits op.
Proof using Hfits. destruct op; simpl; naive_solver. Qed.

Lemma store_suite_answers s :
  R s InMemoryStateStore_default ->
  store_run ops store_suite_calls s =
  reference_run store_suite_calls InMemoryStateStore_default.
Proof using Hsim Hfits Hcaps.
  intros HR. apply res_equiv_all_short; [|vm_compute; reflexivity]. rewrite <- store_suite_held at 2.
  eapply simulates_run; [exact Hsim|exact HR| |by apply ids_agree_start, store_suite_agree].
  apply list.Forall_forall. intros c (op & -> & Hop%list_elem_of_In)%list_elem_of_fmap. simpl.
  apply op_valid_mono, small_op_valid. by apply (proj1 (forallb_forall _ _) store_suite_small).
Qed.

(** Every backend that simulates the in-memory store passes the repository's two
    conformance suites. *)
Theorem backend_conforms s :
  R s InMemoryStateStore_default ->
  state_store_conformance ops s = true /\ nonce_manager_conformance ops s = true.
Proof using Hsim Hfits Hcaps.
  intros HR. split.
  - unfold state_store_conformance. rewrite store_suite_answers by done. vm_compute. reflexivity.
  - unfold nonce_manager_conformance.
    rewrite (simulates_suite fits refuses ops R small_call _ _ InMemoryStateStore_default Hsim);
      [vm_compute; reflexivity| |done|exact nonce_suite_small].
    intros p Hp%small_call_ok. destruct p; simpl in *; naive_solver.
Qed.
End Conform.

(** [in_memory_store_passes_conformance], [in_memory_manager_passes_conformance]. *)
Theorem memory_conforms :
  state_store_conformance memory_store InMemoryStateStore_default = true /\
  nonce_manager_conformance memory_store InMemoryStateStore_default = true.
Proof. split; vm_compute; reflexivity. Qed.

(** [redb_store_passes_conformance], [redb_manager_passes_conformance]: for every
    serializer that round-trips. *)
Theorem redb_conforms {J : Serde} {JL : SerdeLaws J} :
  state_store_conformance redb_store redb_open = true /\
  nonce_manager_conformance redb_store redb_open = true.
Proof. eapply backend_conforms; [apply redb_simulates|done|done|apply redb_rel_open]. Qed.

(** [postgres_passes_store_and_manager_conformance]. *)
Theorem postgres_conforms {J : Serde} {JL : SerdeLaws J} :
  state_store_conformance postgres_store postgres_connect = true /\
  nonce_manager_conformance postgres_store postgres_connect = true.
Proof.
  eapply backend_conforms; [apply postgres_simulates|done| |apply postgres_rel_connect].
  intros h Hc. unfold wide_caps. by rewrite Hc.
Qed.

(** ** Concurrent allocations, for every schedule *)

(** The nonce a finished allocation returned. *)
Definition returned (m : thread) : option Z :=
  match m with Ret (Some (Ok (Some n))) => Some n | _ => None end.
Definition alloc_nonce (c : commit) : Z := ns_next (co_after c) - 1.

(** The tail of a history of allocations on a pool without freed nonces: it handed out
    [base], [base + 1], ... in order. *)
Record handed_out (init cell : Versioned NonceState) (log : list commit) (base : Z) : Prop := {
  ho_base : is_u64 base;
  ho_init : v_version init <> 0 -> base = ns_next (v_value init);
  ho_log : map alloc_nonce log = reverse (seqZ base (Z.of_nat (length log)));
  ho_cell : v_value cell = mkNonceState (base + Z.of_nat (length log)) ∅;
  ho_next : is_u64 (base + Z.of_nat (length log));
  ho_version : 0 < v_version cell;
}.

(** One allocation without freed nonces and without wrap-around takes the next one. *)
Lemma take_next base n after :
  ns_free base = ∅ -> is_u64 (ns_next base) -> take_nonce base = (n, after) -> ns_next after <> 0 ->
  n = ns_next base /\ after = mkNonceState (n + 1) ∅ /\ is_u64 (n + 1).
Proof.
  unfold take_nonce, is_uint. intros Hf Hu. rewrite Hf.
  change (min_free ∅) with (@None Z). intros [= <- <-]. unfold set_next. cbn [ns_next]. rewrite Hf. unfold wrapping_add. intros Hw.
  destruct (decide (ns_next base = u64_max)) as [E|]; [exfalso; apply Hw; rewrite E; vm_compute; reflexivity|].
  rewrite Z.mod_small in * by lia. split_and!; try done; lia.
Qed.

(** The state of a pool of allocations after the commits [log]. *)
Definition pool_after (init cell : Versioned NonceState) (log : list commit) : Prop :=
  (log = [] /\ cell = init) \/ exists base, handed_out init cell log base.

(** The next allocation takes the nonce after those handed out. *)
Lemma alloc_commit init before after res log :
  cell_wf init -> ns_free (v_value init) = ∅ -> pool_after init before log ->
  op_spec OpAllocate before after res -> ns_next after <> 0 ->
  exists n, res = Some n /\ after = mkNonceState (n + 1) ∅ /\
    handed_out init (mkVersioned after (v_version before + 1)) (mkCommit 0 true before after :: log)
      (n - Z.of_nat (length log)).
Proof.
  intros [Hwf Hv _] Hfree Hlog (base & n & Hb & Ht & ->) Hw. exists n.
  destruct Hlog as [[-> ->]|[p [Hp Hinit Hlog Hcell Hu Hver]]].
  - assert (Hbase : ns_free base = ∅ /\ is_u64 (ns_next base) /\
      (v_version init <> 0 -> ns_next base = ns_next (v_value init))).
    { destruct (v_version init =? 0) eqn:Hz; bool_simpl; [|by subst base; destruct Hwf].
      destruct Hb as (p & Hp & ->). by simpl. }
    destruct Hbase as (Hbf & Hbu & Hbi). destruct (take_next base n _ Hbf Hbu Ht Hw) as (-> & -> & Hu).
    split_and!; [done..|]. cbn [length]. rewrite Z.sub_0_r. constructor; simpl; try done; [|lia].
    unfold alloc_nonce. change (Z.of_nat 1) with 1. rewrite seqZ_cons, seqZ_nil by lia.
    change (reverse [ns_next base]) with [ns_next base]. cbn [ns_next co_after]. f_equal. lia.
  - destruct (v_version before =? 0) eqn:Hz; bool_simpl; [lia|]. subst base. rewrite Hcell in Ht.
    destruct (take_next (mkNonceState (p + Z.of_nat (length log)) ∅) n _ eq_refl Hu Ht Hw) as (-> & -> & Hu').
    cbn [ns_next] in *. split_and!; [done..|].
    replace (p + Z.of_nat (length log) - Z.of_nat (length log)) with p by lia.
    assert (E : p + Z.of_nat (S (length log)) = p + Z.of_nat (length log) + 1) by lia.
    constructor; cbn [v_value v_version map length]; rewrite ?E; try done; [|lia].
    unfold alloc_nonce at 1. rewrite Hlog. cbn [ns_next co_after]. rewrite seqZ_S, reverse_snoc.
    f_equal. lia.
Qed.

Definition alloc_committed (c : commit) : Prop :=
  (exists res, op_spec OpAllocate (co_before c) (co_after c) res) /\ ns_next (co_after c) <> 0.

Lemma allocations_chain init log cell :
  cell_wf init -> ns_free (v_value init) = ∅ -> log_chain init log cell -> Forall alloc_committed log ->
  pool_after init cell log.
Proof.
  intros Hi Hfree. revert cell. induction log as [|c log IH]; intros cell Hch Hall; [by left|].
  right. destruct Hch as [-> Hch]. apply Forall_cons_1 in Hall as [[[res Hc] Hw] Hall].
  destruct (alloc_commit init _ _ res log Hi Hfree (IH _ Hch Hall) Hc Hw) as (n & -> & Ha & []).
  exists (n - Z.of_nat (length log)). by constructor.
Qed.

(** Every allocation of the log returned the nonce its commit took. *)
Lemma alloc_result init log cell c res :
  cell_wf init -> ns_free (v_value init) = ∅ -> log_chain init log cell -> Forall alloc_committed log ->
  c ∈ log -> op_spec OpAllocate (co_before c) (co_after c) res -> res = Some (alloc_nonce c).
Proof.
  intros Hi Hfree Hch Hall (l1 & l2 & ->)%list_elem_of_split Hc.
  apply log_chain_suffix in Hch. apply Forall_app in Hall as [_ [[_ Hw] Hall]%Forall_cons_1].
  destruct (alloc_commit init _ _ res l2 Hi Hfree (allocations_chain _ _ _ Hi Hfree Hch Hall) Hc Hw)
    as (n & -> & Ha & _). unfold alloc_nonce. rewrite Ha. cbn. f_equal. lia.
Qed.

Lemma filter_lt_0 (log : list commit) : filter (fun c => (co_thread c < 0)%nat) log = [].
Proof. induction log as [|c log IH]; [done|]. by rewrite filter_cons_False by lia. Qed.

Lemma filter_lt_S n (log : list commit) :
  filter (fun c => (co_thread c < S n)%nat) log ≡ₚ
  filter (fun c => (co_thread c < n)%nat) log ++ commits_of n log.
Proof.
  unfold commits_of. induction log as [|c log IH]; [done|]. rewrite !filter_cons.
  destruct (decide (co_thread c < S n)%nat), (decide (co_thread c < n)%nat), (decide (co_thread c = n));
    try lia; rewrite IH; [done|by rewrite Permutation_middle|done].
Qed.

Lemma filter_all_true {T} (P : T -> Prop) `{forall x, base.Decision (P x)} (l : list T) :
  (forall x, x ∈ l -> P x) -> filter P l = l.
Proof.
  induction l as [|x l IH]; intros HP; [done|].
  rewrite filter_cons_True by (apply HP; constructor). f_equal. apply IH. intros y Hy. apply HP. by constructor.
Qed.

Lemma filter_acked (log : list commit) :
  filter (fun c => co_acked c = true) log ++ filter (fun c => co_acked c = false) log ≡ₚ log.
Proof.
  induction log as [|c log IH]; [done|]. rewrite !filter_cons.
  destruct (co_acked c); simpl; [by rewrite IH|]. by rewrite <- Permutation_middle, IH.
Qed.

(** A task whose operation returned an error. *)
Definition errored (m : thread) : Prop :=
  match m with Ret (Some (Err _)) => True | _ => False end.
#[export] Instance errored_dec m : base.Decision (errored m).
Proof. destruct m as [[[|]|]|]; simpl; apply _. Defined.

(** The nonces taken by writes the store committed and reported failed. *)
Definition lost_nonces (s : store) : list Z :=
  map alloc_nonce (filter (fun c => co_acked c = false) (st_log s)).

Section Gapless.
Context (self : LocalNonceManager) (account : Address) (fuel n : nat) (init : Versioned NonceState).
Context (ts : list thread) (s : store).
Context (Hinit : cell_wf init) (Hfree : ns_free (v_value init) = ∅).
Context (Hreach : pool_reach (pool_start self account fuel (replicate n OpAllocate) init) (ts, s)).
Context (Hwrap : forall c, c ∈ st_log s -> ns_next (co_after c) <> 0).

Lemma pool_alloc_commits :
  Forall alloc_committed (st_log s).
Proof using Hreach Hwrap.
  apply pool_inv_reach in Hreach as Hinv. apply list.Forall_forall. intros c Hc. split; [|auto].
  destruct (pool_commit_spec _ _ _ _ _ Hinv Hc) as (op & res & Hop & Hspec).
  apply lookup_replicate in Hop as [-> _]. eauto.
Qed.

(** What each finished task returned is what its one acknowledged commit handed out, and a
    commit without acknowledgement belongs to a task that failed. *)
Lemma pool_returned_prefix k :
  (k <= n)%nat ->
  omap returned (take k ts) ≡ₚ
    map alloc_nonce (filter (fun c => co_acked c = true) (filter (fun c => (co_thread c < k)%nat) (st_log s))) /\
  (length (filter (fun c => co_acked c = false) (filter (fun c => (co_thread c < k)%nat) (st_log s)))
    <= length (filter errored (take k ts)))%nat.
Proof using Hinit Hfree Hreach Hwrap.
  pose proof (pool_inv_reach _ _ _ _ _ _ Hreach) as [Hch Hlen Hinv _]. cbn [fst snd] in *.
  induction k as [|k IH]; intros Hk.
  { by rewrite filter_lt_0, take_0. }
  assert (Hop : replicate n OpAllocate !! k = Some OpAllocate) by (apply lookup_replicate_2; lia).
  destruct (Forall2_lookup_l _ _ _ _ _ Hlen Hop) as (m & Hm & _).
  destruct (IH ltac:(lia)) as [IHr IHf]. rewrite (take_S_r ts k m Hm), omap_app, !filter_lt_S.
  rewrite !list.filter_app, map_app, !length_app.
  destruct (Hinv _ _ _ Hop Hm) as [(-> & acct & seen & Hpre & _)|(c & res & Hc & Hspec & Hret)].
  - split; [|cbn; lia]. rewrite IHr. apply Permutation_app_head.
    destruct m as [[[[x|]|e]|]|p kk]; try done. by destruct Hpre as (v & _ & []).
  - rewrite Hc. apply commits_of_singleton in Hc as [Hin _].
    pose proof (alloc_result _ _ _ _ _ Hinit Hfree Hch pool_alloc_commits Hin Hspec) as ->.
    destruct (co_acked c) eqn:Hack; [subst m|destruct Hret as [e ->]].
    + rewrite (filter_cons_True (fun c => co_acked c = true) c), (filter_cons_False (fun c => co_acked c = false) c)
        by congruence.
      split; [by rewrite IHr|cbn; lia].
    + rewrite (filter_cons_False (fun c => co_acked c = true) c), (filter_cons_True (fun c => co_acked c = false) c)
        by congruence.
      split; [by rewrite IHr|]. assert (Ef : filter errored [Ret (Some (Err e)) : thread] = [Ret (Some (Err e))])
        by (by rewrite filter_cons_True).
      rewrite Ef. cbn. lia.
Qed.

Lemma pool_returned :
  omap returned ts ++ lost_nonces s ≡ₚ map alloc_nonce (st_log s) /\
  (length (lost_nonces s) <= length (filter errored ts))%nat.
Proof using Hinit Hfree Hreach Hwrap.
  pose proof (pool_inv_reach _ _ _ _ _ _ Hreach) as [_ Hlen _ Hown]. cbn [fst snd] in *.
  apply Forall2_length in Hlen. rewrite length_replicate in Hlen.
  pose proof (pool_returned_prefix n ltac:(lia)) as H. rewrite firstn_all2 in H by lia.
  rewrite (filter_all_true (fun c => (co_thread c < n)%nat)) in H.
  - unfold lost_nonces. rewrite length_map. destruct H as [-> Hf]. split; [|done].
    rewrite <- map_app. by rewrite filter_acked.
  - intros c Hc. destruct (Hown c Hc) as [op Hop]. by apply lookup_replicate in Hop as [_ ?].
Qed.
End Gapless.

(** C7: any number of concurrent allocations on a pool without freed nonces hand out
    consecutive nonces, each once, whatever the interleaving, the lost races, the store's
    failures and the node's answers, from the high-water mark when the pool has one.  The one
    way to a gap is a write the store commits and reports failed: the returned nonces and the
    nonces of such writes together are consecutive, and each of those writes is one of the
    allocations that returned an error.  As long as no commit wrapped the [u64] counter. *)
Theorem allocations_gapless (self : LocalNonceManager) (account : Address) (fuel n : nat)
    (init : Versioned NonceState) (ts : list thread) (s : store) :
  cell_wf init -> ns_free (v_value init) = ∅ ->
  pool_reach (pool_start self account fuel (replicate n OpAllocate) init) (ts, s) ->
  (forall c, c ∈ st_log s -> ns_next (co_after c) <> 0) ->
  exists base, is_u64 base /\ (v_version init <> 0 -> base = ns_next (v_value init)) /\
    omap returned ts ++ lost_nonces s
      ≡ₚ seqZ base (Z.of_nat (length (omap returned ts ++ lost_nonces s))) /\
    (length (lost_nonces s) <= length (filter errored ts))%nat.
Proof.
  intros Hinit Hfree Hreach Hwrap. pose proof (pool_inv_reach _ _ _ _ _ _ Hreach) as [Hch _ _ _].
  pose proof (pool_alloc_commits _ _ _ _ _ _ _ Hreach Hwrap) as Hall.
  destruct (pool_returned _ _ _ _ _ _ _ Hinit Hfree Hreach Hwrap) as [Hret Hlost].
  assert (Hlen : length (omap returned ts ++ lost_nonces s) = length (st_log s)) by (by rewrite Hret, length_map).
  destruct (allocations_chain _ _ _ Hinit Hfree Hch Hall) as [[E _]|[base [Hb Hi Hl _ _ _]]]; cbn [snd] in *.
  - exists (ns_next (v_value init)). destruct Hinit as [[Hn _ _] _ _]. split_and!; [exact Hn|done| |done].
    rewrite E in Hlen. by apply nil_length_inv in Hlen as ->.
  - exists base. split_and!; [done|done| |done]. rewrite Hlen, Hret, Hl. apply reverse_Permutation.
Qed.

(** The suite's 50 tasks over a node at 5, all reading before any of them writes: in every
    round one wins and the others go round again. *)
Definition contended (n : nat) : list nat :=
  (seq 0 n ++ seq 0 n ++ seq 0 n
   ++ concat (map (fun k => seq k (n - k) ++ seq k (n - k)) (seq 1 (n - 1))))%list%nat.
Definition fifty_tasks : list thread * store :=
  demo_schedule (contended 50)
    (pool_start LocalNonceManager_new (repeat_byte 20 Byte.x45) 50 (replicate 50 OpAllocate)
       absent_cell).

Lemma allocations_gapless_witness :
  exists base, is_u64 base /\ omap returned (fst fifty_tasks) ≡ₚ seqZ base 50 /\
    omap returned (fst fifty_tasks) = seqZ 5 50.
Proof.
  assert (E : omap returned (fst fifty_tasks) = seqZ 5 50) by (vm_compute; reflexivity).
  destruct (allocations_gapless LocalNonceManager_new (repeat_byte 20 Byte.x45) 50 50
    absent_cell (fst fifty_tasks) (snd fifty_tasks)) as (base & Hb & _ & Hp & _).
  - exact absent_cell_wf.
  - reflexivity.
  - rewrite <- surjective_pairing. apply (demo_schedule_reach (contended 50)), Reach_refl.
  - assert (Hall : Forall (fun c => ns_next (co_after c) <> 0) (st_log (snd fifty_tasks)))
      by (vm_compute; repeat constructor; discriminate).
    intros c Hc. exact (proj1 (list.Forall_forall _ _) Hall c Hc).
  - exists base. split; [exact Hb|]. split; [|exact E].
    assert (El : lost_nonces (snd fifty_tasks) = []) by (vm_compute; reflexivity).
    rewrite El, app_nil_r in Hp. rewrite E in Hp at 2. by rewrite length_seqZ in Hp.
Defined.
