(* ===== verification/PipelineTests.v ===== *)
(** * PipelineTests: the send pipeline's, the facade's and the gas oracle's unit tests

    The [#[cfg(test)]] modules of [transaction_manager.rs], [facade.rs],
    [gas_oracle.rs], the redaction tests of [signing.rs] and the crash-restart test of
    [store/redb.rs], run on the model with the mocks of [Mocks].  The facade's tests run through [wire], so the adapters the
    builder chose stand between the wallet and the mocks. *)
From S2P Require Import Prelude Effects Primitives ModelAlloy Errors Ports Nonce GasOracle Policy.
From S2P Require Import Signer Signing TransactionManager Executor Submission Store ModelSerde Gelato Facade Mocks.
From S2P Require Import Telemetry.

Open Scope string_scope.
Open Scope Z_scope.

(** ** The send pipeline *)

Module ManagerTests.
(** The pipeline with one call log shared by every mock. *)
Definition l : CallLog := 0%nat.
Definition manager_harness (allow estimate_ok sign_ok : bool) (submit : SubmitOutcome) : Harness :=
  mkHarness
    (mkMockRpc 0 0 0 [] None 0 None ∅ false None (negb estimate_ok) None false l)
    (mkMockGas (estimation 100 1) None l)
    (Policy_Mock (mkMockPolicy allow 0 GasEnvelope_DEFAULT u64_max l))
    (Nonce_Mock (mkMockNonce 7 l)) (Signer_Mock (mkMockSigner Address_ZERO sign_ok l))
    (Signer_Mock MockSigner_default) (mkMockSubmit submit [] [] l) (Store_Mock (MockStore_logged l))
    0 None 12 30 ∅.
(** [tm.send(&intent).await] and the log after it. *)
Definition sends (h : Harness) (i : TxIntent) : result TxHandle TransactionManagerError * list string :=
  let '(r, h') := on h (send (Harness_manager h) i) in (r, read_log l (h_logs h')).

Definition happy_path_runs_stages_in_order_and_returns_a_handle : bool :=
  match sends (manager_harness true true true Submit_Ok) intent with
  | (Ok h, log) =>
      assert_all
        [assert_eq log ["estimate_gas"; "fees"; "policy"; "allocate"; "sign"; "persist"; "submit"; "persist"];
         assert_eq (th_status h) Sent; th_nonce h =? 7; assert_eq (length (th_broadcasts h)) 1%nat]
  | _ => false
  end.

Definition policy_deny_aborts_before_allocating_a_nonce : bool :=
  match sends (manager_harness false true true Submit_Ok) intent with
  | (Err (Denied _), log) => negb (contains log "allocate")
  | _ => false
  end.

Definition estimate_revert_aborts_before_signing : bool :=
  match sends (manager_harness true false true Submit_Ok) intent with
  | (Err (SimulationRejected _), log) => negb (contains log "sign") && negb (contains log "allocate")
  | _ => false
  end.

Definition send_rejects_when_signer_does_not_control_the_account : bool :=
  let mismatched := mkIntent 1 0xbb (ti_to intent) 0 [] None in
  match sends (manager_harness true true true Submit_Ok) mismatched with
  | (Err (TM_AccountMismatch _ _), log) => assert_eq log []
  | _ => false
  end.

Definition transient_submit_failure_assumes_sent_and_keeps_the_nonce : bool :=
  match sends (manager_harness true true true Submit_Transient) intent with
  | (Ok h, log) => assert_eq (th_status h) Sent && negb (contains log "release")
  | _ => false
  end.

Definition deterministic_submit_reject_releases_the_nonce : bool :=
  match sends (manager_harness true true true Submit_Deterministic) intent with
  | (Err (TM_Submission _), log) => contains log "allocate" && contains log "release"
  | _ => false
  end.

Definition already_known_submit_assumes_sent_and_keeps_the_nonce : bool :=
  match sends (manager_harness true true true Submit_AlreadyKnown) intent with
  | (Ok h, log) => assert_eq (th_status h) Sent && negb (contains log "release")
  | _ => false
  end.

(** The real allocator and in-memory store, kept across the two sends. *)
Definition sign_failure_recycles_the_nonce_so_the_next_send_reuses_it : bool :=
  let build (sign_ok : bool) (h : Harness) :=
    Harness_signer (Signer_Mock (mkMockSigner Address_ZERO sign_ok 5%nat)) h in
  let h0 := Harness_store (Store_Memory InMemoryStateStore_default)
              (Harness_nonce (Nonce_Local LocalNonceManager_new)
                (Harness_rpc (mkMockRpc 5 0 0 [] None 0 None ∅ false None false None false 1%nat)
                  Harness_default)) in
  let h1 := build false h0 in
  match on h1 (send (Harness_manager h1) intent) with
  | (Err (TM_Signer _), h1') =>
      let h2 := build true h1' in
      match on h2 (send (Harness_manager h2) intent) with
      | (Ok recovered, _) => th_nonce recovered =? 5
      | _ => false
      end
  | _ => false
  end.

Definition cancel_on_terminal_handle_errors : bool :=
  let done := handle 5 (Confirmed 12) in
  let h := seed [done] Harness_default in
  match on h (cancel (Harness_manager h) (th_id done)) with
  | (Err CancelTerminal, _) => true
  | _ => false
  end.

Definition forwarder_nonce_rejects_a_reverting_address_as_not_a_forwarder : bool :=
  let h := Harness_rpc (mkMockRpc 0 0 0 [] None 0 None ∅ false None false None true 1%nat) Harness_default in
  match on h (forwarder_nonce (repeat_byte 20 Byte.xfe) Address_ZERO) with
  | (Err (Forwarder _), _) => true
  | _ => false
  end.

Definition suite : list bool :=
  [happy_path_runs_stages_in_order_and_returns_a_handle; policy_deny_aborts_before_allocating_a_nonce;
   estimate_revert_aborts_before_signing; send_rejects_when_signer_does_not_control_the_account;
   transient_submit_failure_assumes_sent_and_keeps_the_nonce; deterministic_submit_reject_releases_the_nonce;
   already_known_submit_assumes_sent_and_keeps_the_nonce;
   sign_failure_recycles_the_nonce_so_the_next_send_reuses_it; cancel_on_terminal_handle_errors;
   forwarder_nonce_rejects_a_reverting_address_as_not_a_forwarder].
End ManagerTests.

(** Every test of the send pipeline passes on the model. *)
Theorem manager_tests_pass : assert_all ManagerTests.suite = true.
Proof. vm_compute. reflexivity. Qed.

(** ** The gas oracle *)

Module GasOracleTests.
(** [oracle(base_fee, ceiling).bump(prev)]. *)
Definition oracle (base_fee ceiling : Z) (prev : Eip1559Estimation)
  : result Eip1559Estimation GasOracleError :=
  fst (on (Harness_rpc (mkMockRpc 0 0 0 [] None base_fee None ∅ false None false None false 1%nat) Harness_default)
         (gas_bump (mkGasOracle ceiling) prev)).

Definition bump_meets_geth_threshold_and_strict_greater_on_both_fields : bool :=
  match oracle 1 u128_max (estimation 1000 100) with
  | Ok next =>
      assert_all [max_priority_fee_per_gas next =? 110; max_fee_per_gas next =? 1100;
        1000 <? max_fee_per_gas next; 100 <? max_priority_fee_per_gas next]
  | _ => false
  end.
Definition bump_low_wei_still_strictly_increases : bool :=
  match oracle 0 u128_max (estimation 1 1) with
  | Ok next => (max_priority_fee_per_gas next =? 2) && (max_fee_per_gas next =? 2)
  | _ => false
  end.
Definition bump_covers_base_fee_via_2x_multiplier : bool :=
  match oracle 1000000 u128_max (estimation 1000 100) with
  | Ok next =>
      assert_all [max_priority_fee_per_gas next =? 110; max_fee_per_gas next =? 2000110;
        1100 <=? max_fee_per_gas next]
  | _ => false
  end.
Definition bump_errors_at_ceiling_instead_of_looping : bool :=
  match oracle 1 1050 (estimation 1000 100) with
  | Err (CeilingExceeded ceiling needed) => (ceiling =? 1050) && (needed =? 1100)
  | _ => false
  end.
Definition suite : list bool :=
  [bump_meets_geth_threshold_and_strict_greater_on_both_fields; bump_low_wei_still_strictly_increases;
   bump_covers_base_fee_via_2x_multiplier; bump_errors_at_ceiling_instead_of_looping].
End GasOracleTests.

(** Every test of the gas oracle passes on the model. *)
Theorem gas_oracle_tests_pass : assert_all GasOracleTests.suite = true.
Proof. vm_compute. reflexivity. Qed.

(** ** The facade *)

Module FacadeTests.
(** What the wallet holds when it is given a mock: its calls go to the harness. *)
Definition MockSigner_ops (who : principal) (address : Address) : SignerOps := {|
  sg_address := address;
  sg_sign_transaction := fun tx ih a now => call (SignTransaction who tx ih a now);
  sg_sign_message := fun m a now => call (SignMessage who m a now);
  sg_sign_typed_data := fun td a now => call (SignTypedData who td a now);
|}.
Definition MockPolicy_ops : PolicyEngine := {|
  pe_evaluate := fun request => call (Evaluate User request);
  pe_validate := default_validate User;
|}.
Definition mock_builder : WalletBuilder := builder (MockSigner_ops User Address_ZERO) MockPolicy_ops.

(** The builder's defaults: the in-memory store, the real nonce manager, the system clock. *)
Definition system_now : Z := 1700000000.
Definition default_ports (rpc : MockRpc) : Harness :=
  Harness_clock system_now (Harness_store (Store_Memory InMemoryStateStore_default)
    (Harness_nonce (Nonce_Local LocalNonceManager_new) (Harness_rpc rpc Harness_default))).
(** A wallet operation through its adapters. *)
Definition wired {T} (b : WalletBuilder) (h : Harness) (m : io T) : T * Harness :=
  let '((a, _), h') :=
    on h (interp (wire (fun _ => None) (fun _ => EmptyString) (fun _ => Ok tt) (fun _ _ _ => [])
                    (fun _ => None) (fun _ => None) b ∅) m []) in (a, h').

Definition run_then_stop_terminates_promptly : bool :=
  let b := set_bump_timeout 0 mock_builder in
  fst (fst (wired b (default_ports MockRpc_default) (run_loop (demo_build b) [Wake_Stop] wallet_state_new))).

Definition private_send_without_relay_identity_is_rejected : bool :=
  let i := TxIntent_transfer 1 Address_ZERO Address_ZERO 0 in
  match wired mock_builder (default_ports MockRpc_default)
          (wallet_send_with (demo_build mock_builder) i (opts_of_protect (mev_blocker StayPrivate))) with
  | (Err (WK_Route RelayNotConfigured), _) => true
  | _ => false
  end.

(** [recover_address_from_msg]: whose key signed this message, by the key's own signatures. *)
Definition recover_address_from_msg (key : LocalSigner) (msg : Bytes) (sig : Signature) : option Address :=
  match sign_hash_low_s key (eip191_hash_message msg) with
  | Ok s => if decide (s = sig) then Some (ls_address key) else None
  | Err _ => None
  end.
Definition sign_message_is_policy_gated_end_to_end : bool :=
  let msg := String.list_byte_of_string "siwe login nonce" in
  let allow := builder (LocalSigner_ops demo_key)
                 (DefaultPolicyEngine_ops (DefaultPolicyEngine_new [Box mkMessageSigningAllowed])) in
  let deny := builder (LocalSigner_ops demo_key)
                (DefaultPolicyEngine_ops (DefaultPolicyEngine_new [Box (TargetAllowlist_new [])])) in
  let h := default_ports MockRpc_default in
  match wired allow h (wallet_sign_message (demo_build allow) msg),
        wired deny h (wallet_sign_message (demo_build deny) msg) with
  | (Ok env, _), (Err (WK_Policy _), _) =>
      assert_eq (recover_address_from_msg demo_key msg (se_signature env)) (Some (ls_address demo_key))
  | _, _ => false
  end.

Definition validate_previews_the_policy_decision_without_signing : bool :=
  let allowed := repeat_byte 20 Byte.x22 in
  let b := builder (MockSigner_ops User Address_ZERO)
             (DefaultPolicyEngine_ops (DefaultPolicyEngine_new [Box (TargetAllowlist_new [allowed])])) in
  let h := default_ports MockRpc_default in
  let account := w_account (demo_build b) in
  match wired b h (wallet_validate (TxIntent_transfer 1 account allowed 1)),
        wired b h (wallet_validate (TxIntent_transfer 1 account (repeat_byte 20 Byte.x99) 1)) with
  | (Ok WouldAllow, _), (Ok (WouldDeny _), _) => true
  | _, _ => false
  end.

Definition gasless_intent : TxIntent :=
  TxIntent_call 1 Address_ZERO (repeat_byte 20 Byte.x22) 0 [Byte.xaa].
Definition not_configured (opts : GaslessOpts) : bool :=
  match wired mock_builder (default_ports MockRpc_default)
          (demo_send_gasless (demo_build mock_builder) gasless_intent opts) with
  | (Err (WK_Relay NotConfigured), _) => true
  | _ => false
  end.
Definition send_gasless_without_a_relayer_is_rejected_before_signing : bool :=
  not_configured (gasless_of_self_relay SelfRelay_new).
Definition send_gasless_gelato_without_registration_is_rejected : bool :=
  not_configured GaslessOpts_gelato.

Definition send_gasless_self_relay_yields_a_relayer_tracked_meta_handle : bool :=
  let user := repeat_byte 20 Byte.x11 in
  let relayer := repeat_byte 20 Byte.x22 in
  let forwarder := repeat_byte 20 Byte.xfe in
  let b := set_forwarder forwarder (set_relayer (MockSigner_ops Relayer relayer)
             (builder (MockSigner_ops User user) MockPolicy_ops)) in
  let h := Harness_relayer (Signer_Mock (mkMockSigner relayer true 5%nat))
             (Harness_signer (Signer_Mock (mkMockSigner user true 5%nat))
               (default_ports (mkMockRpc 0 0 0 [] None 0 None ∅ false None false
                                 (Some (u256_word 0)) false 1%nat))) in
  let i := TxIntent_call 1 user (repeat_byte 20 Byte.x33) 0 [Byte.x12; Byte.x34; Byte.x56; Byte.x78] in
  match wired b h (demo_send_gasless (demo_build b) i (gasless_of_self_relay SelfRelay_new)) with
  | (Ok handle, _) =>
      (th_account handle =? relayer)
      && match th_meta handle with
         | Some meta => (mc_forwarder meta =? forwarder) && (mc_signer meta =? user)
         | None => false
         end
  | _ => false
  end.

Definition suite : list bool :=
  [run_then_stop_terminates_promptly; private_send_without_relay_identity_is_rejected;
   sign_message_is_policy_gated_end_to_end; validate_previews_the_policy_decision_without_signing;
   send_gasless_without_a_relayer_is_rejected_before_signing;
   send_gasless_gelato_without_registration_is_rejected;
   send_gasless_self_relay_yields_a_relayer_tracked_meta_handle].
End FacadeTests.

(** Every facade test of the repository passes on the model. *)
Theorem facade_tests_pass : assert_all FacadeTests.suite = true.
Proof. vm_compute. reflexivity. Qed.

(** ** Restart over redb *)

Module RedbTests.
(** [drop(store); RedbStateStore::open(&path)]: the tables are what the file holds. *)
Definition reopen (db : RedbStateStore) : RedbStateStore := mkRedb (NONCE db) (TX db) (TX_PENDING db).

Definition redb_persists_across_reopen : bool :=
  let scope := eoa (repeat_byte 20 Byte.x22) in
  match redb_cas_nonce_state None scope 0 (mkNonceState 9 ∅) SINGLE_WRITER redb_open with
  | (Ok _, db) =>
      match redb_load_nonce_state None scope (reopen db) with
      | Ok v => ns_next (v_value v) =? 9
      | Err _ => false
      end
  | _ => false
  end.

(** An in-flight transaction persisted by one wallet is confirmed by a fresh one. *)
Definition wallet_recovers_an_inflight_tx_after_restart_over_redb : bool :=
  let mined := repeat_byte 32 Byte.x01 in
  let rpc := mkMockRpc 0 1 20 [] None 0 (Some (receipt true 8 mined)) ∅ false (Some mined) false None false 1%nat in
  let b := set_confirmations 2 FacadeTests.mock_builder in
  let ports (db : RedbStateStore) := Harness_store (Store_Redb db) (FacadeTests.default_ports rpc) in
  let w := demo_build b in
  match FacadeTests.wired b (ports redb_open) (wallet_send w intent) with
  | (Ok sent, h1) =>
      match h_store h1 with
      | Store_Redb db =>
          let h2 := ports (reopen db) in
          match FacadeTests.wired b h2 (wallet_tick w wallet_state_new) with
          | ((Ok _, _), h3) =>
              match FacadeTests.wired b h3 (wallet_status (th_id sent)) with
              | (Ok (Some (Confirmed _)), _) => true
              | _ => false
              end
          | _ => false
          end
      | _ => false
      end
  | _ => false
  end.
End RedbTests.

(** The redb backend's own tests pass on the model. *)
Theorem redb_tests_pass :
  RedbTests.redb_persists_across_reopen && RedbTests.wallet_recovers_an_inflight_tx_after_restart_over_redb = true.
Proof. vm_compute. reflexivity. Qed.

(** ** Redaction *)

Module RedactionTests.
(** [Capture]: the fields of every span and event, oldest first. *)
Definition capture (tr : trace tresp) : list (string * value) := rev (records tr) ≫= rec_fields.

(** The harness under a subscriber: records reach it, every other call the mocks. *)
Definition traced_serve (p : tport) (h : Harness) : tresp p * Harness :=
  match p return tresp p * Harness with Emit _ => (tt, h) | Port p => serve p h end.
Definition observed {T} (h : Harness) (m : tio T) : T * list (string * value) :=
  let '(r, _, tr) := run traced_serve m h [] in (r, capture tr).

(** The text a captured value holds, if it holds any. *)
Definition mentions (text : string) (v : value) : bool :=
  match v with V_str s => str_contains text s | _ => false end.

Definition signing_never_records_key_material : bool :=
  let h := Harness_signer (Signer_Local demo_key) Harness_default in
  let i := mkIntent 1 (ls_address demo_key) (TxKind_Call (repeat_byte 20 Byte.xbb)) 0 [] None in
  let approval := mint (TxIntent_hash i) GasEnvelope_DEFAULT u64_max in
  let tx := build_tx i 0 21000 (estimation 100 1) in
  match observed h (traced_sign_encode true User tx (TxIntent_hash i) approval 0) with
  | (Ok _, recorded) =>
      negb (length recorded =? 0)%nat && forallb (fun f => String.eqb (fst f) "intent_hash") recorded
  | _ => false
  end.

Definition signing_a_message_records_only_the_payload_hash : bool :=
  let h := Harness_signer (Signer_Local demo_key) Harness_default in
  let secret := String.list_byte_of_string "authorize withdrawal to 0xattacker" in
  match observed h (traced_sign_message true (Harness_manager h) secret) with
  | (Ok _, recorded) =>
      negb (length recorded =? 0)%nat
      && forallb (fun f => negb (mentions "authorize withdrawal" (snd f)) && String.eqb (fst f) "payload_hash") recorded
  | _ => false
  end.
End RedactionTests.

(** The redaction tests pass on the model; a record's values have no form that holds key
    material, which is what they check besides. *)
Theorem redaction_tests_pass :
  RedactionTests.signing_never_records_key_material
  && RedactionTests.signing_a_message_records_only_the_payload_hash = true.
Proof. vm_compute. reflexivity. Qed.

(** The log of a send on the mocks, in order, with tracing on; and off. *)
Theorem traced_send_log :
  let log tracing :=
    let h := ManagerTests.manager_harness true true true Submit_Ok in
    rec_name <$> rev (records (snd (run RedactionTests.traced_serve (traced_send tracing (Harness_manager h) intent) h []))) in
  log true = ["wallet.send"; "nonce allocated"; "sign"; "transaction submitted"] /\ log false = [].
Proof. split; vm_compute; reflexivity. Qed.
