(* ===== verification/AdapterTests.v ===== *)
(** * AdapterTests: the unit tests of the primitives and the adapters

    The [#[cfg(test)]] modules of [error.rs], [primitives/], [policy/], [signers.rs],
    [submission/], [relay/gelato.rs], [accounts.rs], [preview.rs], [pricing/],
    [transport/] and [ens.rs], run on the model.  Tests against fixed vectors of a real
    hash or curve (golden EIP-712 digests, derived addresses, keystore files) are about
    the third-party crates the model takes as parameters and are not here. *)
From stdpp Require Import pretty.
From S2P Require Import Prelude Effects Primitives ModelAlloy Errors Ports Nonce GasOracle Policy.
From S2P Require Import Signer Signing TransactionManager Executor Submission Store ModelSerde Gelato Preview.
From S2P Require Import MoonPay Accounts Transport TransportBuild Read Keys Ens Pricing Mocks.

Open Scope string_scope.
Open Scope Z_scope.

Definition is_some {T} (o : option T) : bool := match o with Some _ => true | None => false end.

(** ** Errors ([error.rs]) *)

Module ErrorTests.
Definition transient_rpc_is_retryable_with_no_backoff_yet : bool :=
  let e := WK_Rpc (RpcError_Call "timeout" true) in
  assert_all [assert_eq (kind e) Retryable; is_retryable e; negb (is_some (retry_after e))].
Definition non_transient_rpc_is_terminal : bool :=
  let e := WK_Rpc (RpcError_Call "method not found" false) in
  assert_eq (kind e) Terminal && negb (is_retryable e).
Definition already_known_submission_needs_reconcile : bool :=
  assert_eq (kind (WK_Submission (Submission_Rpc (RpcError_Call "already known" false)))) NeedsReconcile.
Definition ceiling_exceeded_is_terminal_with_remediation : bool :=
  let e := WK_Gas (CeilingExceeded 100 200) in assert_eq (kind e) Terminal && is_some (remediation e).
Definition denial_exposes_the_structured_rejection : bool :=
  let e := WalletKitError_from_tm (Denied (mkRejection "spend_limit" (Some "value") "exceeds cap")) in
  assert_eq (kind e) Terminal
  && match policy_rejection e with
     | Some r => assert_eq (pr_rule r) "spend_limit" && assert_eq (pr_field r) (Some "value")
     | None => false
     end.
Definition account_errors_classify_by_cause : bool :=
  assert_eq (kind (WK_Account InvalidPhrase)) Terminal
  && assert_eq (kind (WK_Account (Account_Rpc (RpcError_Call "timeout" true)))) Retryable.
Definition relay_errors_classify_by_cause_and_hint_on_config : bool :=
  let e := WK_Relay (Forwarder "target does not trust the forwarder") in
  assert_all [assert_eq (kind (WK_Relay (Relay_Rpc (RpcError_Call "timeout" true)))) Retryable;
              assert_eq (kind e) Terminal; is_some (remediation e)].
Definition from_txmgr_flattens_domain_variants : bool :=
  match WalletKitError_from_tm (TM_AccountMismatch 0 0), WalletKitError_from_tm (SimulationRejected "revert") with
  | WK_AccountMismatch _ _, WK_Simulation _ => true
  | _, _ => false
  end.
Definition suite : list bool :=
  [transient_rpc_is_retryable_with_no_backoff_yet; non_transient_rpc_is_terminal;
   already_known_submission_needs_reconcile; ceiling_exceeded_is_terminal_with_remediation;
   denial_exposes_the_structured_rejection; account_errors_classify_by_cause;
   relay_errors_classify_by_cause_and_hint_on_config; from_txmgr_flattens_domain_variants].
End ErrorTests.

(** ** Primitives ([core/wallet/primitives/]) *)

Module PrimitiveTests.
Definition addr (b : Byte.byte) : Address := repeat_byte 20 b.
Definition base : TxIntent :=
  mkIntent 1 (addr Byte.x11) (TxKind_Call (addr Byte.x22)) 1000
    [Byte.xde; Byte.xad; Byte.xbe; Byte.xef; Byte.x00] (Some "swap").

Definition intent_hash_binds_every_field : bool :=
  let '(mkIntent c a t v i p) := base in
  forallb (fun m => negb (TxIntent_hash base =? TxIntent_hash m))
    [mkIntent 2 a t v i p; mkIntent c (addr Byte.x33) t v i p; mkIntent c a TxKind_Create v i p;
     mkIntent c a (TxKind_Call (addr Byte.x44)) v i p; mkIntent c a t 1001 i p;
     mkIntent c a t v [Byte.xde; Byte.xad; Byte.xbe; Byte.xef; Byte.x01] p; mkIntent c a t v i None].

Definition selector_only_for_calls_with_calldata : bool :=
  let sel (input : Bytes) (to : TxKind) :=
    selector (mkIntent (ti_chain_id base) (ti_account base) to (ti_value base) input (ti_purpose base)) in
  let to := TxKind_Call (addr Byte.x22) in
  assert_all
    [assert_eq (sel [Byte.x01; Byte.x02; Byte.x03; Byte.x04; Byte.x05] to)
       (Some [Byte.x01; Byte.x02; Byte.x03; Byte.x04]);
     assert_eq (sel [Byte.x01; Byte.x02; Byte.x03] to) None;
     assert_eq (sel [] to) None;
     assert_eq (sel [Byte.x01; Byte.x02; Byte.x03; Byte.x04] TxKind_Create) None].

Definition constructors_wrap_the_recipient_as_a_call : bool :=
  let to := addr Byte.x22 in
  let t := TxIntent_transfer 1 (addr Byte.x11) to 5 in
  let c := TxIntent_call 1 (addr Byte.x11) to 0 [Byte.xab; Byte.xcd] in
  assert_all [assert_eq (ti_to t) (TxKind_Call to); ti_value t =? 5; assert_eq (ti_input t) [];
              assert_eq (ti_to c) (TxKind_Call to); assert_eq (ti_input c) [Byte.xab; Byte.xcd]].

Definition approval_authorizes_only_its_bound_intent : bool :=
  let bound := repeat_byte 32 Byte.x11 in
  let approval := mint bound (mkEnvelope 100 10) 0 in
  authorizes approval bound && negb (authorizes approval (repeat_byte 32 Byte.x22)).
Definition envelope_admits_only_within_both_caps : bool :=
  let e := mkEnvelope 100 10 in
  assert_all [admits e 100 10; negb (admits e 101 10); negb (admits e 100 11)].
Definition policy_rejection_renders_field_only_when_present : bool :=
  assert_eq (PolicyRejection_to_string (mkRejection "allowlist" (Some "to") "destination not allowed"))
    "policy denied by rule `allowlist` (field `to`): destination not allowed"
  && assert_eq (PolicyRejection_to_string (mkRejection "spend-limit" None "over 1 ETH"))
       "policy denied by rule `spend-limit`: over 1 ETH".

Definition typed_data (chain_id : option Z) : TypedData :=
  mkTypedData (mkDomain None None chain_id None) "M" [("x", SolUint 1)].
Definition typed_data_hash_rejects_absent_or_zero_chain : bool :=
  match typed_data_hash (typed_data None), typed_data_hash (typed_data (Some 0)),
        typed_data_hash (typed_data (Some 1)) with
  | Err ZeroChainDomain, Err ZeroChainDomain, Ok _ => true
  | _, _, _ => false
  end.
Definition enforce_low_s_output_is_canonical : bool :=
  negb (is_some (normalize_s (enforce_low_s (mkSignature 1 1 false)))).

(** A log as the model's decoder reads it. *)
Definition log (signer : Address) (nonce : U256) (success : bool) : Log :=
  mkLog 0 (mkLogData [signer; nonce] [if success then Byte.x01 else Byte.x00]).
Definition inner_succeeded_only_on_a_matching_success_event : bool :=
  let ctx := mkMeta 0 (repeat_byte 20 Byte.x01) 7 None in
  assert_all
    [inner_succeeded ctx [log (mc_signer ctx) (mc_nonce ctx) true];
     negb (inner_succeeded ctx [log (mc_signer ctx) (mc_nonce ctx) false]);
     negb (inner_succeeded ctx []);
     negb (inner_succeeded ctx [log (repeat_byte 20 Byte.x02) (mc_nonce ctx) true]);
     negb (inner_succeeded ctx [log (mc_signer ctx) 8 true])].
Definition suite : list bool :=
  [intent_hash_binds_every_field; selector_only_for_calls_with_calldata;
   constructors_wrap_the_recipient_as_a_call; approval_authorizes_only_its_bound_intent;
   envelope_admits_only_within_both_caps; policy_rejection_renders_field_only_when_present;
   typed_data_hash_rejects_absent_or_zero_chain; enforce_low_s_output_is_canonical;
   inner_succeeded_only_on_a_matching_success_event].
End PrimitiveTests.

(** ** The native policy engine and the local signer *)

Module PolicyTests.
Definition addr := PrimitiveTests.addr.
(** [FixedClock]. *)
Definition fixed_clock (p : port) : resp p :=
  match p return resp p with NowUnix => 1000 | q => offline q end.
Definition native_intent (to : TxKind) (value : U256) : TxIntent := mkIntent 1 Address_ZERO to value [] None.
Definition native_tx (to : TxKind) (value : U256) : SigningRequest := Transaction (native_intent to value).
(** [engine.evaluate(&request).await.unwrap()]: [None] an error, else the denying rule. *)
Definition verdict_of (engine : DefaultPolicyEngine) (request : SigningRequest) : option (option string) :=
  match fst (run_env fixed_clock (evaluate engine request)) with
  | Ok (Allow _) => Some None
  | Ok (Deny r) => Some (Some (pr_rule r))
  | Err _ => None
  end.
Definition allows (engine : DefaultPolicyEngine) (request : SigningRequest) : bool :=
  assert_eq (verdict_of engine request) (Some None).
Definition denied (engine : DefaultPolicyEngine) (request : SigningRequest) : bool :=
  match verdict_of engine request with Some (Some _) => true | _ => false end.

Definition target_allowlist_allows_only_listed_call_targets : bool :=
  let listed := addr Byte.xaa in
  let allow := TargetAllowlist_new [listed] in
  match check allow (native_tx (TxKind_Call listed) 0), check allow (native_tx (TxKind_Call (addr Byte.xbb)) 0),
        check allow (native_tx TxKind_Create 0) with
  | Verdict_Allow, Verdict_Abstain, Verdict_Abstain => true
  | _, _, _ => false
  end.
Definition spend_limit_denies_over_cap : bool :=
  let cap := mkSpendLimit 100 in
  let to := TxKind_Call (addr Byte.xaa) in
  match check cap (native_tx to 101), check cap (native_tx to 100) with
  | Verdict_Deny r, Verdict_Abstain => assert_eq (pr_field r) (Some "value")
  | _, _ => false
  end.
Definition engine_composes_allow_guard_and_default_deny : bool :=
  let a := addr Byte.xaa in
  let engine := DefaultPolicyEngine_new [Box (TargetAllowlist_new [a]); Box (mkSpendLimit 100)] in
  let eval (to : TxKind) (value : U256) := verdict_of engine (native_tx to value) in
  assert_all
    [assert_eq (eval (TxKind_Call a) 50) (Some None);
     assert_eq (eval (TxKind_Call a) 200) (Some (Some "SpendLimit"));
     assert_eq (eval (TxKind_Call (addr Byte.xbb)) 50) (Some (Some "default-deny"))].

Definition native_typed_data (verifying_contract : Address) : SigningRequest :=
  TypedDataReq (mkTypedData (mkDomain None None (Some 1) (Some verifying_contract)) "M" [("x", SolUint 1)]).
Definition cancel_allows_a_self_send_and_denies_a_smuggled_non_self_send : bool :=
  let engine := DefaultPolicyEngine_new [] in
  let acct := addr Byte.x11 in
  let self_send := mkIntent 1 acct (TxKind_Call acct) 0 [] None in
  let smuggled := mkIntent 1 acct (TxKind_Call (addr Byte.x22)) 0 [] None in
  allows engine (Cancel self_send) && denied engine (Cancel smuggled).
Definition message_and_typed_data_are_default_denied_without_a_rule : bool :=
  let engine := DefaultPolicyEngine_new [Box (TargetAllowlist_new [])] in
  denied engine (Message [Byte.x01; Byte.x02; Byte.x03]) && denied engine (native_typed_data (addr Byte.xcc)).
Definition message_signing_allowed_grants_only_messages : bool :=
  let engine := DefaultPolicyEngine_new [Box mkMessageSigningAllowed] in
  allows engine (Message (String.list_byte_of_string "hi"))
  && denied engine (native_tx (TxKind_Call Address_ZERO) 0).
Definition typed_data_domain_allowlist_grants_only_listed_contracts : bool :=
  let engine := DefaultPolicyEngine_new [Box (TypedDataDomainAllowlist_new [addr Byte.xcc])] in
  allows engine (native_typed_data (addr Byte.xcc)) && denied engine (native_typed_data (addr Byte.xdd)).
Definition validate_agrees_with_evaluate_but_returns_a_token_free_outcome : bool :=
  let target := addr Byte.xaa in
  let req := native_tx (TxKind_Call target) 1 in
  let allow := DefaultPolicyEngine_new [Box (TargetAllowlist_new [target])] in
  let deny := DefaultPolicyEngine_new [] in
  match fst (run_env fixed_clock (validate allow req)), fst (run_env fixed_clock (validate deny req)) with
  | Ok WouldAllow, Ok (WouldDeny _) => allows allow req && denied deny req
  | _, _ => false
  end.

(** *** [signers.rs] *)

Definition signs_only_within_the_approval_gate : bool :=
  let signer := demo_key in
  let tx (max_fee : Z) := mkTx 1 0 0 max_fee 0 TxKind_Create 0 [] in
  let intent := repeat_byte 32 Byte.x11 in
  let other := repeat_byte 32 Byte.x22 in
  let approval (bound : B256) (valid_until : Z) := mint bound (mkEnvelope 100 100) valid_until in
  match sign_transaction signer (tx 50) intent (approval intent 1000) 0,
        sign_transaction signer (tx 50) intent (approval other 1000) 0,
        sign_transaction signer (tx 200) intent (approval intent 1000) 0,
        sign_transaction signer (tx 50) intent (approval intent 0) 1 with
  | Ok _, Err ApprovalMismatch, Err FeesExceedApproval, Err ApprovalExpired => true
  | _, _, _, _ => false
  end.
Definition approval_for (bound : B256) : PolicyApproval := mint bound GasEnvelope_DEFAULT u64_max.
Definition sign_message_trips_the_gate_on_wrong_payload : bool :=
  match sign_message demo_key (String.list_byte_of_string "x") (approval_for 0) 0 with
  | Err ApprovalMismatch => true
  | _ => false
  end.
Definition suite : list bool :=
  [target_allowlist_allows_only_listed_call_targets; spend_limit_denies_over_cap;
   engine_composes_allow_guard_and_default_deny;
   cancel_allows_a_self_send_and_denies_a_smuggled_non_self_send;
   message_and_typed_data_are_default_denied_without_a_rule; message_signing_allowed_grants_only_messages;
   typed_data_domain_allowlist_grants_only_listed_contracts;
   validate_agrees_with_evaluate_but_returns_a_token_free_outcome;
   signs_only_within_the_approval_gate; sign_message_trips_the_gate_on_wrong_payload].
End PolicyTests.

(** The tests of the errors, the primitives, the policy engine and the signer pass. *)
Theorem primitive_tests_pass :
  assert_all (ErrorTests.suite ++ PrimitiveTests.suite ++ PolicyTests.suite) = true.
Proof. vm_compute. reflexivity. Qed.

(** ** Submission strategies *)

Module SubmissionTests.
(** A strategy that counts its submits: the public arm posts on one port, the private
    one on another, and the history shows which was hit. *)
Definition Recorder (url : Url) : SubmissionStrategy := {|
  ss_submit := fun rlp _ => let* _ := call (SendRawTo url rlp) in Ret (Ok 0);
  ss_supports_route := fun _ => true;
|}.
Definition hits (url : Url) (tr : history) : nat :=
  length (List.filter (fun e => match projT1 e with SendRawTo u _ => String.eqb u url | _ => false end) tr).
Definition private_opts : SubmissionOpts := opts_of_protect (mev_blocker StayPrivate).

Definition dispatches_by_route : bool :=
  let router := Router (Recorder "public") (Some (Recorder "private")) in
  let '(r1, tr1) := run_env offline (ss_submit router [] SubmissionOpts_default) in
  let '(r2, tr2) := run_env offline (ss_submit router [] private_opts) in
  assert_all [is_ok r1; is_ok r2; assert_eq (hits "public" tr1) 1%nat; assert_eq (hits "private" tr1) 0%nat;
    assert_eq (hits "public" (tr1 ++ tr2)%list) 1%nat; assert_eq (hits "private" (tr1 ++ tr2)%list) 1%nat].
Definition without_a_private_arm_private_is_unsupported_and_rejected : bool :=
  let router := Router (Recorder "public") None in
  assert_all [ss_supports_route router Public; negb (ss_supports_route router (so_route private_opts));
    match fst (run_env offline (ss_submit router [] private_opts)) with
    | Err (Submission_Route RelayNotConfigured) => true
    | _ => false
    end].

(** What serde_json reads from the tests' response bodies. *)
Definition tx_ab : TxHash := repeat_byte 32 Byte.xab.
Definition parse_body (body : string) : option JsonRpcResponse :=
  if String.eqb body "decline" then Some (mkJsonRpcResponse None (Some "not profitable"))
  else if String.eqb body "known" then Some (mkJsonRpcResponse None (Some "already known"))
  else if String.eqb body "result" then Some (mkJsonRpcResponse (Some tx_ab) None)
  else None.
Definition classified (status : Z) (body : string) : result TxHash SubmissionError :=
  classify_flashbots parse_body (fun s => pretty s) status body.

Definition classify_403_is_relay_auth : bool :=
  match classified 403 "bad signature" with
  | Err (RelayAuth m) => negb (is_already_accepted (RelayAuth m)) && is_relay_terminal (RelayAuth m)
  | _ => false
  end.
Definition classify_decline_is_relay_rejected : bool :=
  match classified 200 "decline" with
  | Err (RelayRejected m) => negb (is_already_accepted (RelayRejected m)) && is_relay_terminal (RelayRejected m)
  | _ => false
  end.
Definition classify_already_known_settles_as_accepted : bool :=
  match classified 200 "known" with Err e => is_already_accepted e && negb (is_relay_terminal e) | _ => false end.
Definition classify_result_is_the_tx_hash : bool :=
  match classified 200 "result" with Ok h => h =? tx_ab | _ => false end.
Definition classify_5xx_is_transient : bool :=
  match classified 502 "upstream down" with Err e => is_transient e && negb (is_relay_terminal e) | _ => false end.
Definition suite : list bool :=
  [dispatches_by_route; without_a_private_arm_private_is_unsupported_and_rejected;
   classify_403_is_relay_auth; classify_decline_is_relay_rejected;
   classify_already_known_settles_as_accepted; classify_result_is_the_tx_hash; classify_5xx_is_transient].
End SubmissionTests.

(** ** Gelato *)

Module GelatoTests.
(** [StubTransport::posting] and [polling]: canned answers to a post and to the gets. *)
Definition posting (status : Z) (body : string) (p : port) : resp p :=
  match p return resp p with HttpPost _ _ => Ok (mkHttpResponse status body) | q => offline q end.
Definition polling (p : port) (answers : list HttpResponse) : resp p * list HttpResponse :=
  match p return resp p * list HttpResponse with
  | HttpGet _ => match answers with a :: rest => (Ok a, rest) | [] => (Err "stub get called more times than queued", []) end
  | q => (offline q, answers)
  end.

Definition a_signature : SignatureEnvelope := SignatureEnvelope_secp256k1 Address_ZERO (mkSignature 1 1 false).
Definition gelato_call (replay : Replay) : GelatoCall :=
  mkGelatoCall 11155111 (repeat_byte 20 Byte.x11) [Byte.xab; Byte.xcd] (repeat_byte 20 Byte.x22) replay 1900000000.
Definition hex_display (width : nat) (x : Z) : string := "0x" ++ hex_of_bytes (Z_to_be width x).
(** A submit's answer, and the url and body it posted. *)
Definition submitted (relay : GelatoRelay) (replay : Replay) (status : Z) (task : string)
  : result TaskId RelayError * list (string * list (string * JsonValue)) :=
  let '(r, tr) := run_env (posting status "body")
    (gelato_submit (hex_display 20) (fun b => "0x" ++ hex_of_bytes b) (hex_display 32)
       (fun s => pretty s) (fun _ => Some task) relay (gelato_call replay) a_signature) in
  (r, map fst (posts tr)).
Definition field (name : string) (body : list (string * JsonValue)) : option JsonValue :=
  snd <$> List.find (fun kv => String.eqb (fst kv) name) body.
Definition is_string (v : option JsonValue) (test : string -> bool) : bool :=
  match v with Some (JString s) => test s | _ => false end.
Definition is_bool (v : option JsonValue) (b : bool) : bool :=
  match v with Some (JBool x) => Bool.eqb x b | _ => false end.
Definition ends_with (suffix s : string) : bool :=
  String.eqb (String.substring (String.length s - String.length suffix) (String.length suffix) s) suffix.

Definition sponsored_sequential_submit_posts_expected_body_and_parses_task_id : bool :=
  match submitted (GelatoRelay_new (sponsored "secret-key")) (Replay_Nonce 7) 201 "0xfeed" with
  | (Ok task, [(url, body)]) =>
      assert_all [assert_eq (task_str task) "0xfeed"; ends_with "/relays/v2/sponsored-call-erc2771" url;
        is_string (field "userNonce" body) (String.eqb "7"); is_bool (field "isConcurrent" body) false;
        is_string (field "sponsorApiKey" body) (String.eqb "secret-key");
        negb (is_some (field "userSalt" body)); is_string (field "userSignature" body) (String.prefix "0x")]
  | _ => false
  end.
Definition concurrent_submit_sends_a_salt_not_a_nonce : bool :=
  let salt := repeat_byte 32 Byte.x5a in
  match submitted (GelatoRelay_new (concurrent (sponsored "k"))) (Replay_Salt salt) 200 "0x01" with
  | (Ok _, [(_, body)]) =>
      assert_all [is_bool (field "isConcurrent" body) true; negb (is_some (field "userNonce" body));
        is_string (field "userSalt" body) (String.eqb ("0x" ++ String.concat EmptyString (replicate 32 "5a")))]
  | _ => false
  end.
Definition build_call_reads_the_sequential_nonce_and_rejects_value : bool :=
  let relay := GelatoRelay_new (sponsored "k") in
  let h := Harness_rpc (mkMockRpc 0 0 0 [] None 0 None ∅ false None false (Some (u256_word 42)) false 1%nat)
             Harness_default in
  let build i deadline := fst (on h (build_call (fun _ => []) relay i deadline)) in
  let user := repeat_byte 20 Byte.x22 in
  match build (TxIntent_call 11155111 user (repeat_byte 20 Byte.x11) 0 [Byte.xab]) 999,
        build (TxIntent_call 1 Address_ZERO (repeat_byte 20 Byte.x11) 1 []) 1 with
  | Ok c, Err (Rejected _) => (GelatoCall_nonce c =? 42) && (gc_user c =? user)
  | _, _ => false
  end.
Definition poll_maps_task_states_to_relay_status : bool :=
  let relay := GelatoRelay_new (sponsored "k") in
  let parse body :=
    if String.eqb body "pending" then Some (mkTaskStatus "ExecPending" None None)
    else if String.eqb body "success" then Some (mkTaskStatus "ExecSuccess" (Some "0xab..") None)
    else if String.eqb body "cancelled" then Some (mkTaskStatus "Cancelled" None (Some "dropped"))
    else None in
  let poll_once answers :=
    let '(r, answers', _) :=
      run polling (poll (fun s => pretty s) parse (fun _ => Some SubmissionTests.tx_ab) relay (mkTaskId "1")) answers [] in
    (r, answers') in
  let '(r1, q1) := poll_once [mkHttpResponse 200 "pending"; mkHttpResponse 200 "success"; mkHttpResponse 200 "cancelled"] in
  let '(r2, q2) := poll_once q1 in
  let '(r3, _) := poll_once q2 in
  match r1, r2, r3 with
  | Ok Relay_Pending, Ok (Relay_Included hash), Ok (Relay_Failed reason) =>
      (hash =? SubmissionTests.tx_ab) && String.eqb reason "dropped"
  | _, _, _ => false
  end.
Definition suite : list bool :=
  [sponsored_sequential_submit_posts_expected_body_and_parses_task_id; concurrent_submit_sends_a_salt_not_a_nonce;
   build_call_reads_the_sequential_nonce_and_rejects_value; poll_maps_task_states_to_relay_status].
End GelatoTests.

(** The tests of the submission strategies and the managed relay pass. *)
Theorem relay_tests_pass : assert_all (SubmissionTests.suite ++ GelatoTests.suite) = true.
Proof. vm_compute. reflexivity. Qed.

(** ** MoonPay *)

Module MoonPayTests.
Definition NOW_2026 : Z := 1767225600.

(** Guests as the tests compile them: one that traps, one that loops until its fuel is
    gone, one that prints its body; the first byte of a module says which. *)
Inductive Guest : Type :=
| Guest_Unreachable
| Guest_Loop
| Guest_Writer (body : Bytes).
Definition compile_guest (wasm : Bytes) : result Guest string :=
  match wasm with
  | Byte.x00 :: _ => Ok Guest_Unreachable
  | Byte.x01 :: _ => Ok Guest_Loop
  | _ :: body => Ok (Guest_Writer body)
  | [] => Err "empty module"
  end.
#[local] Instance toy_wasmtime : Wasmtime := {|
  wasm_module := Guest;
  engine_new := Ok tt;
  module_new := compile_guest;
  add_to_linker := Ok tt;
  instantiate_pre := fun _ => Ok tt;
  set_fuel := fun _ => Ok tt;
  instantiate := fun _ _ => Ok tt;
  get_start := fun _ => Ok tt;
  call_start := fun g _ _ _ _ =>
    match g with
    | Guest_Unreachable => (Guest_Trap "unreachable", [])
    | Guest_Loop => (Guest_Trap "all fuel consumed", [])
    | Guest_Writer body => (Guest_Returned, body)
    end;
|}.
Definition TRAP_WAT : Bytes := [Byte.x00].
Definition LOOP_WAT : Bytes := [Byte.x01].
Definition writer_wat (body : string) : Bytes := Byte.x02 :: String.list_byte_of_string body.

(** RFC 3339 on the two timestamps, and serde_json on the two decisions. *)
Definition rfc3339 (s : string) : result Z string :=
  if String.eqb s "2020-01-01T00:00:00Z" then Ok 1577836800
  else if String.eqb s "2030-01-01T00:00:00Z" then Ok 1893456000
  else Err "not a timestamp".
Definition decision (out : Bytes) : result ExecDecision string :=
  if decide (out = String.list_byte_of_string "allow:true") then Ok (mkExecDecision true None)
  else if decide (out = String.list_byte_of_string "allow:false") then Ok (mkExecDecision false None)
  else Err "not a decision".

Definition moonpay_tx (chain_id : Z) (to : Address) : TxIntent :=
  mkIntent chain_id Address_ZERO (TxKind_Call to) 0 [] None.
(** [doc(rules)] read by serde: the rules. *)
Definition engine (rules : list RawRule) (executable : option Bytes)
  : result MoonPayPolicyEngine PolicyEngineError :=
  MoonPayPolicyEngine_new (fun _ => Ok rules) rfc3339 (fun s => s) "policy" executable.
(** [engine.evaluate(&request).await] at [now]: the denying rule, or [None] for an approval. *)
Definition evaluated (rules : list RawRule) (executable : option Bytes) (now : Z) (request : SigningRequest)
  : result (option string) PolicyEngineError :=
  match engine rules executable with
  | Err e => Err e
  | Ok e =>
      match fst (run_env (fun p => match p return resp p with NowUnix => now | q => offline q end)
                   (moonpay_evaluate decision (fun _ => "context") e request)) with
      | Ok (Allow _) => Ok None
      | Ok (Deny r) => Ok (Some (pr_rule r))
      | Err e => Err e
      end
  end.
Definition moonpay_to : Address := repeat_byte 20 Byte.xaa.
Definition answers (r : result (option string) PolicyEngineError) (rule : option string) : bool :=
  match r with Ok d => assert_eq d rule | Err _ => false end.
Definition fails_closed (r : result (option string) PolicyEngineError) : bool :=
  match r with Err (Eval_ _) => true | _ => false end.

Definition allowed_chains_denies_other_chains : bool :=
  let rules := [Raw_AllowedChains ["eip155:8453"]] in
  answers (evaluated rules None NOW_2026 (Transaction (moonpay_tx 8453 moonpay_to))) None
  && answers (evaluated rules None NOW_2026 (Transaction (moonpay_tx 1 moonpay_to))) (Some "allowed_chains").
Definition expires_at_denies_after_expiry : bool :=
  answers (evaluated [Raw_ExpiresAt "2020-01-01T00:00:00Z"] None NOW_2026 (Transaction (moonpay_tx 1 moonpay_to)))
    (Some "expires_at")
  && answers (evaluated [Raw_ExpiresAt "2030-01-01T00:00:00Z"] None NOW_2026 (Transaction (moonpay_tx 1 moonpay_to)))
       None.
Definition executable_allow_and_deny : bool :=
  answers (evaluated [] (Some (writer_wat "allow:true")) NOW_2026 (Transaction (moonpay_tx 1 moonpay_to))) None
  && answers (evaluated [] (Some (writer_wat "allow:false")) NOW_2026 (Transaction (moonpay_tx 1 moonpay_to)))
       (Some "executable").
Definition declarative_deny_precedes_executable : bool :=
  answers (evaluated [Raw_AllowedChains ["eip155:8453"]] (Some (writer_wat "allow:true")) NOW_2026
             (Transaction (moonpay_tx 1 moonpay_to))) (Some "allowed_chains").
Definition executable_trap_is_fail_closed : bool :=
  fails_closed (evaluated [] (Some TRAP_WAT) NOW_2026 (Transaction (moonpay_tx 1 moonpay_to))).
Definition runaway_executable_is_fuel_trapped : bool :=
  fails_closed (evaluated [] (Some LOOP_WAT) NOW_2026 (Transaction (moonpay_tx 1 moonpay_to))).
Definition self_send_cancel_is_evaluated_like_a_tx : bool :=
  let rules := [Raw_AllowedChains ["eip155:1"]] in
  answers (evaluated rules None NOW_2026 (Cancel (moonpay_tx 1 Address_ZERO))) None
  && match evaluated rules None NOW_2026 (Cancel (moonpay_tx 1 moonpay_to)) with Ok (Some _) => true | _ => false end.
Definition suite : list bool :=
  [allowed_chains_denies_other_chains; expires_at_denies_after_expiry; executable_allow_and_deny;
   declarative_deny_precedes_executable; executable_trap_is_fail_closed; runaway_executable_is_fuel_trapped;
   self_send_cancel_is_evaluated_like_a_tx].
End MoonPayTests.

(** The tests of the OWS policy engine pass. *)
Theorem moonpay_tests_pass : assert_all MoonPayTests.suite = true.
Proof. vm_compute. reflexivity. Qed.

(** ** Accounts, preview, pricing, transport and ENS *)

Module ReadTests.
(** *** [core/accounts/primitives.rs] *)

Definition path_is (scheme : PathScheme) (index : Z) (path : string) : bool :=
  match path_for scheme index with Ok p => String.eqb p path | Err _ => false end.
Definition path_schemes_diverge_past_index_zero : bool :=
  assert_all [path_is Bip44Standard 0 "m/44'/60'/0'/0/0"; path_is LedgerLive 0 "m/44'/60'/0'/0/0";
    path_is Bip44Standard 3 "m/44'/60'/0'/0/3"; path_is LedgerLive 3 "m/44'/60'/3'/0/0";
    negb (path_is Bip44Standard 3 "m/44'/60'/3'/0/0")].
Definition custom_template_requires_index_placeholder : bool :=
  path_is (Custom_path "m/44'/60'/0'/0/{index}") 7 "m/44'/60'/0'/0/7"
  && match path_for (Custom_path "m/44'/60'/0'/0/0") 1 with Err (InvalidPath _) => true | _ => false end.
Definition safe_salt_is_double_hashed_not_single : bool :=
  let initializer := [Byte.xde; Byte.xad; Byte.xbe; Byte.xef] in
  let expected := keccak256 (Z_to_be 32 (keccak256 initializer) ++ Z_to_be 32 1)%list in
  let single := keccak256 (initializer ++ Z_to_be 32 1)%list in
  (safe_salt initializer 1 =? expected) && negb (safe_salt initializer 1 =? single).
Definition deploy_data_init_code_is_factory_then_data : bool :=
  assert_eq (init_code (mkDeployData (repeat_byte 20 Byte.x11) [Byte.xab; Byte.xcd]))
    (replicate 20 Byte.x11 ++ [Byte.xab; Byte.xcd])%list.

(** *** [adapters/accounts.rs], over a toy derivation *)

#[local] Existing Instances Keys.toy_bip39 Keys.toy_bip32 Keys.toy_loading.
Definition MNEMONIC : string := "~test junk".
Definition address_of (m : AccountManager) (index : Z) : option Address :=
  acc_address <$> result_ok (seed_account m index).
Definition passphrase_changes_the_address_set : bool :=
  match from_phrase MNEMONIC with
  | Ok base =>
      match address_of base 0, address_of (with_passphrase "trezor" base) 0 with
      | Some a, Some b => negb (a =? b)
      | _, _ => false
      end
  | Err _ => false
  end.
Definition ledger_live_scheme_differs_from_standard : bool :=
  match from_phrase MNEMONIC with
  | Ok std =>
      let led := with_scheme LedgerLive std in
      match address_of std 0, address_of led 0, address_of std 1, address_of led 1 with
      | Some a, Some b, Some c, Some d => (a =? b) && negb (c =? d)
      | _, _, _, _ => false
      end
  | Err _ => false
  end.
Definition watch_only_xpub_derives_same_addresses_as_the_seed : bool :=
  match from_phrase MNEMONIC with
  | Ok mgr =>
      match account_xpub mgr 0 with
      | Ok xpub =>
          forallb (fun i => is_some (address_of mgr i)
                            && assert_eq (result_ok (derive_address xpub i)) (address_of mgr i)) [0; 1; 2]
      | Err _ => false
      end
  | Err _ => false
  end.
Definition labels_surface_on_accounts_and_reverse_lookup : bool :=
  match from_phrase MNEMONIC with
  | Ok m =>
      let mgr := set_label 2 "savings" m in
      match seed_account mgr 2, account_by_label map_to_list mgr "savings",
            account_by_label map_to_list mgr "missing" with
      | Ok a, Some b, None => assert_eq (acc_label a) (Some "savings") && (acc_index b =? 2)
      | _, _, _ => false
      end
  | Err _ => false
  end.

(** *** [preview.rs]; the ABI decoders as they read the tests' data *)

Definition decodes_error_panic_custom_and_unknown : bool :=
  let decode := decode_revert (fun _ => Some "boom") (fun data => Some (be_to_Z (drop 4 data))) in
  let custom := ([Byte.xaa; Byte.xbb; Byte.xcc; Byte.xdd] ++ replicate 32 Byte.x00)%list in
  match decode (REVERT_SELECTOR ++ String.list_byte_of_string "boom")%list,
        decode (PANIC_SELECTOR ++ u256_word 0x11)%list, decode custom, decode [] with
  | Revert_Error s, Revert_Panic code, Revert_Custom sel _, Revert_Unknown _ =>
      assert_all [String.eqb s "boom"; code =? 0x11;
        assert_eq sel [Byte.xaa; Byte.xbb; Byte.xcc; Byte.xdd]]
  | _, _, _, _ => false
  end.

(** *** [pricing/] *)

Definition round (answer updated_at : Z) : Round := mkRound 1 answer updated_at.
Definition fresh_round_scales_and_stale_or_bad_rounds_reject : bool :=
  match to_price (round 200000000000 1000) 8 1030 3660, to_price (round 1 1000) 8 5000 3660,
        to_price (round 0 1000) 8 1030 3660, to_price (round 1 0) 8 1030 3660,
        to_price (mkRound 0 1 1000) 8 1030 3660 with
  | Ok p, Err (Pricing_Stale age), Err (Pricing_Feed _), Err (Pricing_Feed _), Err (Pricing_Feed _) =>
      assert_all [pr_value p =? 200000000000; pr_decimals p =? 8; pr_updated_at p =? 1000; age =? 4000]
  | _, _, _, _, _ => false
  end.
Definition usdc : Address := 0xA0b86991c6218b36c1d19D4a2e9Eb0cE3606eB48.
Definition parses_uniswap_schema_and_looks_up_case_insensitively : bool :=
  let entry := mkTokenListEntry 1 usdc (String.list_byte_of_string "USD Coin")
                 (String.list_byte_of_string "USDC") 6 in
  match from_json (fun _ => Ok [entry]) [] with
  | Ok src =>
      match token_lookup src 1 usdc with
      | Some md =>
          assert_all [assert_eq (md_symbol md) (String.list_byte_of_string "USDC"); md_decimals md =? 6;
            is_some (token_lookup src 1 0xa0b86991c6218b36c1d19d4a2e9eb0ce3606eb48);
            negb (is_some (token_lookup src 1 Address_ZERO)); negb (is_some (token_lookup src 10 usdc))]
      | None => false
      end
  | Err _ => false
  end.

(** *** [transport/] *)

Definition builder_and_config_construct_ok : bool :=
  let build := tb_build (fun _ _ => Ok tt) in
  let header := tb_bearer Some Some in
  let config := from_config Some Some (fun _ _ => Ok tt) in
  let cfg endpoints hedge timeout bearer :=
    mkTransportConfig endpoints default_retry_max default_retry_backoff_ms hedge timeout None bearer in
  assert_all
    [is_ok (build (tb_rate_limit 50 (header "token" (tb_timeout 10000 (tb_retry 3 100
       (tb_set_hedge 2 (tb_fallback "http://localhost:8546" (TransportBuilder_new "http://localhost:8545"))))))));
     is_ok (config (cfg ["http://localhost:8545"; "http://localhost:8546"] 2 (Some 5000) (Some "k")));
     match config (cfg [] default_hedge None None) with Err NoEndpoints => true | _ => false end].
Definition vendor_url_builds_expected_endpoints : bool :=
  let url vendor key chain := vendor_url Some vendor key chain in
  assert_all
    [assert_eq (url Alchemy "KEY" 1) (Some "https://eth-mainnet.g.alchemy.com/v2/KEY");
     assert_eq (url Infura "KEY" 8453) (Some "https://base-mainnet.infura.io/v3/KEY");
     assert_eq (url Drpc "KEY" 10) (Some "https://lb.drpc.org/ogrpc?network=optimism&dkey=KEY");
     assert_eq (url Ankr "KEY" 42161) (Some "https://rpc.ankr.com/arbitrum/KEY");
     assert_eq (url Thirdweb "CID" 7777777) (Some "https://7777777.rpc.thirdweb.com/CID");
     assert_eq (url Alchemy "KEY" 999999) None].

(** *** [ens.rs] *)

Definition missing_resolver_and_reverse_registrar_map_to_none : bool :=
  match none_or_err (T := Address) (Ens_ResolverNotFound "x.eth"),
        none_or_err (T := string) Ens_ReverseRegistrarNotFound with
  | Ok None, Ok None => true
  | _, _ => false
  end.

Definition suite : list bool :=
  [path_schemes_diverge_past_index_zero; custom_template_requires_index_placeholder;
   safe_salt_is_double_hashed_not_single; deploy_data_init_code_is_factory_then_data;
   passphrase_changes_the_address_set; ledger_live_scheme_differs_from_standard;
   watch_only_xpub_derives_same_addresses_as_the_seed; labels_surface_on_accounts_and_reverse_lookup;
   decodes_error_panic_custom_and_unknown; fresh_round_scales_and_stale_or_bad_rounds_reject;
   parses_uniswap_schema_and_looks_up_case_insensitively; builder_and_config_construct_ok;
   vendor_url_builds_expected_endpoints; missing_resolver_and_reverse_registrar_map_to_none].
End ReadTests.

(** The tests of the accounts, preview, pricing, transport and ENS adapters pass. *)
Theorem read_tests_pass : assert_all ReadTests.suite = true.
Proof. vm_compute. reflexivity. Qed.
